(* ===== verification/_CoqProject ===== *)
-Q . S2P
Prelude.v
Block128.v
GF128.v
FieldCode.v
FieldInverse.v
F2128MtA.v
F2128Shares.v
F2128Powers.v
F2128Claims.v
GHash.v
Messaging.v
Arrays.v
Util.v
Sockets.v
CircuitWires.v
CircuitRecords.v
Ag2pc.v
CircuitGcm.v
Sha256.v
F2128Single.v
CircuitHkdf.v
CircuitHashKey.v
CircuitKeys.v
KeyDerive.v
CircuitSingles.v
Containers.v
PrimeMtA.v
PrimeShares.v
Ectf.v
NistPrimes.v
KeyExchange.v
BlockMap.v
KeyShare.v
ServerState.v
ServerIO.v
ServerHandshake.v
ServerRecords.v
ServerRun.v
ServerLogic.v
ServerSafety.v
ServerTrace.v
ServerProgress.v
ServerVerify.v
ServerTag.v
ServerWorld.v
ServerClaims.v
ServerLimits.v
Prover.v
ProverProofs.v
EmpChannel.v
Handoff.v
ProverClaims.v
ServerStream.v
ProverState.v
ProverLogic.v
ProverCircuits.v
KeyUpdate.v
ProverShares.v
ProverAttest.v
ProverHandshake.v
PostHandshake.v
ProverRelease.v
Preprocessing.v
Dialogue.v
SeedCommitment.v
KeyAgreement.v
HandshakeKeys.v
TrafficKeys.v
ResumptionKeys.v
ProverTypes.v
ProverVerify.v
RecordVerify.v
KeyRelease.v
ProverOpen.v
Replay.v
SealedRelease.v
RotateEpochs.v
ProverSessions.v
ProverKeystream.v
RecordKeystream.v
