(* ===== verification/Prelude.v ===== *)
(** * A verification of the SURF attestation system

    The repository holds a course; its program is [tutorials/surf-impl/src], a
    system by which a prover convinces a verifier of the contents of a TLS 1.3
    session with a third party.  Prover and verifier hold shares of the
    session's keys.  They run the handshake jointly, turn the hash key of
    AES-GCM into additive shares of its powers, and then, record by record,
    verify tags, derive keystream and encrypt requests with two-party
    circuits.  Three modes differ in what the verifier keeps: masked
    keystream, sealed capture ("true") and sealed capture with key rotation.

    ** Components and files

    All paths are under [src/tutorials/surf-impl/src].

    - [Prelude]: fixed-width integers as [N] with [wrap], bits, arrays with
      update by index ([upd], [.[i]]), [tabulate], linear maps for exclusive
      or, the hint databases and tactics of the development.
    - [mta/F2128MtA]: [Block128] writes out the SSE intrinsics and the field
      routines of [F2128MtA.inl] (Modules [Simd], [F2128]); [GF128] is the field
      GF(2)[x]/(x^128+x^7+x^2+x+1); [FieldCode] and [FieldInverse] prove that
      [mul], the shifts and [inv] compute in it.  [F2128MtA] (Module
      [F2128_MTA]) is the batched oblivious-transfer multiplication, both
      parties in one function over a [Tape] of their random choices, with the
      oblivious transfer of emp-ot as the class [OTChannel] and its contract
      [OTCorrect]; [F2128Shares] and [F2128Powers] follow a run to the shares
      of all powers; [F2128Claims] states the results.  [F2128Single] (Module
      [Repeated]) is the variant that multiplies block by block over an
      additive sharing, with the field routines of emp-tool's [f2k.h] (Module
      [EmpF2k]); the reads and writes of its consistency check may fail
      ([Link]).
    - [mta/MtA], [mta/ectf]: [PrimeMtA] (multiplicative-to-additive shares over
      a prime field, with the arithmetic of OpenSSL's big numbers) and
      [PrimeShares]; [Ectf] (Module [ECtF]: shares of the x coordinate of a sum
      of points); [Containers] has the arrays that they hand to the oblivious
      transfer ([mta/EmpBlockSpan], [mta/PackArray], [mta/EmpBlockArray]) over a
      heap with an allocator that may refuse; [NistPrimes] proves the moduli of
      the supported curves prime; [KeyExchange] joins ECtF with the handshake circuit.
    - [ssl/GHash.hpp]: [GHash], with GHASH of SP 800-38D as reference (Module
      [NIST]).
    - [ssl/Messaging.*], [ssl/SurfMode.hpp]: [Messaging] (headers, key
      messages, mask commitments, the mode).
    - [ssl/Util.*]: [Util]; BoringSSL's groups and key exchange are the classes
      [ECGroup] (laws in [ECGroupLaws]) and [SSLKeyShare].
    - [ssl/StatefulSocket.cpp], [ssl/TLSSocket.cpp]: [Sockets] (the states of a
      socket, [bind], [listen], [accept], [connect_to], the TLS socket on top),
      over the system calls as a parameter.
    - [ssl/EmpWrapper.inl], [ssl/SSLBuffer.inl], [ssl/CounterType.inl]:
      [EmpChannel] (Module [EmpWrapper]), the buffered channel that carries the
      two-party protocols over a TLS connection.
    - [ssl/Roundhandoff.hpp]: [Handoff] (Module [RoundHandoff]), the files that
      carry a session and the shares of its PSK to the next round.
    - [ssl/ThreePartyHandshake.hpp], SurfBlockMap: [BlockMap].
    - [nodes/KeyShare.*]: [KeyShare], over the class [KeyLib].
    - [nodes/Server.*], the verifier: [ServerState] (the fields of the class as
      records, the actions on the outside world), [ServerIO] (the monad and
      the static I/O helpers), [ServerHandshake] (a definition for each
      handler from [accept] to the resumption secret), [ServerRecords] (the
      requests on records and the two loops that serve them), [ServerRun]
      (construction, [run], [run_resumption], [accept_and_read_mode]).
    - [ssl/ThreePartyHandshake.cpp], the prover.  [Prover] is [encrypt_request]
      with its two circuit calls.  [ProverState] has the
      SURF fields of BoringSSL's [ssl_st] as records, the actions, the monad
      and the channel.  [ProverHandshake] (Module [Callbacks]) has the calls
      made inside the TLS handshake: preprocessing, the exchange of key shares,
      the derivation of handshake, traffic, resumption and PSK secrets, the
      binder, and the places of [boringssl/ssl/tls13_client.cc] that make
      them.  The record side is [ProverCircuits] (the packing of circuit inputs, the
      shares of the hash key, the rotation of keys), [ProverAttest] (tag
      verification, keystream, and the SURF branch of [tls_open_record] in
      [boringssl/ssl/tls_record.cc]), [PostHandshake] (the buffer of the
      handshake layer and [tls13_post_handshake] with session tickets and key
      updates, [boringssl/ssl/s3_both.cc], [tls13_both.cc], [tls13_client.cc])
      and [ProverRelease] (release of a sealed response, with its handshake
      records given to the handshake layer, and the epochs of the rotation
      mode).
    - [2pc/CircuitSynthesis], [2pc/DeriveCircuits], [ssl/EmpWrapperAG2PC]: the
      circuit generators as functions on the values of the wires.
      [CircuitWires] has the gates, the conversion between bytes and wires and
      what a run computes ([exec]); [CircuitRecords] the circuits on records;
      [CircuitGcm] the SSE operations on wires and the hash-key circuit;
      [CircuitHkdf] SHA-256, HMAC and HKDF on wires; [CircuitKeys] the
      circuits of the key schedule.  [CircuitHashKey] has the bit-by-bit circuit
      for the hash key and the one for all its powers, [CircuitSingles] the
      circuits for single derivations and single blocks.  [Ag2pc] (Module
      [EmpWrapperAG2PC]) is the wrapper around emp-ag2pc: the builders, the
      preprocessing, a run and the count of runs, with the protocol as the class
      [Engine].  [Sha256] holds the references: SHA-256,
      HMAC, HKDF and HkdfLabel on bytes.  [Arrays] holds byte arrays of a
      fixed length.  The Bristol files are the classes [BristolAES],
      [Sha256Circuit], [ModAdder] and [Increment], with what the first three
      compute as [BristolOk], [Sha256Ok] and [ModAdderOk].
    - [KeyDerive]: the calls of [ssl/ThreePartyHandshake.cpp] that run the
      circuits of the key schedule, for both parties.

    ** How the code is modelled

    The verifier's methods are functions on its state that end in one of five
    ways ([Outcome]): a return, [return false], an abort, the use of a null
    pointer, or still waiting.  Whatever the peer, the network, the circuits
    and the key exchange do is an arbitrary function from the actions so far
    to the next reply (class [World]); the theorems hold for every such world,
    and [WorldOk] is the contract of [SSL_read], where one is needed.  Byte and
    round counters are kept at 64 bits; timers and printing are left out.  The
    prover's record side has the same form over its own actions (Module
    [Session]), and so has [encrypt_request] (Module [Prover]).  Theorems about
    both parties assume of the two worlds that they fit together: what one
    writes the other reads ([Stream] in [ServerStream] is the verifier's
    input as a list of bytes), and a circuit's two replies are the two outputs
    of one run of the modelled circuit on both packed inputs.  [Dialogue] has
    the rules for such proofs: a judgement for each party that relates the
    fields, the bytes sent and the bytes still to be read before and after a
    call (Modules [PDial], [VDial]).  The prover's action for the shares of the
    hash key stands for the circuit, the binary protocol and the bandwidth
    message that the verifier reads in the middle of it.  The flag
    [surf_traffic_keys_installed] of [tls13_install_3p_traffic_keys] is not a
    field of the model.

    Fuel: the loops that wait for the peer ([read_loop], [read_buffer_loop],
    [transcript_loop], [drain_loop], [attest_loop]) take the
    [Fuel] of the context, and their theorems hold for every amount, [Waiting]
    included: the code waits for ever when the peer does; the theorems that
    say a call succeeds ask for as much fuel as the bytes it reads.  The loop of [run]
    takes 27 rounds, one for each state, which is enough from every state: it
    ends as the loop without a bound does, in strictly increasing states
    ([run_loop_terminates]); [message_loop] takes a round for each byte of the
    buffer, of which a message takes four ([message_loop_enough]); [squares_loop] is covered by
    [compute_squares_terminates]; the loop over epochs takes one round more
    than there are records, which is enough ([epochs_terminate]).  The other
    loops are structural.

    ** What the theorems show

    - Field and shares ([F2128Claims], [F2128Single], [GHash], [ProverShares]): [mul], [inv]
      and the shifts are those of the field; an accepted run of the batched
      protocol gives additive shares of the first 1088 powers; the two parties'
      GHASH shares add up to GHASH; with the circuit in front, both parties'
      [make_gcm_share] end with shares of the powers of AES_k(0).  The
      consistency check of the code is inverted, and what it accepts and
      rejects is stated exactly.  The repeated protocol never aborts between
      honest parties and shares the same powers of a sum; its check catches a
      sender that changes its input, unless the very rows of the two parties
      collide under the digest.
    - Key exchange ([PrimeShares], [Ectf], [NistPrimes], [KeyExchange]): the
      outputs of ECtF add up to the x coordinate of the sum of the two points,
      and fed to the handshake circuit they give the secrets of that point; the
      prime-field protocol shows its receiver's input to the sender.
    - Handshake of both parties ([Preprocessing], [SeedCommitment],
      [KeyAgreement], [HandshakeKeys], [TrafficKeys], [ResumptionKeys], over
      [Dialogue]): the
      prover's callbacks against the verifier's loop, each reading what the
      other writes.  Both build the same circuits in the same order; the
      verifier stores the commitment to the mask seed; the ClientHello carries
      the sum of the public keys and the parties' points add up to that of the
      origin server; the prover ends with the
      handshake secrets and the verifier with the flight and the commitment,
      which it has before it gives its halves;
      both hold paired shares of traffic keys, hash-key powers and the PSK of
      the ticket; the binder is that of the joint PSK.
    - Circuits and key schedule ([CircuitRecords], [CircuitGcm],
      [CircuitHkdf], [CircuitHashKey], [KeyDerive], [CircuitSingles],
      [KeyUpdate]): the circuits on wires compute
      AES-GCM tags, masked keystream and the secrets of RFC 8446; run by both
      parties they leave shares of the handshake, traffic and resumption
      secrets, the binder, and the secrets after any number of updates.  The
      two circuits for the hash key are the same function, and the circuits for
      single derivations chain to the same key schedule.
    - Runs of circuits ([Ag2pc]): a run of both parties' wrappers gives each of
      them the output of the circuit on both inputs, and a wrapper for more
      than one run never evaluates a circuit on preprocessing already used.
    - Record layer of the verifier ([ServerClaims], from the logic of
      [ServerLogic] and the invariants of [ServerSafety], [ServerTrace],
      [ServerVerify], [ServerTag], [ServerProgress]): a record is entered as
      verified only when the circuit accepted it under the block [J0] and the
      key commitment; the key share is released only after a commitment, and
      nothing is attested between the release and a rotation; counter blocks
      are never reused and keystream is derived for verified records only;
      rotations start clean epochs, connections start clean record layers; the
      requests never use a null pointer; every handler makes progress, and the loop
      of a session ends after at most one round in each state.  [ServerWorld] holds the concrete world of the examples.
    - Requests ([ProverProofs], [ProverClaims]): with circuits that compute
      what their descriptions say under the joint key, [encrypt_request] returns the AES-GCM
      record, and the verifier derives the same counters from its message.
    - Records of both parties ([ProverLogic], [ProverVerify], [RecordVerify],
      [KeyRelease], [ProverKeystream], [RecordKeystream]): the prover's calls
      against the verifier's handlers, for verification in all modes, the
      commitment to the key share and its release, and keystream.
    - Release ([ProverOpen], [PostHandshake], [Replay], [SealedRelease],
      [RotateEpochs]): a sealed stream comes back whole or not at all, and the
      tickets in it become sessions with the PSK share derived with the
      verifier; the key is asked for only after every record verified; padded
      records are lost; the epochs of the rotation mode end and skip nothing
      but key updates.
    - Captures ([ProverTypes], [ProverSessions]): under any sequence of
      operations the captured records are those that arrived, in order and
      numbered without a gap, and the prover's fields keep their sizes.
    - Connections ([Sockets], [EmpChannel]): every system call on a socket is
      made in its place, whatever the system replies; what one side of a channel sends and flushes
      the other receives, whatever the sizes of the reads, and both count the
      same bytes.
    - Memory and files ([Containers], [Handoff]): programs over the containers
      do not misuse memory and give all of it back, within limits for the byte
      arrays that are shown to be needed; what one round saves the
      next one loads, whole or not at all.
    - Messages, points and key shares ([Messaging], [Util], [BlockMap],
      [KeyShare]): round trips, sums of keys, and the block map's totality and
      injectivity.
    - Limits ([ServerLimits], and theorems beside the ones above): behaviour
      that differs from what comments or interfaces say: unchecked announced
      sizes, a circuit that is never built, an uninitialised result, a padding
      lane that shows plaintext, a packing routine that loses a bit.

    ** What is not modelled

    The test vectors and self-checks of the program that generates the
    circuits; the branch of the batched protocol for additive inputs, which the
    constant [use_multiplicative_shares] excludes; pointers into the containers; the
    formatting of host names and the registration of callbacks of a TLS
    socket; timers; demos, benchmarks and tests.  BoringSSL
    and the emp libraries are third-party code and appear as parameters, apart
    from the fields, the calls and the branch of [tls_open_record] that the
    program adds to BoringSSL and the messages after the handshake, which it
    replays.  In the conversions to shares, the transfers other than those of
    the single consistency check are taken as delivered. *)

From Stdlib Require Export Arith NArith List Bool Btauto Lia.
Export ListNotations.

(** ** Scopes *)

Declare Scope surf_scope.
Delimit Scope surf_scope with surf.
Open Scope surf_scope.

Infix "⊕" := N.lxor (at level 50, left associativity) : surf_scope.

(** ** Machine integers

    A [w]-bit unsigned integer is an [N] below [2^w]; [wrap w] is the
    truncation a C++ unsigned conversion performs. *)

Definition wrap (w n : N) : N := N.land n (N.ones w).

Create HintDb bits.
Create Rewrite HintDb bits.
Create Rewrite HintDb lists.

Lemma wrap_mod w n : wrap w n = (n mod 2 ^ w)%N.
Proof. unfold wrap; apply N.land_ones. Qed.

Lemma wrap_lt w n : (wrap w n < 2 ^ w)%N.
Proof. rewrite wrap_mod; apply N.mod_lt, N.pow_nonzero; lia. Qed.

Lemma wrap_small w n : (n < 2 ^ w)%N -> wrap w n = n.
Proof. intros; rewrite wrap_mod; now apply N.mod_small. Qed.

Lemma wrap_spec w n i :
  N.testbit (wrap w n) i = N.testbit n i && (i <? w)%N.
Proof.
  unfold wrap. rewrite N.land_spec. f_equal.
  destruct (N.ltb_spec i w).
  - now apply N.ones_spec_low.
  - now apply N.ones_spec_high.
Qed.

(** ** Bits of natural numbers *)

Lemma testbit_high n w i :
  (n < 2 ^ w)%N -> (w <= i)%N -> N.testbit n i = false.
Proof.
  intros Hn Hi. rewrite <- (N.mod_small n (2 ^ w)) by exact Hn.
  now apply N.mod_pow2_bits_high.
Qed.

Lemma lt_pow2_bits n w :
  (forall i, (w <= i)%N -> N.testbit n i = false) -> (n < 2 ^ w)%N.
Proof.
  intros H. destruct (N.eq_dec n 0) as [->|Hn].
  - apply N.neq_0_lt_0, N.pow_nonzero; lia.
  - destruct (N.lt_ge_cases n (2 ^ w)) as [|Hge]; [assumption|].
    assert (Hl : (w <= N.log2 n)%N) by
      (apply N.log2_le_pow2; lia).
    specialize (H _ Hl). now rewrite N.bit_log2 in H.
Qed.

Lemma lxor_lt a b w : (a < 2 ^ w)%N -> (b < 2 ^ w)%N -> (a ⊕ b < 2 ^ w)%N.
Proof.
  intros Ha Hb. apply lt_pow2_bits; intros i Hi.
  now rewrite N.lxor_spec, (testbit_high a w), (testbit_high b w).
Qed.

Lemma land_lt a b w : (a < 2 ^ w)%N -> (N.land a b < 2 ^ w)%N.
Proof.
  intros Ha. apply lt_pow2_bits; intros i Hi.
  now rewrite N.land_spec, (testbit_high a w).
Qed.

Lemma shiftr_lt a k w : (a < 2 ^ (w + k))%N -> (N.shiftr a k < 2 ^ w)%N.
Proof.
  intros Ha. apply lt_pow2_bits; intros i Hi.
  rewrite N.shiftr_spec', (testbit_high a (w + k)); auto; lia.
Qed.

#[export] Hint Rewrite N.lxor_spec N.land_spec N.lor_spec N.shiftr_spec'
  N.bits_0 N.ldiff_spec wrap_spec : bits.

(** Bit extensionality: the introduced index is [i]. *)
Ltac bitwise i := apply N.bits_inj; intro i; autorewrite with bits.

(** Case analysis on every comparison of [N] in the goal. *)
Ltac nsplit :=
  repeat match goal with
         | |- context [N.ltb ?a ?b] => destruct (N.ltb_spec a b); try lia
         | |- context [N.leb ?a ?b] => destruct (N.leb_spec a b); try lia
         | |- context [N.eqb ?a ?b] => destruct (N.eqb_spec a b); try lia
         end;
  cbn [andb orb xorb negb];
  rewrite ?andb_true_r, ?andb_false_r, ?orb_false_r, ?xorb_false_r, ?xorb_false_l;
  try reflexivity; try (f_equal; lia).

(** ** Exclusive or *)

(** Equations between exclusive-or sums. *)
Ltac lxor_ring :=
  apply N.bits_inj; intro; rewrite ?N.lxor_spec, ?N.bits_0; btauto.

Lemma lxor_shuffle a b c d : (a ⊕ b) ⊕ (c ⊕ d) = (a ⊕ c) ⊕ (b ⊕ d).
Proof.
  rewrite !N.lxor_assoc; f_equal. rewrite <- !N.lxor_assoc; f_equal.
  apply N.lxor_comm.
Qed.

Lemma lxor_cancel_l a b : a ⊕ (a ⊕ b) = b.
Proof. now rewrite <- N.lxor_assoc, N.lxor_nilpotent, N.lxor_0_l. Qed.

Lemma lxor_move a b c : a ⊕ b = c <-> a = b ⊕ c.
Proof.
  split.
  - intros <-. now rewrite (N.lxor_comm a), lxor_cancel_l.
  - intros ->. now rewrite (N.lxor_comm b), N.lxor_assoc, N.lxor_nilpotent, N.lxor_0_r.
Qed.

Lemma shiftl_lxor a b k :
  N.shiftl (a ⊕ b) k = N.shiftl a k ⊕ N.shiftl b k.
Proof. apply N.shiftl_lxor. Qed.

(** ** Linear maps over GF(2)

    Every SIMD operation of the multiplication routine is linear for
    exclusive or; two linear maps that agree on the powers of two agree
    everywhere. *)

Class Linear (f : N -> N) : Prop :=
  linear_lxor : forall a b, f (a ⊕ b) = f a ⊕ f b.

Lemma linear_0 f `{Linear f} : f 0%N = 0%N.
Proof.
  pose proof (linear_lxor 0 0) as E. rewrite N.lxor_0_l in E.
  rewrite E. apply N.lxor_nilpotent.
Qed.

(** Instance search must not unfold the operations it looks for. *)
#[export] Hint Opaque N.lxor N.land N.lor N.ldiff N.shiftl N.shiftr N.testbit wrap
  : typeclass_instances.

(** The instances are stated for a linear argument, so that instance
    search peels an expression from the outside. *)
#[export] Instance linear_id : Linear (fun a => a).
Proof. now intros a b. Qed.

#[export] Instance linear_const0 : Linear (fun _ => 0%N).
Proof. now intros a b. Qed.

#[export] Instance linear_add f g :
  Linear f -> Linear g -> Linear (fun a => f a ⊕ g a).
Proof. intros Hf Hg a b. rewrite Hf, Hg. apply lxor_shuffle. Qed.

#[export] Instance linear_shiftl f k : Linear f -> Linear (fun a => N.shiftl (f a) k).
Proof. intros Hf a b. rewrite Hf. apply N.shiftl_lxor. Qed.

#[export] Instance linear_shiftr f k : Linear f -> Linear (fun a => N.shiftr (f a) k).
Proof. intros Hf a b. rewrite Hf. apply N.shiftr_lxor. Qed.

#[export] Instance linear_land f m : Linear f -> Linear (fun a => N.land (f a) m).
Proof.
  intros Hf a b. rewrite Hf; bitwise i.
  now destruct (N.testbit (f a) i), (N.testbit (f b) i), (N.testbit m i).
Qed.

#[export] Instance linear_land_r f m : Linear f -> Linear (fun a => N.land m (f a)).
Proof. intros Hf a b. rewrite !(N.land_comm m). now apply linear_land. Qed.

#[export] Instance linear_ldiff f m : Linear f -> Linear (fun a => N.ldiff (f a) m).
Proof.
  intros Hf a b. rewrite Hf; bitwise i.
  now destruct (N.testbit (f a) i), (N.testbit (f b) i), (N.testbit m i).
Qed.

#[export] Instance linear_wrap f w : Linear f -> Linear (fun a => wrap w (f a)).
Proof. intros Hf. exact (linear_land f (N.ones w) Hf). Qed.

#[export] Instance linear_wrap0 w : Linear (wrap w).
Proof. exact (linear_wrap _ w linear_id). Qed.

Lemma linear_comp f g : Linear f -> Linear g -> Linear (fun a => f (g a)).
Proof. intros Hf Hg a b. now rewrite Hg, Hf. Qed.

Lemma split_top n (k : nat) :
  (n < 2 ^ N.of_nat (S k))%N ->
  n = wrap (N.of_nat k) n ⊕
      (if N.testbit n (N.of_nat k) then 2 ^ N.of_nat k else 0)%N.
Proof.
  intros Hn. bitwise i.
  destruct (N.testbit n (N.of_nat k)) eqn:E;
    [rewrite N.pow2_bits_eqb | rewrite N.bits_0];
    destruct (N.ltb_spec i (N.of_nat k)).
  - destruct (N.eqb_spec (N.of_nat k) i); [lia|].
    now rewrite andb_true_r, xorb_false_r.
  - destruct (N.eqb_spec (N.of_nat k) i) as [<-|]; [now rewrite E|].
    rewrite (testbit_high n (N.of_nat (S k))); auto; lia.
  - now rewrite andb_true_r, xorb_false_r.
  - destruct (N.eq_dec i (N.of_nat k)) as [->|]; [now rewrite E|].
    rewrite (testbit_high n (N.of_nat (S k))); auto; lia.
Qed.

(** Agreement on a basis: checked by computation, used for all inputs. *)
Definition agree_on_basis (k : nat) (f g : N -> N) : bool :=
  forallb (fun i => (f (2 ^ N.of_nat i) =? g (2 ^ N.of_nat i))%N) (seq 0 k).

Lemma linear_ext (k : nat) f g `{Linear f} `{Linear g} :
  (forall i, (i < k)%nat -> f (2 ^ N.of_nat i)%N = g (2 ^ N.of_nat i)%N) ->
  forall n, (n < 2 ^ N.of_nat k)%N -> f n = g n.
Proof.
  induction k as [|k IH]; intros Hb n Hn.
  - replace n with 0%N by lia. now rewrite !linear_0.
  - rewrite (split_top n k Hn), !linear_lxor.
    rewrite (IH (fun i Hi => Hb i (Nat.lt_lt_succ_r _ _ Hi)) (wrap (N.of_nat k) n))
      by apply wrap_lt.
    f_equal. destruct N.testbit; [apply Hb; lia | now rewrite !linear_0].
Qed.

Lemma linear_ext_basis (k : nat) f g `{Linear f} `{Linear g} :
  agree_on_basis k f g = true ->
  forall n, (n < 2 ^ N.of_nat k)%N -> f n = g n.
Proof.
  intros Hb. apply linear_ext; [assumption..|].
  intros i Hi. unfold agree_on_basis in Hb. rewrite forallb_forall in Hb.
  apply N.eqb_eq, Hb, in_seq; lia.
Qed.

(** ** Options *)

(** Unlike [injection], leaves the terms as they are. *)
Lemma some_inj {A} (a b : A) : Some a = Some b -> a = b.
Proof. now intros [= ->]. Qed.

(** ** Arrays

    A C array of blocks is a list; [a.[i]] reads it.  The development proves
    that the indices it uses are in range where a claim depends on it. *)

Notation "a .[ i ]" := (nth i a 0%N) (at level 1, left associativity,
  format "a .[ i ]") : surf_scope.

(** In-place update; an index past the end changes nothing. *)
Fixpoint upd {A} (i : nat) (x : A) (l : list A) : list A :=
  match l, i with
  | [], _ => []
  | _ :: r, O => x :: r
  | h :: r, S j => h :: upd j x r
  end.

Lemma length_upd {A} i (x : A) l : length (upd i x l) = length l.
Proof. revert i; induction l as [|h l IH]; intros [|i]; cbn; auto. Qed.

Lemma nth_upd {A} i j (x d : A) l :
  nth j (upd i x l) d = if (i =? j)%nat && (i <? length l)%nat then x else nth j l d.
Proof.
  revert i j; induction l as [|h l IH]; intros [|i] [|j]; cbn; auto;
    now rewrite ?andb_false_r, ?IH.
Qed.

Lemma nth_upd_eq {A} i (x d : A) l : (i < length l)%nat -> nth i (upd i x l) d = x.
Proof.
  intros Hi. rewrite nth_upd, Nat.eqb_refl. apply Nat.ltb_lt in Hi. now rewrite Hi.
Qed.

Lemma nth_upd_ne {A} i j (x d : A) l : i <> j -> nth j (upd i x l) d = nth j l d.
Proof. intros Hn. rewrite nth_upd. now apply Nat.eqb_neq in Hn as ->. Qed.

#[export] Hint Rewrite @length_upd : lists.

(** A loop whose body keeps the length keeps the length. *)
Lemma length_fold_left {A B} (f : list A -> B -> list A) xs out :
  (forall x o, length (f o x) = length o) -> length (fold_left f xs out) = length out.
Proof.
  intros Hf. revert out. induction xs as [|x xs IH]; intros out; [reflexivity|].
  cbn. now rewrite IH.
Qed.

(** A loop that writes [m] consecutive entries. *)
Lemma nth_fold_upd {A} (g : nat -> A) off d k m : forall enc,
  (off + m <= length enc)%nat ->
  nth k (fold_left (fun enc j => upd (off + j) (g j) enc) (seq 0 m) enc) d =
  if (off <=? k)%nat && (k <? off + m)%nat then g (k - off)%nat else nth k enc d.
Proof.
  induction m as [|m IH]; intros enc Hl.
  - cbn [List.seq fold_left].
    destruct (Nat.leb_spec off k), (Nat.ltb_spec k (off + 0)); cbn [andb]; reflexivity || lia.
  - rewrite seq_S, fold_left_app. cbn [fold_left Nat.add]. rewrite nth_upd, IH by lia.
    rewrite length_fold_left by (intros; apply length_upd).
    destruct (Nat.eqb_spec (off + m) k) as [<-|Hn]; cbn [andb].
    + rewrite (proj2 (Nat.ltb_lt _ _)), (proj2 (Nat.leb_le _ _)), (proj2 (Nat.ltb_lt (off + m) (off + S m))) by lia.
      cbn [andb]. f_equal. lia.
    + destruct (Nat.leb_spec off k), (Nat.ltb_spec k (off + m)), (Nat.ltb_spec k (off + S m)); cbn [andb];
        reflexivity || lia.
Qed.

(** A table filled by a counting loop. *)
Definition tabulate {A} (n : nat) (f : nat -> A) : list A := map f (seq 0 n).

Lemma length_tabulate {A} n (f : nat -> A) : length (tabulate n f) = n.
Proof. unfold tabulate. now rewrite length_map, length_seq. Qed.

Lemma skipn_cons_nth {A} k (d : A) xs : (k < length xs)%nat -> skipn k xs = nth k xs d :: skipn (S k) xs.
Proof.
  revert k. induction xs as [|x xs IH]; intros k H; [inversion H|]. destruct k as [|k]; [reflexivity|].
  cbn in H. apply (IH k). lia.
Qed.

Lemma nth_map_seq {A} (f : nat -> A) s n i d :
  (i < n)%nat -> nth i (map f (seq s n)) d = f (s + i)%nat.
Proof.
  intros Hi. rewrite (nth_indep _ d (f 0%nat)) by (now rewrite length_map, length_seq).
  now rewrite map_nth, seq_nth.
Qed.

Lemma nth_tabulate {A} n (f : nat -> A) i d :
  (i < n)%nat -> nth i (tabulate n f) d = f i.
Proof. apply (nth_map_seq f 0). Qed.

Lemma seq_offset n m : seq n m = map (fun i => (n + i)%nat) (seq 0 m).
Proof.
  induction m as [|m IH]; [reflexivity|]. now rewrite !seq_S, map_app, IH.
Qed.

Lemma tabulate_app {A} n m (f : nat -> A) :
  tabulate n f ++ tabulate m (fun i => f (n + i)%nat) = tabulate (n + m) f.
Proof.
  unfold tabulate. rewrite seq_app, map_app, Nat.add_0_l, (seq_offset n m), map_map. reflexivity.
Qed.

Lemma tabulate_ext {A} n (f g : nat -> A) : (forall i, (i < n)%nat -> f i = g i) -> tabulate n f = tabulate n g.
Proof. intros H. apply map_ext_in. intros i Hi%in_seq. apply H. lia. Qed.

Lemma nth_map_lt {A B} (f : A -> B) i xs d e : (i < length xs)%nat -> nth i (map f xs) e = f (nth i xs d).
Proof. intros Hi. rewrite (nth_indep _ e (f d)) by now rewrite length_map. apply map_nth. Qed.

Lemma Forall_upd {A} (P : A -> Prop) i x xs : P x -> Forall P xs -> Forall P (upd i x xs).
Proof. intros Hx H. revert i. induction H as [|y ys Hy H IH]; intros [|i]; cbn; auto. Qed.

Lemma firstn_exact {A} n (xs ys : list A) : length xs = n -> firstn n (xs ++ ys) = xs.
Proof. intros <-. now rewrite firstn_app, firstn_all, Nat.sub_diag, app_nil_r. Qed.

Lemma skipn_exact {A} n (xs ys : list A) : length xs = n -> skipn n (xs ++ ys) = ys.
Proof. intros <-. now rewrite skipn_app, skipn_all, Nat.sub_diag. Qed.

(** Entries of a concatenation of equally long pieces. *)
Lemma nth_flat_map {A B} (f : A -> list B) c xs i r da db :
  (forall x, In x xs -> length (f x) = c) -> (r < c)%nat -> (i < length xs)%nat ->
  nth (i * c + r) (flat_map f xs) db = nth r (f (nth i xs da)) db.
Proof.
  revert i; induction xs as [|x xs IH]; intros i Hc Hr Hi; [cbn in Hi; lia|].
  cbn [flat_map]. assert (Hx : length (f x) = c) by (apply Hc; now left).
  destruct i as [|i].
  - cbn. apply app_nth1. lia.
  - cbn [nth]. rewrite app_nth2 by lia.
    replace (S i * c + r - length (f x))%nat with (i * c + r)%nat by lia.
    apply IH; [|assumption|cbn in Hi; lia]. intros y Hy. apply Hc. now right.
Qed.

Lemma length_flat_map_const {A B} (f : A -> list B) c xs :
  (forall x, In x xs -> length (f x) = c) ->
  length (flat_map f xs) = (length xs * c)%nat.
Proof.
  induction xs as [|x xs IH]; intros Hc; [reflexivity|].
  cbn. rewrite length_app, IH, (Hc x); [lia | now left | intros; apply Hc; now right].
Qed.

(** Exclusive-or sum over [i < n]. *)
Definition lxor_sum (n : nat) (f : nat -> N) : N :=
  fold_left (fun acc i => acc ⊕ f i) (seq 0 n) 0%N.

Lemma lxor_sum_0 f : lxor_sum 0 f = 0%N.
Proof. reflexivity. Qed.

Lemma lxor_sum_S n f : lxor_sum (S n) f = lxor_sum n f ⊕ f n.
Proof. unfold lxor_sum. now rewrite seq_S, fold_left_app. Qed.

Lemma lxor_sum_ext n f g :
  (forall i, (i < n)%nat -> f i = g i) -> lxor_sum n f = lxor_sum n g.
Proof.
  induction n as [|n IH]; intros H; [reflexivity|].
  rewrite !lxor_sum_S, IH, H; auto.
Qed.

Lemma lxor_sum_add n f g :
  lxor_sum n (fun i => f i ⊕ g i) = lxor_sum n f ⊕ lxor_sum n g.
Proof.
  induction n as [|n IH]; [reflexivity|].
  rewrite !lxor_sum_S, IH. apply lxor_shuffle.
Qed.

Lemma lxor_sum_linear n f g `{Linear g} :
  g (lxor_sum n f) = lxor_sum n (fun i => g (f i)).
Proof.
  induction n as [|n IH]; [apply linear_0; exact _|].
  now rewrite !lxor_sum_S, linear_lxor, IH.
Qed.

Lemma lxor_sum_lt n f w :
  (forall i, (i < n)%nat -> (f i < 2 ^ w)%N) -> (lxor_sum n f < 2 ^ w)%N.
Proof.
  induction n as [|n IH]; intros H.
  - apply N.neq_0_lt_0, N.pow_nonzero; lia.
  - rewrite lxor_sum_S. apply lxor_lt; auto.
Qed.

Lemma lxor_sum_split m n f :
  lxor_sum (m + n) f = lxor_sum m f ⊕ lxor_sum n (fun i => f (m + i)%nat).
Proof.
  induction n as [|n IH]; [now rewrite Nat.add_0_r, N.lxor_0_r|].
  now rewrite Nat.add_succ_r, !lxor_sum_S, IH, N.lxor_assoc.
Qed.

(** A fold that adds exclusive-or terms, from any starting value. *)
Lemma fold_lxor_acc {A} (f : A -> N) xs acc :
  fold_left (fun acc x => acc ⊕ f x) xs acc =
  acc ⊕ fold_left (fun acc x => acc ⊕ f x) xs 0%N.
Proof.
  revert acc; induction xs as [|x xs IH]; intros acc; cbn.
  - now rewrite N.lxor_0_r.
  - rewrite IH, (IH (f x)). now rewrite N.lxor_assoc.
Qed.

(** The indices of [for (i = lo; i < hi; i += step)]. *)
Definition for_step (lo hi step : nat) : list nat :=
  map (fun k => (lo + k * step)%nat) (seq 0 ((hi - lo + step - 1) / step)).

Lemma in_for_step lo hi step i :
  (0 < step)%nat ->
  In i (for_step lo hi step) <->
  exists k, i = (lo + k * step)%nat /\ (i < hi)%nat.
Proof.
  intros Hs. unfold for_step. rewrite in_map_iff. split.
  - intros (k & <- & Hk). exists k. split; [reflexivity|].
    apply in_seq in Hk. destruct Hk as [_ Hk]. rewrite Nat.add_0_l in Hk.
    pose proof (Nat.Div0.mul_div_le (hi - lo + step - 1) step). nia.
  - intros (k & -> & Hk). exists k. split; [reflexivity|].
    apply in_seq. split; [lia|]. rewrite Nat.add_0_l.
    apply Nat.div_le_lower_bound; nia.
Qed.
