(* ===== verification/Block128.v ===== *)
(** * 128-bit blocks and the SIMD field arithmetic of [F2128_MTA]

    [emp::block] is an SSE register: an [N] below [2^128].  This file gives
    the meaning of the intrinsics that [mta/F2128MtA.inl] and [ssl/GHash.hpp]
    use, and translates the block-level routines of [mta/F2128MtA.inl]
    instruction by instruction. *)

From S2P Require Import Prelude.

Local Open Scope N_scope.

(** ** Intrinsics *)

Module Simd.

(** [lane w i x]: the [i]-th [w]-bit lane of [x]. *)
Definition lane (w i x : N) : N := wrap w (N.shiftr x (w * i)).

(** [map_lanes w k f x] applies [f] to the [k] lowest [w]-bit lanes. The
    lanes do not overlap, so exclusive or concatenates them. *)
Fixpoint map_lanes (w : N) (k : nat) (f : N -> N) (x : N) : N :=
  match k with
  | O => 0
  | S k' => f (wrap w x) ⊕ N.shiftl (map_lanes w k' f (N.shiftr x w)) w
  end.

(** Carry-less product of two polynomials over GF(2). *)
Fixpoint clmul_pos (p : positive) (b : N) : N :=
  match p with
  | xH => b
  | xO p' => N.shiftl (clmul_pos p' b) 1
  | xI p' => b ⊕ N.shiftl (clmul_pos p' b) 1
  end.

Definition clmul (a b : N) : N :=
  match a with 0 => 0 | Npos p => clmul_pos p b end.

Definition mm_xor_si128 (a b : N) : N := a ⊕ b.
Definition mm_and_si128 (a b : N) : N := N.land a b.
Definition mm_or_si128 (a b : N) : N := N.lor a b.
(** [(~a) & b] *)
Definition mm_andnot_si128 (a b : N) : N := N.ldiff b a.

(** Bit 0 of [imm] selects the quadword of [a], bit 4 that of [b]. *)
Definition mm_clmulepi64_si128 (a b imm : N) : N :=
  clmul (lane 64 (if N.testbit imm 0 then 1 else 0) a)
        (lane 64 (if N.testbit imm 4 then 1 else 0) b).

(** Doubleword [j] of the result is doubleword [(imm >> 2j) & 3] of [a]. *)
Definition mm_shuffle_epi32 (a imm : N) : N :=
  let sel j := lane 32 (lane 2 j imm) a in
  sel 0 ⊕ N.shiftl (sel 1) 32 ⊕ N.shiftl (sel 2) 64 ⊕ N.shiftl (sel 3) 96.

(** Whole-register shifts count bytes; the others shift each lane. *)
Definition mm_slli_si128 (a n : N) : N := wrap 128 (N.shiftl a (8 * n)).
Definition mm_srli_si128 (a n : N) : N := N.shiftr a (8 * n).
Definition mm_slli_epi32 (a n : N) : N :=
  map_lanes 32 4 (fun d => wrap 32 (N.shiftl d n)) a.
Definition mm_srli_epi32 (a n : N) : N :=
  map_lanes 32 4 (fun d => N.shiftr d n) a.
Definition mm_slli_epi64 (a n : N) : N :=
  map_lanes 64 2 (fun d => wrap 64 (N.shiftl d n)) a.
Definition mm_srli_epi64 (a n : N) : N :=
  map_lanes 64 2 (fun d => N.shiftr d n) a.

(** [_mm_setr_epi32] with the first argument in the lowest lane; [-1] is
    [2^32 - 1]. *)
Definition mm_setr_epi32 (d0 d1 d2 d3 : N) : N :=
  wrap 32 d0 ⊕ N.shiftl (wrap 32 d1) 32 ⊕ N.shiftl (wrap 32 d2) 64
    ⊕ N.shiftl (wrap 32 d3) 96.

Definition mm_setr_epi8 (bs : list N) : N :=
  fold_right (fun b acc => wrap 8 b ⊕ N.shiftl acc 8) 0 bs.

Definition mm_extract_epi8 (a i : N) : N := lane 8 i a.

(** [emp::makeBlock] *)
Definition makeBlock (high low : N) : N :=
  wrap 64 low ⊕ N.shiftl (wrap 64 high) 64.

Definition zero_block : N := makeBlock 0 0.

(** [emp::getLSB] *)
Definition getLSB (x : N) : bool := N.testbit x 0.

(** [emp::cmpBlock] on [nblocks] blocks: true when all are equal. *)
Definition cmpBlock (xs ys : list N) : bool :=
  forallb (fun '(x, y) => (x ⊕ y =? 0)) (combine xs ys).

#[export] Hint Opaque lane map_lanes clmul mm_shuffle_epi32 mm_slli_epi32
  mm_srli_epi32 mm_slli_epi64 mm_srli_epi64 mm_clmulepi64_si128
  : typeclass_instances.

End Simd.
Export Simd.

(** ** The routines of [mta/F2128MtA.inl] *)

Module F2128.

Definition arr_to_block (arr : list N) : N := mm_setr_epi8 (firstn 16 arr).

Definition block_to_arr (x : N) : list N :=
  map (fun i => mm_extract_epi8 x (N.of_nat i)) (seq 0 16).

Definition mul (a b : N) : N :=
  let XMMMASK := mm_setr_epi32 (2 ^ 32 - 1) 0 0 0 in
  let tmp3 := mm_clmulepi64_si128 a b 0x00 in
  let tmp6 := mm_clmulepi64_si128 a b 0x11 in
  let tmp4 := mm_shuffle_epi32 a 78 in
  let tmp5 := mm_shuffle_epi32 b 78 in
  let tmp4 := mm_xor_si128 tmp4 a in
  let tmp5 := mm_xor_si128 tmp5 b in
  let tmp4 := mm_clmulepi64_si128 tmp4 tmp5 0x00 in
  let tmp4 := mm_xor_si128 tmp4 tmp3 in
  let tmp4 := mm_xor_si128 tmp4 tmp6 in
  let tmp5 := mm_slli_si128 tmp4 8 in
  let tmp4 := mm_srli_si128 tmp4 8 in
  let tmp3 := mm_xor_si128 tmp3 tmp5 in
  let tmp6 := mm_xor_si128 tmp6 tmp4 in
  let tmp7 := mm_srli_epi32 tmp6 31 in
  let tmp8 := mm_srli_epi32 tmp6 30 in
  let tmp9 := mm_srli_epi32 tmp6 25 in
  let tmp7 := mm_xor_si128 tmp7 tmp8 in
  let tmp7 := mm_xor_si128 tmp7 tmp9 in
  let tmp8 := mm_shuffle_epi32 tmp7 147 in
  let tmp7 := mm_and_si128 XMMMASK tmp8 in
  let tmp8 := mm_andnot_si128 XMMMASK tmp8 in
  let tmp3 := mm_xor_si128 tmp3 tmp8 in
  let tmp6 := mm_xor_si128 tmp6 tmp7 in
  let tmp10 := mm_slli_epi32 tmp6 1 in
  let tmp3 := mm_xor_si128 tmp3 tmp10 in
  let tmp11 := mm_slli_epi32 tmp6 2 in
  let tmp3 := mm_xor_si128 tmp3 tmp11 in
  let tmp12 := mm_slli_epi32 tmp6 7 in
  let tmp3 := mm_xor_si128 tmp3 tmp12 in
  mm_xor_si128 tmp6 tmp3.

(** One round of the loop of [inv]: multiply, then square. *)
Definition inv_round (a curr : N) : N :=
  let curr := mul curr a in mul curr curr.

Definition inv (a : N) : N := Nat.iter 127 (inv_round a) (makeBlock 0 1).

Definition shift_left_bits (bits x : N) : N :=
  if 64 <=? bits then
    mm_slli_si128 (mm_slli_si128 x 8) (bits - 64)
  else
    let v1 := mm_slli_epi64 x bits in
    let v2 := mm_slli_si128 x 8 in
    let v2 := mm_srli_epi64 v2 (64 - bits) in
    mm_or_si128 v1 v2.

Definition shift_right_bits (bits x : N) : N :=
  if 64 <=? bits then
    mm_srli_epi64 (mm_srli_si128 x 8) (bits - 64)
  else
    let v1 := mm_srli_epi64 x bits in
    let v2 := mm_srli_si128 x 8 in
    let v2 := mm_slli_epi64 v2 (64 - bits) in
    mm_or_si128 v1 v2.

End F2128.
