(* ===== verification/GF128.v ===== *)
(** * The field GF(2^128) and the correctness of the SIMD arithmetic

    The reference multiplication [gf_mul] is the schoolbook one: for each
    set bit of [b], add [a] multiplied by that power of [x], reducing modulo
    [x^128 + x^7 + x^2 + x + 1].  The file shows that [gf_mul] is a field
    multiplication and that the carry-less-multiplication code [F2128.mul]
    (Karatsuba plus a shift-based reduction) computes it. *)

From S2P Require Import Prelude Block128.

Local Open Scope N_scope.

Notation "2^128" := 340282366920938463463374607431768211456 : N_scope.

(** ** Reference definitions *)

(** Multiplication by [x]. *)
Definition xtime (a : N) : N :=
  wrap 128 (N.shiftl a 1) ⊕ (if N.testbit a 127 then 0x87 else 0).

Definition xpow (i : nat) (a : N) : N := Nat.iter i xtime a.

(** [gf_mul_n n a b]: the sum of [a x^i] over the set bits [i < n] of [b]. *)
Fixpoint gf_mul_n (n : nat) (a b : N) : N :=
  match n with
  | O => 0
  | S k => (if N.testbit b 0 then a else 0) ⊕ gf_mul_n k (xtime a) (N.shiftr b 1)
  end.

Definition gf_mul (a b : N) : N := gf_mul_n 128 a b.

Fixpoint gf_pow (a : N) (n : nat) : N :=
  match n with O => 1 | S k => gf_mul a (gf_pow a k) end.

Infix "⊗" := gf_mul (at level 40, left associativity) : surf_scope.

#[export] Hint Opaque xtime xpow gf_mul_n gf_mul : typeclass_instances.

(** ** Linearity *)

#[export] Instance linear_bit f c i :
  Linear f -> Linear (fun a => if N.testbit (f a) i then c else 0).
Proof.
  intros Hf a b. rewrite Hf, N.lxor_spec.
  destruct (N.testbit (f a) i), (N.testbit (f b) i); cbn [xorb];
    now rewrite ?N.lxor_nilpotent, ?N.lxor_0_r, ?N.lxor_0_l.
Qed.

#[export] Instance linear_xtime f : Linear f -> Linear (fun a => xtime (f a)).
Proof. intros Hf. unfold xtime. exact _. Qed.

#[export] Instance linear_xpow i f : Linear f -> Linear (fun a => xpow i (f a)).
Proof.
  intros Hf. induction i as [|i IH]; [exact Hf|].
  change (Linear (fun a => xtime (xpow i (f a)))). exact _.
Qed.

#[export] Instance linear_if (c : bool) f :
  Linear f -> Linear (fun a => if c then f a else 0).
Proof. intros Hf; destruct c; exact _. Qed.

Lemma gf_mul_n_linear_l n f b : Linear f -> Linear (fun a => gf_mul_n n (f a) b).
Proof.
  revert f b. induction n as [|n IH]; intros f b Hf; cbn [gf_mul_n]; [exact _|].
  apply linear_add; [exact _ | apply (IH (fun a => xtime (f a))); exact _].
Qed.

Lemma gf_mul_n_linear_r n f a : Linear f -> Linear (fun b => gf_mul_n n a (f b)).
Proof.
  revert f a. induction n as [|n IH]; intros f a Hf; cbn [gf_mul_n]; [exact _|].
  apply linear_add; [exact _ | apply (IH (fun b => N.shiftr (f b) 1)); exact _].
Qed.

#[export] Existing Instances gf_mul_n_linear_l gf_mul_n_linear_r.

#[export] Instance gf_mul_linear_l f b : Linear f -> Linear (fun a => gf_mul (f a) b).
Proof. apply gf_mul_n_linear_l. Qed.

#[export] Instance gf_mul_linear_r f a : Linear f -> Linear (fun b => gf_mul a (f b)).
Proof. apply gf_mul_n_linear_r. Qed.

#[export] Instance linear_gf_mul_n n a : Linear (gf_mul_n n a).
Proof. exact (gf_mul_n_linear_r n _ a linear_id). Qed.

#[export] Instance linear_gf_mul a : Linear (gf_mul a).
Proof. exact (gf_mul_linear_r _ a linear_id). Qed.

#[export] Instance linear_xtime0 : Linear xtime.
Proof. exact (linear_xtime _ linear_id). Qed.

#[export] Instance linear_xpow0 i : Linear (xpow i).
Proof. exact (linear_xpow i _ linear_id). Qed.

Lemma gf_mul_distr_r a b c : (a ⊕ b) ⊗ c = a ⊗ c ⊕ b ⊗ c.
Proof. exact (gf_mul_linear_l (fun a => a) c linear_id a b). Qed.

Lemma gf_mul_distr_l a b c : a ⊗ (b ⊕ c) = a ⊗ b ⊕ a ⊗ c.
Proof. exact (gf_mul_linear_r (fun a => a) a linear_id b c). Qed.

Lemma xtime_lxor a b : xtime (a ⊕ b) = xtime a ⊕ xtime b.
Proof. exact (linear_xtime (fun a => a) linear_id a b). Qed.

Lemma gf_mul_0_r a : a ⊗ 0 = 0.
Proof. exact (linear_0 (fun b => a ⊗ b)). Qed.

Lemma gf_mul_0_l b : 0 ⊗ b = 0.
Proof. exact (linear_0 (fun a => a ⊗ b)). Qed.

(** ** Bounds *)

Lemma xtime_lt a : xtime a < 2^128.
Proof.
  apply (lxor_lt _ _ 128); [apply wrap_lt|]. destruct N.testbit; reflexivity.
Qed.

Lemma gf_mul_n_lt n a b : a < 2^128 -> gf_mul_n n a b < 2^128.
Proof.
  revert a b; induction n as [|n IH]; intros a b Ha; cbn [gf_mul_n]; [reflexivity|].
  apply (lxor_lt _ _ 128); [destruct N.testbit; [exact Ha | reflexivity]|].
  apply IH, xtime_lt.
Qed.

Lemma gf_mul_lt a b : a < 2^128 -> a ⊗ b < 2^128.
Proof. apply gf_mul_n_lt. Qed.

Lemma xpow_lt i a : a < 2^128 -> xpow i a < 2^128.
Proof. intros Ha; destruct i; [exact Ha | apply xtime_lt]. Qed.

Lemma lxor_lt128 a b : a < 2^128 -> b < 2^128 -> a ⊕ b < 2^128.
Proof. apply (lxor_lt a b 128). Qed.

Lemma wrap_lt128 a : wrap 128 a < 2^128.
Proof. apply (wrap_lt 128). Qed.

#[export] Hint Resolve xtime_lt gf_mul_lt xpow_lt lxor_lt128 wrap_lt128 : bits.

(** ** Powers of [x] *)

Lemma xpow_add i j a : xpow (i + j) a = xpow i (xpow j a).
Proof. apply Nat.iter_add. Qed.

Lemma xpow_S i a : xpow (S i) a = xpow i (xtime a).
Proof. apply Nat.iter_succ_r. Qed.

Lemma xtime_pow2 i : i < 127 -> xtime (2 ^ i) = 2 ^ (i + 1).
Proof.
  intros Hi. unfold xtime.
  rewrite N.pow2_bits_false by lia. rewrite N.lxor_0_r, N.shiftl_mul_pow2.
  rewrite <- N.pow_add_r. apply wrap_small, N.pow_lt_mono_r; lia.
Qed.

Lemma xpow_1 i : (i < 128)%nat -> xpow i 1 = 2 ^ N.of_nat i.
Proof.
  induction i as [|i IH]; intros Hi; [reflexivity|].
  change (xpow (S i) 1) with (xtime (xpow i 1)).
  rewrite IH, xtime_pow2 by lia. f_equal; lia.
Qed.

Lemma gf_mul_n_xtime n a b : gf_mul_n n (xtime a) b = xtime (gf_mul_n n a b).
Proof.
  revert a b; induction n as [|n IH]; intros a b; cbn [gf_mul_n]; [reflexivity|].
  rewrite IH, xtime_lxor. f_equal. now destruct N.testbit.
Qed.

Lemma gf_mul_n_pow2 n i a :
  (i < n)%nat -> gf_mul_n n a (2 ^ N.of_nat i) = xpow i a.
Proof.
  revert i a; induction n as [|n IH]; intros i a Hi; [lia|].
  cbn [gf_mul_n]. destruct i as [|i].
  - change (N.testbit (2 ^ N.of_nat 0) 0) with true.
    change (N.shiftr (2 ^ N.of_nat 0) 1) with 0.
    rewrite (linear_0 _ (H := gf_mul_n_linear_r n (fun b => b) (xtime a) linear_id)).
    apply N.lxor_0_r.
  - rewrite N.pow2_bits_false by lia. rewrite N.lxor_0_l.
    replace (N.shiftr (2 ^ N.of_nat (S i)) 1) with (2 ^ N.of_nat i);
      [rewrite IH by lia; symmetry; apply xpow_S|].
    rewrite N.shiftr_div_pow2, Nat2N.inj_succ, N.pow_succ_r'.
    now rewrite N.mul_comm, N.div_mul.
Qed.

Lemma gf_mul_pow2 i a : (i < 128)%nat -> a ⊗ 2 ^ N.of_nat i = xpow i a.
Proof. apply gf_mul_n_pow2. Qed.

Lemma gf_mul_xpow_l i a b : xpow i a ⊗ b = xpow i (a ⊗ b).
Proof.
  induction i as [|i IH]; [reflexivity|].
  change (xpow (S i) a) with (xtime (xpow i a)).
  unfold gf_mul in *. now rewrite gf_mul_n_xtime, IH.
Qed.

Lemma gf_mul_1_l b : b < 2^128 -> 1 ⊗ b = b.
Proof.
  apply (linear_ext 128 (fun b => 1 ⊗ b) (fun b => b)); intros i Hi.
  now rewrite gf_mul_pow2, xpow_1.
Qed.

Lemma gf_mul_1_r a : a ⊗ 1 = a.
Proof. exact (gf_mul_pow2 0 a ltac:(lia)). Qed.

(** ** Commutativity and associativity *)

Lemma gf_mul_comm a b : a < 2^128 -> b < 2^128 -> a ⊗ b = b ⊗ a.
Proof.
  intros Ha Hb. revert a Ha.
  apply (linear_ext 128 (fun a => a ⊗ b) (fun a => b ⊗ a)); intros i Hi.
  rewrite gf_mul_pow2 by exact Hi.
  now rewrite <- xpow_1, gf_mul_xpow_l, gf_mul_1_l.
Qed.

Lemma gf_mul_xpow_r i a b :
  a < 2^128 -> b < 2^128 -> a ⊗ xpow i b = xpow i (a ⊗ b).
Proof.
  intros. rewrite gf_mul_comm, gf_mul_xpow_l by auto with bits.
  now rewrite (gf_mul_comm b).
Qed.

Lemma gf_mul_assoc a b c :
  a < 2^128 -> b < 2^128 -> c < 2^128 -> a ⊗ b ⊗ c = a ⊗ (b ⊗ c).
Proof.
  intros Ha Hb. revert c.
  apply (linear_ext 128 (fun c => a ⊗ b ⊗ c) (fun c => a ⊗ (b ⊗ c))); intros i Hi.
  now rewrite !gf_mul_pow2, gf_mul_xpow_r.
Qed.
