(* ===== verification/FieldCode.v ===== *)
(** * [F2128.mul] computes the GF(2^128) product

    Karatsuba on the 64-bit halves gives the 256-bit carry-less product;
    the shift-based reduction is linear, so it is determined by its value on
    the 128 powers of two, which are checked by computation. *)

From S2P Require Import Prelude Block128 GF128.

Local Open Scope N_scope.

(** ** Carry-less products *)

(** [clmul] by recursion on a number of bits. *)
Fixpoint clmul_n (n : nat) (a b : N) : N :=
  match n with
  | O => 0
  | S k => (if N.testbit a 0 then b else 0) ⊕ N.shiftl (clmul_n k (N.shiftr a 1) b) 1
  end.

Lemma clmul_step a b :
  clmul a b = (if N.testbit a 0 then b else 0) ⊕ N.shiftl (clmul (N.shiftr a 1) b) 1.
Proof.
  destruct a as [|[p|p|]]; try reflexivity.
  cbn. now rewrite N.lxor_0_r.
Qed.

Lemma clmul_clmul_n n a b : a < 2 ^ N.of_nat n -> clmul a b = clmul_n n a b.
Proof.
  revert a; induction n as [|n IH]; intros a Ha.
  - now replace a with 0 by (cbn in Ha; lia).
  - rewrite clmul_step. cbn [clmul_n]. do 2 f_equal. apply IH, shiftr_lt.
    now replace (N.of_nat n + 1) with (N.of_nat (S n)) by lia.
Qed.

Lemma clmul_n_linear_l n f b : Linear f -> Linear (fun a => clmul_n n (f a) b).
Proof.
  revert f; induction n as [|n IH]; intros f Hf; cbn [clmul_n]; [exact _|].
  apply linear_add; [exact _|]. apply linear_shiftl.
  apply (IH (fun a => N.shiftr (f a) 1)); exact _.
Qed.

Lemma clmul_n_linear_r n f a : Linear f -> Linear (fun b => clmul_n n a (f b)).
Proof.
  revert a; induction n as [|n IH]; intros a Hf; cbn [clmul_n]; exact _.
Qed.

Lemma below_pow2 a : a < 2 ^ N.of_nat (N.to_nat (N.size a)).
Proof. rewrite N2Nat.id. apply N.size_gt. Qed.

#[export] Instance linear_clmul_r f a : Linear f -> Linear (fun b => clmul a (f b)).
Proof.
  intros Hf b c. rewrite !(clmul_clmul_n _ _ _ (below_pow2 a)).
  now apply (clmul_n_linear_r _ f a Hf).
Qed.

#[export] Instance linear_clmul_l f b : Linear f -> Linear (fun a => clmul (f a) b).
Proof.
  intros Hf a c. set (w := N.max (N.size (f a)) (N.size (f c))).
  assert (Hle : forall x, N.size x <= w -> x < 2 ^ N.of_nat (N.to_nat w)).
  { intros x Hx. rewrite N2Nat.id. eapply N.lt_le_trans; [apply N.size_gt|].
    apply N.pow_le_mono_r; lia. }
  assert (Ha : f a < 2 ^ N.of_nat (N.to_nat w)) by (apply Hle; lia).
  assert (Hc : f c < 2 ^ N.of_nat (N.to_nat w)) by (apply Hle; lia).
  rewrite Hf, !(clmul_clmul_n (N.to_nat w)) by auto using lxor_lt.
  apply (clmul_n_linear_l _ (fun x => x) b linear_id).
Qed.

#[export] Instance linear_clmul a : Linear (clmul a).
Proof. exact (linear_clmul_r _ a linear_id). Qed.

Lemma clmul_distr_l a b c : clmul a (b ⊕ c) = clmul a b ⊕ clmul a c.
Proof. exact (linear_clmul_r (fun x => x) a linear_id b c). Qed.

Lemma clmul_distr_r a b c : clmul (a ⊕ b) c = clmul a c ⊕ clmul b c.
Proof. exact (linear_clmul_l (fun x => x) c linear_id a b). Qed.

Lemma clmul_shiftl_l a b k : clmul (N.shiftl a k) b = N.shiftl (clmul a b) k.
Proof.
  induction k as [|k IH] using N.peano_ind; [now rewrite !N.shiftl_0_r|].
  rewrite !N.shiftl_succ_r, clmul_step, <- N.div2_spec, N.div2_double, N.testbit_even_0.
  rewrite N.lxor_0_l, IH, N.shiftl_mul_pow2. apply N.mul_comm.
Qed.

Lemma clmul_shiftl_r a b k : clmul a (N.shiftl b k) = N.shiftl (clmul a b) k.
Proof.
  rewrite !(clmul_clmul_n _ _ _ (below_pow2 a)).
  generalize (N.to_nat (N.size a)). intros n; revert a.
  induction n as [|n IH]; intros a; cbn [clmul_n]; [now rewrite N.shiftl_0_l|].
  rewrite IH, N.shiftl_lxor, !N.shiftl_shiftl, (N.add_comm k). f_equal.
  destruct N.testbit; [reflexivity | now rewrite N.shiftl_0_l].
Qed.

Lemma shiftl_lt a k w : a < 2 ^ w -> N.shiftl a k < 2 ^ (w + k).
Proof.
  intros Ha. rewrite N.shiftl_mul_pow2, N.pow_add_r.
  apply N.mul_lt_mono_pos_r; [apply N.neq_0_lt_0, N.pow_nonzero; lia | exact Ha].
Qed.

Lemma pow2_weaken a v w : a < 2 ^ v -> v <= w -> a < 2 ^ w.
Proof. intros Ha Hw. eapply N.lt_le_trans; [exact Ha|]. now apply N.pow_le_mono_r. Qed.

Lemma clmul_n_lt n a b w : b < 2 ^ w -> clmul_n n a b < 2 ^ (w + N.of_nat n).
Proof.
  intros Hb. revert a. induction n as [|n IH]; intros a; cbn [clmul_n].
  - apply N.neq_0_lt_0, N.pow_nonzero; lia.
  - apply lxor_lt.
    + destruct N.testbit; [eapply pow2_weaken; [exact Hb | lia]|].
      apply N.neq_0_lt_0, N.pow_nonzero; lia.
    + eapply pow2_weaken; [apply shiftl_lt, IH | lia].
Qed.

Lemma clmul64_lt a b : a < 2 ^ 64 -> b < 2 ^ 64 -> clmul a b < 2^128.
Proof.
  intros Ha Hb. rewrite (clmul_clmul_n 64) by exact Ha.
  exact (clmul_n_lt 64 a b 64 Hb).
Qed.

(** ** Linearity of the register operations *)

Lemma linear_map_lanes w k g f :
  Linear g -> Linear f -> Linear (fun x => map_lanes w k g (f x)).
Proof.
  intros Hg. revert f; induction k as [|k IH]; intros f Hf; cbn [map_lanes]; [exact _|].
  apply linear_add; [apply (linear_comp g (fun x => wrap w (f x))); exact _|].
  apply linear_shiftl, (IH (fun x => N.shiftr (f x) w)); exact _.
Qed.

#[export] Instance linear_slli_epi32 f n :
  Linear f -> Linear (fun x => mm_slli_epi32 (f x) n).
Proof. intros Hf. apply linear_map_lanes; exact _. Qed.

#[export] Instance linear_srli_epi32 f n :
  Linear f -> Linear (fun x => mm_srli_epi32 (f x) n).
Proof. intros Hf. apply linear_map_lanes; exact _. Qed.

#[export] Instance linear_lane f w i : Linear f -> Linear (fun x => lane w i (f x)).
Proof. intros Hf. unfold lane. exact _. Qed.

#[export] Instance linear_lane0 w i : Linear (lane w i).
Proof. exact (linear_lane _ w i linear_id). Qed.

#[export] Instance linear_shuffle f imm :
  Linear f -> Linear (fun x => mm_shuffle_epi32 (f x) imm).
Proof. intros Hf. unfold mm_shuffle_epi32. exact _. Qed.

(** ** The reduction *)

(** The second half of [F2128.mul], from [tmp3] and [tmp6] on. *)
Definition reduce (tmp3 tmp6 : N) : N :=
  let XMMMASK := mm_setr_epi32 (2 ^ 32 - 1) 0 0 0 in
  let tmp7 := mm_srli_epi32 tmp6 31 in
  let tmp8 := mm_srli_epi32 tmp6 30 in
  let tmp9 := mm_srli_epi32 tmp6 25 in
  let tmp7 := mm_xor_si128 tmp7 tmp8 in
  let tmp7 := mm_xor_si128 tmp7 tmp9 in
  let tmp8 := mm_shuffle_epi32 tmp7 147 in
  let tmp7 := mm_and_si128 XMMMASK tmp8 in
  let tmp8 := mm_andnot_si128 XMMMASK tmp8 in
  let tmp3 := mm_xor_si128 tmp3 tmp8 in
  let tmp6 := mm_xor_si128 tmp6 tmp7 in
  let tmp10 := mm_slli_epi32 tmp6 1 in
  let tmp3 := mm_xor_si128 tmp3 tmp10 in
  let tmp11 := mm_slli_epi32 tmp6 2 in
  let tmp3 := mm_xor_si128 tmp3 tmp11 in
  let tmp12 := mm_slli_epi32 tmp6 7 in
  let tmp3 := mm_xor_si128 tmp3 tmp12 in
  mm_xor_si128 tmp6 tmp3.

Lemma reduce_split lo hi : reduce lo hi = lo ⊕ reduce 0 hi.
Proof.
  unfold reduce, mm_xor_si128. cbv zeta. lxor_ring.
Qed.

(** The bits that the shifts by 1, 2 and 7 push out of each doubleword. *)
Definition carries (hi : N) : N :=
  mm_shuffle_epi32 (mm_srli_epi32 hi 31 ⊕ mm_srli_epi32 hi 30 ⊕ mm_srli_epi32 hi 25) 147.

Definition folded (hi : N) : N :=
  hi ⊕ N.land (mm_setr_epi32 (2 ^ 32 - 1) 0 0 0) (carries hi).

Lemma reduce_0 hi :
  reduce 0 hi =
  folded hi ⊕ (N.ldiff (carries hi) (mm_setr_epi32 (2 ^ 32 - 1) 0 0 0)
    ⊕ mm_slli_epi32 (folded hi) 1 ⊕ mm_slli_epi32 (folded hi) 2
    ⊕ mm_slli_epi32 (folded hi) 7).
Proof. reflexivity. Qed.

#[export] Hint Opaque carries folded reduce clmul_n : typeclass_instances.

#[export] Instance linear_carries f : Linear f -> Linear (fun h => carries (f h)).
Proof. intros Hf. unfold carries. exact _. Qed.

#[export] Instance linear_folded f : Linear f -> Linear (fun h => folded (f h)).
Proof. intros Hf. unfold folded. exact _. Qed.

#[export] Instance linear_carries0 : Linear carries.
Proof. exact (linear_carries _ linear_id). Qed.

#[export] Instance linear_folded0 : Linear folded.
Proof. exact (linear_folded _ linear_id). Qed.

Lemma linear_reduce : Linear (fun h => reduce 0 h).
Proof.
  intros a b. rewrite !reduce_0. revert a b.
  change (Linear (fun hi => folded hi ⊕
    (N.ldiff (carries hi) (mm_setr_epi32 (2 ^ 32 - 1) 0 0 0)
     ⊕ mm_slli_epi32 (folded hi) 1 ⊕ mm_slli_epi32 (folded hi) 2
     ⊕ mm_slli_epi32 (folded hi) 7))).
  exact _.
Qed.

(** [reduce 0 (2^i)] against [x^(128+i)], the powers computed in one pass. *)
Fixpoint reduce_table (n : nat) (i v : N) : bool :=
  match n with
  | O => true
  | S k => (reduce 0 (2 ^ i) =? v) && reduce_table k (i + 1) (xtime v)
  end.

Lemma reduce_table_ok : reduce_table 128 0 0x87 = true.
Proof. vm_compute. reflexivity. Qed.

Lemma reduce_table_sound n i v j :
  reduce_table n i v = true -> (j < n)%nat ->
  reduce 0 (2 ^ (i + N.of_nat j)) = xpow j v.
Proof.
  revert i v j; induction n as [|n IH]; intros i v j Ht Hj; [lia|].
  cbn [reduce_table] in Ht. apply andb_true_iff in Ht as [Hv Ht].
  destruct j as [|j].
  - rewrite N.add_0_r. now apply N.eqb_eq.
  - rewrite xpow_S, <- (IH _ _ _ Ht) by lia. do 2 f_equal. lia.
Qed.

Lemma reduce_pow2 i : (i < 128)%nat -> reduce 0 (2 ^ N.of_nat i) = xpow (128 + i) 1.
Proof.
  intros Hi. rewrite Nat.add_comm, xpow_add.
  exact (reduce_table_sound 128 0 0x87 i reduce_table_ok Hi).
Qed.

(** ** Karatsuba *)

Lemma quadwords a : a < 2^128 -> a = lane 64 0 a ⊕ N.shiftl (lane 64 1 a) 64.
Proof.
  intros Ha. refine (linear_ext_basis 128 (fun a => a)
    (fun a => lane 64 0 a ⊕ N.shiftl (lane 64 1 a) 64) _ a Ha).
  vm_compute. reflexivity.
Qed.

Lemma shuffle_fold a :
  a < 2^128 -> lane 64 0 (mm_shuffle_epi32 a 78 ⊕ a) = lane 64 0 a ⊕ lane 64 1 a.
Proof.
  intros Ha. refine (linear_ext_basis 128 (fun a => lane 64 0 (mm_shuffle_epi32 a 78 ⊕ a))
    (fun a => lane 64 0 a ⊕ lane 64 1 a) _ a Ha).
  vm_compute. reflexivity.
Qed.

(** A left shift cut at bit [w], and what is cut off. *)
Lemma shiftl_cut m k w :
  k <= w -> wrap w (N.shiftl m k) ⊕ N.shiftl (N.shiftr m (w - k)) w = N.shiftl m k.
Proof.
  intros Hk. bitwise i.
  destruct (N.ltb_spec i w).
  - rewrite (N.shiftl_spec_low _ w) by assumption.
    now rewrite andb_true_r, xorb_false_r.
  - rewrite andb_false_r, xorb_false_l, !N.shiftl_spec_high', N.shiftr_spec' by lia.
    f_equal; lia.
Qed.

(** [tmp3] and [tmp6] at the end of the Karatsuba step. *)
Definition kara (a b : N) : N * N :=
  let ll := clmul (lane 64 0 a) (lane 64 0 b) in
  let hh := clmul (lane 64 1 a) (lane 64 1 b) in
  let mid := clmul (lane 64 0 a ⊕ lane 64 1 a) (lane 64 0 b ⊕ lane 64 1 b) ⊕ ll ⊕ hh in
  (ll ⊕ wrap 128 (N.shiftl mid 64), hh ⊕ N.shiftr mid 64).

Lemma mul_kara a b :
  a < 2^128 -> b < 2^128 ->
  F2128.mul a b = reduce (fst (kara a b)) (snd (kara a b)).
Proof.
  intros Ha Hb. unfold kara. cbv zeta.
  rewrite <- (shuffle_fold a Ha), <- (shuffle_fold b Hb). reflexivity.
Qed.

Lemma lane64_lt i a : lane 64 i a < 2 ^ 64.
Proof. apply wrap_lt. Qed.

Lemma kara_bounds a b : fst (kara a b) < 2^128 /\ snd (kara a b) < 2^128.
Proof.
  pose proof (lane64_lt 0 a). pose proof (lane64_lt 1 a).
  pose proof (lane64_lt 0 b). pose proof (lane64_lt 1 b).
  cbn [kara fst snd]; split.
  - apply (lxor_lt _ _ 128); [now apply clmul64_lt | apply wrap_lt].
  - apply (lxor_lt _ _ 128); [now apply clmul64_lt|].
    apply (pow2_weaken _ 64); [|discriminate]. apply shiftr_lt.
    repeat apply (lxor_lt _ _ 128); apply clmul64_lt; auto using lxor_lt.
Qed.

Lemma kara_clmul a b :
  a < 2^128 -> b < 2^128 ->
  fst (kara a b) ⊕ N.shiftl (snd (kara a b)) 128 = clmul a b.
Proof.
  intros Ha Hb. rewrite (quadwords a Ha) at 3. rewrite (quadwords b Hb) at 3.
  unfold kara; cbn [fst snd]. cbv zeta.
  set (a0 := lane 64 0 a). set (a1 := lane 64 1 a).
  set (b0 := lane 64 0 b). set (b1 := lane 64 1 b).
  rewrite (N.shiftl_lxor _ (N.shiftr _ 64) 128), lxor_shuffle.
  rewrite (shiftl_cut _ 64 128) by discriminate.
  rewrite !clmul_distr_l, !clmul_distr_r, !clmul_shiftl_l, !clmul_shiftl_r.
  rewrite !N.shiftl_lxor, !N.shiftl_shiftl.
  change (64 + 64) with 128. lxor_ring.
Qed.

(** ** The SIMD product is the field product *)

Lemma gf_mul_n_stop n m a b :
  b < 2 ^ N.of_nat n -> (n <= m)%nat -> gf_mul_n m a b = gf_mul_n n a b.
Proof.
  intros Hb Hm. revert b Hb. apply linear_ext; [exact _..|].
  intros i Hi. rewrite !gf_mul_n_pow2; auto; lia.
Qed.

Lemma reduce_spec lo hi :
  lo < 2^128 -> hi < 2^128 -> reduce lo hi = gf_mul_n 256 1 (lo ⊕ N.shiftl hi 128).
Proof.
  intros Hlo Hhi. rewrite reduce_split.
  rewrite (gf_mul_n_linear_r 256 (fun b => b) 1 linear_id).
  rewrite (gf_mul_n_stop 128 256) by (assumption || lia).
  fold (gf_mul 1 lo). rewrite gf_mul_1_l by assumption. f_equal.
  refine (linear_ext 128 (fun h => reduce 0 h)
    (fun h => gf_mul_n 256 1 (N.shiftl h 128)) (H := linear_reduce)
    (H0 := gf_mul_n_linear_r 256 _ 1 (linear_shiftl _ 128 linear_id)) _ hi Hhi).
  intros i Hi. cbn beta. rewrite reduce_pow2 by assumption.
  rewrite N.shiftl_mul_pow2, <- N.pow_add_r.
  replace (N.of_nat i + 128) with (N.of_nat (128 + i)) by lia.
  symmetry; apply gf_mul_n_pow2; lia.
Qed.

Lemma gf_mul_clmul a b :
  a < 2^128 -> b < 2^128 -> gf_mul_n 256 1 (clmul a b) = a ⊗ b.
Proof.
  intros Ha Hb. revert a Ha.
  apply (linear_ext 128 (fun a => gf_mul_n 256 1 (clmul a b)) (fun a => a ⊗ b)).
  intros i Hi. revert b Hb.
  apply (linear_ext 128 (fun b => gf_mul_n 256 1 (clmul (2 ^ N.of_nat i) b))
           (fun b => 2 ^ N.of_nat i ⊗ b)).
  intros j Hj. rewrite gf_mul_pow2 by assumption.
  rewrite <- (xpow_1 i Hi) at 2. rewrite <- xpow_add.
  replace (2 ^ N.of_nat i) with (N.shiftl 1 (N.of_nat i))
    by (rewrite N.shiftl_mul_pow2; apply N.mul_1_l).
  rewrite clmul_shiftl_l. change (clmul 1 ?x) with x.
  rewrite N.shiftl_mul_pow2, <- N.pow_add_r.
  replace (N.of_nat j + N.of_nat i) with (N.of_nat (j + i)) by lia.
  apply gf_mul_n_pow2; lia.
Qed.

Lemma mul_gf_mul a b : a < 2^128 -> b < 2^128 -> F2128.mul a b = a ⊗ b.
Proof.
  intros Ha Hb. rewrite mul_kara by assumption.
  destruct (kara_bounds a b). rewrite reduce_spec by assumption.
  rewrite kara_clmul by assumption. now apply gf_mul_clmul.
Qed.
