(* ===== verification/FieldInverse.v ===== *)
(** * Inversion in GF(2^128), and the register shifts

    [F2128.inv] raises to the power [2^128 - 2].  That this inverts every
    non-zero element rests on two facts about the reduction polynomial,
    both reduced to a computation on a basis by linearity: squaring 128
    times is the identity, and the only idempotents are 0 and 1 (Berlekamp's
    irreducibility criterion). *)

From S2P Require Import Prelude Block128 GF128 FieldCode.

Local Open Scope N_scope.

(** ** Squaring *)

#[local] Strategy 1000 [gf_mul gf_mul_n xtime F2128.mul].

Definition sqr (a : N) : N := a ⊗ a.
Definition sqrn (k : nat) (a : N) : N := Nat.iter k sqr a.

Lemma sqr_lt a : a < 2^128 -> sqr a < 2^128.
Proof. apply gf_mul_lt. Qed.

Lemma sqrn_lt k a : a < 2^128 -> sqrn k a < 2^128.
Proof. intros Ha; induction k; [exact Ha | now apply sqr_lt]. Qed.

#[export] Hint Resolve sqr_lt sqrn_lt : bits.

Lemma sqr_lxor a b : a < 2^128 -> b < 2^128 -> sqr (a ⊕ b) = sqr a ⊕ sqr b.
Proof.
  intros Ha Hb. unfold sqr. rewrite gf_mul_distr_l, !gf_mul_distr_r.
  rewrite (gf_mul_comm b a) by assumption. lxor_ring.
Qed.

Lemma sqr_mul a b : a < 2^128 -> b < 2^128 -> sqr (a ⊗ b) = sqr a ⊗ sqr b.
Proof.
  intros Ha Hb. unfold sqr.
  rewrite !gf_mul_assoc by auto with bits. f_equal.
  rewrite <- !gf_mul_assoc by auto with bits. now rewrite (gf_mul_comm b a).
Qed.

Lemma sqrn_mul k a b :
  a < 2^128 -> b < 2^128 -> sqrn k (a ⊗ b) = sqrn k a ⊗ sqrn k b.
Proof.
  intros Ha Hb. induction k as [|k IH]; [reflexivity|].
  change (sqr (sqrn k (a ⊗ b)) = sqr (sqrn k a) ⊗ sqr (sqrn k b)).
  rewrite IH. apply sqr_mul; auto with bits.
Qed.

(** [sqr] is linear on blocks; composing with [wrap 128] makes it linear on
    all of [N]. *)
#[export] Instance linear_sqr : Linear (fun a => sqr (wrap 128 a)).
Proof.
  intros a b. rewrite linear_lxor. apply sqr_lxor; apply (wrap_lt 128).
Qed.

Lemma linear_sqrn k : Linear (fun a => sqrn k (wrap 128 a)).
Proof.
  induction k as [|k IH]; [exact _|]. intros a b.
  change (sqr (sqrn k (wrap 128 (a ⊕ b)))
          = sqr (sqrn k (wrap 128 a)) ⊕ sqr (sqrn k (wrap 128 b))).
  rewrite (IH a b). apply sqr_lxor; apply sqrn_lt, (wrap_lt 128).
Qed.

(** ** Fermat: [a^(2^128) = a] *)

Lemma xtime_mul a : a < 2^128 -> xtime a = 2 ⊗ a.
Proof.
  intros Ha. rewrite (gf_mul_comm 2 a) by (assumption || reflexivity).
  exact (eq_sym (gf_mul_pow2 1 a ltac:(lia))).
Qed.

Lemma sqrn_x : sqrn 128 2 = 2.
Proof. vm_compute. reflexivity. Qed.

Lemma sqrn_pow2 i : (i < 128)%nat -> sqrn 128 (2 ^ N.of_nat i) = 2 ^ N.of_nat i.
Proof.
  intros Hi. rewrite <- (xpow_1 i Hi). clear Hi.
  induction i as [|i IH]; [vm_compute; reflexivity|].
  change (xpow (S i) 1) with (xtime (xpow i 1)).
  rewrite xtime_mul by (apply xpow_lt; reflexivity).
  rewrite sqrn_mul by (reflexivity || (apply xpow_lt; reflexivity)).
  now rewrite sqrn_x, IH.
Qed.

Lemma fermat a : a < 2^128 -> sqrn 128 a = a.
Proof.
  intros Ha. rewrite <- (wrap_small 128 a Ha) at 1.
  refine (linear_ext 128 (fun a => sqrn 128 (wrap 128 a)) (fun a => a)
            (H := linear_sqrn 128) _ a Ha).
  intros i Hi. cbn beta. rewrite wrap_small; [now apply sqrn_pow2|].
  apply N.pow_lt_mono_r; lia.
Qed.

(** ** Idempotents *)

(** A linear map with [apply_table berlekamp (a^2 + a) = a], up to the
    constant coefficient of [a]. *)
Fixpoint apply_table (t : list N) (y : N) : N :=
  match t with
  | [] => 0
  | h :: r => (if N.testbit y 0 then h else 0) ⊕ apply_table r (N.shiftr y 1)
  end.

Definition berlekamp : list N := [
  0x295ac0b1f4731af9676aac9fa4b20b08;
  0xe5da5595ee970b89929959af766af404;
  0xe5da5595ee970b89929959af766af406;
  0x4e9826c74350bfe67783f7333404a20c;
  0xe5da5595ee970b89929959af766af402;
  0x2aaea79ad7da34b07dc714cb83074e6a;
  0x4e9826c74350bfe67783f7333404a204;
  0xcc8095241ae41171f5f3f531d2d9fe18;
  0xe5da5595ee970b89929959af766af412;
  0x4e983687d159ce9677cb862e8ac85b44;
  0x2aaea79ad7da34b07dc714cb83074e4a;
  0xaae2ab6aaf144aaff73fcb3c06aaff56;
  0x4e9826c74350bfe67783f7333404a244;
  0xe62f327ccd5792dd893fe9ca40603f62;
  0xcc8095241ae41171f5f3f531d2d9fe98;
  0xab52f0323f47c90be1336bc7d453b626;
  0xe5da5595ee970b89929959af766af512;
  0x2abe34bad75338b479a6a089abf4573a;
  0x4e983687d159ce9677cb862e8ac85944;
  0x1e8ccb9dcc72f2e1a9cbef8232562fc;
  0x2aaea79ad7da34b07dc714cb83074a4a;
  0x2442c3221f3dc1a0ce869b24a80e48c;
  0xaae2ab6aaf144aaff73fcb3c06aaf756;
  0xcf64612f39c4323deb3ff936dd9aa228;
  0x4e9826c74350bfe67783f7333404b244;
  0xcc911696880d4909f0d5382a57572458;
  0xe62f327ccd5792dd893fe9ca40601f62;
  0x4d7cd7cc29d28cf2697f6478e5db2834;
  0xcc8095241ae41171f5f3f531d2d9be98;
  0xccc99127569146a7fc0956ca1a5b86a4;
  0xab52f0323f47c90be1336bc7d4533626;
  0x65cece94dacd5b1c14f5986b001eeb82;
  0xe5da5595ee970b89929959af766bf512;
  0x2b0e7fa2d509ca746fe27169c7c3e73a;
  0x2abe34bad75338b479a6a089abf6573a;
  0x65df4d264824132411d3553885980142;
  0x4e983687d159ce9677cb862e8acc5944;
  0xcf74f70e70ef2af7ef6fd21d2af671a4;
  0x1e8ccb9dcc72f2e1a9cbef8232d62fc;
  0xcec4b9173b16cdf9f91a9d8499490f58;
  0x2aaea79ad7da34b07dc714cb83174a4a;
  0x83f16f99175f624799a6cf206b513bdc;
  0x2442c3221f3dc1a0ce869b24aa0e48c;
  0x3f562a96a2aa9081b9e27ebe84671c0;
  0xaae2ab6aaf144aaff73fcb3c06eaf756;
  0xccc9c07ae11bcce3fcd6d526cddeebd4;
  0xcf64612f39c4323deb3ff936dd1aa228;
  0xa95fc803c09556f7e461dfebe8467196;
  0x4e9826c74350bfe67783f7333504b244;
  0x4cdc1ab0f0ab5b2e7b20ee03c15c7384;
  0xcc911696880d4909f0d5382a55572458;
  0xaaba68961da11d79fb48c8c7fe68cf6a;
  0xe62f327ccd5792dd893fe9ca44601f62;
  0xe5db5416ee209847938b5c70638d3bee;
  0x4d7cd7cc29d28cf2697f6478eddb2834;
  0x6437818b95e2e76e0b49fa26a7e512ce;
  0xcc8095241ae41171f5f3f531c2d9be98;
  0x4cd9020746184ba27868a299022ddf34;
  0xccc99127569146a7fc0956ca3a5b86a4;
  0x824171dcefbe4a8b8f1d24e407e8e76c;
  0xab52f0323f47c90be1336bc794533626;
  0xe62e22af1f6bf32b88711e202cdc3b5e;
  0x65cece94dacd5b1c14f5986b801eeb82;
  0x83f4672b23a92e499aadb85427b54520;
  0xe5da5595ee970b89929959ae766bf512;
  0x1040920971720048711dbeccf94c;
  0x2b0e7fa2d509ca746fe2716bc7c3e73a;
  0x81edd40a7a7437cb99d6b267d0d7976c;
  0x2abe34bad75338b479a6a08dabf6573a;
  0xe46a1e8deccdf96d84dd884d1a5d4462;
  0x65df4d264824132411d3553085980142;
  0x804c1cb1eac70f698ab1aeeb3a605920;
  0x4e983687d159ce9677cb863e8acc5944;
  0xa94f4b3252499e01e04514377dbd55aa;
  0xcf74f70e70ef2af7ef6fd23d2af671a4;
  0xe7d77da5831189d3978a93f3f56f619e;
  0x1e8ccb9dcc72f2e1a9cbeb8232d62fc;
  0x4cdd0f362b68e52a7a5109eab0a16ef4;
  0xcec4b9173b16cdf9f91a9d0499490f58;
  0xe4329c3d7bf233698830781e88d05912;
  0x2aaea79ad7da34b07dc715cb83174a4a;
  0x82082082597387418618bcbfcff334e0;
  0x83f16f99175f624799a6cd206b513bdc;
  0x294b124ed1181a846297e291f4adcc3a;
  0x2442c3221f3dc1a0ce86db24aa0e48c;
  0xe78fff41144664939b696b666550119e;
  0x3f562a96a2aa9081b9e2febe84671c0;
  0xcd78dbfd54a1436beb568d9e63d55a14;
  0xaae2ab6aaf144aaff73fdb3c06eaf756;
  0xccdd4e7b1ce38d0ffacabbbeed722b64;
  0xccc9c07ae11bcce3fcd6f526cddeebd4;
  0x3e5e1ccb1bf89c61fb4754fa43bbf3c;
  0xcf64612f39c4323deb3fb936dd1aa228;
  0xe5da00893461b455926f68f4172caea2;
  0xa95fc803c09556f7e4615febe8467196;
  0xe78ae2a77b3e87b1981cf1dccb9d1fd2;
  0x4e9826c74350bfe67782f7333504b244;
  0x2912d4222a675b0a6fd777b6c15f72c6;
  0x4cdc1ab0f0ab5b2e7b22ee03c15c7384;
  0xe7d6682e58d237f196f8740f85956fd2;
  0xcc911696880d4909f0d1382a55572458;
  0xab4366b0764a0b4be46143c933474626;
  0xaaba68961da11d79fb40c8c7fe68cf6a;
  0xe7d77d718378aeb397849bb7f7de0d9e;
  0xe62f327ccd5792dd892fe9ca44601f62;
  0x64231d9efb5729d60d13f9bd382e380e;
  0xe5db5416ee20984793ab5c70638d3bee;
  0x81b51ab7a5fe1499959811bd9a557220;
  0x4d7cd7cc29d28cf2693f6478eddb2834;
  0x295ab4bb43072c12678a4ee975a08406;
  0x6437818b95e2e76e0bc9fa26a7e512ce;
  0xab0eead38eb165ebef9e1acd25989a26;
  0xcc8095241ae41171f4f3f531c2d9be98;
  0x3ba7996db230c0010185b9b29b00000;
  0x4cd9020746184ba27a68a299022ddf34;
  0x8210932010890d058261f45338765990;
  0xccc99127569146a7f80956ca3a5b86a4;
  0x2a88e0fbb92f0c2c7f14722e3db361fa;
  0x824171dcefbe4a8b871d24e407e8e76c;
  0x29b11e87b8989fd86fb067f47d17578a;
  0xab52f0323f47c90bf1336bc794533626;
  0x0;
  0xe62e22af1f6bf32ba8711e202cdc3b5e;
  0x862e22af1f6bf32ba8711e202cdc3b6c;
  0x65cece94dacd5b1c54f5986b801eeb82;
  0x8e8cbdc6770aef73b1ef36f7c270bdac;
  0x83f4672b23a92e491aadb85427b54520;
  0x38b21c09fae1613c0db7ed8c3891e6fa].

Lemma linear_apply_table t f : Linear f -> Linear (fun y => apply_table t (f y)).
Proof.
  revert f; induction t as [|h t IH]; intros f Hf; cbn [apply_table]; [exact _|].
  apply linear_add; [exact _ | apply (IH (fun y => N.shiftr (f y) 1)); exact _].
Qed.

Lemma berlekamp_spec a :
  a < 2^128 -> apply_table berlekamp (sqr a ⊕ a) = N.ldiff a 1.
Proof.
  intros Ha. rewrite <- (wrap_small 128 a Ha) at 1.
  refine (linear_ext_basis 128
    (fun a => apply_table berlekamp (sqr (wrap 128 a) ⊕ a)) (fun a => N.ldiff a 1)
    (H := linear_apply_table berlekamp _ _) _ a Ha).
  vm_compute. reflexivity.
Qed.

Lemma idempotent_01 e : e < 2^128 -> sqr e = e -> e = 0 \/ e = 1.
Proof.
  intros He Hi. pose proof (berlekamp_spec e He) as H.
  rewrite Hi, N.lxor_nilpotent in H.
  rewrite (linear_0 _ (H := linear_apply_table berlekamp _ linear_id)) in H.
  assert (Hb : forall i, i <> 0 -> N.testbit e i = false).
  { intros i Hne. apply (f_equal (fun x => N.testbit x i)) in H.
    rewrite N.bits_0, N.ldiff_spec in H. change 1 with (2 ^ 0) in H.
    rewrite N.pow2_bits_false in H by auto. now rewrite andb_true_r in H. }
  assert (e < 2 ^ 1) by (apply lt_pow2_bits; intros i Hi1; apply Hb; lia).
  change (2 ^ 1) with 2 in *. lia.
Qed.

(** ** The inverse *)

Lemma inv_round_gf a c :
  a < 2^128 -> c < 2^128 -> F2128.inv_round a c = sqr (c ⊗ a).
Proof.
  intros Ha Hc. unfold F2128.inv_round, sqr. cbv zeta.
  rewrite (mul_gf_mul c a) by assumption. apply mul_gf_mul; auto with bits.
Qed.

Lemma inv_rounds_spec n a :
  a < 2^128 ->
  let c := Nat.iter n (F2128.inv_round a) 1 in
  c < 2^128 /\ c ⊗ sqr a = sqrn (S n) a.
Proof.
  intros Ha. cbv zeta. induction n as [|n [Hlt E]].
  - split; [reflexivity|]. apply gf_mul_1_l; auto with bits.
  - rewrite Nat.iter_succ. set (c := Nat.iter n _ _) in *.
    rewrite inv_round_gf by assumption. split; [auto with bits|].
    rewrite <- sqr_mul by auto with bits. rewrite gf_mul_assoc by assumption.
    fold (sqr a). rewrite E. symmetry. apply Nat.iter_succ.
Qed.

Lemma inv_mul_gf a :
  a < 2^128 -> a <> 0 -> F2128.inv a < 2^128 /\ a ⊗ F2128.inv a = 1.
Proof.
  intros Ha Hne. unfold F2128.inv. change (makeBlock 0 1) with 1.
  destruct (inv_rounds_spec 127 a Ha) as [Hlt E]. cbv zeta in Hlt, E.
  set (c := Nat.iter 127 _ _) in *. split; [exact Hlt|].
  rewrite fermat in E by assumption.
  assert (He : a ⊗ (a ⊗ c) = a).
  { rewrite <- gf_mul_assoc by assumption. fold (sqr a).
    now rewrite gf_mul_comm by auto with bits. }
  assert (Hac : a ⊗ c < 2^128) by (apply gf_mul_lt; exact Ha).
  assert (Hid : sqr (a ⊗ c) = a ⊗ c).
  { unfold sqr. rewrite (gf_mul_comm a c) at 1 by assumption.
    rewrite (gf_mul_assoc c a (a ⊗ c)) by assumption.
    rewrite He. now apply gf_mul_comm. }
  destruct (idempotent_01 (a ⊗ c) Hac Hid) as [H0|H1]; [|exact H1].
  rewrite H0, gf_mul_0_r in He. congruence.
Qed.

(** No zero divisors. *)
Lemma gf_mul_integral a b :
  a < 2^128 -> b < 2^128 -> a ⊗ b = 0 -> a = 0 \/ b = 0.
Proof.
  intros Ha Hb H. destruct (N.eq_dec a 0) as [|Hne]; [now left | right].
  destruct (inv_mul_gf a Ha Hne) as [Hi E].
  rewrite <- (gf_mul_1_l b Hb), <- E, (gf_mul_comm a) by assumption.
  rewrite gf_mul_assoc, H by assumption. apply gf_mul_0_r.
Qed.

(** ** Register shifts *)

Lemma shiftl_bits a k i : N.testbit (N.shiftl a k) i = (k <=? i) && N.testbit a (i - k).
Proof.
  destruct (N.leb_spec k i).
  - now apply N.shiftl_spec_high'.
  - now apply N.shiftl_spec_low.
Qed.

#[local] Hint Rewrite shiftl_bits : bits.

(** The bits of the quadword shifts: the offset in the quadword decides. *)
Definition off64 (i : N) : N := if i <? 64 then i else i - 64.

Lemma slli_epi64_bits x n i :
  N.testbit (mm_slli_epi64 x n) i =
  (i <? 128) && (n <=? off64 i) && N.testbit x (i - n).
Proof.
  unfold mm_slli_epi64, off64; cbn [map_lanes]. rewrite N.shiftl_0_l, N.lxor_0_r.
  autorewrite with bits.
  destruct (N.ltb_spec i 64); nsplit.
Qed.

Lemma srli_epi64_bits x n i :
  N.testbit (mm_srli_epi64 x n) i =
  (i <? 128) && (off64 i + n <? 64) && N.testbit x (i + n).
Proof.
  unfold mm_srli_epi64, off64; cbn [map_lanes]. rewrite N.shiftl_0_l, N.lxor_0_r.
  autorewrite with bits.
  destruct (N.ltb_spec i 64); nsplit.
Qed.

#[local] Hint Rewrite slli_epi64_bits srli_epi64_bits : bits.

Lemma shift_right_bits_spec bits x :
  x < 2^128 -> F2128.shift_right_bits bits x = N.shiftr x bits.
Proof.
  intros Hx. unfold F2128.shift_right_bits, mm_srli_si128, mm_or_si128. bitwise i.
  pose proof (fun j => testbit_high x 128 j Hx) as Hhi.
  destruct (N.leb_spec 64 bits); autorewrite with bits; unfold off64;
    destruct (N.ltb_spec i 64); nsplit; rewrite ?Hhi by lia; nsplit.
Qed.

Lemma shift_left_bits_spec bits x :
  x < 2^128 -> bits <= 64 ->
  F2128.shift_left_bits bits x = wrap 128 (N.shiftl x bits).
Proof.
  intros Hx Hb. unfold F2128.shift_left_bits, mm_slli_si128, mm_or_si128. bitwise i.
  destruct (N.leb_spec 64 bits); autorewrite with bits; unfold off64;
    destruct (N.ltb_spec i 64); nsplit.
Qed.
