(* ===== verification/F2128MtA.v ===== *)
(** * OT-based multiplication over GF(2^128) ([mta/F2128MtA.hpp], [.inl])

    The routines of namespace [F2128_MTA] that the two parties run to turn a
    multiplicative sharing of the GHASH key into additive shares of all its
    powers.  Random values are arguments (the code draws them with
    [RAND_bytes]); messages are arguments of the function that reads them. *)

From S2P Require Import Prelude Block128.

Import F2128.

Module F2128_MTA.

(** ** Parameters *)

Definition use_multiplicative_shares : bool := true.
Definition num_powers : nat := 1088.
Definition k : nat := 128.
Definition s : nat := 128.
Definition l : nat :=
  Nat.b2n use_multiplicative_shares +
  (num_powers - 2) / (Nat.b2n use_multiplicative_shares + 1).
Definition batch_size : nat := 2 * (s + k).
Definition gadget_elements : nat := k + 2 * s.
Definition eta : nat := gadget_elements * l.
Definition number_of_ots : nat := 2 * batch_size.
Definition number_of_batched_ots : nat := 2 * eta.

(** [OTOutType] and [BatchedOTOutType]: the two halves of the pads. *)
Definition OTOutType : Type := list N * list N.
(** [RandomType] and [ChiType]: [chi] and [chi hat]. *)
Definition ChiType : Type := list N * list N.

(** ** Oblivious transfer

    [emp::IKNP::send] and [recv]: what the receiver obtains from the pairs
    and the choice bits. *)
Class OTChannel := ot_transfer : list N -> list N -> list bool -> list N.

(** The documented contract of a transfer: entry [i] is [m1[i]] when choice
    bit [i] is set and [m0[i]] otherwise. *)
Class OTCorrect {ot : OTChannel} : Prop :=
  ot_choice : forall m0 m1 c i,
    length m0 = length c -> length m1 = length c -> (i < length c)%nat ->
    (ot_transfer m0 m1 c).[i] = if nth i c false then m1.[i] else m0.[i].

(** ** Sub-protocols *)

Definition produce_alpha (a_tilde a_hat : list N) : list N :=
  flat_map (fun i =>
    flat_map (fun _ => [a_tilde.[i]; a_hat.[i]]) (seq 0 gadget_elements))
    (seq 0 (length a_tilde)).

(** One iteration over the bits of a block: test, add, shift right. *)
Definition dot_product_block (gadget : list N) (i : nat) (acc_curr : N * N) (j : nat) : N * N :=
  let '(dot_prod, curr) := acc_curr in
  let dot_prod := if getLSB curr then dot_prod ⊕ gadget.[i * 128 + j] else dot_prod in
  (dot_prod, shift_right_bits 1 curr).

Definition dot_product (gamma gadget : list N) : N :=
  fold_left (fun dot_prod i =>
      fst (fold_left (dot_product_block gadget i) (seq 0 128) (dot_prod, gamma.[i])))
    (seq 0 3) zero_block.

Definition produce_b (gadget beta : list N) : list N :=
  tabulate l (fun i => dot_product (skipn (3 * i) beta) gadget).

Fixpoint powers_of_two (n : nat) (curr : N) : list N :=
  match n with
  | O => []
  | S n' => curr :: powers_of_two n' (shift_left_bits 1 curr)
  end.

Definition generate_g (g_r : list N) : list N :=
  powers_of_two 128 (makeBlock 0 1) ++ g_r.

Definition encode (gamma : list N) (x : N) (gadget : list N) : list N :=
  (x ⊕ dot_product gamma gadget) :: gamma.

Definition prepare_batched_pairs (alpha batched_ts : list N) : list N * list N :=
  (batched_ts,
   flat_map (fun i => [alpha.[i] ⊕ batched_ts.[i]; alpha.[i + 1] ⊕ batched_ts.[i + 1]])
     (for_step 0 number_of_batched_ots 2)).

Definition prepare_pairs (alpha alpha_hat : N) (ts : list N) : list N * list N :=
  (ts,
   flat_map (fun i => [alpha ⊕ ts.[i]; alpha_hat ⊕ ts.[i + 1]])
     (for_step 0 number_of_ots 2)).

Definition get_sender_out (ts : list N) : OTOutType :=
  (tabulate batch_size (fun i => ts.[2 * i]),
   tabulate batch_size (fun i => ts.[2 * i + 1])).

Definition get_sender_batched_out (ts : list N) : OTOutType :=
  (tabulate (number_of_batched_ots / 2) (fun i => ts.[2 * i]),
   tabulate (number_of_batched_ots / 2) (fun i => ts.[2 * i + 1])).

(** The lambda [extract_from]: each of the 64 bits, twice. *)
Fixpoint extract_from (n : nat) (val : N) : list bool :=
  match n with
  | O => []
  | S n' => N.testbit val 0 :: N.testbit val 0 :: extract_from n' (N.shiftr val 1)
  end.

(** [memcpy] of a block into [uint64_t[2]] on a little-endian machine. *)
Definition block_choice_bits (blk : N) : list bool :=
  extract_from 64 (lane 64 0 blk) ++ extract_from 64 (lane 64 1 blk).

Definition get_choice_bits (omega : list N) : list bool :=
  flat_map block_choice_bits omega.

Definition get_batched_choice_bits (beta : list N) : list bool :=
  flat_map block_choice_bits beta.

Definition play_batched_receiver `{OTChannel} (m0 m1 : list N) (omega : list bool) : OTOutType :=
  let tmp_ot := ot_transfer m0 m1 omega in
  (tabulate (number_of_batched_ots / 2) (fun i => tmp_ot.[2 * i]),
   tabulate (number_of_batched_ots / 2) (fun i => tmp_ot.[2 * i + 1])).

Definition play_receiver `{OTChannel} (m0 m1 : list N) (omega : list bool) : OTOutType :=
  let tmp_ot := ot_transfer m0 m1 omega in
  (tabulate (number_of_ots / 2) (fun i => tmp_ot.[2 * i]),
   tabulate (number_of_ots / 2) (fun i => tmp_ot.[2 * i + 1])).

(** The exchange of challenges: both parties end with the sender's values in
    slot 0 and the receiver's in slot 1. *)
Definition generate_batched_randomness (sender : bool) (randomness received : list N) : ChiType :=
  if sender then (randomness, received) else (received, randomness).

(** ** Consistency checks *)

(** The message of the batched sender: [r[2i]] is the combination of its
    inputs, [r[2i+1]] that of its pads. *)
Definition prove_consistency_batched (a_tilde a_hat : list N) (t_a : OTOutType) (chi : ChiType) : list N :=
  flat_map (fun i =>
    [mul (fst chi).[i] a_tilde.[i] ⊕ mul (snd chi).[i] a_hat.[i];
     lxor_sum l (fun j =>
       mul (fst chi).[i] (fst t_a).[j * gadget_elements + i] ⊕
       mul (snd chi).[i] (snd t_a).[j * gadget_elements + i])])
    (seq 0 gadget_elements).

(** Row [i] of the receiver's check: the values of [tmp] and [rhs] after the
    inner loop. *)
Definition check_row (r : list N) (t_b : OTOutType) (chi : ChiType) (beta : list bool) (i : nat) : N * N :=
  fold_left (fun '(tmp, rhs) j =>
      let tmp := tmp ⊕ (mul (fst chi).[i] (fst t_b).[i * gadget_elements + j] ⊕
                        mul (snd chi).[i] (snd t_b).[i * gadget_elements + j]) in
      let rhs := if nth (i * gadget_elements + j) beta false then rhs ⊕ rhs else rhs in
      (tmp, rhs))
    (seq 0 l) (r.[2 * i + 1], r.[2 * i]).

Definition check_consistency_batched (r : list N) (t_b : OTOutType) (chi : ChiType) (beta : list bool) : bool :=
  fold_left (fun correct i =>
      let '(tmp, rhs) := check_row r t_b chi beta i in
      if cmpBlock [tmp] [rhs] then false else correct)
    (seq 0 gadget_elements) true.

(** ** The parties of the batched protocol *)

(** [SenderType] (the verifier) and [ReceiverType] (the prover). *)
Record SenderType := {
  a_tilde : list N; a_hat : list N; alpha : list N; pads : list N;
  pairs : list N * list N; t_a : OTOutType; s_chi : ChiType }.

Record ReceiverType := {
  beta : list N; b : list N; omega : list bool; t_b : OTOutType; r_chi : ChiType }.

(** The constructors; the arguments are the random draws. *)
Definition make_sender (a_tilde a_hat pads : list N) : SenderType :=
  let alpha := produce_alpha a_tilde a_hat in
  {| a_tilde := a_tilde; a_hat := a_hat; alpha := alpha; pads := pads;
     pairs := prepare_batched_pairs alpha pads;
     t_a := get_sender_batched_out pads; s_chi := ([], []) |}.

Definition make_receiver (gadget beta : list N) : ReceiverType :=
  {| beta := beta; b := produce_b gadget beta;
     omega := get_batched_choice_bits beta; t_b := ([], []); r_chi := ([], []) |}.

Definition receiver_do_ot `{OTChannel} (rc : ReceiverType) (m0 m1 : list N) : ReceiverType :=
  {| beta := beta rc; b := b rc; omega := omega rc;
     t_b := play_batched_receiver m0 m1 (omega rc); r_chi := r_chi rc |}.

Definition receiver_set_chi (rc : ReceiverType) (randomness received : list N) : ReceiverType :=
  {| beta := beta rc; b := b rc; omega := omega rc; t_b := t_b rc;
     r_chi := generate_batched_randomness false randomness received |}.

Definition sender_set_chi (sd : SenderType) (randomness received : list N) : SenderType :=
  {| a_tilde := a_tilde sd; a_hat := a_hat sd; alpha := alpha sd; pads := pads sd;
     pairs := pairs sd; t_a := t_a sd;
     s_chi := generate_batched_randomness true randomness received |}.

Definition sender_proof (sd : SenderType) : list N :=
  prove_consistency_batched (a_tilde sd) (a_hat sd) (t_a sd) (s_chi sd).

Definition receiver_is_consistent (rc : ReceiverType) (r : list N) : bool :=
  check_consistency_batched r (t_b rc) (r_chi rc) (get_batched_choice_bits (beta rc)).

(** The lambda [compute_share_of] of [generate_shares_batched]. *)
Definition compute_share_of (gadget_r : list N) (my_in other_in : N) (i : nat) (t : OTOutType) : N :=
  let dot := fold_left (fun dot j =>
      dot ⊕ mul (fst t).[i * gadget_elements + j] gadget_r.[j])
    (seq 0 gadget_elements) zero_block in
  dot ⊕ mul my_in other_in.

(** [compute_mult_shares]: the message each party sends, and the update of
    [out] with the message it received. *)
Definition sender_mult_message (sd : SenderType) (out : list N) : list N :=
  tabulate l (fun i => out.[2 * i] ⊕ (a_tilde sd).[i]).

Definition receiver_mult_message (rc : ReceiverType) (out : list N) : list N :=
  tabulate l (fun i => out.[2 * i] ⊕ (b rc).[i]).

Definition sender_compute_mult_shares (gadget_r : list N) (sd : SenderType) (other_tmp out : list N) : list N :=
  fold_left (fun out i =>
      upd (2 * i) (compute_share_of gadget_r out.[2 * i] other_tmp.[i] i (t_a sd)) out)
    (seq 0 l) out.

Definition receiver_compute_mult_shares (gadget_r : list N) (rc : ReceiverType) (other_tmp out : list N) : list N :=
  fold_left (fun out i =>
      upd (2 * i) (compute_share_of gadget_r (b rc).[i] other_tmp.[i] i (t_b rc)) out)
    (seq 0 l) out.

(** The lambda [compute_squares]; the loop index more than doubles, so
    [num_powers] iterations are enough (see [squares_loop_fuel]). *)
Fixpoint squares_loop (fuel lhs rhs : nat) (out : list N) : list N :=
  match fuel with
  | O => out
  | S f =>
      if (lhs <? num_powers)%nat then
        squares_loop f (lhs * 2 + 1) lhs (upd lhs (mul out.[rhs] out.[rhs]) out)
      else out
  end.

Definition compute_squares (start : nat) (out : list N) : list N :=
  squares_loop num_powers (start * 2 + 1) start out.

(** The odd powers of the local share. [out] starts uninitialised. *)
Definition local_powers (x : N) (out : list N) : list N :=
  let out := upd 0 x out in
  let sq := mul x x in
  snd (fold_left (fun '(tmp, out) i => let tmp := mul sq tmp in (tmp, upd i tmp out))
         (for_step 2 num_powers 2) (x, out)).

Definition all_squares (out : list N) : list N :=
  fold_left (fun out i => compute_squares i out) (for_step 0 num_powers 2) out.

(** Bytes this party accounts for. *)
Definition batched_bandwidth (is_verifier : bool) : N :=
  let block := 16%N in
  ((if is_verifier then 0 else block * N.of_nat gadget_elements)
   + (2 * (block * N.of_nat l)) / 2
   + (if is_verifier then block * N.of_nat (2 * gadget_elements) else 1)
   + block * N.of_nat l)%N.

(** ** Both parties of [generate_shares_batched]

    The random draws of a run, and the run itself: the messages of one party
    are the inputs of the other.  [None] is the [std::abort] after a failed
    consistency check. *)
Record Tape := {
  tp_gadget : list N; tp_beta : list N;
  tp_a_tilde : list N; tp_a_hat : list N; tp_pads : list N;
  tp_chi : list N; tp_chi_hat : list N;
  tp_prover_mem : list N; tp_verifier_mem : list N }.

Definition generate_shares_batched `{OTChannel} (tp : Tape) (p_in v_in : N) : option (list N * list N) :=
  let gadget_r := tp_gadget tp in
  let rc := make_receiver gadget_r (tp_beta tp) in
  let sd := make_sender (tp_a_tilde tp) (tp_a_hat tp) (tp_pads tp) in
  let rc := receiver_do_ot rc (fst (pairs sd)) (snd (pairs sd)) in
  let rc := receiver_set_chi rc (tp_chi_hat tp) (tp_chi tp) in
  let sd := sender_set_chi sd (tp_chi tp) (tp_chi_hat tp) in
  if receiver_is_consistent rc (sender_proof sd) then
    let out_p := local_powers p_in (tp_prover_mem tp) in
    let out_v := local_powers v_in (tp_verifier_mem tp) in
    let msg_v := sender_mult_message sd out_v in
    let msg_p := receiver_mult_message rc out_p in
    let out_v := sender_compute_mult_shares gadget_r sd msg_p out_v in
    let out_p := receiver_compute_mult_shares gadget_r rc msg_v out_p in
    Some (all_squares out_p, all_squares out_v)
  else None.

End F2128_MTA.
