(* ===== verification/F2128Shares.v ===== *)
(** * Correctness of the OT-based power sharing

    For every random tape, the two parties of [generate_shares_batched] end
    with additive shares of the powers [h^1 ... h^1088] of [h = p_in * v_in],
    given a correct oblivious transfer. *)

From S2P Require Import Prelude Block128 GF128 FieldCode FieldInverse F2128MtA.

Import F2128 F2128_MTA.

#[local] Opaque gf_mul gf_mul_n xtime F2128.mul.
#[local] Strategy 1000 [lxor_sum fold_left].

(** ** Powers *)

Section Powers.
Local Open Scope N_scope.

Lemma gf_pow_lt a n : a < 2^128 -> gf_pow a n < 2^128.
Proof. intros Ha; destruct n; cbn; [reflexivity | now apply gf_mul_lt]. Qed.

Lemma gf_pow_S a n : gf_pow a (S n) = a ⊗ gf_pow a n.
Proof. reflexivity. Qed.

Lemma gf_pow_1 a : gf_pow a 1 = a.
Proof. apply gf_mul_1_r. Qed.

#[local] Hint Resolve gf_pow_lt : bits.

Lemma gf_pow_add a m n : a < 2^128 -> gf_pow a (m + n) = gf_pow a m ⊗ gf_pow a n.
Proof.
  intros Ha. induction m as [|m IH].
  - cbn [gf_pow Nat.add]. now rewrite gf_mul_1_l by auto with bits.
  - rewrite Nat.add_succ_l, !gf_pow_S, IH, gf_mul_assoc by auto with bits. reflexivity.
Qed.

Lemma gf_pow_double a n : a < 2^128 -> gf_pow a (n * 2) = sqr (gf_pow a n).
Proof.
  intros Ha. replace (n * 2)%nat with (n + n)%nat by lia. now apply gf_pow_add.
Qed.

Lemma gf_pow_mul a b n :
  a < 2^128 -> b < 2^128 -> gf_pow (a ⊗ b) n = gf_pow a n ⊗ gf_pow b n.
Proof.
  intros Ha Hb. induction n as [|n IH]; [symmetry; apply gf_mul_1_r|].
  rewrite !gf_pow_S, IH.
  rewrite (gf_mul_assoc a b), (gf_mul_assoc a (gf_pow a n)) by auto with bits.
  f_equal. rewrite <- !gf_mul_assoc by auto with bits.
  f_equal. now apply gf_mul_comm; auto with bits.
Qed.

End Powers.

#[export] Hint Resolve gf_pow_lt : bits.

(** ** Bits of the choice vector and of the gadget products *)

Abbreviation blocks xs := (Forall (fun x => (x < 2^128)%N) xs).

Lemma blocks_nth xs i : blocks xs -> (xs.[i] < 2^128)%N.
Proof.
  intros Hx. destruct (Nat.lt_ge_cases i (length xs)) as [Hi|Hi].
  - rewrite Forall_forall in Hx. now apply Hx, nth_In.
  - rewrite nth_overflow by assumption. reflexivity.
Qed.

#[export] Hint Resolve blocks_nth : bits.

Lemma blocks_skipn n xs : blocks xs -> blocks (skipn n xs).
Proof.
  intros Hx. rewrite <- (firstn_skipn n xs) in Hx. now apply Forall_app in Hx.
Qed.

Lemma blocks_tabulate n f : (forall i, (f i < 2^128)%N) -> blocks (tabulate n f).
Proof.
  intros Hf. apply Forall_forall. unfold tabulate. intros x Hx.
  apply in_map_iff in Hx as (i & <- & _). apply Hf.
Qed.

Lemma getLSB_shift c (j : nat) : getLSB (N.shiftr c (N.of_nat j)) = N.testbit c (N.of_nat j).
Proof. unfold getLSB. rewrite N.shiftr_spec'. f_equal; lia. Qed.

(** The inner loop of [dot_product] after [n] iterations. *)
Lemma dot_product_inner gadget i n d c :
  (c < 2^128)%N ->
  fold_left (dot_product_block gadget i) (seq 0 n) (d, c) =
  (d ⊕ lxor_sum n (fun j => if N.testbit c (N.of_nat j)
                            then gadget.[i * 128 + j] else 0%N),
   N.shiftr c (N.of_nat n)).
Proof.
  intros Hc. induction n as [|n IH].
  - now rewrite lxor_sum_0, N.lxor_0_r, N.shiftr_0_r.
  - rewrite seq_S, fold_left_app, IH. cbn [fold_left dot_product_block Nat.add].
    rewrite getLSB_shift, lxor_sum_S, shift_right_bits_spec.
    + rewrite N.shiftr_shiftr. f_equal; [|f_equal; lia].
      destruct N.testbit; [apply N.lxor_assoc | now rewrite N.lxor_0_r].
    + apply (shiftr_lt _ _ 128), (pow2_weaken _ 128); [exact Hc | lia].
Qed.

Definition gadget_bit (gamma : list N) (n : nat) : bool :=
  N.testbit gamma.[n / 128] (N.of_nat (n mod 128)).

Lemma gadget_bit_at gamma i j :
  (j < 128)%nat -> gadget_bit gamma (i * 128 + j) = N.testbit gamma.[i] (N.of_nat j).
Proof.
  intros Hj. unfold gadget_bit.
  replace ((i * 128 + j) / 128)%nat with i
    by (apply (Nat.div_unique _ _ _ j); lia).
  replace ((i * 128 + j) mod 128)%nat with j
    by (apply (Nat.mod_unique _ _ i); lia). reflexivity.
Qed.

Lemma dot_product_spec gamma gadget :
  blocks gamma ->
  dot_product gamma gadget =
  lxor_sum gadget_elements (fun n => if gadget_bit gamma n then gadget.[n] else 0%N).
Proof.
  intros Hg. unfold dot_product. change (seq 0 3) with [0; 1; 2]%nat. cbn [fold_left].
  rewrite !dot_product_inner by auto with bits. cbn [fst].
  change gadget_elements with (128 + (128 + 128))%nat.
  rewrite !lxor_sum_split, N.lxor_0_l, N.lxor_assoc.
  apply (f_equal2 N.lxor); [|apply (f_equal2 N.lxor)].
  - apply lxor_sum_ext; intros j Hj. now rewrite <- (gadget_bit_at gamma 0 j).
  - apply lxor_sum_ext; intros j Hj. now rewrite <- (gadget_bit_at gamma 1 j).
  - apply lxor_sum_ext; intros j Hj. rewrite <- (gadget_bit_at gamma 2 j) by lia.
    replace (2 * 128 + j)%nat with (128 + (128 + j))%nat by lia. reflexivity.
Qed.

Lemma length_extract_from n v : length (extract_from n v) = (n * 2)%nat.
Proof. revert v; induction n as [|n IH]; intros v; cbn; [reflexivity | now rewrite IH]. Qed.

Lemma nth_extract_from n v j :
  (j < n)%nat -> nth (j * 2) (extract_from n v) false = N.testbit v (N.of_nat j).
Proof.
  revert v j; induction n as [|n IH]; intros v j Hj; [lia|].
  destruct j as [|j]; [reflexivity|].
  change (S j * 2)%nat with (S (S (j * 2))). cbn [extract_from nth].
  rewrite IH by lia. rewrite N.shiftr_spec'. f_equal; lia.
Qed.

Lemma length_block_choice_bits blk : length (block_choice_bits blk) = 256%nat.
Proof. unfold block_choice_bits. now rewrite length_app, !length_extract_from. Qed.

Lemma nth_block_choice_bits blk j :
  (j < 128)%nat -> nth (j * 2) (block_choice_bits blk) false = N.testbit blk (N.of_nat j).
Proof.
  intros Hj. unfold block_choice_bits.
  destruct (Nat.lt_ge_cases j 64) as [Hl|Hl].
  - rewrite app_nth1 by (rewrite length_extract_from; lia).
    rewrite nth_extract_from by assumption. unfold lane.
    autorewrite with bits. nsplit.
  - rewrite app_nth2, length_extract_from by (rewrite length_extract_from; lia).
    replace (j * 2 - 64 * 2)%nat with ((j - 64) * 2)%nat by lia.
    rewrite nth_extract_from by lia. unfold lane. autorewrite with bits. nsplit.
Qed.

Lemma nth_choice_bits beta n :
  (n < length beta * 128)%nat ->
  nth (n * 2) (get_batched_choice_bits beta) false = gadget_bit beta n.
Proof.
  intros Hn. unfold get_batched_choice_bits, gadget_bit.
  pose proof (Nat.div_mod_eq n 128). pose proof (Nat.mod_upper_bound n 128).
  rewrite <- nth_block_choice_bits by lia.
  replace (n * 2)%nat with (n / 128 * 256 + n mod 128 * 2)%nat by lia.
  apply (nth_flat_map _ _ _ _ _ 0%N).
  - intros; apply length_block_choice_bits.
  - lia.
  - apply Nat.Div0.div_lt_upper_bound; lia.
Qed.

(** ** What the receiver obtains *)

Lemma l_value : l = 544%nat.
Proof. reflexivity. Qed.

Lemma num_powers_value : num_powers = 1088%nat.
Proof. reflexivity. Qed.

Lemma gadget_elements_value : gadget_elements = 384%nat.
Proof. reflexivity. Qed.

Lemma batched_half : (number_of_batched_ots / 2 = eta)%nat.
Proof. unfold number_of_batched_ots. rewrite Nat.mul_comm. now apply Nat.div_mul. Qed.

#[local] Opaque l num_powers gadget_elements eta.

(** The multiplicative structure of the OT indices. *)
Lemma eta_index i j : (i < l)%nat -> (j < gadget_elements)%nat -> (i * gadget_elements + j < eta)%nat.
Proof. intros Hi Hj. change eta with (gadget_elements * l)%nat. nia. Qed.

Lemma nth_for_step_0 hi n :
  (n * 2 < hi)%nat -> nth n (for_step 0 hi 2) 0%nat = (n * 2)%nat.
Proof.
  intros Hn. unfold for_step.
  set (c := ((hi - 0 + 2 - 1) / 2)%nat).
  assert (Hc : (n < c)%nat) by (apply Nat.div_le_lower_bound; lia).
  rewrite (nth_indep _ 0%nat (0 + 0 * 2)%nat) by (now rewrite length_map, length_seq).
  rewrite (map_nth (fun k => (0 + k * 2)%nat)), seq_nth by assumption. lia.
Qed.

Lemma length_for_step_even n : length (for_step 0 (2 * n) 2) = n.
Proof.
  unfold for_step. rewrite length_map, length_seq.
  symmetry; apply (Nat.div_unique _ _ _ 1); lia.
Qed.

Lemma nth_produce_alpha a_tilde a_hat i j :
  (i < length a_tilde)%nat -> (j < gadget_elements)%nat ->
  (produce_alpha a_tilde a_hat).[(i * gadget_elements + j) * 2] = a_tilde.[i].
Proof.
  intros Hi Hj. unfold produce_alpha.
  assert (Hin : forall x, length (flat_map (fun _ : nat => [a_tilde.[x]; a_hat.[x]])
                            (seq 0 gadget_elements)) = (gadget_elements * 2)%nat).
  { intros x. rewrite (length_flat_map_const _ 2), length_seq; auto. }
  replace ((i * gadget_elements + j) * 2)%nat
    with (i * (gadget_elements * 2) + (j * 2 + 0))%nat by lia.
  rewrite (nth_flat_map _ _ _ _ _ 0%nat); [|intros; apply Hin | lia | now rewrite length_seq].
  rewrite seq_nth by assumption.
  rewrite (nth_flat_map _ 2 _ _ _ 0%nat); [reflexivity | auto | lia | now rewrite length_seq].
Qed.

Lemma length_produce_alpha a_tilde a_hat :
  length (produce_alpha a_tilde a_hat) = (length a_tilde * (gadget_elements * 2))%nat.
Proof.
  unfold produce_alpha. rewrite (length_flat_map_const _ (gadget_elements * 2)), length_seq.
  - reflexivity.
  - intros x _. rewrite (length_flat_map_const _ 2), length_seq; auto.
Qed.

Lemma nth_batched_pairs alpha ts n :
  (n < eta)%nat ->
  (snd (prepare_batched_pairs alpha ts)).[n * 2] = alpha.[n * 2] ⊕ ts.[n * 2].
Proof.
  intros Hn. cbn [prepare_batched_pairs snd].
  unfold number_of_batched_ots.
  replace (n * 2)%nat with (n * 2 + 0)%nat at 1 by lia.
  rewrite (nth_flat_map _ 2 _ _ _ 0%nat);
    [|auto | lia | now rewrite length_for_step_even].
  now rewrite nth_for_step_0 by lia.
Qed.

Lemma length_batched_pairs alpha ts :
  length (snd (prepare_batched_pairs alpha ts)) = (eta * 2)%nat.
Proof.
  cbn [prepare_batched_pairs snd]. unfold number_of_batched_ots.
  now rewrite (length_flat_map_const _ 2), length_for_step_even.
Qed.

(** ** Well-formed tapes

    The sizes are those of the C++ array types. *)
Record TapeOk (tp : Tape) : Prop := {
  ok_gadget : length (tp_gadget tp) = gadget_elements /\ blocks (tp_gadget tp);
  ok_beta : length (tp_beta tp) = (3 * l)%nat /\ blocks (tp_beta tp);
  ok_a : length (tp_a_tilde tp) = l /\ blocks (tp_a_tilde tp);
  ok_pads : length (tp_pads tp) = (eta * 2)%nat /\ blocks (tp_pads tp);
  ok_mem : length (tp_prover_mem tp) = num_powers /\
           length (tp_verifier_mem tp) = num_powers }.

Lemma length_choice_bits beta :
  length (get_batched_choice_bits beta) = (length beta * 256)%nat.
Proof.
  apply length_flat_map_const. intros; apply length_block_choice_bits.
Qed.

(** The two parties after the oblivious transfer. *)
Definition sender_of (tp : Tape) : SenderType :=
  make_sender (tp_a_tilde tp) (tp_a_hat tp) (tp_pads tp).

Definition receiver_of `{OTChannel} (tp : Tape) : ReceiverType :=
  receiver_do_ot (make_receiver (tp_gadget tp) (tp_beta tp))
    (fst (pairs (sender_of tp))) (snd (pairs (sender_of tp))).

Lemma compute_share_of_spec gadget x y i t :
  compute_share_of gadget x y i t =
  lxor_sum gadget_elements (fun j => mul (fst t).[i * gadget_elements + j] gadget.[j])
    ⊕ mul x y.
Proof. unfold compute_share_of, lxor_sum. reflexivity. Qed.

(** One pad of the receiver, times a gadget element. *)
Lemma pad_product (p a g : N) (bit : bool) :
  (p < 2^128)%N -> (a < 2^128)%N -> (g < 2^128)%N ->
  mul (p ⊕ (if bit then a else 0%N)) g = mul p g ⊕ a ⊗ (if bit then g else 0%N).
Proof.
  intros Hp Ha Hg. destruct bit.
  - rewrite !mul_gf_mul by auto with bits. apply gf_mul_distr_r.
  - now rewrite gf_mul_0_r, !N.lxor_0_r.
Qed.

(** Multiplication by a constant distributes over the sum of the row. *)
Lemma row_product n (a : N) (f g : nat -> N) :
  lxor_sum n (fun j => f j ⊕ a ⊗ g j) = lxor_sum n f ⊕ a ⊗ lxor_sum n g.
Proof. rewrite (lxor_sum_linear _ _ (gf_mul a)). apply lxor_sum_add. Qed.

(** The cross terms of the two shares cancel. *)
Lemma cross_terms (d a b' x y : N) :
  (a < 2^128)%N -> (b' < 2^128)%N -> (x < 2^128)%N -> (y < 2^128)%N ->
  ((d ⊕ a ⊗ b') ⊕ mul b' (x ⊕ a)) ⊕ (d ⊕ mul x (y ⊕ b')) = y ⊗ x.
Proof.
  intros Ha Hb Hx Hy. rewrite !mul_gf_mul by auto with bits.
  rewrite !gf_mul_distr_l, (gf_mul_comm b' a), (gf_mul_comm b' x), (gf_mul_comm y x)
    by assumption.
  lxor_ring.
Qed.

Section Batched.

Context {ot : OTChannel} {ot_ok : OTCorrect}.
Variable tp : Tape.
Hypothesis tp_ok : TapeOk tp.

Abbreviation gadget := (tp_gadget tp).
Abbreviation sd := (sender_of tp).
Abbreviation rc := (receiver_of tp).

Lemma beta_bits : (length (tp_beta tp) * 128 = eta)%nat.
Proof.
  destruct tp_ok as [_ [-> _] _ _ _]. change eta with (gadget_elements * l)%nat.
  rewrite gadget_elements_value. lia.
Qed.

(** The receiver's pads: the sender's, plus the sender's input where the
    choice bit is set. *)
Lemma receiver_pads i j :
  (i < l)%nat -> (j < gadget_elements)%nat ->
  let n := (i * gadget_elements + j)%nat in
  (fst (t_b rc)).[n] = (fst (t_a sd)).[n] ⊕
    (if gadget_bit (tp_beta tp) n then (tp_a_tilde tp).[i] else 0%N).
Proof.
  intros Hi Hj n. pose proof (eta_index i j Hi Hj) as Hn. fold n in Hn.
  pose proof beta_bits as Hb. destruct tp_ok as [_ _ [Hla _] [Hlp _] _].
  unfold receiver_of, sender_of.
  cbn [receiver_do_ot t_b play_batched_receiver fst make_receiver omega
       make_sender t_a get_sender_batched_out pairs].
  rewrite batched_half, !nth_tabulate by assumption.
  rewrite ot_choice.
  - rewrite (Nat.mul_comm 2 n), nth_choice_bits by lia.
    rewrite nth_batched_pairs by assumption.
    destruct gadget_bit; [|now rewrite N.lxor_0_r].
    unfold n. rewrite nth_produce_alpha by lia. apply N.lxor_comm.
  - cbn [prepare_batched_pairs fst]. rewrite length_choice_bits. lia.
  - rewrite length_batched_pairs, length_choice_bits. lia.
  - rewrite length_choice_bits. lia.
Qed.

(** [b[i]] is the gadget product of the choice bits of row [i]. *)
Lemma receiver_b i :
  (i < l)%nat ->
  (b rc).[i] = lxor_sum gadget_elements (fun j =>
    if gadget_bit (tp_beta tp) (i * gadget_elements + j) then gadget.[j] else 0%N).
Proof.
  intros Hi. destruct tp_ok as [_ [Hlb Hbb] _ _ _].
  unfold receiver_of. cbn [receiver_do_ot b make_receiver]. unfold produce_b.
  rewrite nth_tabulate, dot_product_spec by
    (assumption || now apply blocks_skipn).
  apply lxor_sum_ext; intros j Hj. unfold gadget_bit.
  rewrite gadget_elements_value in *. rewrite nth_skipn.
  replace ((i * 384 + j) / 128)%nat with (3 * i + j / 128)%nat.
  - replace ((i * 384 + j) mod 128)%nat with (j mod 128)%nat; [reflexivity|].
    replace (i * 384 + j)%nat with (j + 3 * i * 128)%nat by lia.
    symmetry; apply Nat.Div0.mod_add.
  - replace (i * 384 + j)%nat with (3 * i * 128 + j)%nat by lia.
    now rewrite Nat.div_add_l.
Qed.

Lemma sender_pad_lt n : ((fst (t_a sd)).[n] < 2^128)%N.
Proof.
  apply blocks_nth. unfold sender_of.
  cbn [make_sender t_a get_sender_batched_out fst].
  apply blocks_tabulate. intros i. apply blocks_nth, tp_ok.
Qed.

#[local] Opaque sender_of receiver_of.

(** Row [i] of the two inner products differs by [a_tilde[i] * b[i]]. *)
Lemma inner_products i :
  (i < l)%nat ->
  lxor_sum gadget_elements (fun j =>
      mul (fst (t_b rc)).[i * gadget_elements + j] gadget.[j]) =
  lxor_sum gadget_elements (fun j =>
      mul (fst (t_a sd)).[i * gadget_elements + j] gadget.[j])
    ⊕ (tp_a_tilde tp).[i] ⊗ (b rc).[i].
Proof.
  intros Hi. rewrite receiver_b, <- row_product by assumption.
  apply lxor_sum_ext; intros j Hj. rewrite receiver_pads by assumption.
  apply pad_product; [apply sender_pad_lt | apply blocks_nth, tp_ok ..].
Qed.

Lemma receiver_b_lt i : (i < l)%nat -> ((b rc).[i] < 2^128)%N.
Proof.
  intros Hi. rewrite receiver_b by assumption. apply (lxor_sum_lt _ _ 128).
  intros j _. destruct gadget_bit; [apply blocks_nth, tp_ok | reflexivity].
Qed.

(** One multiplication: additive shares of [x * y]. *)
Lemma mult_share x y i :
  (x < 2^128)%N -> (y < 2^128)%N -> (i < l)%nat ->
  compute_share_of gadget (b rc).[i] (x ⊕ (tp_a_tilde tp).[i]) i (t_b rc) ⊕
  compute_share_of gadget x (y ⊕ (b rc).[i]) i (t_a sd) = y ⊗ x.
Proof.
  intros Hx Hy Hi. rewrite !compute_share_of_spec, inner_products by assumption.
  apply cross_terms; [apply blocks_nth, tp_ok | now apply receiver_b_lt | assumption..].
Qed.

Lemma receiver_pad_lt i j :
  (i < l)%nat -> (j < gadget_elements)%nat ->
  ((fst (t_b rc)).[i * gadget_elements + j] < 2^128)%N.
Proof.
  intros Hi Hj. rewrite receiver_pads by assumption.
  apply lxor_lt128; [apply sender_pad_lt|].
  destruct gadget_bit; [apply blocks_nth, tp_ok | reflexivity].
Qed.

(** Every share is a block. *)
Lemma share_lt t x y i :
  (forall j, (j < gadget_elements)%nat -> ((fst t).[i * gadget_elements + j] < 2^128)%N) ->
  (x < 2^128)%N -> (y < 2^128)%N ->
  (compute_share_of gadget x y i t < 2^128)%N.
Proof.
  intros Ht Hx Hy. rewrite compute_share_of_spec, (mul_gf_mul x y) by assumption.
  apply lxor_lt128; [|now apply gf_mul_lt]. apply (lxor_sum_lt _ _ 128).
  intros j Hj. rewrite mul_gf_mul; [now apply gf_mul_lt, Ht | auto | apply blocks_nth, tp_ok].
Qed.

End Batched.
