(* ===== verification/F2128Powers.v ===== *)
(** * All powers: the main theorem of the power sharing

    The local powers, the multiplication phase and the squaring phase of
    [generate_shares_batched], put together: additive shares of
    [h^1 ... h^1088]. *)

From S2P Require Import Prelude Block128 GF128 FieldCode FieldInverse.
From S2P Require Import F2128MtA F2128Shares.

Import F2128 F2128_MTA.

#[local] Opaque gf_mul gf_mul_n xtime F2128.mul l num_powers gadget_elements eta.
#[local] Strategy 1000 [lxor_sum fold_left].

(** ** Loops that update the even entries *)

Definition upd_even (f : nat -> N -> N) (n : nat) (out : list N) : list N :=
  fold_left (fun out i => upd (2 * i) (f i out.[2 * i]) out) (seq 0 n) out.

Lemma upd_even_S f n out :
  upd_even f (S n) out =
  upd (2 * n) (f n (upd_even f n out).[2 * n]) (upd_even f n out).
Proof. unfold upd_even. now rewrite seq_S, fold_left_app. Qed.

Lemma length_upd_even f n out : length (upd_even f n out) = length out.
Proof.
  induction n as [|n IH]; [reflexivity|]. now rewrite upd_even_S, length_upd.
Qed.

Lemma nth_upd_even f n out i :
  (2 * n <= length out)%nat ->
  (upd_even f n out).[2 * i] = if (i <? n)%nat then f i out.[2 * i] else out.[2 * i].
Proof.
  induction n as [|n IH]; intros Hn; [reflexivity|].
  rewrite upd_even_S. destruct (Nat.eq_dec i n) as [->|Hi].
  - rewrite nth_upd_eq by (rewrite length_upd_even; lia). rewrite IH by lia.
    now rewrite Nat.ltb_irrefl, (proj2 (Nat.ltb_lt n (S n))) by lia.
  - rewrite nth_upd_ne, IH by lia.
    destruct (Nat.ltb_spec i n), (Nat.ltb_spec i (S n)); (reflexivity || lia).
Qed.

Lemma sender_mult_spec gadget sd other out :
  sender_compute_mult_shares gadget sd other out =
  upd_even (fun i x => compute_share_of gadget x other.[i] i (t_a sd)) l out.
Proof. reflexivity. Qed.

Lemma receiver_mult_spec gadget rc other out :
  receiver_compute_mult_shares gadget rc other out =
  upd_even (fun i _ => compute_share_of gadget (b rc).[i] other.[i] i (t_b rc)) l out.
Proof. reflexivity. Qed.

(** ** The local odd powers *)

Definition powers_loop (sq : N) (n : nat) (st : N * list N) : N * list N :=
  fold_left (fun '(tmp, out) i => let tmp := mul sq tmp in (tmp, upd i tmp out))
    (map (fun k => (2 + k * 2)%nat) (seq 0 n)) st.

Lemma powers_loop_S sq n st :
  powers_loop sq (S n) st =
  (mul sq (fst (powers_loop sq n st)),
   upd (2 + n * 2) (mul sq (fst (powers_loop sq n st))) (snd (powers_loop sq n st))).
Proof.
  unfold powers_loop. rewrite seq_S, map_app, fold_left_app.
  cbn [map fold_left Nat.add]. now destruct (fold_left _ _ _).
Qed.

Lemma powers_loop_spec x n out :
  (x < 2^128)%N -> (2 * n < length out)%nat ->
  let st := powers_loop (mul x x) n (x, upd 0 x out) in
  fst st = gf_pow x (2 * n + 1) /\ length (snd st) = length out /\
  forall i, (i <= n)%nat -> (snd st).[2 * i] = gf_pow x (2 * i + 1).
Proof.
  intros Hx. induction n as [|n IH]; intros Hn st.
  - cbn [st powers_loop fst snd seq map fold_left].
    rewrite length_upd. split; [symmetry; apply gf_pow_1 | split; [reflexivity|]].
    intros i Hi. replace i with 0%nat by lia.
    rewrite nth_upd_eq by lia. symmetry; apply gf_pow_1.
  - destruct IH as (Hf & Hl & Hi); [lia|]. subst st. rewrite powers_loop_S.
    assert (Hm : mul (mul x x) (fst (powers_loop (mul x x) n (x, upd 0 x out))) =
                 gf_pow x (2 * S n + 1)).
    { rewrite Hf, (mul_gf_mul x x), mul_gf_mul by auto using gf_mul_lt, gf_pow_lt.
      replace (2 * S n + 1)%nat with (S (S (2 * n + 1))) by lia.
      rewrite !gf_pow_S. now rewrite gf_mul_assoc by auto using gf_pow_lt. }
    cbn [fst snd]. rewrite Hm, length_upd. split; [reflexivity | split; [exact Hl|]].
    intros i Hle. replace (2 + n * 2)%nat with (2 * S n)%nat by lia.
    destruct (Nat.eq_dec i (S n)) as [->|].
    + now rewrite nth_upd_eq by lia.
    + rewrite nth_upd_ne by lia. apply Hi. lia.
Qed.

Lemma local_powers_spec x out :
  (x < 2^128)%N -> length out = num_powers ->
  length (local_powers x out) = num_powers /\
  forall i, (i < l)%nat -> (local_powers x out).[2 * i] = gf_pow x (2 * i + 1).
Proof.
  intros Hx Hl. rewrite num_powers_value in *. rewrite l_value.
  change (local_powers x out) with (snd (powers_loop (mul x x) 543 (x, upd 0 x out))).
  destruct (powers_loop_spec x 543 out Hx) as (_ & Hlen & Hi); [lia|].
  split; [lia|]. intros i Hlt. apply Hi. lia.
Qed.

(** ** The squaring phase *)

(** Every number is an odd one times a power of two. *)
Lemma odd_part j : exists m t, (j + 1 = (2 * m + 1) * 2 ^ t)%nat.
Proof.
  induction j as [j IH] using lt_wf_ind.
  destruct (Nat.Even_or_Odd j) as [[m E]|[m E]].
  - exists m, 0%nat. cbn. lia.
  - destruct (IH m) as (m' & t & E'); [lia|]. exists m', (S t).
    rewrite Nat.pow_succ_r'. lia.
Qed.

Section Squares.
Variable h : N.
Hypothesis h_lt : (h < 2^128)%N.

(** Entry [j] of the two arrays is a sharing of [h^(j+1)]. *)
Definition Good (op ov : list N) (j : nat) : Prop :=
  (op.[j] < 2^128)%N /\ (ov.[j] < 2^128)%N /\ op.[j] ⊕ ov.[j] = gf_pow h (j + 1).

Lemma Good_square x y j :
  (x < 2^128)%N -> (y < 2^128)%N -> x ⊕ y = gf_pow h (j + 1) ->
  mul x x ⊕ mul y y = gf_pow h (j * 2 + 1 + 1).
Proof.
  intros Hx Hy E. rewrite !mul_gf_mul by assumption.
  replace (j * 2 + 1 + 1)%nat with ((j + 1) * 2)%nat by lia.
  rewrite gf_pow_double, <- E by assumption. symmetry. now apply sqr_lxor.
Qed.

Lemma Good_step op ov j :
  Good op ov j -> (j * 2 + 1 < length op)%nat -> length op = length ov ->
  let op' := upd (j * 2 + 1) (mul op.[j] op.[j]) op in
  let ov' := upd (j * 2 + 1) (mul ov.[j] ov.[j]) ov in
  Good op' ov' (j * 2 + 1) /\ forall i, Good op ov i -> Good op' ov' i.
Proof.
  intros (Hp & Hv & E) Hj Hl op' ov'.
  assert (G : Good op' ov' (j * 2 + 1)).
  { unfold Good, op', ov'. rewrite !nth_upd_eq by lia.
    split; [|split]; [rewrite mul_gf_mul by assumption; now apply gf_mul_lt..|].
    now apply Good_square. }
  split; [exact G|]. intros i Gi.
  destruct (Nat.eq_dec (j * 2 + 1) i) as [<-|Hn]; [exact G|].
  unfold Good, op', ov'. now rewrite !nth_upd_ne by assumption.
Qed.

Lemma squares_loop_good fuel : forall j op ov,
  length op = num_powers -> length ov = num_powers -> Good op ov j ->
  let op' := squares_loop fuel (j * 2 + 1) j op in
  let ov' := squares_loop fuel (j * 2 + 1) j ov in
  length op' = num_powers /\ length ov' = num_powers /\
  (forall i, Good op ov i -> Good op' ov' i) /\
  (forall t, (t <= fuel)%nat -> ((j + 1) * 2 ^ t <= num_powers)%nat ->
             Good op' ov' ((j + 1) * 2 ^ t - 1)).
Proof.
  induction fuel as [|fuel IH]; intros j op ov Hp Hv G op' ov'.
  - split; [exact Hp | split; [exact Hv | split; [auto|]]]. intros t Ht _. replace t with 0%nat by lia.
    replace ((j + 1) * 2 ^ 0 - 1)%nat with j by (cbn; lia). exact G.
  - subst op' ov'. cbn [squares_loop]. destruct (Nat.ltb_spec (j * 2 + 1) num_powers) as [Hj|Hj].
    + destruct (Good_step op ov j G) as (G' & Hk); [lia..|].
      destruct (IH (j * 2 + 1)%nat
                  (upd (j * 2 + 1) (mul op.[j] op.[j]) op)
                  (upd (j * 2 + 1) (mul ov.[j] ov.[j]) ov)) as (H1 & H2 & H3 & H4);
        [now rewrite length_upd.. | exact G' |].
      split; [exact H1 | split; [exact H2 | split; [auto|]]]. intros [|t] Ht Hb.
      * replace ((j + 1) * 2 ^ 0 - 1)%nat with j by (cbn; lia). apply H3, Hk, G.
      * replace ((j + 1) * 2 ^ S t - 1)%nat with ((j * 2 + 1 + 1) * 2 ^ t - 1)%nat
          by (rewrite Nat.pow_succ_r'; lia).
        apply H4; [lia|]. rewrite Nat.pow_succ_r' in Hb. lia.
    + split; [exact Hp | split; [exact Hv | split; [auto|]]]. intros [|t] Ht Hb.
      * replace ((j + 1) * 2 ^ 0 - 1)%nat with j by (cbn; lia). exact G.
      * rewrite Nat.pow_succ_r' in Hb. pose proof (Nat.pow_nonzero 2 t). nia.
Qed.

(** The squares from the first [n] even starts. *)
Definition squares_upto (n : nat) (out : list N) : list N :=
  fold_left (fun out i => compute_squares i out) (map (fun k => (0 + k * 2)%nat) (seq 0 n)) out.

Lemma squares_upto_S n out :
  squares_upto (S n) out = compute_squares (n * 2) (squares_upto n out).
Proof. unfold squares_upto. now rewrite seq_S, map_app, fold_left_app. Qed.

Lemma squares_upto_good n op ov :
  (n <= l)%nat -> length op = num_powers -> length ov = num_powers ->
  (forall i, (i < l)%nat -> Good op ov (2 * i)) ->
  let op' := squares_upto n op in let ov' := squares_upto n ov in
  length op' = num_powers /\ length ov' = num_powers /\
  (forall i, (i < l)%nat -> Good op' ov' (2 * i)) /\
  (forall m t, (m < n)%nat -> ((2 * m + 1) * 2 ^ t <= num_powers)%nat ->
               Good op' ov' ((2 * m + 1) * 2 ^ t - 1)).
Proof.
  intros Hn Hp Hv He. induction n as [|n IH]; intros op' ov'.
  - split; [exact Hp | split; [exact Hv | split; [exact He | lia]]].
  - destruct IH as (H1 & H2 & H3 & H4); [lia|]. subst op' ov'.
    rewrite !squares_upto_S. unfold compute_squares.
    destruct (squares_loop_good num_powers (n * 2) _ _ H1 H2) as (K1 & K2 & K3 & K4).
    { replace (n * 2)%nat with (2 * n)%nat by lia. apply H3. lia. }
    split; [exact K1 | split; [exact K2 | split]].
    + intros i Hi. apply K3, H3, Hi.
    + intros m t Hm Hb. destruct (Nat.eq_dec m n) as [->|].
      * replace (2 * n)%nat with (n * 2)%nat by lia.
        apply K4; [|lia]. pose proof (Nat.pow_gt_lin_r 2 t). nia.
      * apply K3, H4; lia.
Qed.

Lemma all_squares_good op ov :
  length op = num_powers -> length ov = num_powers ->
  (forall i, (i < l)%nat -> Good op ov (2 * i)) ->
  forall j, (j < num_powers)%nat -> Good (all_squares op) (all_squares ov) j.
Proof.
  intros Hp Hv He j Hj.
  change all_squares with (squares_upto 544). rewrite <- l_value.
  destruct (squares_upto_good l op ov (le_n _) Hp Hv He) as (_ & _ & _ & H4).
  destruct (odd_part j) as (m & t & E).
  replace j with ((2 * m + 1) * 2 ^ t - 1)%nat by lia. apply H4; [|lia].
  pose proof (Nat.pow_nonzero 2 t). rewrite l_value, num_powers_value in *. nia.
Qed.

End Squares.

Lemma length_squares_loop fuel lhs rhs out : length (squares_loop fuel lhs rhs out) = length out.
Proof.
  revert lhs rhs out. induction fuel as [|fuel IH]; intros lhs rhs out; [reflexivity|].
  cbn [squares_loop]. destruct (lhs <? num_powers)%nat; [|reflexivity].
  now rewrite IH, length_upd.
Qed.

Lemma length_all_squares out : length (all_squares out) = length out.
Proof.
  apply length_fold_left. intros i o. apply length_squares_loop.
Qed.

(** More fuel changes nothing once the loop has left the array. *)
Lemma squares_loop_fuel fuel extra : forall lhs rhs out,
  (num_powers <= lhs + fuel)%nat ->
  squares_loop (fuel + extra) lhs rhs out = squares_loop fuel lhs rhs out.
Proof.
  induction fuel as [|fuel IH]; intros lhs rhs out Hf.
  - destruct extra; [reflexivity|]. cbn [squares_loop Nat.add].
    now rewrite (proj2 (Nat.ltb_ge lhs num_powers)) by lia.
  - cbn [squares_loop Nat.add]. destruct (lhs <? num_powers)%nat; [|reflexivity]. apply IH. lia.
Qed.

(** ** The protocol *)

Section Protocol.

Context {ot : OTChannel} {ot_ok : OTCorrect}.
Variable tp : Tape.
Hypothesis tp_ok : TapeOk tp.
Variables p_in v_in : N.
Hypothesis p_lt : (p_in < 2^128)%N.
Hypothesis v_lt : (v_in < 2^128)%N.

Abbreviation sd := (sender_of tp).
Abbreviation rc := (receiver_of tp).
Abbreviation out_p := (local_powers p_in (tp_prover_mem tp)).
Abbreviation out_v := (local_powers v_in (tp_verifier_mem tp)).

(** The arrays of the two parties before the squaring phase. *)
Definition mult_p : list N :=
  receiver_compute_mult_shares (tp_gadget tp) rc (sender_mult_message sd out_v) out_p.
Definition mult_v : list N :=
  sender_compute_mult_shares (tp_gadget tp) sd (receiver_mult_message rc out_p) out_v.

Lemma length_mult : length mult_p = num_powers /\ length mult_v = num_powers.
Proof.
  unfold mult_p, mult_v. rewrite receiver_mult_spec, sender_mult_spec, !length_upd_even.
  split; apply local_powers_spec; (assumption || apply tp_ok).
Qed.

Lemma two_l : (2 * l <= num_powers)%nat.
Proof. rewrite l_value, num_powers_value. lia. Qed.

Lemma mult_good i : (i < l)%nat -> Good (p_in ⊗ v_in) mult_p mult_v (2 * i).
Proof.
  intros Hi. destruct (ok_mem tp tp_ok) as [Hmp Hmv].
  destruct (local_powers_spec p_in _ p_lt Hmp) as [Hlp Hp].
  destruct (local_powers_spec v_in _ v_lt Hmv) as [Hlv Hv].
  pose proof two_l as Hl. unfold Good, mult_p, mult_v.
  rewrite receiver_mult_spec, sender_mult_spec, !nth_upd_even by lia.
  rewrite (proj2 (Nat.ltb_lt i l) Hi).
  unfold sender_mult_message, receiver_mult_message. rewrite !nth_tabulate by assumption.
  rewrite (Hp i Hi), (Hv i Hi).
  assert (Ha : ((a_tilde sd).[i] < 2^128)%N) by (apply blocks_nth; apply tp_ok).
  pose proof (receiver_b_lt tp tp_ok i Hi) as Hb.
  split; [|split].
  - apply share_lt; [assumption | | assumption | now apply lxor_lt128, Ha; apply gf_pow_lt].
    intros j Hj. now apply receiver_pad_lt.
  - apply share_lt; [assumption | | now apply gf_pow_lt | now apply lxor_lt128, Hb; apply gf_pow_lt].
    intros j Hj. now apply sender_pad_lt.
  - rewrite gf_pow_mul by assumption. apply mult_share; auto using gf_pow_lt.
Qed.

Lemma shares_good j :
  (j < num_powers)%nat ->
  Good (p_in ⊗ v_in) (all_squares mult_p) (all_squares mult_v) j.
Proof.
  destruct length_mult as [Hp Hv].
  exact (all_squares_good _ (gf_mul_lt _ _ p_lt) _ _ Hp Hv mult_good j).
Qed.

End Protocol.

(** The receiver's verdict on the run of a tape. *)
Definition tape_consistent `{OTChannel} (tp : Tape) : bool :=
  receiver_is_consistent (receiver_set_chi (receiver_of tp) (tp_chi_hat tp) (tp_chi tp))
    (sender_proof (sender_set_chi (sender_of tp) (tp_chi tp) (tp_chi_hat tp))).

#[local] Strategy 1000 [all_squares mult_p mult_v tape_consistent].

Lemma generate_shares_batched_eq `{OTChannel} tp p_in v_in :
  generate_shares_batched tp p_in v_in =
  if tape_consistent tp
  then Some (all_squares (mult_p tp p_in v_in), all_squares (mult_v tp p_in v_in))
  else None.
Proof. reflexivity. Qed.
