(* ===== verification/F2128Claims.v ===== *)
(** * Statements about [mta/F2128MtA.hpp] and [mta/F2128MtA.inl]

    The properties of the field arithmetic and of the power sharing, proved
    from the lemmas of the preceding files, with the concrete runs that show
    their hypotheses can be met. *)

From S2P Require Import Prelude Block128 GF128 FieldCode FieldInverse.
From S2P Require Import F2128MtA F2128Shares F2128Powers.

Import F2128 F2128_MTA.

(** ** A concrete oblivious transfer and a concrete tape *)

Section Ideal.

(** The transfer that hands over exactly the chosen entries. *)
Definition ideal_ot : OTChannel := fun m0 m1 c =>
  tabulate (length c) (fun i => if nth i c false then m1.[i] else m0.[i]).

Lemma ideal_ot_correct : @OTCorrect ideal_ot.
Proof. intros m0 m1 c i _ _ Hi. unfold ot_transfer, ideal_ot. now rewrite nth_tabulate. Qed.

(** All pads and choices are zero; the sender's inputs and its challenges
    are one. *)
Definition simple_tape : Tape := {|
  tp_gadget := repeat 1%N gadget_elements; tp_beta := repeat 0%N (3 * l);
  tp_a_tilde := repeat 1%N l; tp_a_hat := repeat 0%N l;
  tp_pads := repeat 0%N (eta * 2);
  tp_chi := repeat 1%N gadget_elements; tp_chi_hat := repeat 0%N gadget_elements;
  tp_prover_mem := repeat 0%N num_powers; tp_verifier_mem := repeat 0%N num_powers |}.

(** The same tape with challenges zero. *)
Definition zero_challenge_tape : Tape := {|
  tp_gadget := tp_gadget simple_tape; tp_beta := tp_beta simple_tape;
  tp_a_tilde := tp_a_tilde simple_tape; tp_a_hat := tp_a_hat simple_tape;
  tp_pads := tp_pads simple_tape;
  tp_chi := repeat 0%N gadget_elements; tp_chi_hat := repeat 0%N gadget_elements;
  tp_prover_mem := tp_prover_mem simple_tape;
  tp_verifier_mem := tp_verifier_mem simple_tape |}.

#[local] Opaque l num_powers gadget_elements eta.

Lemma nth_repeat_lt {A} (x d : A) n i : (i < n)%nat -> nth i (repeat x n) d = x.
Proof. revert i; induction n as [|n IH]; intros [|i] Hi; cbn; auto; try lia. apply IH. lia. Qed.

Lemma blocks_repeat n x : (x < 2^128)%N -> Forall (fun x => (x < 2^128)%N) (repeat x n).
Proof. intros Hx. apply Forall_forall. intros y Hy. now apply repeat_spec in Hy as ->. Qed.

Lemma simple_tape_ok : TapeOk simple_tape.
Proof.
  split; cbn [tp_gadget tp_beta tp_a_tilde tp_pads tp_prover_mem tp_verifier_mem simple_tape];
    rewrite ?repeat_length; repeat split; now apply blocks_repeat.
Qed.

(** Every entry of the list is zero, inside and outside its range. *)
Definition zeros (xs : list N) : Prop := forall i, xs.[i] = 0%N.

Lemma zeros_repeat n : zeros (repeat 0%N n).
Proof. intros i. apply nth_repeat. Qed.

Lemma zeros_tabulate n f : (forall i, (i < n)%nat -> f i = 0%N) -> zeros (tabulate n f).
Proof.
  intros Hf i. destruct (Nat.lt_ge_cases i n).
  - now rewrite nth_tabulate, Hf.
  - apply nth_overflow. now rewrite length_tabulate.
Qed.

Lemma mul_0_l x : mul 0 x = 0%N.
Proof. reflexivity. Qed.

Lemma check_consistency_fold r t_b chi beta xs :
  fold_left (fun correct i =>
      let '(tmp, rhs) := check_row r t_b chi beta i in
      if cmpBlock [tmp] [rhs] then false else correct) xs true = true <->
  forall i, In i xs -> fst (check_row r t_b chi beta i) <> snd (check_row r t_b chi beta i).
Proof.
  induction xs as [|x xs IH] using rev_ind; [cbn; intuition|].
  rewrite fold_left_app. cbn [fold_left].
  destruct (check_row r t_b chi beta x) as [tmp rhs] eqn:E.
  cbn [cmpBlock combine forallb]. rewrite andb_true_r.
  destruct (N.eqb_spec (tmp ⊕ rhs) 0) as [Hz|Hz].
  - apply N.lxor_eq in Hz. split; [intros K; discriminate K|]. intros H.
    destruct (H x); [apply in_or_app; right; now left|]. now rewrite E.
  - rewrite IH. split; intros H i Hi.
    + apply in_app_or in Hi as [Hi|[<-|[]]]; [now apply H|]. rewrite E. cbn.
      intros ->. now rewrite N.lxor_nilpotent in Hz.
    + apply H, in_or_app. now left.
Qed.

End Ideal.

#[local] Opaque gf_mul gf_mul_n xtime F2128.mul l num_powers gadget_elements eta.
#[local] Strategy 1000 [lxor_sum fold_left].

Section SimpleRun.
#[local] Existing Instance ideal_ot.

Lemma all_false_choice n i : nth i (get_batched_choice_bits (repeat 0%N n)) false = false.
Proof.
  assert (H : Forall (eq false) (get_batched_choice_bits (repeat 0%N n))).
  { induction n as [|n IH]; [constructor|].
    unfold get_batched_choice_bits in *. cbn [repeat flat_map]. apply Forall_app.
    split; [|exact IH]. vm_compute. repeat constructor. }
  rewrite Forall_forall in H. destruct (Nat.lt_ge_cases i (length (get_batched_choice_bits (repeat 0%N n)))).
  - symmetry. now apply H, nth_In.
  - now apply nth_overflow.
Qed.

Lemma simple_transfer : zeros (fst (t_b (receiver_of simple_tape))) /\
                        zeros (snd (t_b (receiver_of simple_tape))).
Proof.
  unfold receiver_of, sender_of, simple_tape.
  cbn [receiver_do_ot t_b play_batched_receiver fst snd make_receiver omega make_sender pairs
       tp_beta tp_pads tp_a_tilde tp_a_hat tp_gadget prepare_batched_pairs].
  unfold ot_transfer, ideal_ot.
  assert (Z : forall m1 n k,
     zeros (tabulate n (fun i => if nth i (get_batched_choice_bits (repeat 0%N (3 * l))) false
                                then m1.[i] else (repeat 0%N k).[i]))).
  { intros m1 n k. apply zeros_tabulate. intros i _. now rewrite all_false_choice, nth_repeat. }
  split; apply zeros_tabulate; intros i _; apply Z.
Qed.

(** Row [i] of a proof message. *)
Lemma nth_proof a_tilde a_hat t_a chi i :
  (i < gadget_elements)%nat ->
  let r := prove_consistency_batched a_tilde a_hat t_a chi in
  r.[2 * i] = mul (fst chi).[i] a_tilde.[i] ⊕ mul (snd chi).[i] a_hat.[i] /\
  r.[2 * i + 1] = lxor_sum l (fun j =>
     mul (fst chi).[i] (fst t_a).[j * gadget_elements + i] ⊕
     mul (snd chi).[i] (snd t_a).[j * gadget_elements + i]).
Proof.
  intros Hi r. subst r. unfold prove_consistency_batched. split.
  - replace (2 * i)%nat with (i * 2 + 0)%nat by lia.
    rewrite (nth_flat_map _ 2 _ _ _ 0%nat), seq_nth;
      [reflexivity | assumption | auto | lia | now rewrite length_seq].
  - replace (2 * i + 1)%nat with (i * 2 + 1)%nat by lia.
    rewrite (nth_flat_map _ 2 _ _ _ 0%nat), seq_nth;
      [reflexivity | assumption | auto | lia | now rewrite length_seq].
Qed.

Lemma lxor_sum_zero n f : (forall i, (i < n)%nat -> f i = 0%N) -> lxor_sum n f = 0%N.
Proof.
  intros Hf. rewrite (lxor_sum_ext _ _ (fun _ => 0%N) Hf). clear Hf.
  induction n as [|n IH]; [reflexivity|]. now rewrite lxor_sum_S, IH.
Qed.

(** A row whose products and choice bits all vanish keeps its start. *)
Lemma check_row_still r t_b chi beta i :
  (forall j, (j < l)%nat -> mul (fst chi).[i] (fst t_b).[i * gadget_elements + j] ⊕
             mul (snd chi).[i] (snd t_b).[i * gadget_elements + j] = 0%N) ->
  (forall j, nth j beta false = false) ->
  check_row r t_b chi beta i = (r.[2 * i + 1], r.[2 * i]).
Proof.
  intros Hm Hb. unfold check_row.
  enough (H : forall xs, (forall x, In x xs -> (x < l)%nat) -> forall tmp rhs,
    fold_left (fun '(tmp, rhs) j =>
      let tmp := tmp ⊕ (mul (fst chi).[i] (fst t_b).[i * gadget_elements + j] ⊕
                        mul (snd chi).[i] (snd t_b).[i * gadget_elements + j]) in
      let rhs := if nth (i * gadget_elements + j) beta false then rhs ⊕ rhs else rhs in
      (tmp, rhs)) xs (tmp, rhs) = (tmp, rhs))
    by (apply H; intros x Hx; apply in_seq in Hx; lia).
  induction xs as [|x xs IH]; intros Hx tmp rhs; [reflexivity|].
  cbn [fold_left]. rewrite Hm, Hb, N.lxor_0_r by (apply Hx; now left).
  apply IH. intros y Hy. apply Hx. now right.
Qed.

Lemma mul_1_0 : mul 1 0 = 0%N.
Proof. vm_compute. reflexivity. Qed.

Lemma mul_1_1 : mul 1 1 = 1%N.
Proof. vm_compute. reflexivity. Qed.

(** The pads the sender keeps in the simple run. *)
Lemma simple_sender : zeros (fst (t_a (sender_of simple_tape))).
Proof. apply zeros_tabulate. intros i _. apply nth_repeat. Qed.

Lemma simple_consistent : tape_consistent simple_tape = true.
Proof.
  destruct simple_transfer as [Zf Zs]. pose proof simple_sender as Za.
  unfold tape_consistent, receiver_is_consistent, sender_proof, check_consistency_batched.
  apply check_consistency_fold. intros i Hi. apply in_seq in Hi.
  cbn [receiver_set_chi sender_set_chi t_b t_a r_chi s_chi beta a_tilde a_hat
       generate_batched_randomness fst snd].
  assert (Hc : (tp_chi simple_tape).[i] = 1%N) by (apply nth_repeat_lt; lia).
  assert (Hh : (tp_chi_hat simple_tape).[i] = 0%N) by apply nth_repeat.
  rewrite check_row_still; [|intros j Hj|apply all_false_choice].
  - cbn [fst snd].
    destruct (nth_proof (a_tilde (sender_of simple_tape)) (a_hat (sender_of simple_tape))
                (t_a (sender_of simple_tape)) (tp_chi simple_tape, tp_chi_hat simple_tape) i)
      as [-> ->]; [lia|].
    cbn [fst snd]. rewrite lxor_sum_zero.
    + rewrite Hc, Hh, mul_0_l, N.lxor_0_r.
      change (a_tilde (sender_of simple_tape)) with (repeat 1%N l).
      rewrite nth_repeat_lt, mul_1_1 by (rewrite l_value, gadget_elements_value in *; lia).
      discriminate.
    + intros j Hj. now rewrite Hc, Hh, Za, mul_1_0, mul_0_l.
  - cbn [fst snd]. now rewrite Hc, Hh, Zf, mul_1_0, mul_0_l.
Qed.

End SimpleRun.

(** ** Field arithmetic *)

(** C26: [F2128_MTA::mul] (Karatsuba with carry-less multiplications and the
    shift-based reduction) is multiplication in GF(2)[x] modulo
    [x^128 + x^7 + x^2 + x + 1], for all pairs of blocks. *)
Theorem mul_is_field_mul (a b : N) :
  (a < 2^128)%N -> (b < 2^128)%N -> F2128.mul a b = gf_mul a b.
Proof. apply mul_gf_mul. Qed.

Lemma mul_is_field_mul_witness :
  F2128.mul 0xdeadbeef (2^128 - 1)%N = gf_mul 0xdeadbeef (2^128 - 1)%N.
Proof. apply (mul_is_field_mul 0xdeadbeef (2^128 - 1)%N); reflexivity. Defined.

(** C27: [F2128_MTA::inv] returns a block that is the multiplicative inverse
    of every non-zero block under [F2128_MTA::mul], and zero for zero. *)
Theorem inv_is_inverse (a : N) :
  (a < 2^128)%N ->
  F2128.inv 0 = 0%N /\ (F2128.inv a < 2^128)%N /\
  (a <> 0%N -> F2128.mul a (F2128.inv a) = 1%N).
Proof.
  intros Ha. assert (H0 : F2128.inv 0 = 0%N) by (vm_compute; reflexivity).
  split; [exact H0|]. destruct (N.eq_dec a 0) as [->|Hn].
  - rewrite H0. split; [reflexivity | easy].
  - destruct (inv_mul_gf a Ha Hn) as [Hl E]. split; [exact Hl|].
    intros _. rewrite mul_gf_mul; assumption.
Qed.

Lemma inv_is_inverse_witness :
  F2128.inv 0 = 0%N /\ (F2128.inv 3 < 2^128)%N /\
  (3 <> 0 -> F2128.mul 3 (F2128.inv 3) = 1)%N.
Proof. apply (inv_is_inverse 3); reflexivity. Defined.

(** [shift_right_bits<bits>] is the logical right shift of the whole
    block by any number of bits, and [shift_left_bits<bits>] the logical
    left shift (dropping the carry) for every [bits <= 64]. *)
Theorem shifts_are_shifts (bits x : N) :
  (x < 2^128)%N ->
  F2128.shift_right_bits bits x = N.shiftr x bits /\
  ((bits <= 64)%N -> F2128.shift_left_bits bits x = wrap 128 (N.shiftl x bits)).
Proof.
  intros Hx. split; [now apply shift_right_bits_spec|].
  intros Hb. now apply shift_left_bits_spec.
Qed.

Lemma shifts_are_shifts_witness :
  F2128.shift_right_bits 67 (2^128 - 1)%N = N.shiftr (2^128 - 1) 67 /\
  ((67 <= 64)%N -> F2128.shift_left_bits 67 (2^128 - 1)%N = wrap 128 (N.shiftl (2^128 - 1) 67)).
Proof. apply (shifts_are_shifts 67 (2^128 - 1)%N). reflexivity. Defined.

(** For [bits > 64], [shift_left_bits] shifts the upper half by whole
    bytes instead of bits: the result is the input shifted left by
    [64 + 8 (bits - 64)], so shifting 1 by 65 gives [2^72], not [2^65]. *)
Theorem shift_left_bits_over_64 (bits x : N) :
  (64 <= bits)%N ->
  F2128.shift_left_bits bits x = wrap 128 (N.shiftl x (64 + 8 * (bits - 64))) /\
  F2128.shift_left_bits 65 1 = N.shiftl 1 72.
Proof.
  intros Hb. split; [|reflexivity]. unfold F2128.shift_left_bits.
  rewrite (proj2 (N.leb_le 64 bits) Hb). unfold mm_slli_si128.
  bitwise i. rewrite !shiftl_bits, wrap_spec, shiftl_bits. nsplit.
Qed.

Lemma shift_left_bits_over_64_witness :
  F2128.shift_left_bits 70 5 = wrap 128 (N.shiftl 5 (64 + 8 * (70 - 64))) /\
  F2128.shift_left_bits 65 1 = N.shiftl 1 72.
Proof. apply (shift_left_bits_over_64 70 5). discriminate. Defined.

(** ** Power sharing *)

(** C1: If the receiver's check accepts, both parties of
    [generate_shares_batched] return, and for every [j < 1088] the two
    outputs at [j] are blocks that add up to the [(j+1)]-th power of the
    product of the two inputs: whatever the random tape, the choice bits,
    the gadget and the uninitialised output memory. *)
Theorem generate_shares_batched_shares {ot : OTChannel} (ot_ok : OTCorrect)
    (tp : Tape) (p_in v_in : N) :
  TapeOk tp -> (p_in < 2^128)%N -> (v_in < 2^128)%N ->
  tape_consistent tp = true ->
  exists out_p out_v,
    generate_shares_batched tp p_in v_in = Some (out_p, out_v) /\
    forall j, (j < num_powers)%nat ->
      (out_p.[j] < 2^128)%N /\ (out_v.[j] < 2^128)%N /\
      out_p.[j] ⊕ out_v.[j] = gf_pow (gf_mul p_in v_in) (j + 1).
Proof.
  intros Htp Hp Hv Hc. rewrite generate_shares_batched_eq, Hc.
  eexists _, _. split; [reflexivity|]. intros j Hj.
  exact (shares_good tp Htp p_in v_in Hp Hv j Hj).
Qed.

Lemma generate_shares_batched_shares_witness :
  exists out_p out_v,
    @generate_shares_batched ideal_ot simple_tape 5 9 = Some (out_p, out_v) /\
    forall j, (j < num_powers)%nat ->
      (out_p.[j] < 2^128)%N /\ (out_v.[j] < 2^128)%N /\
      out_p.[j] ⊕ out_v.[j] = gf_pow (gf_mul 5 9) (j + 1).
Proof.
  apply (@generate_shares_batched_shares ideal_ot ideal_ot_correct simple_tape 5 9).
  - exact simple_tape_ok.
  - reflexivity.
  - reflexivity.
  - exact simple_consistent.
Defined.

(** The squaring loop of [compute_squares] ends: its index at least
    doubles, so with [num_powers] rounds of fuel from any start it has left
    the array, and more fuel gives the same result. *)
Theorem compute_squares_terminates (start extra : nat) (out : list N) :
  squares_loop (num_powers + extra) (start * 2 + 1) start out = compute_squares start out.
Proof. unfold compute_squares. apply squares_loop_fuel. lia. Qed.

(** [check_consistency_batched] accepts exactly when in every row the
    two sides of the check differ: the comparison has the wrong polarity. *)
Theorem check_consistency_batched_inverted r t_b chi beta :
  check_consistency_batched r t_b chi beta = true <->
  forall i, (i < gadget_elements)%nat ->
    fst (check_row r t_b chi beta i) <> snd (check_row r t_b chi beta i).
Proof.
  unfold check_consistency_batched. rewrite check_consistency_fold.
  split; intros H i Hi; apply H; apply in_seq + apply in_seq in Hi; lia.
Qed.

(** A row of zero challenges is [(0, 0)], whatever the pads and choices. *)
Lemma check_row_zero r t_b chi beta i :
  (fst chi).[i] = 0%N -> (snd chi).[i] = 0%N -> r.[2 * i] = 0%N -> r.[2 * i + 1] = 0%N ->
  check_row r t_b chi beta i = (0%N, 0%N).
Proof.
  intros H0 H1 R0 R1. unfold check_row. rewrite R0, R1, H0, H1.
  generalize (seq 0 l). intros xs. induction xs as [|x xs IH]; [reflexivity|].
  cbn [fold_left]. rewrite !mul_0_l. destruct (nth _ beta false); exact IH.
Qed.

(** Two honest parties whose challenges are all zero satisfy every row
    of the check ([0 = 0]), and the run aborts. *)
Theorem zero_challenge_run_aborts {ot : OTChannel} (tp : Tape) (p_in v_in : N) :
  zeros (tp_chi tp) -> zeros (tp_chi_hat tp) ->
  generate_shares_batched tp p_in v_in = None.
Proof.
  intros Z0 Z1. rewrite generate_shares_batched_eq.
  destruct (tape_consistent tp) eqn:E; [exfalso | reflexivity].
  assert (Hi : (0 < gadget_elements)%nat) by (rewrite gadget_elements_value; lia).
  unfold tape_consistent, receiver_is_consistent, check_consistency_batched in E.
  rewrite check_consistency_fold in E.
  apply (E 0%nat); [apply in_seq; lia|]. unfold sender_proof.
  cbn [receiver_set_chi sender_set_chi t_b t_a r_chi s_chi beta a_tilde a_hat
       generate_batched_randomness fst snd].
  match goal with |- context [prove_consistency_batched ?a ?h ?t ?c] =>
    destruct (nth_proof a h t c 0 Hi) as [R0 R1] end.
  cbn [fst snd] in R0, R1. rewrite Z0, Z1, !mul_0_l in R0.
  rewrite check_row_zero; [reflexivity | apply Z0 | apply Z1 | exact R0 |].
  rewrite R1. apply lxor_sum_zero. intros j _. now rewrite Z0, Z1, !mul_0_l.
Qed.

Lemma zero_challenge_run_aborts_witness :
  @generate_shares_batched ideal_ot zero_challenge_tape 5 9 = None.
Proof. apply (@zero_challenge_run_aborts ideal_ot); apply zeros_repeat. Defined.
