(* ===== verification/GHash.v ===== *)
(** * Local evaluation of GHASH ([ssl/GHash.hpp])

    [GHash::share] evaluates the GHASH polynomial against one party's
    additive shares of the powers of the hash key.  The reference is GHASH
    of NIST SP 800-38D: blocks are bit strings whose first bit is the most
    significant one, and the block product shifts right. *)

From S2P Require Import Prelude Block128 GF128 FieldCode FieldInverse.
From S2P Require Import F2128MtA F2128Shares F2128Powers F2128Claims.

Import F2128.

(** ** The code *)

Module GHash.

Definition kMaxPowers : nat := 1088.

(** [detail::bitrev]: the bits of each byte, reversed. *)
Definition bitrev_byte (b : N) : N :=
  fold_left (fun r j =>
      wrap 8 (N.lor r (N.shiftl (N.land (N.shiftr b (N.of_nat j)) 1) (7 - N.of_nat j))))
    (seq 0 8) 0%N.

Definition bitrev (inp : list N) : list N := tabulate 16 (fun i => bitrev_byte inp.[i]).

(** [memcpy] of [len] bytes at [off] into a zeroed block. *)
Definition padded_copy (src : list N) (off : nat) : list N :=
  let len := Nat.min 16 (length src - off) in
  firstn len (skipn off src) ++ repeat 0%N (16 - len).

Definition length_block (aad_size ct_size : N) : list N :=
  let abits := wrap 64 (aad_size * 8) in
  let cbits := wrap 64 (ct_size * 8) in
  tabulate 8 (fun i => wrap 8 (N.shiftr abits (56 - 8 * N.of_nat i))) ++
  tabulate 8 (fun i => wrap 8 (N.shiftr cbits (56 - 8 * N.of_nat i))).

(** The lambda [block_at]; [j] counts from 1. *)
Definition block_at (aad ciphertext : list N) (j : nat) : list N :=
  let aad_blocks := ((length aad + 15) / 16)%nat in
  let ct_blocks := ((length ciphertext + 15) / 16)%nat in
  if (j <=? aad_blocks)%nat then padded_copy aad ((j - 1) * 16)
  else if (j <=? aad_blocks + ct_blocks)%nat then
    padded_copy ciphertext ((j - aad_blocks - 1) * 16)
  else length_block (N.of_nat (length aad)) (N.of_nat (length ciphertext)).

Definition power_bytes (powers : list N) (i : nat) : list N := firstn 16 (skipn (i * 16) powers).

(** [None] is the [false] the function returns without writing [out]. *)
Definition share (powers aad ciphertext : list N) : option (list N) :=
  let aad_blocks := ((length aad + 15) / 16)%nat in
  let ct_blocks := ((length ciphertext + 15) / 16)%nat in
  let n := (aad_blocks + ct_blocks + 1)%nat in
  if (kMaxPowers <? n)%nat then None
  else
    let acc := fold_left (fun acc j =>
        acc ⊕ mul (arr_to_block (bitrev (block_at aad ciphertext j)))
                  (arr_to_block (power_bytes powers (n - j))))
      (seq 1 n) zero_block in
    Some (bitrev (block_to_arr acc)).

End GHash.

(** ** GHASH of SP 800-38D *)

Module NIST.

(** A byte string as a bit string, first byte first: an integer whose most
    significant bit is the first bit. *)
Definition be_int (bs : list N) : N :=
  fold_left (fun acc b => wrap 8 b ⊕ N.shiftl acc 8) bs 0%N.

Definition R : N := N.shiftl 0xE1 120.

Definition step (V : N) : N := N.shiftr V 1 ⊕ (if N.testbit V 0 then R else 0%N).

(** Algorithm 1: [X • Y]. *)
Definition product (X Y : N) : N :=
  fst (fold_left (fun '(Z, V) i =>
         ((if N.testbit X (127 - N.of_nat i) then Z ⊕ V else Z), step V))
       (seq 0 128) (0%N, Y)).

(** Algorithm 2. *)
Definition ghash (H : N) (blocks : list N) : N :=
  fold_left (fun Y X => product (Y ⊕ X) H) blocks 0%N.

Definition pad16 (s : list N) : list N := s ++ repeat 0%N ((16 - length s mod 16) mod 16).

Definition be_bytes64 (v : N) : list N :=
  tabulate 8 (fun i => wrap 8 (N.shiftr v (56 - 8 * N.of_nat i))).

(** The input GCM hashes: padded data, padded ciphertext, the bit lengths. *)
Definition gcm_input (aad ct : list N) : list N :=
  pad16 aad ++ pad16 ct ++ be_bytes64 (N.of_nat (length aad) * 8)
            ++ be_bytes64 (N.of_nat (length ct) * 8).

Definition chunks (s : list N) : list (list N) :=
  tabulate (length s / 16) (fun i => firstn 16 (skipn (i * 16) s)).

Definition gcm_ghash (H : N) (aad ct : list N) : N :=
  ghash H (map be_int (chunks (gcm_input aad ct))).

End NIST.

(** The products of the two conventions on a vector of the GCM paper:
    test case 2, [GHASH(H, {}, C)]. *)
Example gcm_test_case_2 :
  NIST.gcm_ghash 0x66e94bd4ef8a2c3b884cfa59ca342b2e%N []
    [0x03;0x88;0xda;0xce;0x60;0xb6;0xa3;0x92;0xf3;0x28;0xc2;0xb9;0x71;0xb2;0xfe;0x78]%N
  = 0xf38cbb1ad69223dcc3457ae5b6b0f885%N.
Proof. vm_compute. reflexivity. Qed.

(** ** Bits of the two representations *)

Section Bits.
Local Open Scope N_scope.

Fixpoint rev_bits (n : nat) (x : N) : N :=
  match n with
  | O => 0
  | S k => (if N.testbit x 0 then 2 ^ N.of_nat k else 0) ⊕ rev_bits k (N.shiftr x 1)
  end.

Lemma rev_bits_spec n x i :
  N.testbit (rev_bits n x) i = (i <? N.of_nat n) && N.testbit x (N.of_nat n - 1 - i).
Proof.
  revert x i. induction n as [|n IH]; intros x i; cbn [rev_bits].
  - rewrite N.bits_0. now destruct (N.ltb_spec i (N.of_nat 0)); [lia|].
  - rewrite N.lxor_spec, IH, N.shiftr_spec'.
    replace (N.testbit (if N.testbit x 0 then 2 ^ N.of_nat n else 0) i)
      with ((N.of_nat n =? i) && N.testbit x 0)
      by (destruct (N.testbit x 0); [rewrite N.pow2_bits_eqb, andb_true_r |
          rewrite N.bits_0, andb_false_r]; reflexivity).
    destruct (N.eqb_spec (N.of_nat n) i) as [<-|Hn].
    + rewrite N.ltb_irrefl. cbn [andb xorb]. rewrite xorb_false_r.
      destruct (N.ltb_spec (N.of_nat n) (N.of_nat (S n))); [|lia].
      cbn [andb]. f_equal; lia.
    + cbn [andb]. rewrite xorb_false_l.
      destruct (N.ltb_spec i (N.of_nat n)), (N.ltb_spec i (N.of_nat (S n))); try lia;
        cbn [andb]; try reflexivity; f_equal; lia.
Qed.

Definition rev128 (x : N) : N := rev_bits 128 x.

Lemma rev128_spec x i : N.testbit (rev128 x) i = (i <? 128) && N.testbit x (127 - i).
Proof. unfold rev128. rewrite rev_bits_spec. reflexivity. Qed.

#[local] Opaque rev128.

Lemma rev128_lt x : rev128 x < 2^128.
Proof.
  apply (lt_pow2_bits _ 128). intros i Hi. rewrite rev128_spec.
  now rewrite (proj2 (N.ltb_ge i 128)).
Qed.

Lemma rev128_invol x : x < 2^128 -> rev128 (rev128 x) = x.
Proof.
  intros Hx. apply N.bits_inj. intros i. rewrite !rev128_spec.
  destruct (N.ltb_spec i 128) as [Hi|Hi].
  - destruct (N.ltb_spec (127 - i) 128); [|lia]. cbn [andb]. f_equal; lia.
  - symmetry. exact (testbit_high x 128 i Hx Hi).
Qed.

#[export] Instance linear_rev128 : Linear rev128.
Proof.
  intros a b. apply N.bits_inj. intros i. rewrite N.lxor_spec, !rev128_spec, N.lxor_spec.
  now destruct (i <? 128).
Qed.

(** The right shift of the specification is multiplication by [x]. *)
Lemma step_rev128 a : a < 2^128 -> NIST.step (rev128 a) = rev128 (xtime a).
Proof.
  assert (L1 : Linear (fun a => NIST.step (rev128 a))).
  { pose proof linear_rev128. unfold NIST.step. exact _. }
  assert (L2 : Linear (fun a => rev128 (xtime a))) by exact (linear_comp _ _ _ _).
  apply (linear_ext_basis 128 _ _ (H := L1) (H0 := L2)). vm_compute. reflexivity.
Qed.

Lemma product_loop X n : forall k Z a,
  a < 2^128 -> (k + n <= 128)%nat ->
  fst (fold_left (fun '(Z, V) i =>
        ((if N.testbit X (127 - N.of_nat i) then Z ⊕ V else Z), NIST.step V))
      (seq k n) (Z, rev128 a)) =
  Z ⊕ rev128 (gf_mul_n n a (N.shiftr (rev128 X) (N.of_nat k))).
Proof.
  induction n as [|n IH]; intros k Z a Ha Hk.
  - cbn [gf_mul_n seq fold_left fst]. rewrite (linear_0 rev128). now rewrite N.lxor_0_r.
  - cbn [seq fold_left]. rewrite step_rev128, IH by (apply xtime_lt || assumption || lia).
    cbn [gf_mul_n]. rewrite N.shiftr_spec', rev128_spec, N.add_0_l.
    destruct (N.ltb_spec (N.of_nat k) 128); [cbn [andb] | lia].
    rewrite N.shiftr_shiftr. replace (N.of_nat k + 1) with (N.of_nat (S k)) by lia.
    rewrite (linear_lxor (f := rev128)).
    destruct N.testbit; [apply N.lxor_assoc|]. now rewrite (linear_0 rev128), N.lxor_0_l.
Qed.

(** The product of the specification is the field product of the code. *)
Lemma product_gf_mul X Y :
  Y < 2^128 -> NIST.product X Y = rev128 (gf_mul (rev128 Y) (rev128 X)).
Proof.
  intros HY. unfold NIST.product. rewrite <- (rev128_invol Y) at 1 by assumption.
  rewrite product_loop by (apply rev128_lt || lia).
  now rewrite N.lxor_0_l, N.shiftr_0_r.
Qed.

(** Horner's rule: GHASH is a polynomial in the key. *)
Definition poly (h : N) (bs : list N) : N :=
  lxor_sum (length bs) (fun i => bs.[i] ⊗ gf_pow h (length bs - i)).

Lemma poly_snoc h bs b :
  h < 2^128 -> Forall (fun x => x < 2^128) bs ->
  poly h (bs ++ [b]) = (poly h bs ⊕ b) ⊗ h.
Proof.
  intros Hh Hb. unfold poly. rewrite length_app. cbn [length].
  rewrite Nat.add_1_r, lxor_sum_S, app_nth2, Nat.sub_diag by lia. cbn [nth].
  replace (S (length bs) - length bs)%nat with 1%nat by lia.
  rewrite gf_pow_1, gf_mul_distr_r. f_equal.
  rewrite (lxor_sum_linear _ _ (fun x => x ⊗ h) (H := gf_mul_linear_l _ h linear_id)).
  apply lxor_sum_ext. intros i Hi. rewrite app_nth1 by assumption.
  replace (S (length bs) - i)%nat with (S (length bs - i)) by lia.
  rewrite gf_pow_S. rewrite (gf_mul_comm h) by auto with bits.
  symmetry. apply gf_mul_assoc; auto with bits.
Qed.

Lemma poly_lt h bs : Forall (fun x => x < 2^128) bs -> poly h bs < 2^128.
Proof.
  intros Hb. apply (lxor_sum_lt _ _ 128). intros i _. now apply gf_mul_lt, blocks_nth.
Qed.

Lemma blocks_rev128 bs : Forall (fun x => x < 2^128) (map rev128 bs).
Proof. apply Forall_map, Forall_forall. intros. apply rev128_lt. Qed.

Lemma ghash_poly H blocks :
  H < 2^128 -> NIST.ghash H blocks = rev128 (poly (rev128 H) (map rev128 blocks)).
Proof.
  intros HH. induction blocks as [|x xs IH] using rev_ind.
  - symmetry. exact (linear_0 rev128).
  - unfold NIST.ghash in *. rewrite fold_left_app. cbn [fold_left].
    rewrite IH, map_app by assumption. cbn [map].
    pose proof (poly_lt (rev128 H) _ (blocks_rev128 xs)) as Hp.
    rewrite poly_snoc by (apply rev128_lt || apply blocks_rev128).
    rewrite product_gf_mul, (linear_lxor (f := rev128)), rev128_invol by assumption.
    f_equal. apply gf_mul_comm; [apply rev128_lt | apply lxor_lt128; [exact Hp | apply rev128_lt]].
Qed.

(** *** Bytes *)

Abbreviation bytes bs := (Forall (fun b => b < 256) bs).

Lemma bytes_nth bs i : bytes bs -> bs.[i] < 256.
Proof.
  intros Hb. destruct (Nat.lt_ge_cases i (length bs)).
  - rewrite Forall_forall in Hb. now apply Hb, nth_In.
  - now rewrite nth_overflow.
Qed.

Lemma setr_bits bs i :
  N.testbit (mm_setr_epi8 bs) i = N.testbit (wrap 8 bs.[N.to_nat (i / 8)]) (i mod 8).
Proof.
  revert i. induction bs as [|b bs IH]; intros i.
  - cbn [mm_setr_epi8 fold_right]. destruct (N.to_nat (i / 8)); now rewrite ?N.bits_0.
  - cbn [mm_setr_epi8 fold_right]. fold (mm_setr_epi8 bs).
    rewrite N.lxor_spec, shiftl_bits. destruct (N.leb_spec 8 i) as [Hi|Hi].
    + rewrite wrap_spec, (proj2 (N.ltb_ge i 8)), andb_false_r, xorb_false_l, IH by assumption.
      cbn [andb]. replace (i / 8) with ((i - 8) / 8 + 1) by
        (rewrite <- N.div_add by lia; f_equal; lia).
      replace (i mod 8) with ((i - 8) mod 8) by
        (rewrite <- (N.Div0.mod_add _ 1); f_equal; lia).
      replace (N.to_nat ((i - 8) / 8 + 1)) with (S (N.to_nat ((i - 8) / 8))) by lia.
      reflexivity.
    + cbn [andb]. rewrite xorb_false_r, N.div_small, N.mod_small by assumption. reflexivity.
Qed.

Lemma be_int_setr bs : NIST.be_int bs = mm_setr_epi8 (rev bs).
Proof. symmetry. apply (fold_left_rev_right (fun b acc => wrap 8 b ⊕ N.shiftl acc 8)). Qed.

Lemma setr_lt bs : (length bs <= 16)%nat -> mm_setr_epi8 bs < 2^128.
Proof.
  intros Hl. apply (lt_pow2_bits _ 128). intros i Hi. rewrite setr_bits, nth_overflow.
  - apply N.bits_0.
  - pose proof (N.Div0.div_le_mono 128 i 8 Hi). change (128 / 8) with 16 in *. lia.
Qed.

Lemma bitrev_byte_table :
  forallb (fun b => GHash.bitrev_byte b =? rev_bits 8 b) (map N.of_nat (seq 0 256)) = true.
Proof. vm_compute. reflexivity. Qed.

Lemma bitrev_byte_spec b : b < 256 -> GHash.bitrev_byte b = rev_bits 8 b.
Proof.
  intros Hb. apply N.eqb_eq. pose proof bitrev_byte_table as T.
  rewrite forallb_forall in T. apply T, in_map_iff. exists (N.to_nat b).
  rewrite N2Nat.id. split; [reflexivity|]. apply in_seq. lia.
Qed.

(** Counting the bits of a 16-byte block from the other end. *)
Lemma mirror_index i :
  i < 128 -> i / 8 < 16 /\ i mod 8 < 8 /\
  (127 - i) / 8 = 15 - i / 8 /\ (127 - i) mod 8 = 7 - i mod 8.
Proof.
  intros Hi. pose proof (N.div_mod i 8 ltac:(lia)) as E.
  pose proof (N.mod_lt i 8 ltac:(lia)) as Hr.
  set (q := i / 8) in *. set (r := i mod 8) in *. clearbody q r.
  split; [lia | split; [lia | split; symmetry]].
  - apply (N.div_unique _ _ _ (7 - r)); lia.
  - apply (N.mod_unique _ _ (15 - q)); lia.
Qed.

Lemma bitrev_block bs :
  length bs = 16%nat -> bytes bs ->
  arr_to_block (GHash.bitrev bs) = rev128 (NIST.be_int bs).
Proof.
  intros Hl Hb. apply N.bits_inj. intros i. rewrite rev128_spec, be_int_setr.
  unfold arr_to_block, GHash.bitrev.
  rewrite firstn_all2 by (rewrite length_tabulate; lia).
  destruct (N.ltb_spec i 128) as [Hi|Hi]; cbn [andb].
  - rewrite !setr_bits, !wrap_spec.
    destruct (mirror_index i Hi) as (Hd & Hm & Ed & Em).
    rewrite Ed, Em. clear Ed Em. set (q := i / 8) in *. set (r := i mod 8) in *. clearbody q r.
    rewrite nth_tabulate, bitrev_byte_spec, rev_bits_spec by (auto using bytes_nth; lia).
    rewrite rev_nth, Hl by lia.
    replace (16 - S (N.to_nat (15 - q)))%nat with (N.to_nat q) by lia.
    change (N.of_nat 8) with 8. nsplit.
  - apply (testbit_high _ 128); [|assumption]. apply setr_lt. now rewrite length_tabulate.
Qed.

Lemma block_to_arr_byte x i : (i < 16)%nat -> (block_to_arr x).[i] = lane 8 (N.of_nat i) x.
Proof.
  intros Hi. exact (nth_tabulate 16 (fun i => mm_extract_epi8 x (N.of_nat i)) i 0 Hi).
Qed.

Lemma block_to_arr_bytes x : bytes (block_to_arr x).
Proof.
  apply Forall_forall. intros b Hb. apply in_map_iff in Hb as (i & <- & _).
  apply (wrap_lt 8).
Qed.

Lemma length_block_to_arr x : length (block_to_arr x) = 16%nat.
Proof. reflexivity. Qed.

Lemma arr_block_roundtrip x : x < 2^128 -> arr_to_block (block_to_arr x) = x.
Proof.
  intros Hx. unfold arr_to_block. rewrite firstn_all2 by (rewrite length_block_to_arr; lia).
  apply N.bits_inj. intros i. rewrite setr_bits.
  pose proof (N.div_mod i 8 ltac:(lia)). pose proof (N.mod_lt i 8 ltac:(lia)).
  destruct (N.lt_ge_cases i 128) as [Hi|Hi].
  - assert (i / 8 < 16) by (apply N.Div0.div_lt_upper_bound; lia).
    rewrite block_to_arr_byte by lia. unfold lane. autorewrite with bits.
    rewrite N2Nat.id. nsplit.
  - rewrite (testbit_high x 128) by assumption. rewrite nth_overflow; [apply N.bits_0|].
    rewrite length_block_to_arr. pose proof (N.Div0.div_le_mono 128 i 8 Hi).
    change (128 / 8) with 16 in *. lia.
Qed.

Lemma rev_bits_8_lt b : rev_bits 8 b < 256.
Proof.
  apply (lt_pow2_bits _ 8). intros i Hi. rewrite rev_bits_spec.
  change (N.of_nat 8) with 8. nsplit.
Qed.

Lemma bitrev_bytes bs : bytes bs -> bytes (GHash.bitrev bs).
Proof.
  intros Hb. apply Forall_forall. intros b H. apply in_map_iff in H as (i & <- & _).
  rewrite bitrev_byte_spec by now apply bytes_nth. apply rev_bits_8_lt.
Qed.

Lemma length_bitrev bs : length (GHash.bitrev bs) = 16%nat.
Proof. apply length_tabulate. Qed.

Lemma rev_bits_8_invol b : b < 256 -> rev_bits 8 (rev_bits 8 b) = b.
Proof.
  intros Hb. apply N.bits_inj. intros i. rewrite !rev_bits_spec.
  change (N.of_nat 8) with 8. destruct (N.ltb_spec i 8) as [Hi|Hi].
  - cbn [andb]. destruct (N.ltb_spec (8 - 1 - i) 8); [cbn [andb]; f_equal; lia | lia].
  - symmetry. exact (testbit_high b 8 i Hb Hi).
Qed.

Lemma bitrev_invol bs :
  length bs = 16%nat -> bytes bs -> GHash.bitrev (GHash.bitrev bs) = bs.
Proof.
  intros Hl Hb. apply (nth_ext _ _ 0 0); [now rewrite length_bitrev, Hl|].
  rewrite length_bitrev. intros i Hi. unfold GHash.bitrev at 1. rewrite nth_tabulate by assumption.
  rewrite bitrev_byte_spec by now apply bytes_nth, bitrev_bytes.
  unfold GHash.bitrev. rewrite nth_tabulate, bitrev_byte_spec by (auto using bytes_nth).
  apply rev_bits_8_invol. now apply bytes_nth.
Qed.

(** The tag share, as the bit string of the specification. *)
Lemma be_int_out acc :
  acc < 2^128 -> NIST.be_int (GHash.bitrev (block_to_arr acc)) = rev128 acc.
Proof.
  intros Ha. set (o := GHash.bitrev (block_to_arr acc)).
  assert (Ho : bytes o) by apply bitrev_bytes, block_to_arr_bytes.
  assert (Hl : length o = 16%nat) by apply length_bitrev.
  pose proof (bitrev_block o Hl Ho) as E. subst o.
  rewrite bitrev_invol, arr_block_roundtrip in E by
    (apply block_to_arr_bytes || reflexivity || assumption).
  rewrite E at 2. symmetry. apply rev128_invol. rewrite be_int_setr. apply setr_lt.
  rewrite length_rev. lia.
Qed.

End Bits.

(** ** The blocks of the input *)

Section Blocks.

Lemma div16_up n : ((n + 15) / 16 * 16 = n + (16 - n mod 16) mod 16)%nat.
Proof.
  pose proof (Nat.div_mod_eq n 16) as E. pose proof (Nat.mod_upper_bound n 16 ltac:(lia)) as Hr.
  set (q := (n / 16)%nat) in *. set (r := (n mod 16)%nat) in *. clearbody q r.
  destruct (Nat.eq_dec r 0) as [->|Hn].
  - change ((16 - 0) mod 16)%nat with 0%nat.
    replace ((n + 15) / 16)%nat with q by (apply (Nat.div_unique _ _ _ 15); lia). lia.
  - rewrite (Nat.mod_small (16 - r)) by lia.
    replace ((n + 15) / 16)%nat with (q + 1)%nat by (apply (Nat.div_unique _ _ _ (r - 1)); lia). lia.
Qed.

Lemma length_pad16 s : length (NIST.pad16 s) = ((length s + 15) / 16 * 16)%nat.
Proof. unfold NIST.pad16. rewrite length_app, repeat_length. symmetry. apply div16_up. Qed.

Lemma chunk_eq (s : list N) off c :
  length c = 16%nat -> (forall i, (i < 16)%nat -> s.[off + i] = c.[i]) ->
  (off + 16 <= length s)%nat -> firstn 16 (skipn off s) = c.
Proof.
  intros Hc Hi Hs. apply (nth_ext _ _ 0%N 0%N).
  - rewrite length_firstn, length_skipn. lia.
  - rewrite length_firstn, length_skipn. intros i Hlt.
    rewrite nth_firstn, nth_skipn. destruct (Nat.ltb_spec i 16); [|lia]. apply Hi. lia.
Qed.

Lemma length_padded_copy src off : length (GHash.padded_copy src off) = 16%nat.
Proof.
  unfold GHash.padded_copy. rewrite length_app, length_firstn, length_skipn, repeat_length. lia.
Qed.

Lemma nth_padded_copy src off i : (i < 16)%nat -> (GHash.padded_copy src off).[i] = src.[off + i].
Proof.
  intros Hi. unfold GHash.padded_copy.
  set (len := Nat.min 16 (length src - off)).
  assert (Hl : length (firstn len (skipn off src)) = len)
    by (rewrite length_firstn, length_skipn; lia).
  destruct (Nat.lt_ge_cases i len).
  - rewrite app_nth1, nth_firstn, nth_skipn by lia. now rewrite (proj2 (Nat.ltb_lt i len)).
  - rewrite app_nth2, nth_repeat, nth_overflow by lia. reflexivity.
Qed.

Lemma nth_pad16 s i : (NIST.pad16 s).[i] = s.[i].
Proof.
  unfold NIST.pad16. destruct (Nat.lt_ge_cases i (length s)).
  - now apply app_nth1.
  - rewrite app_nth2, nth_repeat, nth_overflow by lia. reflexivity.
Qed.

Lemma bytes_block_at aad ct j :
  Forall (fun b => b < 256)%N aad -> Forall (fun b => b < 256)%N ct ->
  length (GHash.block_at aad ct j) = 16%nat /\
  Forall (fun b => b < 256)%N (GHash.block_at aad ct j).
Proof.
  intros Ha Hc.
  assert (P : forall s off, Forall (fun b => b < 256)%N s ->
              Forall (fun b => b < 256)%N (GHash.padded_copy s off)).
  { intros s off Hs. unfold GHash.padded_copy. apply Forall_app. split.
    - rewrite <- (firstn_skipn off s) in Hs. apply Forall_app in Hs as [_ Hs].
      rewrite <- (firstn_skipn (Nat.min 16 (length s - off)) (skipn off s)) in Hs.
      now apply Forall_app in Hs.
    - apply Forall_forall. intros b Hb. now apply repeat_spec in Hb as ->. }
  unfold GHash.block_at. destruct (_ <=? _)%nat; [|destruct (_ <=? _)%nat].
  - split; [apply length_padded_copy | now apply P].
  - split; [apply length_padded_copy | now apply P].
  - split; [reflexivity|]. apply Forall_app.
    split; apply Forall_forall; intros b Hb; apply in_map_iff in Hb as (i & <- & _);
      apply (wrap_lt 8).
Qed.

(** The number of blocks, length block included. *)
Definition block_count (aad ct : list N) : nat :=
  ((length aad + 15) / 16 + (length ct + 15) / 16 + 1)%nat.

Lemma length_gcm_input aad ct : length (NIST.gcm_input aad ct) = (block_count aad ct * 16)%nat.
Proof.
  unfold NIST.gcm_input, NIST.be_bytes64, block_count.
  rewrite !length_app, !length_pad16, !length_tabulate. lia.
Qed.

Lemma chunk_block_at aad ct i :
  (i < block_count aad ct)%nat -> (block_count aad ct <= GHash.kMaxPowers)%nat ->
  firstn 16 (skipn (i * 16) (NIST.gcm_input aad ct)) = GHash.block_at aad ct (S i).
Proof.
  intros Hi Hn. pose proof (length_pad16 aad) as La. pose proof (length_pad16 ct) as Lc.
  pose proof (length_gcm_input aad ct) as Lg.
  pose proof (div16_up (length aad)) as Da. pose proof (div16_up (length ct)) as Dc.
  unfold block_count, GHash.kMaxPowers, GHash.block_at in *.
  set (na := ((length aad + 15) / 16)%nat) in *. set (nc := ((length ct + 15) / 16)%nat) in *.
  clearbody na nc.
  apply chunk_eq.
  - repeat destruct (_ <=? _)%nat; rewrite ?length_padded_copy; reflexivity.
  - intros j Hj. unfold NIST.gcm_input.
    destruct (Nat.leb_spec (S i) na) as [H1|H1].
    + rewrite app_nth1, nth_pad16, nth_padded_copy by lia. f_equal. lia.
    + rewrite app_nth2 by lia. destruct (Nat.leb_spec (S i) (na + nc)) as [H2|H2].
      * rewrite app_nth1, nth_pad16, nth_padded_copy by lia. f_equal. lia.
      * rewrite app_nth2 by lia. replace (i * 16 + j - _ - _)%nat with j by lia.
        unfold GHash.length_block, NIST.be_bytes64.
        now rewrite !(wrap_small 64) by (change (2 ^ 64)%N with 18446744073709551616%N; lia).
  - lia.
Qed.

Lemma chunks_block_at aad ct :
  (block_count aad ct <= GHash.kMaxPowers)%nat ->
  NIST.chunks (NIST.gcm_input aad ct) =
  tabulate (block_count aad ct) (fun i => GHash.block_at aad ct (S i)).
Proof.
  intros Hn. unfold NIST.chunks. rewrite length_gcm_input, Nat.div_mul by lia.
  apply map_ext_in. intros i Hi. apply chunk_block_at; [|assumption]. apply in_seq in Hi. lia.
Qed.

End Blocks.

(** ** One party's share *)

#[local] Opaque gf_mul gf_mul_n xtime F2128.mul rev128.

Section Share.
Local Open Scope N_scope.

Lemma fold_seq1 n (f : nat -> N) :
  fold_left (fun acc j => acc ⊕ f j) (seq 1 n) 0 = lxor_sum n (fun i => f (S i)).
Proof.
  unfold lxor_sum. rewrite <- seq_shift.
  generalize (seq 0 n) 0. induction l as [|x l IH]; intros acc; [reflexivity | apply IH].
Qed.

Lemma arr_lt xs : arr_to_block xs < 2^128.
Proof. apply setr_lt. rewrite length_firstn. lia. Qed.

(** The accumulator of [share]. *)
Definition share_acc (powers aad ct : list N) : N :=
  lxor_sum (block_count aad ct) (fun i =>
    rev128 (NIST.be_int (GHash.block_at aad ct (S i))) ⊗
    arr_to_block (GHash.power_bytes powers (block_count aad ct - S i))).

Lemma share_acc_lt powers aad ct : share_acc powers aad ct < 2^128.
Proof. apply (lxor_sum_lt _ _ 128). intros. apply gf_mul_lt, rev128_lt. Qed.

Lemma share_eq powers aad ct :
  Forall (fun b => b < 256) aad -> Forall (fun b => b < 256) ct ->
  GHash.share powers aad ct =
  if (GHash.kMaxPowers <? block_count aad ct)%nat then None
  else Some (GHash.bitrev (block_to_arr (share_acc powers aad ct))).
Proof.
  intros Ha Hc. unfold GHash.share. fold (block_count aad ct).
  destruct (_ <? _)%nat; [reflexivity|]. do 3 f_equal.
  change zero_block with 0. rewrite fold_seq1. apply lxor_sum_ext. intros i Hi.
  rewrite mul_gf_mul by apply arr_lt.
  destruct (bytes_block_at aad ct (S i) Ha Hc). now rewrite bitrev_block.
Qed.

(** The two accumulators add up to the polynomial. *)
Lemma share_acc_sum H powers_p powers_v aad ct :
  (block_count aad ct <= GHash.kMaxPowers)%nat ->
  (forall i, (i < block_count aad ct)%nat ->
     arr_to_block (GHash.power_bytes powers_p i) ⊕ arr_to_block (GHash.power_bytes powers_v i)
     = gf_pow (rev128 H) (i + 1)) ->
  share_acc powers_p aad ct ⊕ share_acc powers_v aad ct =
  poly (rev128 H) (map rev128 (map NIST.be_int (NIST.chunks (NIST.gcm_input aad ct)))).
Proof.
  intros Hn Hp. rewrite chunks_block_at by assumption.
  unfold share_acc, poly. rewrite <- lxor_sum_add, !length_map, length_tabulate.
  apply lxor_sum_ext. intros i Hi. rewrite <- gf_mul_distr_l, Hp by lia.
  rewrite map_map. unfold tabulate. rewrite map_map.
  fold (tabulate (block_count aad ct) (fun i => rev128 (NIST.be_int (GHash.block_at aad ct (S i))))).
  rewrite nth_tabulate by assumption. do 2 f_equal. lia.
Qed.

End Share.

(** The shares of the powers, as the two byte arrays hold them. *)
Definition power_shares (h : N) (powers_p powers_v : list N) : Prop :=
  forall i, (i < GHash.kMaxPowers)%nat ->
    arr_to_block (GHash.power_bytes powers_p i) ⊕ arr_to_block (GHash.power_bytes powers_v i)
    = gf_pow h (i + 1).

(** The bytes of an array of blocks, as [memcpy] lays them out. *)
Definition powers_of_blocks (xs : list N) : list N := flat_map block_to_arr xs.

Lemma power_bytes_blocks xs i :
  (i < length xs)%nat -> GHash.power_bytes (powers_of_blocks xs) i = block_to_arr xs.[i].
Proof.
  intros Hi. unfold GHash.power_bytes. apply chunk_eq.
  - reflexivity.
  - intros j Hj. apply (nth_flat_map _ _ _ _ _ 0%N); auto using length_block_to_arr.
  - unfold powers_of_blocks. rewrite (length_flat_map_const _ 16) by auto using length_block_to_arr.
    lia.
Qed.

Lemma power_shares_blocks h xs ys :
  (forall j, (j < GHash.kMaxPowers)%nat -> Good h xs ys j) ->
  length xs = GHash.kMaxPowers -> length ys = GHash.kMaxPowers ->
  power_shares h (powers_of_blocks xs) (powers_of_blocks ys).
Proof.
  intros Hg Hx Hy i Hi. destruct (Hg i Hi) as (Bx & By & E).
  rewrite !power_bytes_blocks, !arr_block_roundtrip by (assumption || lia). exact E.
Qed.

Lemma share_ghash (H : N) (powers_p powers_v aad ct : list N) :
  (H < 2^128)%N -> Forall (fun b => b < 256)%N aad -> Forall (fun b => b < 256)%N ct ->
  power_shares (rev128 H) powers_p powers_v ->
  (block_count aad ct <= GHash.kMaxPowers)%nat ->
  exists sp sv, GHash.share powers_p aad ct = Some sp /\
    GHash.share powers_v aad ct = Some sv /\
    NIST.be_int sp ⊕ NIST.be_int sv = NIST.gcm_ghash H aad ct.
Proof.
  intros HH Ha Hc Hp Hn. rewrite !share_eq by assumption.
  rewrite (proj2 (Nat.ltb_ge _ _)) by exact Hn.
  eexists _, _. split; [reflexivity | split; [reflexivity|]].
  rewrite !be_int_out, <- (linear_lxor (f := rev128)) by apply share_acc_lt.
  rewrite (share_acc_sum H) by (assumption || intros i Hi; apply Hp; lia).
  unfold NIST.gcm_ghash. now rewrite ghash_poly.
Qed.

(** C15: With additive shares of the powers of the (bit-reversed) hash key,
    the outputs of the two calls of [GHash::share] add up to GHASH of
    SP 800-38D, for all data and ciphertexts that fit the powers; an input
    that needs more than 1088 powers makes the call return false. *)
Theorem share_is_ghash (H : N) (powers_p powers_v aad ct : list N) :
  (H < 2^128)%N -> Forall (fun b => b < 256)%N aad -> Forall (fun b => b < 256)%N ct ->
  power_shares (rev128 H) powers_p powers_v ->
  if (block_count aad ct <=? GHash.kMaxPowers)%nat then
    exists sp sv, GHash.share powers_p aad ct = Some sp /\
      GHash.share powers_v aad ct = Some sv /\
      NIST.be_int sp ⊕ NIST.be_int sv = NIST.gcm_ghash H aad ct
  else GHash.share powers_p aad ct = None /\ GHash.share powers_v aad ct = None.
Proof.
  intros HH Ha Hc Hp. destruct (Nat.leb_spec (block_count aad ct) GHash.kMaxPowers) as [Hn|Hn].
  - now apply share_ghash.
  - rewrite !share_eq by assumption. now rewrite (proj2 (Nat.ltb_lt _ _) Hn).
Qed.

(** The powers of 1, all with the first party. *)
Lemma ones_power_shares :
  power_shares 1 (powers_of_blocks (repeat 1%N GHash.kMaxPowers))
                 (powers_of_blocks (repeat 0%N GHash.kMaxPowers)).
Proof.
  refine (power_shares_blocks _ _ _ _ (repeat_length _ _) (repeat_length _ _)).
  intros j Hj. unfold Good. rewrite nth_repeat_lt, nth_repeat by assumption.
  split; [reflexivity | split; [reflexivity|]].
  assert (P : forall n, gf_pow 1 n = 1%N).
  { induction n as [|n IH]; [reflexivity|]. rewrite gf_pow_S, IH. apply gf_mul_1_r. }
  now rewrite P.
Qed.

Lemma share_is_ghash_witness :
  exists sp sv,
    GHash.share (powers_of_blocks (repeat 1%N GHash.kMaxPowers)) [23;3;3]%N [1;2;3;4]%N = Some sp /\
    GHash.share (powers_of_blocks (repeat 0%N GHash.kMaxPowers)) [23;3;3]%N [1;2;3;4]%N = Some sv /\
    NIST.be_int sp ⊕ NIST.be_int sv = NIST.gcm_ghash (2 ^ 127) [23;3;3]%N [1;2;3;4]%N.
Proof.
  apply (share_is_ghash (2 ^ 127) _ _ [23;3;3]%N [1;2;3;4]%N).
  - reflexivity.
  - repeat constructor.
  - repeat constructor.
  - exact ones_power_shares.
Defined.

(** The two phases together: when the products of the two parties'
    inputs of [generate_shares_batched] is the hash key in the order of the
    field code, an accepted run followed by [GHash::share] on each side, over
    the bytes of the run's outputs, gives shares of the GHASH of the record. *)
Theorem mta_then_ghash {ot : F2128_MTA.OTChannel} (ot_ok : F2128_MTA.OTCorrect)
    (tp : F2128_MTA.Tape)
    (p_in v_in H : N) (aad ct : list N) :
  TapeOk tp -> (p_in < 2^128)%N -> (v_in < 2^128)%N -> (H < 2^128)%N ->
  gf_mul p_in v_in = rev128 H -> tape_consistent tp = true ->
  Forall (fun b => b < 256)%N aad -> Forall (fun b => b < 256)%N ct ->
  (block_count aad ct <= GHash.kMaxPowers)%nat ->
  exists out_p out_v sp sv,
    F2128_MTA.generate_shares_batched tp p_in v_in = Some (out_p, out_v) /\
    GHash.share (powers_of_blocks out_p) aad ct = Some sp /\
    GHash.share (powers_of_blocks out_v) aad ct = Some sv /\
    NIST.be_int sp ⊕ NIST.be_int sv = NIST.gcm_ghash H aad ct.
Proof.
  intros Htp Hp Hv HH E Hc Ha Hct Hn.
  destruct (length_mult tp Htp p_in v_in Hp Hv) as [Lp Lv].
  destruct (share_ghash H (powers_of_blocks (F2128_MTA.all_squares (mult_p tp p_in v_in)))
              (powers_of_blocks (F2128_MTA.all_squares (mult_v tp p_in v_in))) aad ct)
    as (sp & sv & S1 & S2 & E'); try assumption.
  - rewrite <- E.
    exact (power_shares_blocks _ _ _ (shares_good tp Htp p_in v_in Hp Hv)
             (eq_trans (length_all_squares _) Lp) (eq_trans (length_all_squares _) Lv)).
  - eexists _, _, sp, sv. rewrite generate_shares_batched_eq, Hc.
    split; [reflexivity | now split; [|split]].
Qed.

Lemma mta_then_ghash_witness :
  exists out_p out_v sp sv,
    @F2128_MTA.generate_shares_batched ideal_ot simple_tape 1 3 = Some (out_p, out_v) /\
    GHash.share (powers_of_blocks out_p) [23;3;3;0;4]%N [1;2;3;4]%N = Some sp /\
    GHash.share (powers_of_blocks out_v) [23;3;3;0;4]%N [1;2;3;4]%N = Some sv /\
    NIST.be_int sp ⊕ NIST.be_int sv =
      NIST.gcm_ghash (2 ^ 127 + 2 ^ 126) [23;3;3;0;4]%N [1;2;3;4]%N.
Proof.
  apply (@mta_then_ghash ideal_ot ideal_ot_correct simple_tape 1 3 (2 ^ 127 + 2 ^ 126)).
  - exact simple_tape_ok.
  - reflexivity.
  - reflexivity.
  - reflexivity.
  - vm_compute. reflexivity.
  - exact simple_consistent.
  - repeat constructor.
  - repeat constructor.
  - apply Nat.leb_le. reflexivity.
Defined.
