(* ===== verification/Messaging.v ===== *)
(** * Wire messages ([ssl/Messaging.hpp], [.inl], [.cpp]) and modes ([ssl/SurfMode.hpp])

    Message headers, the packing of key bytes behind a header, the host-side
    mask commitment, and the choice of the protocol mode.  Allocation is taken
    to succeed; every other failure of the code is a [None]. *)

From S2P Require Import Prelude.
From Stdlib Require Import Ascii.
From Stdlib Require Import String.
#[local] Abbreviation length := List.length.

Local Open Scope N_scope.

(** ** Message headers *)

(** [enum class MessageHeaders : std::uint8_t].  A variable of the type can
    hold any 8-bit value; the enumerators are constants of it. *)
Module MessageHeaders.
Definition COLLECT : N := 0.
Definition OK : N := 1.
Definition DONE_HS : N := 2.
Definition SERVER_KEY_SHARE : N := 3.
Definition HS_RECV : N := 4.
Definition DO_ECTF : N := 5.
Definition ECTF_DONE : N := 6.
Definition ADVANCE_KS : N := 7.
Definition KS_DONE : N := 8.
Definition TRANSCRIPT_INIT : N := 9.
Definition TRANSCRIPT_INIT_DONE : N := 10.
Definition CERTIFICATE_CTX_SEND : N := 11.
Definition CERTIFICATE_CTX_RECV : N := 12.
Definition H6_SEND : N := 13.
Definition H6_RECV : N := 14.
Definition DERIVE_TS : N := 16.
Definition GCM_SHARE_START : N := 17.
Definition GCM_SHARE_DONE : N := 18.
Definition DERIVE_RES : N := 19.
Definition RES_DONE : N := 20.
Definition DERIVE_PSK : N := 21.
Definition PSK_DONE : N := 22.
Definition COMMIT : N := 23.
Definition COMMIT_TO : N := 24.
Definition AES_ENC : N := 25.
Definition SESSION_CTX_SEND : N := 26.
Definition SESSION_CTX_RECV : N := 27.
Definition STOP : N := 28.
Definition HS_MODE_FULL : N := 29.
Definition HS_MODE_RESUMED : N := 30.
Definition PSK_SKIP : N := 31.
Definition RUN_FULL : N := 32.
Definition RUN_RESUMED : N := 33.
Definition DERIVE_PSK_8 : N := 34.
Definition DERIVE_BINDER : N := 35.
Definition MASK_COMMITMENTS : N := 36.
Definition GCM_VERIFY : N := 37.
Definition KS_DERIVE : N := 38.
Definition GCM_TAG : N := 39.
Definition KEY_COMMIT : N := 40.
Definition KEY_RELEASE : N := 41.
Definition DERIVE_PSK_0 : N := 42.
Definition ROTATE_KEY : N := 43.
Definition TAG_OK : N := 44.
Definition TAG_REJECT : N := 45.
Definition SIZE : N := 46.

(** The enumerators that name a message. *)
Definition enumerators : list N :=
  [
   COLLECT; OK; DONE_HS; SERVER_KEY_SHARE; HS_RECV; DO_ECTF; ECTF_DONE;
   ADVANCE_KS; KS_DONE; TRANSCRIPT_INIT; TRANSCRIPT_INIT_DONE;
   CERTIFICATE_CTX_SEND; CERTIFICATE_CTX_RECV; H6_SEND; H6_RECV; DERIVE_TS;
   GCM_SHARE_START; GCM_SHARE_DONE; DERIVE_RES; RES_DONE; DERIVE_PSK;
   PSK_DONE; COMMIT; COMMIT_TO; AES_ENC; SESSION_CTX_SEND; SESSION_CTX_RECV;
   STOP; HS_MODE_FULL; HS_MODE_RESUMED; PSK_SKIP; RUN_FULL; RUN_RESUMED;
   DERIVE_PSK_8; DERIVE_BINDER; MASK_COMMITMENTS; GCM_VERIFY; KS_DERIVE;
   GCM_TAG; KEY_COMMIT; KEY_RELEASE; DERIVE_PSK_0; ROTATE_KEY; TAG_OK;
   TAG_REJECT
  ].
End MessageHeaders.

Definition SSL3_RT_MAX_PLAIN_LENGTH : N := 16384.

(** [size()] of an array or a span. *)
Definition size {A} (xs : list A) : N := N.of_nat (length xs).

(** ** Byte strings of BoringSSL

    [CBS] is the rest of an input; [CBB] is the output so far. *)
Module ByteString.

Definition CBS_get_u8 (cbs : list N) : option (N * list N) :=
  match cbs with b :: r => Some (b, r) | [] => None end.

Definition CBS_get_u16 (cbs : list N) : option (N * list N) :=
  match cbs with
  | b0 :: b1 :: r => Some (N.lor (N.shiftl b0 8) b1, r)
  | _ => None
  end.

Definition CBS_get_bytes (cbs : list N) (n : nat) : option (list N * list N) :=
  if (n <=? length cbs)%nat then Some (firstn n cbs, skipn n cbs) else None.

Definition CBS_get_u16_length_prefixed (cbs : list N) : option (list N * list N) :=
  match CBS_get_u16 cbs with
  | Some (n, r) => CBS_get_bytes r (N.to_nat n)
  | None => None
  end.

Definition CBB_add_u16 (cbb : list N) (v : N) : list N :=
  cbb ++ [wrap 8 (N.shiftr v 8); wrap 8 v].

(** Flushing a child whose contents do not fit its length prefix fails. *)
Definition CBB_add_u16_length_prefixed (cbb child : list N) : option (list N) :=
  if (size child <? 2 ^ 16)
  then Some (CBB_add_u16 cbb (size child) ++ child)
  else None.

End ByteString.
Import ByteString.

Module Messaging.

Definition header_size : N := 1.

Definition is_valid_header (header : N) : bool := header <? MessageHeaders.SIZE.

Definition pack_key_bytes (header : N) (key_share_bytes : list N) : option (list N) :=
  let n := size key_share_bytes in
  if (n =? 0) || (SSL3_RT_MAX_PLAIN_LENGTH - header_size <? n) then None
  else Some (wrap 8 header :: key_share_bytes).

(** The header and the bytes; [None] is a [false] return.  The header is
    stored only after it was found valid. *)
Definition unpack_key_bytes (input : list N) : option (N * list N) :=
  let n := size input in
  if (n =? 0) || (SSL3_RT_MAX_PLAIN_LENGTH <? n) || (n <? header_size + 1)
  then None
  else
    match CBS_get_u8 input with
    | Some (header, in_cbs) =>
        if is_valid_header header then
          match CBS_get_bytes in_cbs (N.to_nat (n - header_size)) with
          | Some (out, _) => Some (header, out)
          | None => None
          end
        else None
    | None => None
    end.

End Messaging.

(** ** Mask commitments *)

Module MaskConstants.

Definition kNumMasks : nat := 1088.
Definition kMaskSize : nat := 16.
Definition kCommitSize : nat := 32.

Definition kHiroseC : list N := [0x63;0;0;0;0;0;0;0;0;0;0;0;0;0;0;1].

(** [EVP_EncryptUpdate] with AES-128-ECB on one block: the key, the block;
    [None] when the library reports a failure or another length. *)
Class BlockCipher := evp_aes_128_ecb : list N -> list N -> option (list N).

Definition aes_ecb_block `{BlockCipher} (key inp : list N) : option (list N) :=
  evp_aes_128_ecb key inp.

Definition xor_bytes (a b : list N) : list N := tabulate 16 (fun i => wrap 8 (a.[i] ⊕ b.[i])).

Definition hirose_commit_host `{BlockCipher} (r b : list N) : option (list N) :=
  let bc := xor_bytes b kHiroseC in
  match evp_aes_128_ecb r b with
  | None => None
  | Some g =>
      match evp_aes_128_ecb r bc with
      | None => None
      | Some h => Some (xor_bytes g b ++ xor_bytes h bc)
      end
  end.

End MaskConstants.

(** ** Modes *)

Module Surf.

Inductive Mode := Masked | True' | Rotate.

(** [v && v[0] == '1'] for the value of an environment variable. *)
Definition starts_with_1 (v : option string) : bool :=
  match v with
  | Some (String.String c _) => Ascii.eqb c "1"%char
  | _ => false
  end.

Definition mode_from_env (surf_true surf_rotate : option string) : option Mode :=
  let is_true := starts_with_1 surf_true in
  let is_rotate := starts_with_1 surf_rotate in
  if is_true && is_rotate then None
  else Some (if is_true then True' else if is_rotate then Rotate else Masked).

Definition mode_name (m : Mode) : string :=
  match m with True' => "TRUE"%string | Rotate => "ROTATE"%string | Masked => "MASKED"%string end.

(** Sealed-capture modes share the TRUE record path and circuit set. *)
Definition is_capture (m : Mode) : bool :=
  match m with Masked => false | _ => true end.

End Surf.

(** ** Properties *)

(** [pack_key_bytes] succeeds exactly on 1 to 16383 bytes, and its
    message is one record that [unpack_key_bytes] turns back into the same
    header and bytes, for every header [is_valid_header] accepts. *)
Theorem pack_unpack_key_bytes (header : N) (bs : list N) :
  Messaging.is_valid_header header = true ->
  if (1 <=? size bs) && (size bs <=? 16383) then
    exists msg, Messaging.pack_key_bytes header bs = Some msg /\
      size msg <= SSL3_RT_MAX_PLAIN_LENGTH /\
      Messaging.unpack_key_bytes msg = Some (header, bs)
  else Messaging.pack_key_bytes header bs = None.
Proof.
  intros Hv. unfold Messaging.pack_key_bytes, Messaging.unpack_key_bytes, Messaging.header_size,
    SSL3_RT_MAX_PLAIN_LENGTH. change (16384 - 1) with 16383.
  destruct (N.leb_spec 1 (size bs)), (N.leb_spec (size bs) 16383); cbn [andb];
    destruct (N.eqb_spec (size bs) 0), (N.ltb_spec 16383 (size bs)); cbn [orb]; try lia; try reflexivity.
  assert (Hw : wrap 8 header = header).
  { apply wrap_small. apply N.ltb_lt in Hv. unfold MessageHeaders.SIZE in Hv.
    change (2 ^ 8) with 256. lia. }
  exists (header :: bs). rewrite Hw.
  assert (Es : size (header :: bs) = size bs + 1) by (unfold size; cbn [length]; lia).
  split; [reflexivity | split; [lia|]]. rewrite Es. cbn [CBS_get_u8]. rewrite Hv.
  destruct (N.eqb_spec (size bs + 1) 0), (N.ltb_spec 16384 (size bs + 1)),
    (N.ltb_spec (size bs + 1) (1 + 1)); try lia. cbn [orb].
  unfold CBS_get_bytes. replace (N.to_nat (size bs + 1 - 1)) with (length bs) by (unfold size; lia).
  now rewrite Nat.leb_refl, firstn_all.
Qed.

Lemma pack_unpack_key_bytes_witness :
  exists msg, Messaging.pack_key_bytes MessageHeaders.COLLECT [1;2;3] = Some msg /\
    size msg <= SSL3_RT_MAX_PLAIN_LENGTH /\
    Messaging.unpack_key_bytes msg = Some (MessageHeaders.COLLECT, [1;2;3]).
Proof. apply (pack_unpack_key_bytes MessageHeaders.COLLECT [1;2;3]). reflexivity. Defined.

(** Everything [unpack_key_bytes] accepts is a header below [SIZE]
    followed by the bytes it returns, between 2 and 16384 bytes in all; every
    other input is refused. *)
Theorem unpack_key_bytes_accepts (input : list N) (header : N) (out : list N) :
  Messaging.unpack_key_bytes input = Some (header, out) <->
  input = header :: out /\ header < MessageHeaders.SIZE /\
  1 <= size out < SSL3_RT_MAX_PLAIN_LENGTH.
Proof.
  unfold Messaging.unpack_key_bytes, Messaging.header_size, SSL3_RT_MAX_PLAIN_LENGTH.
  destruct input as [|h r]; [split; [discriminate | intros [E _]; discriminate]|].
  assert (Es : size (h :: r) = size r + 1) by (unfold size; cbn [length]; lia).
  rewrite Es. cbn [CBS_get_u8]. unfold CBS_get_bytes, Messaging.is_valid_header.
  replace (N.to_nat (size r + 1 - 1)) with (length r) by (unfold size; lia).
  rewrite Nat.leb_refl, firstn_all.
  destruct (N.eqb_spec (size r + 1) 0), (N.ltb_spec 16384 (size r + 1)),
    (N.ltb_spec (size r + 1) (1 + 1)), (N.ltb_spec h MessageHeaders.SIZE); cbn [orb]; try lia;
    split; try discriminate; intros E.
  all: try (destruct E as (E & ? & ?); injection E as -> ->; lia).
  - injection E as -> ->. repeat split; (assumption || lia).
  - destruct E as (E & _). now injection E as -> ->.
Qed.

(** [is_valid_header] accepts every message header, and of the values it
    accepts exactly 15 names no message. *)
Theorem is_valid_header_values (v : N) :
  Messaging.is_valid_header v = true <-> In v MessageHeaders.enumerators \/ v = 15.
Proof.
  split.
  - intros Hv. apply N.ltb_lt in Hv. unfold MessageHeaders.SIZE in Hv.
    assert (T : forallb (fun k => existsb (N.eqb (N.of_nat k)) (15 :: MessageHeaders.enumerators))
                  (seq 0 46) = true) by (vm_compute; reflexivity).
    rewrite forallb_forall in T. specialize (T (N.to_nat v)). rewrite N2Nat.id in T.
    rewrite existsb_exists in T. destruct T as (x & Hx & E); [apply in_seq; lia|].
    apply N.eqb_eq in E as ->. destruct Hx as [<-|Hx]; auto.
  - intros [H| ->]; [|reflexivity].
    assert (T : forallb Messaging.is_valid_header MessageHeaders.enumerators = true)
      by (vm_compute; reflexivity).
    rewrite forallb_forall in T. now apply T.
Qed.
