(* ===== verification/Arrays.v ===== *)
(** * Byte arrays of fixed size *)

From S2P Require Import Prelude Block128 FieldCode Messaging GHash.

Local Open Scope N_scope.

Definition bytes (bs : list N) : Prop := Forall (fun b => b < 256) bs.

(** [std::array<uint8_t, n>] *)
Definition arr (n : nat) (bs : list N) : Prop := length bs = n /\ bytes bs.

Lemma arr_tabulate n f : (forall i, (i < n)%nat -> f i < 256) -> arr n (tabulate n f).
Proof.
  intros H. split; [apply length_tabulate|]. apply Forall_forall. intros x Hx.
  apply in_map_iff in Hx as (i & <- & Hi). apply in_seq in Hi. apply H. lia.
Qed.

Lemma bytes_at bs i : bytes bs -> bs.[i] < 256.
Proof. apply bytes_nth. Qed.

Lemma lxor_byte a b : a < 256 -> b < 256 -> a ⊕ b < 256.
Proof. apply (lxor_lt a b 8). Qed.

Lemma arr_xor n a b : bytes a -> bytes b -> arr n (tabulate n (fun i => a.[i] ⊕ b.[i])).
Proof. intros Ha Hb. apply arr_tabulate. intros i _. apply lxor_byte; now apply bytes_at. Qed.

Lemma arr_repeat n : arr n (repeat 0 n).
Proof.
  split; [apply repeat_length|]. apply Forall_forall. now intros x ->%repeat_spec.
Qed.

Lemma arr_const n v : v < 256 -> arr n (repeat v n).
Proof. intros Hv. split; [apply repeat_length|]. apply Forall_forall. now intros x ->%repeat_spec. Qed.

Lemma bytes_skipn n bs : bytes bs -> bytes (skipn n bs).
Proof. intros H. rewrite <- (firstn_skipn n bs) in H. now apply Forall_app in H. Qed.

Lemma bytes_firstn n bs : bytes bs -> bytes (firstn n bs).
Proof. intros H. rewrite <- (firstn_skipn n bs) in H. now apply Forall_app in H. Qed.

Lemma arr_upd n i v bs : v < 256 -> arr n bs -> arr n (upd i v bs).
Proof.
  intros Hv [Hl Hb]. split; [now rewrite length_upd|]. clear Hl. unfold bytes in *.
  revert i. induction Hb as [|x bs Hx Hb IH]; intros [|i]; constructor; auto.
Qed.

(** A loop of updates keeps an array. *)
Lemma arr_fold n (f : list N -> nat -> list N) xs bs :
  (forall o x, arr n o -> arr n (f o x)) -> arr n bs -> arr n (fold_left f xs bs).
Proof. intros Hf. revert bs. induction xs as [|x xs IH]; intros bs Hb; [exact Hb|]. cbn. auto. Qed.

Lemma arr_powers xs : length xs = 1088%nat -> arr (1088 * 16) (powers_of_blocks xs).
Proof.
  intros Hl. unfold powers_of_blocks. split.
  - rewrite (length_flat_map_const _ 16) by auto using length_block_to_arr. lia.
  - apply Forall_flat_map, Forall_forall. intros x _. apply block_to_arr_bytes.
Qed.

Lemma arr_size n bs : size bs = N.of_nat n -> bytes bs -> arr n bs.
Proof. intros H Hb. split; [unfold size in H; lia | exact Hb]. Qed.

Create HintDb arrays.
#[export] Hint Resolve arr_tabulate arr_xor arr_repeat arr_powers arr_size bytes_skipn bytes_firstn : arrays.

