(* ===== verification/Util.v ===== *)
(** * Shared helpers ([ssl/Util.cpp], [ssl/Util.inl])

    Framing of elliptic-curve points, point addition, bit packing, the I/O
    loop [process_data] and the search for circuit files.  The curve
    arithmetic, the key exchange and the file system are BoringSSL's and the
    system's: they are the operations of a class. *)

From S2P Require Import Prelude Messaging.
From Stdlib Require Import Ascii String.
#[local] Abbreviation length := List.length.

Import ByteString.
Local Open Scope N_scope.

(** ** Operations of other libraries *)

(** The operations on one [EC_GROUP]; [None] is a failure of the library. *)
Class ECGroup := {
  ec_point : Type;
  EC_POINT_point2oct : ec_point -> option (list N);
  EC_POINT_oct2point : list N -> option ec_point;
  EC_POINT_add : ec_point -> ec_point -> option ec_point;
  EC_POINT_mul : N -> option ec_point;
  EC_GROUP_get0_order : N }.

(** [bssl::SSLKeyShare]: the group, the bytes [Generate] writes, and
    [Decap]: the two coordinates, or the alert. *)
Class SSLKeyShare := {
  key_share : Type;
  GroupID : key_share -> N;
  Generate : key_share -> option (key_share * list N);
  Decap : key_share -> list N -> (list N * list N) + N }.

Module Util.

Definition POINT_CONVERSION_UNCOMPRESSED : N := 4.

Definition SSL_CURVE_SECP256R1 : N := 23.
Definition SSL_CURVE_SECP384R1 : N := 24.
Definition SSL_CURVE_SECP521R1 : N := 25.
Definition NID_X9_62_prime256v1 : N := 415.
Definition NID_secp384r1 : N := 715.
Definition NID_secp521r1 : N := 716.

Definition get_nid_from_uint16 (group_id : N) : N :=
  if group_id =? SSL_CURVE_SECP256R1 then NID_X9_62_prime256v1
  else if group_id =? SSL_CURVE_SECP384R1 then NID_secp384r1
  else if group_id =? SSL_CURVE_SECP521R1 then NID_secp521r1
  else 0.

Definition is_nist_curve (curve_id : N) : bool :=
  (curve_id =? SSL_CURVE_SECP256R1) || (curve_id =? SSL_CURVE_SECP384R1) ||
  (curve_id =? SSL_CURVE_SECP521R1).

(** ** Points on the wire *)

(** The parent [CBB]: the group; its child is length-prefixed. *)
Definition initialise_cbb_for_ec_point_data (group_id : N) : list N :=
  CBB_add_u16 [] group_id.

Definition deinitialise_cbb_for_ec_point_data (inp : list N) : option (N * list N) :=
  match CBS_get_u16 inp with
  | None => None
  | Some (group_id, inp) =>
      match CBS_get_u16_length_prefixed inp with
      | None => None
      | Some (out, inp) => if (length inp =? 0)%nat then Some (group_id, out) else None
      end
  end.

Definition ECPointToCBB `{ECGroup} (group_id : N) (point : ec_point) : option (list N) :=
  let cbb := initialise_cbb_for_ec_point_data group_id in
  match EC_POINT_point2oct point with
  | None => None
  | Some child => CBB_add_u16_length_prefixed cbb child
  end.

Definition CBBToECPoint `{ECGroup} (inp : list N) : option (N * ec_point) :=
  match deinitialise_cbb_for_ec_point_data inp with
  | None => None
  | Some (group_id, point_span) =>
      match point_span with
      | [] => None
      | b :: _ =>
          if b =? POINT_CONVERSION_UNCOMPRESSED then
            match EC_POINT_oct2point point_span with
            | Some p => Some (group_id, p)
            | None => None
            end
          else None
      end
  end.

(** [BN_rand_range_ex] draws from [1] to the order; the draw is an argument. *)
Definition RandomECPoint `{ECGroup} (draw : option N) : option ec_point :=
  match draw with Some x_1 => EC_POINT_mul x_1 | None => None end.

Definition EC_point_addition `{ECGroup} (a b : list N) : option ec_point :=
  if negb (length a =? length b)%nat then None
  else
    match CBBToECPoint a, CBBToECPoint b with
    | Some (group_id_a, point_a), Some (group_id_b, point_b) =>
        if group_id_a =? group_id_b then EC_POINT_add point_a point_b else None
    | _, _ => None
    end.

Definition generate_public_key `{SSLKeyShare} (client : key_share) : option (key_share * list N) :=
  let cbb := initialise_cbb_for_ec_point_data (GroupID client) in
  match Generate client with
  | None => None
  | Some (client, key_exchange) =>
      match CBB_add_u16_length_prefixed cbb key_exchange with
      | Some out => Some (client, out)
      | None => None
      end
  end.

(** [compute_premaster_secret_impl]; the alert is written only by [Decap]. *)
Definition compute_premaster_secret `{SSLKeyShare} (client : key_share) (inp : list N)
  : (list N * list N) + option N :=
  match deinitialise_cbb_for_ec_point_data inp with
  | None => inr None
  | Some (_, peer_key) =>
      match Decap client peer_key with
      | inl xy => inl xy
      | inr alert => inr (Some alert)
      end
  end.

(** [get_hash]: the digest length and what [GetHash] writes. *)
Definition get_hash (transcript : option (N * option (list N))) : option (list N) :=
  match transcript with
  | None => None
  | Some (DigestLen, GetHash) =>
      if negb (DigestLen =? 32) then None
      else match GetHash with
           | Some out => if size out =? 32 then Some out else None
           | None => None
           end
  end.

(** ** Bits and bytes *)

(** The inner loop of [convert_bool_to_uint8]: or, then shift. *)
Definition pack_byte (bs : list bool) : N :=
  fold_left (fun out b => wrap 8 (N.shiftl (N.lor out (N.b2n b)) 1)) bs 0.

Definition convert_bool_to_uint8 (inp : list bool) : list N :=
  tabulate (length inp / 8) (fun i => pack_byte (firstn 8 (skipn (i * 8) inp))).

Fixpoint unpack_bits (n : nat) (curr : N) : list bool :=
  match n with
  | O => []
  | S k => N.testbit curr 0 :: unpack_bits k (N.shiftr curr 1)
  end.

Definition convert_uint8_to_bool (inp : list N) : list bool := flat_map (unpack_bits 8) inp.

(** ** The I/O loop *)

(** What one call of [SSL_read] or [SSL_write] and the following
    [SSL_get_error] and [poll] come to. *)
Inductive io_result :=
  | Processed (n : N)          (** a positive return value *)
  | Want (poll_ok : bool)      (** [WANT_READ] or [WANT_WRITE] *)
  | Fatal.                     (** anything else *)

(** [process_data]: the results are those of the successive calls.  The
    requests made, as offset and amount, and how it ends; [None] when the
    results run out first, that is when the call has not returned yet. *)
Fixpoint process_data (results : list io_result) (nbyte data_processed : N)
  : list (N * N) * option bool :=
  if data_processed <? nbyte then
    match results with
    | [] => ([], None)
    | r :: results =>
        let amount_to_process := N.min SSL3_RT_MAX_PLAIN_LENGTH (nbyte - data_processed) in
        let request := (data_processed, amount_to_process) in
        match r with
        | Processed n =>
            let '(rs, e) := process_data results nbyte (data_processed + n) in
            (request :: rs, e)
        | Want true =>
            let '(rs, e) := process_data results nbyte data_processed in (request :: rs, e)
        | Want false | Fatal => ([request], Some false)
        end
    end
  else ([], Some true).

(** ** Circuit files *)

(** The part before the last slash; empty when there is none. *)
Fixpoint dir_of (path : list ascii) : option (list ascii) :=
  match path with
  | [] => None
  | c :: r =>
      match dir_of r with
      | Some d => Some (c :: d)
      | None => if Ascii.eqb c "/"%char then Some [] else None
      end
  end.

(** [executable_dir] on the path the system reports ([None] when it cannot);
    [realpath] is the system's. *)
Definition executable_dir (path : option (list ascii)) (realpath : list ascii -> option (list ascii))
  : list ascii :=
  match path with
  | None => []
  | Some p =>
      let p := match realpath p with Some q => q | None => p end in
      match dir_of p with Some d => d | None => [] end
  end.

Definition resolve_circuit_path (is_valid_filepath : list ascii -> bool)
    (root : option (list ascii)) (dir filepath : list ascii) : list ascii :=
  let slash := ["/"%char] in
  if match filepath with c :: _ => Ascii.eqb c "/"%char | [] => false end then filepath
  else
    let fallback :=
      if is_valid_filepath filepath then filepath
      else
        match dir with
        | [] => filepath
        | _ => let candidate := (dir ++ slash ++ filepath)%list in
               if is_valid_filepath candidate then candidate else filepath
        end in
    match root with
    | Some r => let candidate := (r ++ slash ++ filepath)%list in
                if is_valid_filepath candidate then candidate else fallback
    | None => fallback
    end.

End Util.
Import Util.

(** ** Points: round trips *)

(** Documented behaviour of the uncompressed encoding: it starts with the
    byte 4, fits a 16-bit length, and decodes to the point it encodes. *)
Class ECGroupLaws `{ECGroup} : Prop := {
  point2oct_total : forall p, exists bs, EC_POINT_point2oct p = Some (4 :: bs) /\
                      size (4 :: bs) < 2 ^ 16;
  oct2point_point2oct : forall p bs, EC_POINT_point2oct p = Some bs -> EC_POINT_oct2point bs = Some p }.

Section Points.
Context `{ECGroupLaws}.

Lemma u16_bytes v : v < 2 ^ 16 ->
  N.lor (N.shiftl (wrap 8 (N.shiftr v 8)) 8) (wrap 8 v) = v.
Proof.
  intros Hv. apply N.bits_inj. intros i. rewrite N.lor_spec.
  destruct (N.lt_ge_cases i 8) as [Hi|Hi].
  - rewrite N.shiftl_spec_low, wrap_spec by assumption. nsplit.
  - rewrite N.shiftl_spec_high', !wrap_spec, N.shiftr_spec' by assumption.
    replace (i - 8 + 8) with i by lia. destruct (N.ltb_spec i 8); [lia|].
    rewrite andb_false_r, orb_false_r. destruct (N.ltb_spec (i - 8) 8); [apply andb_true_r|].
    rewrite andb_false_r. symmetry. apply (testbit_high v 16); [exact Hv | lia].
Qed.

(** A framed child is read back whole. *)
Lemma frame_roundtrip group_id child msg :
  group_id < 2 ^ 16 ->
  CBB_add_u16_length_prefixed (initialise_cbb_for_ec_point_data group_id) child = Some msg ->
  deinitialise_cbb_for_ec_point_data msg = Some (group_id, child).
Proof.
  intros Hg. unfold CBB_add_u16_length_prefixed, initialise_cbb_for_ec_point_data,
    deinitialise_cbb_for_ec_point_data.
  destruct (N.ltb_spec (size child) (2 ^ 16)) as [Hs|]; [|discriminate].
  intros E. apply some_inj in E as <-. cbn [CBB_add_u16 app CBS_get_u16 CBS_get_u16_length_prefixed].
  rewrite !u16_bytes by assumption. unfold CBS_get_bytes, size.
  rewrite Nat2N.id, Nat.leb_refl, firstn_all, skipn_all. reflexivity.
Qed.

Lemma point_roundtrip group_id p :
  group_id < 2 ^ 16 ->
  exists msg, ECPointToCBB group_id p = Some msg /\ CBBToECPoint msg = Some (group_id, p).
Proof.
  intros Hg. destruct (point2oct_total p) as (bs & E & Hs). unfold ECPointToCBB. rewrite E.
  unfold CBB_add_u16_length_prefixed at 1. rewrite (proj2 (N.ltb_lt _ _) Hs).
  eexists. split; [reflexivity|]. unfold CBBToECPoint.
  rewrite (frame_roundtrip group_id (4 :: bs)); [|assumption|].
  - change (4 =? POINT_CONVERSION_UNCOMPRESSED) with true. now rewrite (oct2point_point2oct p _ E).
  - unfold CBB_add_u16_length_prefixed. now rewrite (proj2 (N.ltb_lt _ _) Hs).
Qed.

End Points.

(** A point written by [ECPointToCBB] is accepted by [CBBToECPoint],
    which gives back the same group and point. *)
Theorem ec_point_roundtrip (G : ECGroup) (laws : ECGroupLaws) (group_id : N) (p : ec_point) :
  group_id < 2 ^ 16 ->
  exists msg, ECPointToCBB group_id p = Some msg /\ CBBToECPoint msg = Some (group_id, p).
Proof. apply point_roundtrip. Qed.

(** A small group: the integers modulo 7, encoded behind the byte 4. *)
Definition Z7 : ECGroup := {|
  ec_point := N;
  EC_POINT_point2oct p := Some [4; p];
  EC_POINT_oct2point bs := match bs with [_; p] => Some p | _ => None end;
  EC_POINT_add a b := Some ((a + b) mod 7);
  EC_POINT_mul x := Some (x mod 7);
  EC_GROUP_get0_order := 7 |}.

Lemma Z7_laws : @ECGroupLaws Z7.
Proof.
  split.
  - intros p. exists [p]. split; reflexivity.
  - intros p bs E. injection E as <-. reflexivity.
Qed.

Lemma ec_point_roundtrip_witness :
  exists msg, @ECPointToCBB Z7 23 5 = Some msg /\ @CBBToECPoint Z7 msg = Some (23, 5).
Proof. apply (@ec_point_roundtrip Z7 Z7_laws 23 5). reflexivity. Defined.

(** On the encodings of two points of one group, of equal length,
    [EC_point_addition] is the addition of the points; it fails when the
    groups named by the encodings differ. *)
Theorem ec_point_addition_sound (G : ECGroup) (laws : ECGroupLaws) (ga gb : N)
    (p q : ec_point) (a b : list N) :
  ga < 2 ^ 16 -> gb < 2 ^ 16 ->
  ECPointToCBB ga p = Some a -> ECPointToCBB gb q = Some b -> size a = size b ->
  EC_point_addition a b = if ga =? gb then EC_POINT_add p q else None.
Proof.
  intros Ha Hb Ea Eb Hs. unfold EC_point_addition.
  assert (Hl : length a = length b) by (unfold size in Hs; lia).
  rewrite Hl, Nat.eqb_refl. cbn [negb].
  destruct (point_roundtrip ga p Ha) as (a' & Ea' & Da), (point_roundtrip gb q Hb) as (b' & Eb' & Db).
  rewrite Ea in Ea'. injection Ea' as <-. rewrite Eb in Eb'. injection Eb' as <-.
  now rewrite Da, Db.
Qed.

Lemma ec_point_addition_sound_witness :
  @EC_point_addition Z7 [0;23;0;2;4;5] [0;23;0;2;4;6] = if 23 =? 23 then Some 4 else None.
Proof.
  apply (@ec_point_addition_sound Z7 Z7_laws 23 23 5 6 [0;23;0;2;4;5] [0;23;0;2;4;6]); reflexivity.
Defined.

(** ** Bits and bytes *)

(** The value of a list of bits, most significant first. *)
Definition msb_value (bs : list bool) : N := fold_left (fun acc b => 2 * acc + N.b2n b) bs 0.

(** [convert_bool_to_uint8] shifts after each bit instead of before it:
    eight bools become twice the value of the last seven, so the first bool
    of every byte is lost and the result is always even. *)
Theorem convert_bool_to_uint8_drops_first (b : bool) (bs : list bool) :
  length bs = 7%nat -> convert_bool_to_uint8 (b :: bs) = [2 * msb_value bs].
Proof.
  intros Hl. do 7 (destruct bs as [|? bs]; [discriminate|]). destruct bs; [|discriminate].
  repeat match goal with x : bool |- _ => destruct x end; reflexivity.
Qed.

Lemma convert_bool_to_uint8_drops_first_witness :
  convert_bool_to_uint8 [true;false;false;false;false;false;true;true] = [2 * 3] /\
  convert_bool_to_uint8 [false;false;false;false;false;false;true;true] = [2 * 3].
Proof.
  split; apply (convert_bool_to_uint8_drops_first _ [false;false;false;false;false;true;true]);
    reflexivity.
Defined.

Lemma length_unpack_bits n v : length (unpack_bits n v) = n.
Proof. revert v; induction n as [|n IH]; intros v; cbn; [reflexivity | now rewrite IH]. Qed.

Lemma nth_unpack_bits n v j :
  (j < n)%nat -> nth j (unpack_bits n v) false = N.testbit v (N.of_nat j).
Proof.
  revert v j; induction n as [|n IH]; intros v j Hj; [lia|].
  destruct j as [|j]; [reflexivity|]. cbn [unpack_bits nth]. rewrite IH by lia.
  rewrite N.shiftr_spec'. f_equal; lia.
Qed.

(** [convert_uint8_to_bool] writes the bits of each byte least
    significant first: entry [8 i + j] is bit [j] of byte [i], and there are
    eight entries for each byte. *)
Theorem convert_uint8_to_bool_bits (inp : list N) (i j : nat) :
  length (convert_uint8_to_bool inp) = (length inp * 8)%nat /\
  ((i < length inp)%nat -> (j < 8)%nat ->
   nth (i * 8 + j) (convert_uint8_to_bool inp) false = N.testbit inp.[i] (N.of_nat j)).
Proof.
  unfold convert_uint8_to_bool. split.
  - apply length_flat_map_const. intros. apply length_unpack_bits.
  - intros Hi Hj. rewrite (nth_flat_map _ 8 _ _ _ 0); [|intros; apply length_unpack_bits | assumption..].
    now apply nth_unpack_bits.
Qed.

(** ** The I/O loop *)

(** The contract of [SSL_read] and [SSL_write]: a positive result is at most
    the amount asked for. *)
Fixpoint within (results : list io_result) (nbyte done : N) : Prop :=
  match results with
  | [] => True
  | Processed n :: r =>
      (done < nbyte -> 1 <= n <= N.min SSL3_RT_MAX_PLAIN_LENGTH (nbyte - done)) /\
      within r nbyte (done + n)
  | _ :: r => within r nbyte done
  end.

Definition is_processed (r : io_result) : bool :=
  match r with Processed n => 1 <=? n | _ => false end.

Definition no_failure (r : io_result) : bool :=
  match r with Processed n => 1 <=? n | Want ok => ok | Fatal => false end.

Lemma process_data_requests results nbyte : forall done o a,
  done <= nbyte -> within results nbyte done ->
  In (o, a) (fst (process_data results nbyte done)) ->
  1 <= a <= SSL3_RT_MAX_PLAIN_LENGTH /\ done <= o /\ o + a <= nbyte.
Proof.
  induction results as [|r rs IH]; intros done o a Hd Hw Hin; cbn [process_data] in Hin.
  - destruct (done <? nbyte); destruct Hin.
  - destruct (N.ltb_spec done nbyte) as [Hl|]; [|destruct Hin].
    assert (H0 : forall o a, (done, N.min SSL3_RT_MAX_PLAIN_LENGTH (nbyte - done)) = (o, a) ->
             1 <= a <= SSL3_RT_MAX_PLAIN_LENGTH /\ done <= o /\ o + a <= nbyte).
    { intros o' a' E. injection E as <- <-. unfold SSL3_RT_MAX_PLAIN_LENGTH. lia. }
    destruct r as [n|[]|]; cbn [within] in Hw.
    + destruct Hw as [Hn Hw]. specialize (Hn Hl).
      destruct (process_data rs nbyte (done + n)) as [q e] eqn:E. destruct Hin as [Hin|Hin]; [auto|].
      destruct (IH (done + n) o a) as (A & B & C); [lia | assumption | now rewrite E | lia].
    + destruct (process_data rs nbyte done) as [q e] eqn:E. destruct Hin as [Hin|Hin]; [auto|].
      apply (IH done o a); [assumption.. | now rewrite E].
    + destruct Hin as [Hin|[]]. auto.
    + destruct Hin as [Hin|[]]. auto.
Qed.

Lemma process_data_returns results nbyte : forall done,
  forallb no_failure results = true ->
  nbyte <= done + size (filter is_processed results) ->
  snd (process_data results nbyte done) = Some true.
Proof.
  unfold size. induction results as [|r rs IH]; intros done Hf Hc; cbn [process_data].
  - cbn in Hc. destruct (N.ltb_spec done nbyte); [lia | reflexivity].
  - destruct (N.ltb_spec done nbyte); [|reflexivity]. cbn [forallb filter] in *.
    apply andb_true_iff in Hf as [Hr Hf]. destruct r as [n|[]|]; try discriminate.
    + cbn [no_failure is_processed] in *. rewrite Hr in Hc. cbn [length] in Hc.
      apply N.leb_le in Hr. specialize (IH (done + n) Hf).
      destruct (process_data rs nbyte (done + n)). apply IH. lia.
    + cbn [is_processed] in Hc. specialize (IH done Hf).
      destruct (process_data rs nbyte done). apply IH. lia.
Qed.

(** [process_data] never touches memory outside its buffer and never
    asks for more than a record: every call it makes covers a non-empty range
    inside [nbyte] of at most 16384 bytes.  If no call fails, it returns true
    after at most [nbyte] calls that make progress, however the transient
    results are interleaved. *)
Theorem process_data_correct (results : list io_result) (nbyte : N) :
  within results nbyte 0 ->
  (forall o a, In (o, a) (fst (process_data results nbyte 0)) ->
     1 <= a <= SSL3_RT_MAX_PLAIN_LENGTH /\ o + a <= nbyte) /\
  (forallb no_failure results = true -> nbyte <= size (filter is_processed results) ->
   snd (process_data results nbyte 0) = Some true).
Proof.
  intros Hw. split.
  - intros o a Hin. destruct (process_data_requests results nbyte 0 o a) as (? & _ & ?); auto; lia.
  - intros Hf Hc. apply process_data_returns; [assumption | lia].
Qed.

Lemma process_data_correct_witness :
  (forall o a, In (o, a) (fst (process_data [Want true; Processed 2; Processed 1] 3 0)) ->
     1 <= a <= SSL3_RT_MAX_PLAIN_LENGTH /\ o + a <= 3) /\
  (forallb no_failure [Want true; Processed 2; Processed 1] = true ->
   3 <= size (filter is_processed [Want true; Processed 2; Processed 1]) ->
   snd (process_data [Want true; Processed 2; Processed 1] 3 0) = Some true).
Proof.
  apply (process_data_correct [Want true; Processed 2; Processed 1] 3).
  cbn. unfold SSL3_RT_MAX_PLAIN_LENGTH. lia.
Defined.
