(* ===== verification/Sockets.v ===== *)
(** * Sockets ([ssl/StatefulSocket.cpp], [ssl/TLSSocket.cpp])

    A socket of the program is a server or a client for its whole life; it is
    given a family, an address and then bound, listened on and accepted from,
    or connected.  Each method is a function on the object's fields and the
    system calls made so far; the system is an arbitrary function from these to
    the next reply.  Ports are kept in host order.  [None] is the marker for
    code that the source declares unreachable. *)

From S2P Require Import Prelude Messaging.
From Stdlib Require Import String ZArith List.
Import ListNotations.
#[local] Abbreviation length := List.length.
Local Open Scope N_scope.

Module Sockets.

(** ** The system *)

Definition AF_INET : N := 2.
Definition AF_INET6 : N := 10.

Record SockAddr := mkAddr { ss_family : N; ss_port : N }.

Inductive Call :=
  | Fcntl (fd : Z)                            (** whether the descriptor is open *)
  | Close (fd : Z)
  | Open (family : N)                         (** [socket]: the descriptor, -1 on failure *)
  | Pton (family : N) (addr : string)
  | Bind (fd : Z)
  | Listen (fd backlog : Z)
  | Getsockname (fd : Z)                      (** the address it writes *)
  | Accept (fd : Z)                           (** the descriptor and the address it writes *)
  | Connect (fd : Z)
  | BioNew (fd : Z)
  | SetTimeout (fd milliseconds : Z)
  | BioRead (n : Z)                           (** as [BIO_read] *)
  | BioWrite (n : N)
  | SslClear
  | SslConnect (has_bio : bool)               (** the result and the error *)
  | SslAccept.

Inductive Connected := Yes | WantIO | No.

Definition Reply (c : Call) : Type :=
  match c with
  | Fcntl _ | Close _ | Pton _ _ | Bind _ | Listen _ _ | Connect _ | BioNew _ | SetTimeout _ _ | BioWrite _ => bool
  | Open _ => Z
  | Getsockname _ => option SockAddr
  | Accept _ => (Z * SockAddr)%type
  | SslConnect _ => Connected
  | SslClear => unit
  | SslAccept | BioRead _ => Z
  end.

Class System := reply : list Call -> forall c, Reply c.

(** ** The object *)

Record Socket := mkSocket {
  ss : SockAddr;
  sock : Z;
  connection : Z;
  connected : bool;
  bound : bool;
  listening : bool;
  server : bool;
  name : string;
  bio : bool }.

Definition set_ss v (s : Socket) := mkSocket v (sock s) (connection s) (connected s) (bound s) (listening s) (server s) (name s) (bio s).
Definition set_sock v (s : Socket) := mkSocket (ss s) v (connection s) (connected s) (bound s) (listening s) (server s) (name s) (bio s).
Definition set_connection v (s : Socket) := mkSocket (ss s) (sock s) v (connected s) (bound s) (listening s) (server s) (name s) (bio s).
Definition set_connected v (s : Socket) := mkSocket (ss s) (sock s) (connection s) v (bound s) (listening s) (server s) (name s) (bio s).
Definition set_bound v (s : Socket) := mkSocket (ss s) (sock s) (connection s) (connected s) v (listening s) (server s) (name s) (bio s).
Definition set_listening v (s : Socket) := mkSocket (ss s) (sock s) (connection s) (connected s) (bound s) v (server s) (name s) (bio s).
Definition set_name v (s : Socket) := mkSocket (ss s) (sock s) (connection s) (connected s) (bound s) (listening s) (server s) v (bio s).
Definition set_has_bio v (s : Socket) := mkSocket (ss s) (sock s) (connection s) (connected s) (bound s) (listening s) (server s) (name s) v.

Definition make (is_server : bool) : Socket := mkSocket (mkAddr 0 0) (-1) (-1) false false false is_server EmptyString false.

Definition is_server (s : Socket) : bool := server s.
Definition is_client (s : Socket) : bool := negb (server s).
Definition has_valid_address (s : Socket) : bool := match name s with EmptyString => false | _ => true end.
Definition is_ip_v6 (s : Socket) : bool := ss_family (ss s) =? AF_INET6.
Definition is_ip_v4 (s : Socket) : bool := ss_family (ss s) =? AF_INET.

(** ** Effects *)

Record St := mkSt { self : Socket; calls : list Call }.
Definition M (A : Type) : Type := St -> St * A.
Definition ret {A} (a : A) : M A := fun s => (s, a).
Definition bind_ {A B} (m : M A) (k : A -> M B) : M B := fun s => let '(s, a) := m s in k a s.
Definition gets {A} (f : Socket -> A) : M A := fun s => (s, f (self s)).
Definition modify (f : Socket -> Socket) : M unit := fun s => (mkSt (f (self s)) (calls s), tt).

Declare Scope socket_scope.
Delimit Scope socket_scope with socket.
Notation "x <- m ;; k" := (bind_ m (fun x => k)) (at level 61, m at next level, right associativity) : socket_scope.
Notation "m ;; k" := (bind_ m (fun _ => k)) (at level 61, right associativity) : socket_scope.
Local Open Scope socket_scope.

Section Ops.
Context {Y : System}.

Definition call (c : Call) : M (Reply c) := fun s => (mkSt (self s) (c :: calls s), reply (calls s) c).

Definition get_bio : M bool := had <- gets bio ;; modify (set_has_bio false) ;; ret had.

Definition set_port (port : N) : M bool :=
  family <- gets (fun s => ss_family (ss s)) ;;
  if (family =? AF_INET) || (family =? AF_INET6) then modify (fun s => set_ss (mkAddr (ss_family (ss s)) (wrap 16 port)) s) ;; ret true
  else ret false.

Definition set_addr (addr : string) : M bool :=
  family <- gets (fun s => ss_family (ss s)) ;;
  if (family =? AF_INET) || (family =? AF_INET6) then
    ok <- call (Pton family addr) ;;
    if ok then modify (set_name addr) ;; ret true else ret false
  else ret false.

Definition is_connection_valid : M bool := fd <- gets connection ;; call (Fcntl fd).
Definition is_socket_valid : M bool := fd <- gets sock ;; call (Fcntl fd).

(** [make_socket(int &)], on [sock] or on [connection]. *)
Definition make_socket (get : Socket -> Z) (set : Z -> Socket -> Socket) : M bool :=
  fd <- gets get ;;
  valid <- call (Fcntl fd) ;;
  closed <- (if valid then call (Close fd) else ret true) ;;
  if negb closed then ret false
  else
    modify (set_name EmptyString) ;;
    family <- gets (fun s => ss_family (ss s)) ;;
    fd <- call (Open family) ;;
    modify (set fd) ;;
    ret (negb (fd =? -1)%Z).

Definition set_family (domain : N) : M bool :=
  if negb (domain =? AF_INET) && negb (domain =? AF_INET6) then ret false
  else
    modify (fun s => set_ss (mkAddr domain (ss_port (ss s))) s) ;;
    is_server <- gets server ;;
    if is_server then make_socket sock set_sock else make_socket connection set_connection.

Definition set_ip_v4 : M bool := set_family AF_INET.
Definition set_ip_v6 : M bool := set_family AF_INET6.

Definition close : M bool :=
  modify (set_bound false) ;;
  modify (set_has_bio false) ;;
  fd <- gets sock ;;
  call (Close fd).

Definition bind : M bool :=
  valid <- gets has_valid_address ;;
  is_server <- gets server ;;
  if negb valid || negb is_server then ret false
  else
    family <- gets (fun s => ss_family (ss s)) ;;
    if (family =? AF_INET6) || (family =? AF_INET) then
      fd <- gets sock ;;
      ok <- call (Bind fd) ;;
      modify (set_bound ok) ;;
      ret ok
    else ret false.

Definition listen (backlog : Z) : M bool :=
  b <- gets bound ;;
  is_server <- gets server ;;
  if negb b || (backlog <? 0)%Z || negb is_server then ret false
  else
    fd <- gets sock ;;
    ok <- call (Listen fd backlog) ;;
    modify (set_listening ok) ;;
    if negb ok then ret false
    else
      addr <- call (Getsockname fd) ;;
      match addr with
      | Some a => modify (set_ss a) ;; ret true
      | None => ret false
      end.

Definition set_accept_timeout (milliseconds : Z) : M bool :=
  l <- gets listening ;;
  if negb l then ret false else fd <- gets sock ;; call (SetTimeout fd milliseconds).

(** The port, or nothing; [None] where the code is marked unreachable. *)
Definition get_portnumber : M (option (option N)) :=
  b <- gets bound ;;
  is_server <- gets server ;;
  if negb b || negb is_server then ret (Some None)
  else
    a <- gets ss ;;
    if (ss_family a =? AF_INET6) || (ss_family a =? AF_INET) then ret (Some (Some (ss_port a))) else ret None.

Definition set_bio : M bool :=
  fd <- gets connection ;;
  ok <- call (BioNew fd) ;;
  modify (set_has_bio ok) ;;
  ret ok.

Definition accept : M bool :=
  b <- gets bound ;;
  l <- gets listening ;;
  is_server <- gets server ;;
  if negb b || negb l || negb is_server then ret false
  else
    old <- gets connection ;;
    call (Close old) ;;
    fd <- gets sock ;;
    r <- call (Accept fd) ;;
    modify (set_connection (fst r)) ;;
    if (fst r =? -1)%Z then ret false else modify (set_ss (snd r)) ;; set_bio.

Definition connect_to_impl (domain : N) (address : string) (port_number : N) : M bool :=
  modify (fun s => set_ss (mkAddr (ss_family (ss s)) (wrap 16 port_number)) s) ;;
  ok <- call (Pton domain address) ;;
  if negb ok then ret false
  else
    modify (set_name address) ;;
    fd <- gets connection ;;
    call (Connect fd).

Definition connect_and_wrap (domain : N) (address : string) (port_number : N) : M bool :=
  ok <- connect_to_impl domain address port_number ;;
  wrapped <- (if ok then set_bio else ret false) ;;
  modify (set_connected wrapped) ;;
  ret wrapped.

(** The IPv4 case returns true whatever happened. *)
Definition connect_to (address : string) (port_number : N) : M (option bool) :=
  s <- gets (fun s => s) ;;
  if match address with EmptyString => true | _ => false end || bound s || (negb (is_ip_v6 s) && negb (is_ip_v4 s)) || server s
  then ret (Some false)
  else if is_ip_v6 s then ok <- connect_and_wrap AF_INET6 address port_number ;; ret (Some ok)
  else if is_ip_v4 s then connect_and_wrap AF_INET address port_number ;; ret (Some true)
  else ret None.

(** The buffer is null or not. *)
Definition read (has_buffer : bool) (read_len : Z) : M Z :=
  b <- gets bio ;;
  if negb b || (read_len <? 0)%Z || negb has_buffer then ret (-1)%Z else call (BioRead read_len).

Definition write (has_buffer : bool) (write_len : N) : M bool :=
  b <- gets bio ;;
  if negb b || negb has_buffer then ret false else call (BioWrite write_len).

(** ** [TLSSocket] *)

Fixpoint ssl_connect_loop (fuel : nat) (has_bio : bool) : M (option bool) :=
  match fuel with
  | O => ret None
  | S n =>
      r <- call (SslConnect has_bio) ;;
      match r with
      | Yes => ret (Some true)
      | WantIO => ssl_connect_loop n has_bio
      | No => ret (Some false)
      end
  end.

(** [None]: still connecting after [fuel] rounds. *)
Definition tls_connect_to (fuel : nat) (address : string) (port_number : N) : M (option bool) :=
  ok <- connect_to address port_number ;;
  match ok with
  | Some true => b <- get_bio ;; ssl_connect_loop fuel b
  | r => ret r
  end.

Definition tls_accept : M bool :=
  call SslClear ;;
  ok <- accept ;;
  if ok then get_bio ;; ret true else ret false.

(** The result of [SSL_accept], or the error that stands for a missing step. *)
Definition SSL_ERROR_WANT_CONNECT : Z := 7.
Definition SSL_ERROR_WANT_ACCEPT : Z := 8.

Definition do_handshake : M Z :=
  client <- gets is_client ;;
  if client then ret SSL_ERROR_WANT_CONNECT
  else
    valid <- is_connection_valid ;;
    if negb valid then ret SSL_ERROR_WANT_ACCEPT else call SslAccept.

End Ops.
End Sockets.
Import Sockets.
Local Open Scope socket_scope.

(** ** Any sequence of methods *)

Inductive op :=
  | SetPort (port : N) | SetAddr (addr : string) | SetFamily (domain : N) | CloseIt | BindIt | ListenOn (backlog : Z)
  | SetAcceptTimeout (ms : Z) | AcceptOne | TlsAccept | ConnectTo (address : string) (port : N)
  | TlsConnectTo (fuel : nat) (address : string) (port : N) | GetBio | Handshake
  | Read (has_buffer : bool) (n : Z) | Write (has_buffer : bool) (n : N).

Section Runs.
Context {Y : System}.

Definition run_op (o : op) : M unit :=
  match o with
  | SetPort p => set_port p ;; ret tt
  | SetAddr a => set_addr a ;; ret tt
  | SetFamily d => set_family d ;; ret tt
  | CloseIt => close ;; ret tt
  | BindIt => bind ;; ret tt
  | ListenOn b => listen b ;; ret tt
  | SetAcceptTimeout ms => set_accept_timeout ms ;; ret tt
  | AcceptOne => accept ;; ret tt
  | TlsAccept => tls_accept ;; ret tt
  | ConnectTo a p => connect_to a p ;; ret tt
  | TlsConnectTo n a p => tls_connect_to n a p ;; ret tt
  | GetBio => get_bio ;; ret tt
  | Handshake => do_handshake ;; ret tt
  | Read b n => read b n ;; ret tt
  | Write b n => write b n ;; ret tt
  end.

Definition run_ops (ops : list op) (s : St) : St := fold_left (fun s o => fst (run_op o s)) ops s.

(** ** The calls made so far *)

(** The reply to the last call of a kind; the log has the latest call first. *)
Fixpoint last_bind (l : list Call) : option bool :=
  match l with [] => None | Bind fd :: l => Some (reply l (Bind fd)) | _ :: l => last_bind l end.
Fixpoint last_listen (l : list Call) : option bool :=
  match l with [] => None | Listen fd b :: l => Some (reply l (Listen fd b)) | _ :: l => last_listen l end.
Fixpoint last_connect (l : list Call) : option bool :=
  match l with [] => None | Connect fd :: l => Some (reply l (Connect fd)) | _ :: l => last_connect l end.
Fixpoint last_wrap (l : list Call) : option bool :=
  match l with [] => None | BioNew fd :: l => Some (reply l (BioNew fd)) | _ :: l => last_wrap l end.
Fixpoint last_open (l : list Call) : Z :=
  match l with [] => (-1)%Z | Open f :: l => reply l (Open f) | _ :: l => last_open l end.

(** What each call requires of the calls before it, in a socket of role [srv]. *)
Definition allowed (srv : bool) (before : list Call) (c : Call) : Prop :=
  match c with
  | Bind fd => srv = true /\ fd = last_open before
  | Listen fd backlog => srv = true /\ fd = last_open before /\ last_bind before = Some true /\ (0 <= backlog)%Z
  | Getsockname fd => match before with Listen fd' b :: l => fd = fd' /\ reply l (Listen fd' b) = true | _ => False end
  | SetTimeout _ _ => srv = true /\ last_listen before = Some true
  | Accept fd => srv = true /\ fd = last_open before /\ last_bind before = Some true /\ last_listen before = Some true
  | Connect fd => srv = false /\ fd = last_open before
  | BioNew fd =>
      match before with
      | Accept a :: l => fd = fst (reply l (Accept a)) /\ fd <> (-1)%Z
      | Connect a :: l => fd = a /\ reply l (Connect a) = true
      | _ => False
      end
  | BioRead n => last_wrap before = Some true /\ (0 <= n)%Z
  | BioWrite _ => last_wrap before = Some true
  | SslConnect has_bio => srv = false /\ (has_bio = true -> last_wrap before = Some true)
  | SslAccept => srv = true /\ match before with Fcntl fd :: l => reply l (Fcntl fd) = true | _ => False end
  | Fcntl _ | Close _ | Open _ | Pton _ _ | SslClear => True
  end.

Fixpoint ordered (srv : bool) (l : list Call) : Prop :=
  match l with [] => True | c :: l => allowed srv l c /\ ordered srv l end.

(** Documented behaviour: the addresses that the system writes are of one of
    the two families. *)
Definition known_family (a : SockAddr) : Prop := ss_family a = AF_INET \/ ss_family a = AF_INET6.

Class SystemOk : Prop := {
  getsockname_family : forall l fd a, reply l (Getsockname fd) = Some a -> known_family a;
  accept_family : forall l fd, known_family (snd (reply l (Accept fd))) }.

(** What the fields say of the calls made. *)
Record Valid (srv : bool) (s : St) : Prop := {
  valid_role : server (self s) = srv;
  valid_fd : (if srv then sock (self s) else connection (self s)) = last_open (calls s);
  valid_bound : bound (self s) = true -> srv = true /\ last_bind (calls s) = Some true;
  valid_listening : listening (self s) = true -> srv = true /\ last_listen (calls s) = Some true;
  valid_connected : connected (self s) = true -> srv = false /\ last_connect (calls s) = Some true /\ last_wrap (calls s) = Some true;
  valid_bio : bio (self s) = true -> last_wrap (calls s) = Some true;
  valid_family : SystemOk -> bound (self s) = true -> known_family (ss (self s));
  valid_calls : ordered srv (calls s) }.

Definition keeps (srv : bool) {A} (m : M A) : Prop := forall s, Valid srv s -> Valid srv (fst (m s)).

Lemma socket_bind srv {A B} (m : M A) (k : A -> M B) : keeps srv m -> (forall a, keeps srv (k a)) -> keeps srv (bind_ m k).
Proof. intros Hm Hk s Hs. unfold bind_. specialize (Hm s Hs). destruct (m s) as [s1 a]. now apply Hk. Qed.

Lemma socket_ret srv {A} (a : A) : keeps srv (ret a).
Proof. intros s Hs. exact Hs. Qed.

Lemma socket_gets srv {A} (f : Socket -> A) : keeps srv (gets f).
Proof. intros s Hs. exact Hs. Qed.

(** Reads a field and goes on with what it holds. *)
Lemma socket_field srv {A B} (f : Socket -> A) (k : A -> M B) :
  (forall s, Valid srv s -> Valid srv (fst (k (f (self s)) s))) -> keeps srv (bind_ (gets f) k).
Proof. intros H s Hs. apply H, Hs. Qed.

(** A call that changes no field and that nothing is remembered of. *)
Definition neutral (c : Call) : bool :=
  match c with Open _ | Bind _ | Listen _ _ | Connect _ | BioNew _ => false | _ => true end.

Lemma valid_call srv c x l : neutral c = true -> allowed srv l c -> Valid srv (mkSt x l) -> Valid srv (mkSt x (c :: l)).
Proof. intros Hn Ha [H1 H2 H3 H4 H5 H6 H7 H8]. destruct c; try discriminate Hn; split; cbn in *; auto. Qed.

Lemma socket_call srv c : neutral c = true -> (forall l, allowed srv l c) -> keeps srv (call c).
Proof. intros Hn Ha [x l] Hs. now apply valid_call. Qed.

Lemma socket_modify srv f : (forall x l, Valid srv (mkSt x l) -> Valid srv (mkSt (f x) l)) -> keeps srv (modify f).
Proof. intros H [x l] Hs. apply H, Hs. Qed.

End Runs.

(** Steps through a method. *)
Ltac socket_steps :=
  repeat first
    [ apply socket_ret | apply socket_gets
    | apply socket_call; [reflexivity | now intros ?]
    | apply socket_modify; intros ? ? [? ? ? ? ? ? ? ?]; split; cbn in *; now auto
    | apply socket_bind; [|intros]
    | match goal with |- keeps _ (if ?b then _ else _) => destruct b end
    | match goal with |- keeps _ (match ?x with _ => _ end) => destruct x end ].

Section Invariant.
Context {Y : System} (srv : bool).

(** Opening the descriptor of the role. *)
Lemma socket_make_socket (get : Socket -> Z) :
  keeps srv (make_socket get (if srv then set_sock else set_connection)).
Proof.
  unfold make_socket. apply socket_bind; [apply socket_gets|intros fd]. apply socket_bind; [now apply socket_call|intros v].
  apply socket_bind; [destruct v; socket_steps|intros [|]; [|apply socket_ret]].
  apply socket_bind; [socket_steps|intros []]. apply socket_bind; [apply socket_gets|intros family].
  intros [x l] [H1 H2 H3 H4 H5 H6 H7 H8]. destruct srv; split; cbn in *; auto.
Qed.

Lemma socket_set_family d : keeps srv (set_family d).
Proof.
  unfold set_family. destruct (negb (d =? AF_INET) && negb (d =? AF_INET6)) eqn:E; [apply socket_ret|].
  assert (Hd : forall p, known_family (mkAddr d p)).
  { intros p. unfold known_family. cbn. destruct (N.eqb_spec d AF_INET), (N.eqb_spec d AF_INET6); cbn in E; [auto..|discriminate]. }
  apply socket_bind; [apply socket_modify; intros x l [? ? ? ? ? ? ? ?]; split; cbn in *; now auto|intros _].
  apply socket_field. intros s Hs. pose proof (socket_make_socket (if srv then sock else connection) s Hs) as Hm.
  rewrite (valid_role _ _ Hs). now destruct srv.
Qed.

Lemma socket_bind_method : keeps srv bind.
Proof.
  intros [x l] Hs. unfold bind, bind_, gets, call, modify, ret. cbn [self calls].
  destruct (negb (has_valid_address x) || negb (server x)) eqn:E1; [exact Hs|]. cbn [self calls].
  destruct ((ss_family (ss x) =? AF_INET6) || (ss_family (ss x) =? AF_INET)) eqn:E2; [|exact Hs].
  apply orb_false_elim in E1 as [_ E1]. apply negb_false_iff in E1. apply orb_prop in E2. rewrite !N.eqb_eq in E2.
  destruct Hs as [H1 H2 H3 H4 H5 H6 H7 H8]. cbn in *. assert (srv = true) as -> by congruence.
  split; cbn; auto; [intros ->; auto | intros; unfold known_family; tauto].
Qed.

Lemma socket_listen b : keeps srv (listen b).
Proof.
  intros [x l] Hs. unfold listen, bind_, gets, call, modify, ret. cbn [self calls].
  destruct (negb (bound x) || (b <? 0)%Z || negb (server x)) eqn:E; [exact Hs|].
  apply orb_false_elim in E as [E E3]. apply orb_false_elim in E as [E1 E2].
  apply negb_false_iff in E1, E3. apply Z.ltb_ge in E2.
  assert (V : Valid srv (mkSt (set_listening (reply l (Listen (sock x) b)) x) (Listen (sock x) b :: l))).
  { destruct Hs as [H1 H2 H3 H4 H5 H6 H7 H8]. cbn in *. assert (srv = true) as -> by congruence.
    split; cbn; auto; [intros ->; auto|]. destruct (H3 E1). auto. }
  cbn [self calls]. destruct (reply l (Listen (sock x) b)) eqn:El; cbn [negb self calls]; [|exact V].
  assert (V2 : Valid srv (mkSt (set_listening true x) (Getsockname (sock x) :: Listen (sock x) b :: l))) by (now apply valid_call).
  destruct (reply _ (Getsockname (sock x))) as [a|] eqn:Ea; [|exact V2].
  destruct V2 as [H1 H2 H3 H4 H5 H6 H7 H8]. split; cbn in *; auto. intros Ok _. exact (getsockname_family _ _ _ Ea).
Qed.

(** Wrapping the descriptor that was just accepted or connected. *)
Lemma socket_set_bio x l : connected x = false -> allowed srv l (BioNew (connection x)) ->
  Valid srv (mkSt x l) -> Valid srv (fst (set_bio (mkSt x l))).
Proof. intros Hc Ha [H1 H2 H3 H4 H5 H6 H7 H8]. split; cbn in *; auto; congruence. Qed.

Lemma socket_accept : keeps srv accept.
Proof.
  intros [x l] Hs. unfold accept, bind_, gets, call, modify, ret at 1. cbn [self calls].
  destruct (negb (bound x) || negb (listening x) || negb (server x)) eqn:E; [exact Hs|].
  apply orb_false_elim in E as [E E3]. apply orb_false_elim in E as [E1 E2]. apply negb_false_iff in E1, E2, E3.
  apply (valid_call srv (Close (connection x))) in Hs; [|reflexivity..].
  set (l1 := Close (connection x) :: l) in *. set (r := reply l1 (Accept (sock x))).
  assert (V : Valid srv (mkSt (set_connection (fst r) x) (Accept (sock x) :: l1))).
  { destruct Hs as [H1 H2 H3 H4 H5 H6 H7 H8]. cbn [self calls] in *. assert (srv = true) as -> by congruence.
    destruct (H3 E1), (H4 E2). split; cbn; auto. }
  cbn [self calls fst snd]. fold l1; fold r. destruct (Z.eqb_spec (fst r) (-1)) as [Er|Er]; [exact V|]. apply socket_set_bio.
  - destruct Hs as [H1 _ _ _ H5 _ _ _]. cbn in *. destruct (connected x); [|reflexivity]. destruct (H5 eq_refl). congruence.
  - now split.
  - destruct V as [H1 H2 H3 H4 H5 H6 H7 H8]. split; cbn in *; auto. intros Ok _. apply accept_family.
Qed.

Lemma socket_connect_and_wrap d a p : srv = false -> keeps srv (connect_and_wrap d a p).
Proof.
  intros -> [x l] [H1 H2 H3 H4 H5 H6 H7 H8]. unfold connect_and_wrap, connect_to_impl, set_bio, bind_, modify, gets, call, ret. cbn [self calls].
  assert (bound x = false) as Hb by (destruct (bound x) eqn:E; [destruct (H3 E); discriminate | reflexivity]).
  cbn in *. destruct (reply l (Pton d a)); cbn;
    [destruct (reply (Pton d a :: l) (Connect (connection x))) eqn:Ec; cbn|];
    split; cbn in *; auto; try congruence; rewrite ?Hb; try discriminate; rewrite ?Ec; intuition congruence.
Qed.

Lemma socket_connect a p : keeps srv (connect_to a p).
Proof.
  intros s Hs. unfold connect_to, bind_ at 1, gets at 1. destruct (_ || _ || _ || server (self s)) eqn:E; [exact Hs|].
  apply orb_false_elim in E as [_ E]. assert (Hr : srv = false) by (destruct Hs; congruence).
  destruct (is_ip_v6 (self s)); [|destruct (is_ip_v4 (self s)); [|exact Hs]];
    (apply socket_bind; [now apply socket_connect_and_wrap | intros; apply socket_ret | exact Hs]).
Qed.

Lemma socket_ssl_loop n b : srv = false -> forall s, (b = true -> last_wrap (calls s) = Some true) ->
  Valid srv s -> Valid srv (fst (ssl_connect_loop n b s)).
Proof.
  intros Hr. induction n as [|n IH]; intros [x l] Hb Hs; [exact Hs|]. cbn [ssl_connect_loop]. unfold bind_, call. cbn [self calls].
  assert (V : Valid srv (mkSt x (SslConnect b :: l))) by (now apply valid_call).
  destruct (reply l (SslConnect b)); [exact V | now apply IH | exact V].
Qed.

Lemma socket_get_bio : keeps srv get_bio.
Proof. unfold get_bio. socket_steps. Qed.

(** Only a client gets past [connect_to]. *)
Lemma connect_client a p s : Valid srv s -> snd (connect_to a p s) = Some true -> srv = false.
Proof.
  intros Hs. unfold connect_to, bind_ at 1, gets at 1. destruct (_ || _ || _ || server (self s)) eqn:E; [discriminate|].
  apply orb_false_elim in E as [_ E]. intros _. destruct Hs. congruence.
Qed.

Lemma socket_tls_connect n a p : keeps srv (tls_connect_to n a p).
Proof.
  intros s Hs. unfold tls_connect_to, bind_ at 1. pose proof (socket_connect a p s Hs) as Hc.
  pose proof (connect_client a p s Hs) as Hr. destruct (connect_to a p s) as [s1 [[|]|]]; cbn [fst snd] in *; try exact Hc.
  unfold bind_. destruct (get_bio s1) as [s2 b] eqn:Eg. apply socket_ssl_loop; [now apply Hr | |].
  - destruct Hc. unfold get_bio, bind_, gets, modify, ret in Eg. injection Eg as <- <-. assumption.
  - change s2 with (fst (s2, b)). rewrite <- Eg. apply socket_get_bio, Hc.
Qed.

Lemma socket_op o : keeps srv (run_op o).
Proof.
  destruct o; cbn [run_op]; (apply socket_bind; [|intros; apply socket_ret]).
  - unfold set_port. socket_steps.
  - unfold set_addr. socket_steps.
  - apply socket_set_family.
  - unfold close. socket_steps.
  - apply socket_bind_method.
  - apply socket_listen.
  - apply socket_field. intros [x l] Hs. cbn [self]. destruct (listening x) eqn:El; [|exact Hs].
    apply valid_call; [reflexivity | apply (valid_listening _ _ Hs El) | exact Hs].
  - apply socket_accept.
  - apply socket_bind; [now apply socket_call|]. intros _. apply socket_bind; [apply socket_accept|]. intros [|]; [|apply socket_ret].
    apply socket_bind; [apply socket_get_bio | intros; apply socket_ret].
  - apply socket_connect.
  - apply socket_tls_connect.
  - apply socket_get_bio.
  - apply socket_field. intros [x l] Hs. cbn [self]. unfold is_client. destruct (server x) eqn:Er; [|exact Hs].
    unfold is_connection_valid, bind_, gets, call. cbn [negb self calls].
    assert (V : Valid srv (mkSt x (Fcntl (connection x) :: l))) by (now apply valid_call).
    destruct (reply l (Fcntl (connection x))) eqn:Ef; [|exact V]. apply valid_call; [reflexivity | | exact V].
    split; [destruct Hs; cbn in *; congruence | exact Ef].
  - apply socket_field. intros [x l] Hs. cbn [self]. destruct (negb (bio x) || (n <? 0)%Z || negb has_buffer) eqn:E; [exact Hs|].
    apply orb_false_elim in E as [E _]. apply orb_false_elim in E as [E1 E2]. apply negb_false_iff in E1. apply Z.ltb_ge in E2.
    apply valid_call; [reflexivity | | exact Hs]. split; [exact (valid_bio _ _ Hs E1) | exact E2].
  - apply socket_field. intros [x l] Hs. cbn [self]. destruct (negb (bio x) || negb has_buffer) eqn:E; [exact Hs|].
    apply orb_false_elim in E as [E1 _]. apply negb_false_iff in E1. apply valid_call; [reflexivity | exact (valid_bio _ _ Hs E1) | exact Hs].
Qed.

Lemma socket_ops ops : Valid srv (run_ops ops (mkSt (make srv) [])).
Proof.
  unfold run_ops. rewrite <- fold_left_rev_right. induction (rev ops) as [|o l IH]; cbn [fold_right]; [|now apply socket_op].
  split; cbn; try discriminate; trivial. now destruct srv.
Qed.

End Invariant.

(** ** What the class promises *)

Lemma connect_to_eq {Y : System} address port s :
  connect_to address port s =
    if match address with EmptyString => true | _ => false end || bound (self s) || (negb (is_ip_v6 (self s)) && negb (is_ip_v4 (self s))) || server (self s)
    then (s, Some false)
    else if is_ip_v6 (self s) then let '(s, ok) := connect_and_wrap AF_INET6 address port s in (s, Some ok)
    else if is_ip_v4 (self s) then let '(s, _) := connect_and_wrap AF_INET address port s in (s, Some true)
    else (s, None).
Proof.
  unfold connect_to, bind_, gets, ret. destruct (_ || server (self s)); [reflexivity|].
  destruct (is_ip_v6 (self s)); [reflexivity|]. now destruct (is_ip_v4 (self s)).
Qed.

(** The system of the examples: every call but [connect] succeeds. *)
Definition kind_system : System := fun _ c =>
  match c return Reply c with
  | Open _ => 3%Z | Getsockname _ => Some (mkAddr AF_INET 4433) | Accept _ => (4%Z, mkAddr AF_INET 50000)
  | SslConnect _ => Yes | SslClear => tt | SslAccept => 1%Z | BioRead n => n
  | Fcntl _ | Close _ | Pton _ _ | Bind _ | Listen _ _ | BioNew _ | SetTimeout _ _ | BioWrite _ => true
  | Connect _ => false
  end.

(** C28: the life of a socket.  After any sequence of methods on a new socket,
    whatever the system replies, every system call was made in its place: only
    a server binds, listens and accepts and only a client connects, each on
    the descriptor opened last; [listen] is called only after the last [bind]
    succeeded, [accept] only after the last [bind] and the last [listen] did;
    a descriptor is wrapped only directly after it was accepted or connected;
    and data is read and written only after the last wrapping succeeded.  The
    flags [bound], [listening] and [connected] are set only in the role they
    belong to, after the last such call succeeded. *)
Theorem socket_roles {Y : System} (srv : bool) (ops : list op) :
  let s := run_ops ops (mkSt (make srv) []) in
  ordered srv (calls s) /\
  (bound (self s) = true -> srv = true /\ last_bind (calls s) = Some true) /\
  (listening (self s) = true -> srv = true /\ last_listen (calls s) = Some true) /\
  (connected (self s) = true -> srv = false /\ last_connect (calls s) = Some true /\ last_wrap (calls s) = Some true) /\
  (bio (self s) = true -> last_wrap (calls s) = Some true).
Proof. intros s. destruct (socket_ops srv ops). auto 10. Qed.

(** A server that serves one client. *)
Lemma socket_roles_witness :
  let s := run_ops (Y := kind_system) [SetFamily AF_INET; SetAddr "127.0.0.1"; BindIt; ListenOn 5; AcceptOne] (mkSt (make true) []) in
  calls s = [BioNew 4; Accept 3; Close (-1); Getsockname 3; Listen 3 5; Bind 3; Pton AF_INET "127.0.0.1"; Open AF_INET; Close (-1); Fcntl (-1)]
  /\ ordered (Y := kind_system) true (calls s) /\ last_bind (Y := kind_system) (calls s) = Some true.
Proof.
  intros s. split; [reflexivity|]. destruct (@socket_roles kind_system true [SetFamily AF_INET; SetAddr "127.0.0.1"; BindIt; ListenOn 5; AcceptOne])
    as (Ho & Hb & _). split; [exact Ho | apply Hb; reflexivity].
Defined.

(** On a system that writes addresses of one of the two families, the two
    places that the source declares unreachable, in [get_portnumber] and in
    [connect_to], are never reached. *)
Theorem marked_unreachable {Y : System} (Ok : SystemOk) (srv : bool) (ops : list op) :
  let s := run_ops ops (mkSt (make srv) []) in
  snd (get_portnumber s) <> None /\ forall address port, snd (connect_to address port s) <> None.
Proof.
  intros s. destruct (socket_ops srv ops) as [_ _ _ _ _ _ V2 _]. fold s in V2. split.
  - unfold get_portnumber, bind_, gets. destruct (bound (self s)) eqn:B; [|discriminate]. destruct (server (self s)); [|discriminate]. cbn [negb orb].
    destruct (V2 Ok eq_refl) as [-> | ->]; discriminate.
  - intros address port. rewrite connect_to_eq. destruct (is_ip_v6 (self s)), (is_ip_v4 (self s)); cbn [negb andb]; rewrite ?orb_true_r;
      try discriminate; destruct (_ || server (self s)); try discriminate; now destruct (connect_and_wrap _ _ _ _).
Qed.

(** The flags outlive the descriptor: [set_family] on a bound socket opens a
    new one, and [listen] and [accept] then go ahead on it although it was
    never bound. *)
Theorem reopened_not_bound :
  let s := run_ops (Y := kind_system) [SetFamily AF_INET; SetAddr "127.0.0.1"; BindIt; SetFamily AF_INET6; ListenOn 5] (mkSt (make true) []) in
  calls s = [Getsockname 3; Listen 3 5; Open AF_INET6; Close 3; Fcntl 3; Bind 3; Pton AF_INET "127.0.0.1"; Open AF_INET; Close (-1); Fcntl (-1)].
Proof. reflexivity. Qed.

(** [connect_to] over IPv4 reports success even when the address is not
    valid or the connection is refused; only [is_connected] tells. *)
Theorem connect_v4_reports_success {Y : System} (address : string) (port : N) (s : St) :
  address <> EmptyString -> bound (self s) = false -> server (self s) = false -> is_ip_v4 (self s) = true ->
  snd (connect_to address port s) = Some true /\
  ((forall l fd, reply l (Connect fd) = false) -> connected (self (fst (connect_to address port s))) = false).
Proof.
  intros Ha Hb Hs H4. assert (H6 : is_ip_v6 (self s) = false).
  { unfold is_ip_v4, is_ip_v6 in *. apply N.eqb_eq in H4. now rewrite H4. }
  rewrite connect_to_eq. destruct address; [contradiction|]. rewrite Hb, Hs, H4, H6. cbn [orb andb negb].
  destruct (connect_and_wrap _ _ _ s) as [s1 r] eqn:E. split; [reflexivity|]. intros Hc.
  unfold connect_and_wrap, connect_to_impl, bind_, modify, gets, call, ret in E. cbn [self calls] in E.
  destruct (reply _ (Pton _ _)); cbn [negb self calls] in E; [rewrite Hc in E|]; cbn in E; injection E as <- _; reflexivity.
Qed.

(** The port of a server socket is that of its last client once it has
    accepted one: [accept] overwrites the address. *)
Theorem port_after_accept {Y : System} (s : St) :
  snd (accept s) = true -> (forall l fd, known_family (snd (reply l (Accept fd)))) ->
  exists l fd, snd (get_portnumber (fst (accept s))) = Some (Some (ss_port (snd (reply l (Accept fd))))).
Proof.
  intros Ha Hk. exists (Close (connection (self s)) :: calls s), (sock (self s)). revert Ha.
  unfold accept, set_bio, get_portnumber, bind_, gets, call, modify, ret. cbn [self calls fst snd].
  destruct (negb (bound (self s)) || negb (listening (self s)) || negb (server (self s))) eqn:E; [discriminate|].
  apply orb_false_elim in E as [E E3]. apply orb_false_elim in E as [E1 _]. cbn [self calls fst snd].
  set (r := reply _ (Accept (sock (self s)))). destruct (fst r =? -1)%Z; [discriminate|]. intros _. cbn. rewrite E1, E3. cbn [orb].
  pose proof (Hk (Close (connection (self s)) :: calls s) (sock (self s))) as [H|H]; fold r in H; cbn; now rewrite H.
Qed.

Lemma connect_v4_reports_success_witness :
  let s := run_ops (Y := kind_system) [SetFamily AF_INET] (mkSt (make false) []) in
  snd (connect_to (Y := kind_system) "127.0.0.1" 4433 s) = Some true /\ connected (self (fst (connect_to (Y := kind_system) "127.0.0.1" 4433 s))) = false.
Proof.
  intros s. destruct (@connect_v4_reports_success kind_system "127.0.0.1" 4433 s) as [E1 E2]; [discriminate | reflexivity..|].
  split; [exact E1 | apply E2; reflexivity].
Defined.

Lemma port_after_accept_witness :
  let s := run_ops (Y := kind_system) [SetFamily AF_INET; SetAddr "127.0.0.1"; BindIt; ListenOn 5] (mkSt (make true) []) in
  snd (get_portnumber s) = Some (Some 4433) /\ snd (get_portnumber (fst (accept (Y := kind_system) s))) = Some (Some 50000).
Proof.
  intros s. split; [reflexivity|]. destruct (@port_after_accept kind_system s) as (l & fd & E); [reflexivity | now left | exact E].
Defined.
