(* ===== verification/CircuitWires.v ===== *)
(** * Wires and gates of the circuit generators ([2pc/DeriveCircuits.cpp])

    A generator builds its circuit by running it on wires; in the plain
    protocol a wire is a bit, and [reveal] gives the outputs in the order of
    the calls.  A circuit is therefore a function from Alice's and Bob's input
    wires to the revealed bits.  [exec] is what [exec_small_internal]
    ([ssl/EmpWrapperAG2PC.cpp]) computes for both parties when the protocol of
    emp-ag2pc runs through.  The AES-128 circuit that is loaded from a file of
    emp-tool is the parameter [BristolAES]. *)

From S2P Require Import Prelude Messaging Util GHash Arrays.

Import Util.
Local Open Scope N_scope.

Module Wires.

(** ** Bytes and wires *)

Abbreviation wire w i := (nth i w false).

Definition slice (off n : nat) (w : list bool) : list bool := firstn n (skipn off w).

(** [chars_to_bools]: low bit first. *)
Definition chars_to_bools (arr : list N) : list bool := convert_uint8_to_bool arr.

(** [post_proc]: eight bits to a byte, low bit first. *)
Definition post_proc (output_size : nat) (temp_out : list bool) : list N :=
  tabulate output_size (fun i =>
    fold_left (fun tmp j => wrap 8 (tmp + wrap 8 (N.shiftl (N.b2n (wire temp_out (i * 8 + j))) (N.of_nat j))))
      (List.seq 0 8) 0).

(** Both parties' calls of [exec_small_internal] on one circuit. *)
Definition exec (circuit : list bool -> list bool -> list bool) (output_size : nat) (alice bob : list N) : list N :=
  post_proc output_size (circuit (convert_uint8_to_bool alice) (convert_uint8_to_bool bob)).

(** ** Gates *)

Definition xor_gate := xorb.
Definition and_gate := andb.
Definition not_gate := negb.

Definition or_gate (a b : bool) : bool := not_gate (and_gate (not_gate a) (not_gate b)).

Definition xor_wires (n : nat) (a b : list bool) : list bool :=
  tabulate n (fun i => xor_gate (wire a i) (wire b i)).

Definition equals (length : nat) (a b : list bool) : bool :=
  not_gate (fold_left (fun out i => or_gate out (xor_gate (wire a i) (wire b i))) (List.seq 0 length) false).

(** ** AES-128 *)

(** [BristolFormat::compute] of [aes128_full.txt]: key and plaintext wires to
    ciphertext wires. *)
Class BristolAES := compute : list bool -> list bool.

Definition rev_bytes128 (inp : list bool) : list bool :=
  tabulate 128 (fun k => wire inp ((15 - k / 8) * 8 + k mod 8)).

Definition rev_bits128 (inp : list bool) : list bool :=
  tabulate 128 (fun k => wire inp (k / 8 * 8 + (7 - k mod 8))).

Definition aes128_encrypt `{BristolAES} (key pt : list bool) : list bool :=
  rev_bits128 (compute (rev_bytes128 key ++ rev_bytes128 pt)).

(** G || H on wires. *)
Definition hirose_commit `{BristolAES} (r b c : list bool) : list bool :=
  let bc := xor_wires 128 b c in
  let g := aes128_encrypt r b in
  let h := aes128_encrypt r bc in
  xor_wires 128 g b ++ xor_wires 128 h bc.

End Wires.

Import Wires.

(** ** Bits of byte strings *)

Abbreviation bits := convert_uint8_to_bool.

Lemma length_bits bs : length (bits bs) = (length bs * 8)%nat.
Proof. apply length_flat_map_const. intros. apply length_unpack_bits. Qed.

Lemma bits_app a b : bits (a ++ b) = bits a ++ bits b.
Proof. apply flat_map_app. Qed.

Lemma bits_concat xs : bits (concat xs) = concat (map bits xs).
Proof. induction xs as [|x xs IH]; [reflexivity|]. cbn. now rewrite bits_app, IH. Qed.

Lemma wire_bits bs i j : (i < length bs)%nat -> (j < 8)%nat -> wire (bits bs) (i * 8 + j) = N.testbit bs.[i] (N.of_nat j).
Proof.
  intros Hi Hj. unfold convert_uint8_to_bool.
  rewrite (nth_flat_map _ 8 _ _ _ 0); [|intros; apply length_unpack_bits | assumption..].
  now apply nth_unpack_bits.
Qed.

(** Wires that carry the bits of a string are its bits. *)
Lemma bits_ext w bs :
  length w = (length bs * 8)%nat ->
  (forall i j, (i < length bs)%nat -> (j < 8)%nat -> wire w (i * 8 + j) = N.testbit bs.[i] (N.of_nat j)) ->
  w = bits bs.
Proof.
  intros Hl H. apply (nth_ext _ _ false false); [now rewrite length_bits|].
  intros k Hk. pose proof (Nat.div_mod_eq k 8) as E. rewrite Nat.mul_comm in E.
  pose proof (Nat.mod_upper_bound k 8 ltac:(lia)) as Hm. rewrite E.
  assert (k / 8 < length bs)%nat by (apply Nat.Div0.div_lt_upper_bound; lia).
  now rewrite H, wire_bits by assumption.
Qed.

Lemma byte_of_bits b : b < 256 ->
  fold_left (fun tmp j => wrap 8 (tmp + wrap 8 (N.shiftl (N.b2n (N.testbit b (N.of_nat j))) (N.of_nat j))))
    (List.seq 0 8) 0 = b.
Proof.
  intros Hb.
  assert (E : forallb (fun k => fold_left (fun tmp j => wrap 8 (tmp + wrap 8 (N.shiftl (N.b2n
      (N.testbit (N.of_nat k) (N.of_nat j))) (N.of_nat j)))) (List.seq 0 8) 0 =? N.of_nat k) (List.seq 0 256) = true)
    by (vm_compute; reflexivity).
  rewrite forallb_forall in E. specialize (E (N.to_nat b)). rewrite N2Nat.id in E.
  apply N.eqb_eq, E, in_seq. lia.
Qed.

Lemma fold_left_ext {A B} (f g : A -> B -> A) xs : forall a,
  (forall a x, In x xs -> f a x = g a x) -> fold_left f xs a = fold_left g xs a.
Proof.
  induction xs as [|x xs IH]; intros a H; [reflexivity|]. cbn. rewrite H by now left.
  apply IH. intros. apply H. now right.
Qed.

(** The output conversion undoes the input conversion. *)
Lemma post_proc_bits bs : bytes bs -> post_proc (length bs) (bits bs) = bs.
Proof.
  intros Hb. apply (nth_ext _ _ 0 0); unfold post_proc; rewrite length_tabulate; [reflexivity|].
  intros i Hi. rewrite nth_tabulate by exact Hi.
  rewrite (fold_left_ext _ (fun tmp j => wrap 8 (tmp + wrap 8 (N.shiftl (N.b2n (N.testbit bs.[i] (N.of_nat j))) (N.of_nat j))))).
  - now apply byte_of_bits, bytes_at.
  - intros a j Hj%in_seq. now rewrite wire_bits by lia.
Qed.

Lemma bits_inj a b : arr 16 a -> arr 16 b -> bits a = bits b -> a = b.
Proof.
  intros [La Ba] [Lb Bb] E. rewrite <- (post_proc_bits a Ba), <- (post_proc_bits b Bb), E, La, Lb. reflexivity.
Qed.

(** ** Slices of packed inputs *)

Lemma slice_head n w rest : length w = n -> slice 0 n (w ++ rest) = w.
Proof. intros <-. unfold slice. cbn. now rewrite firstn_app, Nat.sub_diag, firstn_all, firstn_O, app_nil_r. Qed.

Lemma slice_all n w : length w = n -> slice 0 n w = w.
Proof. intros <-. unfold slice. cbn. apply firstn_all. Qed.

Lemma slice_skip off m n w rest : length w = m -> slice (m + off) n (w ++ rest) = slice off n rest.
Proof.
  intros <-. unfold slice. f_equal. rewrite skipn_app, (skipn_all2 w) by lia. cbn. f_equal. lia.
Qed.

(** ** Gates on bytes *)

(** Equality of byte strings as a bit. *)
Definition same (a b : list N) : bool := if list_eq_dec N.eq_dec a b then true else false.

Lemma same_refl a : same a a = true.
Proof. unfold same. destruct (list_eq_dec N.eq_dec a a); congruence. Qed.

Lemma same_iff a b : same a b = true <-> a = b.
Proof. unfold same. destruct (list_eq_dec N.eq_dec a b); split; congruence. Qed.

Lemma xor_wires_bits a b :
  length a = 16%nat -> length b = 16%nat -> xor_wires 128 (bits a) (bits b) = bits (MaskConstants.xor_bytes a b).
Proof.
  intros La Lb. apply bits_ext; unfold MaskConstants.xor_bytes, xor_wires; rewrite !length_tabulate; [reflexivity|].
  intros i j Hi Hj. rewrite !nth_tabulate, !wire_bits by lia.
  rewrite wrap_spec, N.lxor_spec, (proj2 (N.ltb_lt _ _)) by lia. now rewrite andb_true_r.
Qed.

Lemma equals_loop n a b : forall k out,
  fold_left (fun out i => or_gate out (xor_gate (wire a i) (wire b i))) (List.seq k n) out = false <->
  out = false /\ forall i, (k <= i < k + n)%nat -> wire a i = wire b i.
Proof.
  induction n as [|n IH]; intros k out; cbn [List.seq fold_left].
  - split; [intros ->; split; [reflexivity | intros; lia] | tauto].
  - rewrite IH. unfold or_gate, xor_gate, not_gate, and_gate. split.
    + intros [E H]. destruct out, (wire a k) eqn:Ea, (wire b k) eqn:Eb; try discriminate E;
        (split; [reflexivity|]; intros i Hi; destruct (Nat.eq_dec i k) as [-> |]; [congruence | apply H; lia]).
    + intros [-> H]. rewrite (H k) by lia. split; [now destruct (wire b k) | intros i Hi; apply H; lia].
Qed.

Lemma equals_spec n a b :
  length a = n -> length b = n -> equals n a b = true <-> a = b.
Proof.
  intros La Lb. unfold equals, not_gate. rewrite negb_true_iff, equals_loop. split.
  - intros [_ H]. apply (nth_ext _ _ false false); [congruence|]. intros i Hi. apply H. lia.
  - intros ->. now split.
Qed.

Lemma equals_bits n a b :
  arr n a -> arr n b -> equals (n * 8) (bits a) (bits b) = same a b.
Proof.
  intros [La Ba] [Lb Bb]. apply Bool.eq_iff_eq_true.
  rewrite equals_spec, same_iff by (rewrite length_bits; lia). split; [|now intros ->].
  intros E. rewrite <- (post_proc_bits a Ba), <- (post_proc_bits b Bb), E, La, Lb. reflexivity.
Qed.

Lemma rev_bytes_bits a : length a = 16%nat -> rev_bytes128 (bits a) = bits (rev a).
Proof.
  intros La. apply bits_ext; unfold rev_bytes128; rewrite ?length_tabulate, ?length_rev, La; [reflexivity|].
  intros i j Hi Hj. rewrite nth_tabulate by lia.
  rewrite (Nat.add_comm (i * 8) j), Nat.div_add, Nat.Div0.mod_add, (Nat.div_small j), Nat.mod_small by lia.
  cbn [Nat.add]. rewrite wire_bits, rev_nth, La by lia. now do 2 f_equal.
Qed.

Lemma rev_bits_involutive w : length w = 128%nat -> rev_bits128 (rev_bits128 w) = w.
Proof.
  intros Hl. apply (nth_ext _ _ false false); unfold rev_bits128; rewrite length_tabulate; [now rewrite Hl|].
  intros k Hk. rewrite nth_tabulate by exact Hk.
  pose proof (Nat.mod_upper_bound k 8 ltac:(lia)). pose proof (Nat.div_mod_eq k 8).
  assert (k / 8 < 16)%nat by (apply Nat.Div0.div_lt_upper_bound; lia).
  rewrite nth_tabulate by lia.
  rewrite (Nat.add_comm (k / 8 * 8)), Nat.div_add, Nat.Div0.mod_add, (Nat.div_small (7 - _)), (Nat.mod_small (7 - _)) by lia.
  f_equal. lia.
Qed.

Lemma xor_bytes_arr a b : arr 16 (MaskConstants.xor_bytes a b).
Proof. apply arr_tabulate. intros. apply (wrap_lt 8). Qed.

(** ** The AES circuit

    The file's circuit reverses the bytes of its inputs and the bits of the
    bytes of its output, as the comment above [rev_bytes128] says. *)
Class BristolOk (bf : BristolAES) (aes : list N -> list N -> list N) : Prop := {
  aes_block : forall k x, arr 16 (aes k x);
  bristol_aes : forall k x, arr 16 k -> arr 16 x ->
    compute (bits k ++ bits x) = rev_bits128 (bits (aes (rev k) (rev x))) }.

(** The host's commitment, as a function of the cipher. *)
Definition hirose (aes : list N -> list N -> list N) (r b : list N) : list N :=
  let bc := MaskConstants.xor_bytes b MaskConstants.kHiroseC in
  MaskConstants.xor_bytes (aes r b) b ++ MaskConstants.xor_bytes (aes r bc) bc.

Section AES.
Context {bf : BristolAES} {aes : list N -> list N -> list N} {Bok : BristolOk bf aes}.

Lemma arr_rev n a : arr n a -> arr n (rev a).
Proof. intros [La Ba]. split; [now rewrite length_rev | now apply Forall_rev]. Qed.

Lemma aes128_encrypt_bits k x : arr 16 k -> arr 16 x -> aes128_encrypt (bits k) (bits x) = bits (aes k x).
Proof.
  intros Hk Hx. unfold aes128_encrypt. rewrite !rev_bytes_bits by apply Hk || apply Hx.
  rewrite bristol_aes, !rev_involutive, rev_bits_involutive; auto using arr_rev.
  rewrite length_bits. now destruct (aes_block k x) as [-> _].
Qed.

Lemma hirose_commit_bits r b : arr 16 r -> arr 16 b ->
  hirose_commit (bits r) (bits b) (bits MaskConstants.kHiroseC) = bits (hirose aes r b).
Proof.
  intros Hr Hb. unfold hirose_commit, hirose. rewrite bits_app.
  rewrite (xor_wires_bits b) by (apply Hb || reflexivity).
  rewrite !aes128_encrypt_bits by auto using xor_bytes_arr.
  rewrite !xor_wires_bits by (apply aes_block || apply Hb || apply xor_bytes_arr). reflexivity.
Qed.

Lemma hirose_arr r b : arr 32 (hirose aes r b).
Proof.
  split; [unfold hirose; rewrite length_app; reflexivity|].
  apply Forall_app; split; apply xor_bytes_arr.
Qed.

End AES.

(** ** The host's commitment *)

(** The library's AES is the cipher of the circuit. *)
Class SameCipher (B : MaskConstants.BlockCipher) (aes : list N -> list N -> list N) : Prop :=
  same_cipher : forall k x, MaskConstants.evp_aes_128_ecb k x = Some (aes k x).

Lemma hirose_host {B : MaskConstants.BlockCipher} {aes} {C : SameCipher B aes} r b :
  MaskConstants.hirose_commit_host r b = Some (hirose aes r b).
Proof. unfold MaskConstants.hirose_commit_host. now rewrite !same_cipher. Qed.

(** ** A cipher to evaluate with

    The exclusive or of key and block, as a circuit with the file's
    conventions. *)
Definition toy_bristol : BristolAES := fun w =>
  rev_bits128 (xor_wires 128 (rev_bytes128 (slice 0 128 w)) (rev_bytes128 (slice 128 128 w))).

Lemma toy_bristol_ok : BristolOk toy_bristol MaskConstants.xor_bytes.
Proof.
  split; [intros; apply xor_bytes_arr|]. intros k x [Lk Bk] [Lx Bx]. unfold compute, toy_bristol.
  assert (L : forall a, length a = 16%nat -> length (bits a) = 128%nat)
    by (intros a E; rewrite length_bits, E; reflexivity).
  rewrite slice_head, (slice_skip 0 128), slice_all by auto.
  now rewrite !rev_bytes_bits, xor_wires_bits by (rewrite ?length_rev; assumption).
Qed.

Definition toy_cipher : MaskConstants.BlockCipher := fun k x => Some (MaskConstants.xor_bytes k x).

Lemma toy_same_cipher : SameCipher toy_cipher MaskConstants.xor_bytes.
Proof. now intros k x. Qed.
