(* ===== verification/CircuitRecords.v ===== *)
(** * The circuits of the record layer ([2pc/DeriveCircuits.cpp])

    The circuits that make and verify tags, derive keystream and encrypt, as
    functions on wires, and what they compute on the packed inputs of the two
    parties. *)

From S2P Require Import Prelude F2128Claims Messaging Util GHash Arrays CircuitWires.

Import Util Wires.
Local Open Scope N_scope.

Module RecordCircuits.

Section Generators.
Context {bf : BristolAES}.

(** ok (8) || tag ^ mask (128) *)
Definition DeriveGCMTag (alice_blocks bob_blocks : list bool) : list bool :=
  let key := xor_wires 128 (slice 0 128 alice_blocks) (slice 0 128 bob_blocks) in
  let output := aes128_encrypt key (slice 128 128 alice_blocks) in
  let output := xor_wires 128 output
    (xor_wires 128 (slice 256 128 alice_blocks) (slice 256 128 bob_blocks)) in
  let were_same := equals 128 (slice 128 128 alice_blocks) (slice 128 128 bob_blocks) in
  let ok_arr := repeat were_same 128 in
  let output := tabulate 128 (fun i => and_gate (wire ok_arr i) (wire output i)) in
  let masked := xor_wires 128 output (slice 384 128 alice_blocks) in
  firstn 8 ok_arr ++ masked.

(** tag_verify (8) || neither cheated (8) *)
Definition DeriveGCMVerify (alice_blocks bob_blocks : list bool) : list bool :=
  let key := xor_wires 128 (slice 0 128 alice_blocks) (slice 0 128 bob_blocks) in
  let output := aes128_encrypt key (slice 128 128 alice_blocks) in
  let output := xor_wires 128 output
    (xor_wires 128 (slice 256 128 alice_blocks) (slice 256 128 bob_blocks)) in
  let were_ivs_same := equals 128 (slice 128 128 alice_blocks) (slice 128 128 bob_blocks) in
  let were_tags_same := equals 128 (slice 384 128 alice_blocks) (slice 384 128 bob_blocks) in
  let did_either_cheat := and_gate were_ivs_same were_tags_same in
  let tag_verify := and_gate (equals 128 output (slice 384 128 alice_blocks)) did_either_cheat in
  repeat tag_verify 8 ++ repeat did_either_cheat 8.

(** tag_verify (8) || neither cheated (8) || key opened (8) *)
Definition DeriveGCMVerifyCommit (alice_blocks bob_blocks : list bool) : list bool :=
  let key := xor_wires 128 (slice 0 128 alice_blocks) (slice 0 128 bob_blocks) in
  let output := aes128_encrypt key (slice 128 128 alice_blocks) in
  let output := xor_wires 128 output
    (xor_wires 128 (slice 256 128 alice_blocks) (slice 256 128 bob_blocks)) in
  let c_blocks := chars_to_bools MaskConstants.kHiroseC in
  let key_commit := hirose_commit (slice 512 128 alice_blocks) (slice 0 128 alice_blocks) c_blocks in
  let key_opened := equals 256 key_commit (slice 640 256 bob_blocks) in
  let were_ivs_same := equals 128 (slice 128 128 alice_blocks) (slice 128 128 bob_blocks) in
  let were_tags_same := equals 128 (slice 384 128 alice_blocks) (slice 384 128 bob_blocks) in
  let did_either_cheat := and_gate were_ivs_same were_tags_same in
  let tag_and_key := and_gate (equals 128 output (slice 384 128 alice_blocks)) key_opened in
  let tag_verify := and_gate tag_and_key did_either_cheat in
  repeat tag_verify 8 ++ repeat did_either_cheat 8 ++ repeat key_opened 8.

(** [ok] after the counter checks of the blocks. *)
Definition check_counters (off n : nat) (alice_blocks bob_blocks : list bool) (ok : bool) : bool :=
  fold_left (fun ok blk =>
      let c := (off + 128 * blk)%nat in
      and_gate ok (equals 128 (slice c 128 alice_blocks) (slice c 128 bob_blocks)))
    (List.seq 0 n) ok.

(** Masked keystream (128 n) || ok (8) *)
Definition DeriveKeystreamBatch (n : nat) (alice_blocks bob_blocks : list bool) : list bool :=
  let kOffCtr := 128%nat in
  let kOffS := (kOffCtr + 128 * n)%nat in
  let kOffR := (kOffS + 128)%nat in
  let kOffD := (kOffR + 128)%nat in
  let c_blocks := chars_to_bools MaskConstants.kHiroseC in
  let key := xor_wires 128 (slice 0 128 alice_blocks) (slice 0 128 bob_blocks) in
  let commit := hirose_commit (slice kOffR 128 alice_blocks) (slice kOffS 128 alice_blocks) c_blocks in
  let ok := and_gate true (equals 256 commit (slice kOffD 256 bob_blocks)) in
  let ok := check_counters kOffCtr n alice_blocks bob_blocks ok in
  let out := concat (tabulate n (fun blk =>
    let c := (kOffCtr + 128 * blk)%nat in
    let ks := aes128_encrypt key (slice c 128 alice_blocks) in
    let b := aes128_encrypt (slice kOffS 128 alice_blocks) (slice c 128 alice_blocks) in
    xor_wires 128 ks b)) in
  let out := map (fun w => and_gate w ok) out in
  out ++ repeat ok 8.

(** Ciphertext (128 n) || ok (8) *)
Definition DeriveAESEncBatch (n : nat) (alice_blocks bob_blocks : list bool) : list bool :=
  let kOffCtr := 128%nat in
  let kOffPt := (kOffCtr + 128 * n)%nat in
  let key := xor_wires 128 (slice 0 128 alice_blocks) (slice 0 128 bob_blocks) in
  let ok := check_counters kOffCtr n alice_blocks bob_blocks true in
  let out := concat (tabulate n (fun blk =>
    let c := (kOffCtr + 128 * blk)%nat in
    let p := (kOffPt + 128 * blk)%nat in
    let ks := aes128_encrypt key (slice c 128 alice_blocks) in
    xor_wires 128 ks (slice p 128 alice_blocks))) in
  let out := map (fun w => and_gate w ok) out in
  out ++ repeat ok 8.

End Generators.
End RecordCircuits.
Import RecordCircuits.

(** ** Outputs as bytes *)

(** A byte that repeats a bit. *)
Definition bit_byte (b : bool) : N := if b then 255 else 0.

Lemma repeat_bits b : repeat b 8 = bits [bit_byte b].
Proof. now destruct b. Qed.

Lemma bit_byte_lt b : bit_byte b < 256.
Proof. now destruct b. Qed.

Lemma exec_bytes circuit n alice bob out :
  arr n out -> circuit (bits alice) (bits bob) = bits out -> exec circuit n alice bob = out.
Proof. intros [<- Hb] E. unfold exec. rewrite E. now apply post_proc_bits. Qed.

(** The inputs of a party, taken apart. *)
Lemma slice0 n bs rest : length bs = n -> slice 0 (n * 8) (bits (bs ++ rest)) = bits bs.
Proof. intros Hl. rewrite bits_app. apply slice_head. now rewrite length_bits, Hl. Qed.

Lemma slice_at off n m bs rest :
  length bs = m -> slice (m * 8 + off) n (bits (bs ++ rest)) = slice off n (bits rest).
Proof. intros Hl. rewrite bits_app. apply slice_skip. now rewrite length_bits, Hl. Qed.

Lemma slice_end n bs : length bs = n -> slice 0 (n * 8) (bits bs) = bits bs.
Proof. intros Hl. apply slice_all. now rewrite length_bits, Hl. Qed.

(** A block of a packed sequence of blocks. *)
Lemma slice_block (xs : list (list N)) rest i :
  Forall (fun x => length x = 16%nat) xs -> (i < length xs)%nat ->
  slice (128 * i) 128 (bits (concat xs ++ rest)) = bits (nth i xs []).
Proof.
  revert i. induction xs as [|x xs IH]; intros i Hx Hi; [cbn in Hi; lia|].
  inversion Hx as [|? ? Lx Hxs]; subst. cbn [concat]. rewrite <- app_assoc. destruct i as [|i].
  - rewrite Nat.mul_0_r. now apply (slice0 16).
  - replace (128 * S i)%nat with (16 * 8 + 128 * i)%nat by lia. rewrite slice_at by exact Lx.
    apply IH; [exact Hxs | cbn in Hi; lia].
Qed.

Lemma length_concat_blocks (xs : list (list N)) :
  Forall (fun x => length x = 16%nat) xs -> length (concat xs) = (16 * length xs)%nat.
Proof. induction 1 as [|x xs Hx _ IH]; [reflexivity|]. cbn. rewrite length_app, Hx, IH. lia. Qed.

(** ** Tags *)

Definition xor3 (a b c : list N) : list N := MaskConstants.xor_bytes a (MaskConstants.xor_bytes b c).

Section Specs.
Context {bf : BristolAES} {aes : list N -> list N -> list N} {Bok : BristolOk bf aes}.

(** The tag of two GHASH shares. *)
Definition joint_tag (ka kb iv ta tb : list N) : list N :=
  xor3 (aes (MaskConstants.xor_bytes ka kb) iv) ta tb.

Lemma tag_wires ka kb iv ta tb :
  arr 16 ka -> arr 16 kb -> arr 16 iv -> arr 16 ta -> arr 16 tb ->
  xor_wires 128 (aes128_encrypt (xor_wires 128 (bits ka) (bits kb)) (bits iv))
    (xor_wires 128 (bits ta) (bits tb)) = bits (joint_tag ka kb iv ta tb).
Proof.
  intros Hka Hkb Hiv Hta Htb. rewrite (xor_wires_bits ka), (xor_wires_bits ta) by (apply Hka || apply Hkb || apply Hta || apply Htb).
  rewrite aes128_encrypt_bits by auto using xor_bytes_arr.
  apply xor_wires_bits; [apply aes_block | apply xor_bytes_arr].
Qed.

(** The four fields every tag circuit starts with, and what follows. *)
Lemma four_parts a b c d rest :
  length a = 16%nat -> length b = 16%nat -> length c = 16%nat -> length d = 16%nat ->
  let w := bits (a ++ b ++ c ++ d ++ rest) in
  slice 0 128 w = bits a /\ slice 128 128 w = bits b /\ slice 256 128 w = bits c /\
  slice 384 128 w = bits d /\ forall off n, slice (512 + off) n w = slice off n (bits rest).
Proof.
  intros La Lb Lc Ld w. unfold w.
  split; [now apply (slice0 16)|].
  split; [now rewrite (slice_at 0 128 16), (slice0 16)|].
  split; [now rewrite (slice_at 128 128 16), (slice_at 0 128 16), (slice0 16)|].
  split; [now rewrite (slice_at 256 128 16), (slice_at 128 128 16), (slice_at 0 128 16), (slice0 16)|].
  intros off n. rewrite (slice_at (384 + off) n 16), (slice_at (256 + off) n 16), (slice_at (128 + off) n 16) by assumption.
  now rewrite (slice_at off n 16).
Qed.

(** A gate that lets a block pass or zeroes it. *)
Lemma gate_bits (ok : bool) x : length x = 16%nat ->
  tabulate 128 (fun i => and_gate (wire (repeat ok 128) i) (wire (bits x) i)) =
  bits (if ok then x else repeat 0 16).
Proof.
  intros Lx. apply (nth_ext _ _ false false); rewrite length_tabulate.
  - rewrite length_bits. destruct ok; [now rewrite Lx | reflexivity].
  - intros i Hi. rewrite nth_tabulate, nth_repeat_lt by exact Hi. destruct ok; [reflexivity|].
    change (bits (repeat 0 16)) with (repeat false 128). now rewrite nth_repeat.
Qed.

Lemma gcm_tag_spec ka iva ta ma kb ivb tb mb :
  arr 16 ka -> arr 16 iva -> arr 16 ta -> arr 16 ma -> arr 16 kb -> arr 16 ivb -> arr 16 tb -> arr 16 mb ->
  exec DeriveGCMTag 17 (ka ++ iva ++ ta ++ ma) (kb ++ ivb ++ tb ++ mb) =
  bit_byte (same iva ivb) ::
  MaskConstants.xor_bytes (if same iva ivb then joint_tag ka kb iva ta tb else repeat 0 16) ma.
Proof.
  intros Hka Hia Hta Hma Hkb Hib Htb Hmb. apply exec_bytes.
  { split; [reflexivity|]. constructor; [apply bit_byte_lt | apply xor_bytes_arr]. }
  rewrite <- (app_nil_r ma), <- (app_nil_r mb). unfold DeriveGCMTag.
  destruct (four_parts ka iva ta ma []) as (-> & -> & -> & -> & _);
    [apply Hka | apply Hia | apply Hta | apply Hma |].
  destruct (four_parts kb ivb tb mb []) as (-> & -> & -> & _);
    [apply Hkb | apply Hib | apply Htb | apply Hmb |].
  rewrite tag_wires, (equals_bits 16) by assumption. rewrite app_nil_r.
  change (bit_byte (same iva ivb) :: ?x) with ([bit_byte (same iva ivb)] ++ x). rewrite bits_app, <- repeat_bits.
  f_equal. rewrite gate_bits by apply xor_bytes_arr. apply xor_wires_bits; [now destruct same | apply Hma].
Qed.

(** Both parties gave the same counter block and the same tag. *)
Definition agree (iva ivb va vb : list N) : bool := same iva ivb && same va vb.

Lemma gcm_verify_spec ka iva ta va kb ivb tb vb :
  arr 16 ka -> arr 16 iva -> arr 16 ta -> arr 16 va -> arr 16 kb -> arr 16 ivb -> arr 16 tb -> arr 16 vb ->
  exec DeriveGCMVerify 2 (ka ++ iva ++ ta ++ va) (kb ++ ivb ++ tb ++ vb) =
  [bit_byte (same (joint_tag ka kb iva ta tb) va && agree iva ivb va vb); bit_byte (agree iva ivb va vb)].
Proof.
  intros Hka Hia Hta Hva Hkb Hib Htb Hvb. apply exec_bytes.
  { split; [reflexivity|]. repeat constructor; apply bit_byte_lt. }
  rewrite <- (app_nil_r va), <- (app_nil_r vb). unfold DeriveGCMVerify.
  destruct (four_parts ka iva ta va []) as (-> & -> & -> & -> & _);
    [apply Hka | apply Hia | apply Hta | apply Hva |].
  destruct (four_parts kb ivb tb vb []) as (-> & -> & -> & -> & _);
    [apply Hkb | apply Hib | apply Htb | apply Hvb |].
  rewrite tag_wires, !(equals_bits 16) by (assumption || apply xor_bytes_arr). rewrite !app_nil_r.
  change [?x; ?y] with ([x] ++ [y]). now rewrite bits_app, <- !repeat_bits.
Qed.

Lemma gcm_verify_commit_spec ka iva ta va ra da kb ivb tb vb rb db :
  arr 16 ka -> arr 16 iva -> arr 16 ta -> arr 16 va -> arr 16 ra -> arr 32 da ->
  arr 16 kb -> arr 16 ivb -> arr 16 tb -> arr 16 vb -> arr 16 rb -> arr 32 db ->
  let opened := same (hirose aes ra ka) db in
  exec DeriveGCMVerifyCommit 3 (ka ++ iva ++ ta ++ va ++ ra ++ da) (kb ++ ivb ++ tb ++ vb ++ rb ++ db) =
  [bit_byte (same (joint_tag ka kb iva ta tb) va && opened && agree iva ivb va vb);
   bit_byte (agree iva ivb va vb); bit_byte opened].
Proof.
  intros Hka Hia Hta Hva Hra Hda Hkb Hib Htb Hvb Hrb Hdb opened. apply exec_bytes.
  { split; [reflexivity|]. repeat constructor; apply bit_byte_lt. }
  unfold DeriveGCMVerifyCommit.
  destruct (four_parts ka iva ta va (ra ++ da)) as (-> & -> & -> & -> & Ea);
    [apply Hka | apply Hia | apply Hta | apply Hva |].
  destruct (four_parts kb ivb tb vb (rb ++ db)) as (-> & -> & -> & -> & Eb);
    [apply Hkb | apply Hib | apply Htb | apply Hvb |].
  rewrite (Ea 0%nat), (Eb 128%nat). rewrite (slice0 16) by apply Hra. rewrite (slice_at 0 256 16) by apply Hrb.
  rewrite (slice_end 32) by apply Hdb. unfold chars_to_bools. rewrite hirose_commit_bits by assumption.
  rewrite tag_wires, !(equals_bits 16), (equals_bits 32) by (assumption || apply xor_bytes_arr || apply hirose_arr).
  change [?x; ?y; ?z] with ([x] ++ [y] ++ [z]). now rewrite !bits_app, <- !repeat_bits.
Qed.

(** ** Batches *)

Definition gated (ok : bool) (x : list N) : list N := if ok then x else repeat 0 16.

Lemma length_gated ok x : length x = 16%nat -> length (gated ok x) = 16%nat.
Proof. now destruct ok. Qed.

Lemma map_gate ok x : length x = 16%nat -> map (fun w => and_gate w ok) (bits x) = bits (gated ok x).
Proof.
  intros Lx. destruct ok; cbn [gated].
  - rewrite (map_ext _ (fun w => w)); [apply map_id|]. intros []; reflexivity.
  - rewrite (map_ext _ (fun _ => false)) by (intros []; reflexivity).
    change (bits (repeat 0 16)) with (repeat false 128). rewrite map_const, length_bits, Lx. reflexivity.
Qed.

(** The output of a batch: the gated blocks and the bit. *)
Lemma batch_out n ok (x : nat -> list N) :
  (forall i, (i < n)%nat -> length (x i) = 16%nat) ->
  map (fun w => and_gate w ok) (concat (tabulate n (fun i => bits (x i)))) ++ repeat ok 8 =
  bits (concat (tabulate n (fun i => gated ok (x i))) ++ [bit_byte ok]).
Proof.
  intros Hx. rewrite bits_app, <- repeat_bits, bits_concat, concat_map. f_equal. f_equal.
  unfold tabulate. rewrite !map_map. apply map_ext_in. intros i Hi%in_seq. apply map_gate, Hx. lia.
Qed.

Lemma batch_arr n ok (x : nat -> list N) :
  (forall i, (i < n)%nat -> arr 16 (x i)) ->
  arr (16 * n + 1) (concat (tabulate n (fun i => gated ok (x i))) ++ [bit_byte ok]).
Proof.
  intros Hx. assert (Hg : Forall (fun x => arr 16 x) (tabulate n (fun i => gated ok (x i)))).
  { apply Forall_forall. intros y Hy. apply in_map_iff in Hy as (i & <- & Hi%in_seq).
    destruct ok; [apply Hx; lia | apply arr_repeat]. }
  split.
  - rewrite length_app, length_concat_blocks, length_tabulate; [reflexivity|].
    eapply Forall_impl; [|exact Hg]. now intros y [].
  - apply Forall_app. split; [|constructor; [apply bit_byte_lt | constructor]].
    apply Forall_concat. eapply Forall_impl; [|exact Hg]. now intros y [].
Qed.

Definition same_counters (n : nat) (ca cb : list (list N)) : bool :=
  forallb (fun i => same (nth i ca []) (nth i cb [])) (List.seq 0 n).

Definition blocks16 (n : nat) (xs : list (list N)) : Prop := length xs = n /\ Forall (arr 16) xs.

Lemma blocks16_nth n xs i : blocks16 n xs -> (i < n)%nat -> arr 16 (nth i xs []).
Proof. intros [<- Hx] Hi. rewrite Forall_forall in Hx. now apply Hx, nth_In. Qed.

Lemma blocks16_length n xs : blocks16 n xs -> Forall (fun x => length x = 16%nat) xs.
Proof. intros [_ Hx]. eapply Forall_impl; [|exact Hx]. now intros y []. Qed.

(** The counter block of a lane in a packed input. *)
Lemma slice_counter n k cs rest i : length k = 16%nat -> blocks16 n cs -> (i < n)%nat ->
  slice (128 + 128 * i) 128 (bits (k ++ concat cs ++ rest)) = bits (nth i cs []).
Proof.
  intros Lk Hc Hi. rewrite (slice_at (128 * i) 128 16) by exact Lk.
  apply slice_block; [now apply (blocks16_length n) | now destruct Hc as [-> _]].
Qed.

Lemma slice_past n k cs rest off m : length k = 16%nat -> blocks16 n cs ->
  slice (128 + 128 * n + off) m (bits (k ++ concat cs ++ rest)) = slice off m (bits rest).
Proof.
  intros Lk Hc. rewrite <- Nat.add_assoc, (slice_at (128 * n + off) m 16) by exact Lk.
  replace (128 * n + off)%nat with (16 * n * 8 + off)%nat by lia. apply slice_at.
  rewrite length_concat_blocks by now apply (blocks16_length n). now destruct Hc as [-> _].
Qed.

Lemma check_counters_spec n ka ca resta kb cb restb ok :
  length ka = 16%nat -> blocks16 n ca -> length kb = 16%nat -> blocks16 n cb ->
  check_counters 128 n (bits (ka ++ concat ca ++ resta)) (bits (kb ++ concat cb ++ restb)) ok =
  ok && same_counters n ca cb.
Proof.
  intros La Ha Lb Hb. unfold check_counters, same_counters.
  assert (H : forall i, In i (List.seq 0 n) -> (i < n)%nat) by (intros i Hi%in_seq; lia).
  revert ok H. generalize (List.seq 0 n). induction l as [|i l IH]; intros ok H; [now rewrite andb_true_r|].
  cbn [fold_left forallb]. rewrite IH by (intros; apply H; now right).
  rewrite !(slice_counter n), (equals_bits 16) by eauto using in_eq, blocks16_nth.
  unfold and_gate. now rewrite andb_assoc.
Qed.

Lemma keystream_batch_spec n ka ca sa ra da kb cb sb rb db :
  arr 16 ka -> blocks16 n ca -> arr 16 sa -> arr 16 ra -> arr 32 da ->
  arr 16 kb -> blocks16 n cb -> arr 16 sb -> arr 16 rb -> arr 32 db ->
  let ok := same (hirose aes ra sa) db && same_counters n ca cb in
  exec (DeriveKeystreamBatch n) (16 * n + 1)
    (ka ++ concat ca ++ sa ++ ra ++ da) (kb ++ concat cb ++ sb ++ rb ++ db) =
  concat (tabulate n (fun i => gated ok
    (MaskConstants.xor_bytes (aes (MaskConstants.xor_bytes ka kb) (nth i ca [])) (aes sa (nth i ca []))))) ++
  [bit_byte ok].
Proof.
  intros Hka Hca Hsa Hra Hda Hkb Hcb Hsb Hrb Hdb ok. apply exec_bytes.
  { apply batch_arr. intros. apply xor_bytes_arr. }
  rewrite <- batch_out by (intros; apply xor_bytes_arr). unfold DeriveKeystreamBatch.
  set (wa := bits (ka ++ _)). set (wb := bits (kb ++ _)).
  assert (Es : slice (128 + 128 * n) 128 wa = bits sa).
  { rewrite <- (Nat.add_0_r (128 + 128 * n)). unfold wa. rewrite slice_past; [|apply Hka | exact Hca].
    apply (slice0 16), Hsa. }
  assert (Er : slice (128 + 128 * n + 128) 128 wa = bits ra).
  { unfold wa. rewrite slice_past; [|apply Hka | exact Hca].
    rewrite (slice_at 0 128 16) by apply Hsa. apply (slice0 16), Hra. }
  assert (Ed : slice (128 + 128 * n + 128 + 128) 256 wb = bits db).
  { unfold wb. rewrite <- (Nat.add_assoc (128 + 128 * n)), slice_past; [|apply Hkb | exact Hcb].
    rewrite (slice_at 128 256 16) by apply Hsb. rewrite (slice_at 0 256 16) by apply Hrb.
    apply (slice_end 32), Hdb. }
  rewrite Es, Er, Ed. unfold wa, wb. rewrite check_counters_spec; [|apply Hka | exact Hca | apply Hkb | exact Hcb].
  rewrite !(slice0 16) by (apply Hka || apply Hkb). rewrite (xor_wires_bits ka) by (apply Hka || apply Hkb).
  unfold chars_to_bools. rewrite hirose_commit_bits, (equals_bits 32) by auto using hirose_arr.
  unfold and_gate at 2 4. cbn [andb]. fold ok. do 3 f_equal. unfold tabulate. apply map_ext_in. intros i Hi%in_seq.
  rewrite (slice_counter n) by (apply Hka || assumption || lia).
  assert (Hc : arr 16 (nth i ca [])) by (apply (blocks16_nth n); [exact Hca | lia]).
  rewrite !aes128_encrypt_bits by auto using xor_bytes_arr. apply xor_wires_bits; apply aes_block.
Qed.

Lemma aes_enc_batch_spec n ka ca pa kb cb pb :
  arr 16 ka -> blocks16 n ca -> blocks16 n pa -> arr 16 kb -> blocks16 n cb -> blocks16 n pb ->
  let ok := same_counters n ca cb in
  exec (DeriveAESEncBatch n) (16 * n + 1) (ka ++ concat ca ++ concat pa) (kb ++ concat cb ++ concat pb) =
  concat (tabulate n (fun i => gated ok
    (MaskConstants.xor_bytes (aes (MaskConstants.xor_bytes ka kb) (nth i ca [])) (nth i pa [])))) ++
  [bit_byte ok].
Proof.
  intros Hka Hca Hpa Hkb Hcb Hpb ok. apply exec_bytes.
  { apply batch_arr. intros. apply xor_bytes_arr. }
  rewrite <- batch_out by (intros; apply xor_bytes_arr). unfold DeriveAESEncBatch.
  rewrite check_counters_spec; [|apply Hka | exact Hca | apply Hkb | exact Hcb].
  rewrite !(slice0 16) by (apply Hka || apply Hkb). rewrite (xor_wires_bits ka) by (apply Hka || apply Hkb).
  cbn [andb]. fold ok. do 3 f_equal. unfold tabulate. apply map_ext_in. intros i Hi%in_seq.
  rewrite (slice_counter n) by (apply Hka || assumption || lia).
  rewrite (slice_past n) by (apply Hka || assumption).
  rewrite <- (app_nil_r (concat pa)), slice_block; [|now apply (blocks16_length n) | destruct Hpa as [-> _]; lia].
  assert (Hc : arr 16 (nth i ca [])) by (apply (blocks16_nth n); [exact Hca | lia]).
  rewrite aes128_encrypt_bits by auto using xor_bytes_arr. apply xor_wires_bits; [apply aes_block|].
  apply (blocks16_nth n); [exact Hpa | lia].
Qed.

End Specs.
