(* ===== verification/Ag2pc.v ===== *)
(** * Runs of a circuit ([ssl/EmpWrapperAG2PC.cpp])

    An [EmpWrapperAG2PC] holds one circuit, one of eight protocol objects of
    emp-ag2pc and the channel they run over.  A run feeds a party's bytes to
    the online phase and hands the output to both parties; the number of runs
    decides when the preprocessing is repeated.

    The protocol objects and the channel are the parameter [Engine]: for each
    call, given the calls before, whether it threw, whether the channel is dead
    afterwards, and what it delivered.  [None] is a failed assertion. *)

From S2P Require Import Prelude Messaging Util GHash Arrays CircuitWires CircuitRecords.
From Stdlib Require Import List.
Import ListNotations Util Wires.
#[local] Abbreviation length := List.length.
Local Open Scope N_scope.

Module EmpWrapperAG2PC.

(** ** Data *)

Inductive CircuitType := NONE | SINGLE | GCM | GCM_VFY | GCM_TAG | AES | KS_BATCH | AES_ENC | ROTATE.
Inductive Party := ALICE | BOB.

(** The files of [EmpWrapperAG2PCConstants] that the builders load. *)
Inductive Filepath :=
  | TS_FILEPATH | ROTATE_KEY_FILEPATH | RMS_FILEPATH | PSK_FILEPATH | PSK_FILEPATH_8 | PSK_FILEPATH_0
  | BINDER_FILEPATH | AES_CTR_JOINT_FILEPATH | AES_GCM_TAG_FILEPATH | AES_GCM_VFY_FILEPATH
  | AES_GCM_VFY_COMMIT_FILEPATH | KS_BATCH_FILEPATH | AES_ENC_FILEPATH | GCM_FILEPATH
  | CHS_256_FILEPATH | CHS_384_FILEPATH.

(** The number of runs one preprocessing is good for. *)
Definition kMaxKeyUpdates : N := 1.
Definition aes_iters : N := 2.
Definition gcm_iters : N := 2 + 2 * kMaxKeyUpdates.
Definition tag_iters : N := 8.
Definition aes_enc_iters : N := 4.
Definition vfy_iters : N := 128.
Definition KS_MAX_INVOCATIONS : N := 16.
Definition ks_iters : N := KS_MAX_INVOCATIONS.
Definition rotate_iters : N := 2.

Definition get_secret_size (filepath : Filepath) : N :=
  match filepath with CHS_256_FILEPATH => 256 | CHS_384_FILEPATH => 384 | _ => 0 end.

(** ** The protocol objects and the channel *)

Inductive Action :=
  | Independent
  | Dependent
  | Online (input : list bool)
  | Send (bs : list N)
  | Recv (n : nat).

Record Reply := { threw : bool; dead : bool; bits_out : list bool; got : list N }.

(** The calls so far, newest first. *)
Class Engine := reply : list Action -> Action -> Reply.

Record t := mk {
  circuit : Filepath;
  type : CircuitType;
  party : Party;
  secret_size : N;
  run_times : N;
  io_failed : bool;
  log : list Action }.

Definition set_type (k : CircuitType) (p : Party) (w : t) : t := mk (circuit w) k p (secret_size w) (run_times w) (io_failed w) (log w).
Definition set_run_times (n : N) (w : t) : t := mk (circuit w) (type w) (party w) (secret_size w) n (io_failed w) (log w).
Definition mark_io_failed (w : t) : t := mk (circuit w) (type w) (party w) (secret_size w) (run_times w) true (log w).

Section Ops.
Context {E : Engine}.

Definition act (a : Action) (w : t) : t * Reply :=
  let r := reply (log w) a in
  (mk (circuit w) (type w) (party w) (secret_size w) (run_times w) (io_failed w || dead r) (a :: log w), r).

(** ** Preprocessing *)

(** The switch over the types and the handler around it. *)
Definition preproc_call (a : Action) (w : t) : option t :=
  match type w with
  | NONE => None
  | _ => let '(w, r) := act a w in Some (if threw r then mark_io_failed w else w)
  end.

Definition do_preproc_indep (w : t) : option t :=
  if io_failed w then Some w else preproc_call Independent w.

Definition do_preproc_dep (w : t) : option t :=
  let w := set_run_times 0 w in
  if io_failed w then Some w else preproc_call Dependent w.

Definition do_preproc (w : t) : option t :=
  match do_preproc_indep w with None => None | Some w => do_preproc_dep w end.

(** ** A run *)

(** Bob's bits come first and Alice's after them; the other half is zero. *)
Definition as_bool (p : Party) (in_secret : list N) : list bool :=
  let mine := convert_uint8_to_bool in_secret in
  let zero := repeat false (length mine) in
  match p with ALICE => zero ++ mine | BOB => mine ++ zero end.

(** The result, and what the caller's output array holds afterwards. *)
Definition exec_small_internal (output_size : nat) (in_secret output : list N) (w : t) : option (t * (bool * list N)) :=
  if io_failed w then Some (w, (false, output))
  else
    match type w with
    | NONE => None
    | _ =>
        let output := repeat 0 output_size in
        let '(w, r) := act (Online (as_bool (party w) in_secret)) w in
        if threw r then Some (mark_io_failed w, (false, output))
        else if io_failed w then Some (w, (false, output))
        else
          let converted := post_proc output_size (bits_out r) in
          match type w with
          | SINGLE => Some (w, (true, converted))
          | _ =>
              let '(w, output) :=
                match party w with
                | BOB => (fst (act (Send converted) w), converted)
                | ALICE => let '(w, r) := act (Recv output_size) w in (w, got r)
                end in
              Some (set_run_times (wrap 32 (run_times w + 1)) w, (true, output))
          end
    end.

(** ** Circuits *)

Definition run_amortised (iters : N) (output_size : nat) (inp out : list N) (w : t) : option (t * (bool * list N)) :=
  match (if run_times w =? iters then do_preproc w else Some w) with
  | None => None
  | Some w => exec_small_internal output_size inp out w
  end.

Definition run_single (output_size : nat) (inp out : list N) (w : t) : option (t * (bool * list N)) :=
  match (if 0 <? run_times w then do_preproc w else Some w) with
  | None => None
  | Some w => exec_small_internal output_size inp out w
  end.

Definition make_tag := run_amortised tag_iters 17.
Definition verify_tag := run_amortised vfy_iters 2.
Definition verify_tag_commit := run_amortised vfy_iters 3.
Definition derive_ks_batch := run_amortised ks_iters 257.
Definition encrypt_batch := run_amortised aes_enc_iters 257.
Definition derive_rotate := run_amortised rotate_iters 60.
Definition derive_gcm_shares := run_amortised gcm_iters 16.
Definition do_joint_aes := run_amortised aes_iters 17.
Definition derive_ts := run_single 120.
Definition derive_res := run_single 32.
Definition derive_psk := run_single 32.
Definition derive_binder := exec_small_internal 32.

Definition derive_hs (size : N) (inp out : list N) (w : t) : option (t * (bool * list N)) :=
  if secret_size w =? size then run_single 220 inp out w else None.

(** ** Construction *)

Definition make (filepath : Filepath) : t := mk filepath NONE ALICE (get_secret_size filepath) 0 false [].

Definition set_object (k : CircuitType) (mode : Party) (w : t) : option t :=
  match type w with NONE => Some (set_type k mode w) | _ => None end.

Definition set_twopc := set_object SINGLE.
Definition set_gcm := set_object GCM.
Definition set_gcm_tag := set_object GCM_TAG.
Definition set_gcm_vfy := set_object GCM_VFY.
Definition set_gcm_vfy_commit := set_object GCM_VFY.
Definition set_ks_batch := set_object KS_BATCH.
Definition set_aes_enc := set_object AES_ENC.
Definition set_rotate := set_object ROTATE.
Definition set_aes := set_object AES.

Definition build_derive_ts_circuit (mode : Party) := set_twopc mode (make TS_FILEPATH).
Definition build_derive_rotate_circuit (mode : Party) := set_rotate mode (make ROTATE_KEY_FILEPATH).
Definition build_derive_res_circuit (mode : Party) := set_twopc mode (make RMS_FILEPATH).
Definition build_derive_psk_circuit (mode : Party) := set_twopc mode (make PSK_FILEPATH).
Definition build_derive_psk_circuit_8 (mode : Party) := set_twopc mode (make PSK_FILEPATH_8).
Definition build_derive_psk_circuit_0 (mode : Party) := set_twopc mode (make PSK_FILEPATH_0).
Definition build_derive_binder_circuit (mode : Party) := set_twopc mode (make BINDER_FILEPATH).
Definition build_joint_aes_circuit (mode : Party) := set_aes mode (make AES_CTR_JOINT_FILEPATH).
Definition build_gcm_tag_circuit (mode : Party) := set_gcm_tag mode (make AES_GCM_TAG_FILEPATH).
Definition build_gcm_vfy_circuit (mode : Party) := set_gcm_vfy mode (make AES_GCM_VFY_FILEPATH).
Definition build_gcm_vfy_commit_circuit (mode : Party) := set_gcm_vfy_commit mode (make AES_GCM_VFY_COMMIT_FILEPATH).
Definition build_ks_batch_circuit (mode : Party) := set_ks_batch mode (make KS_BATCH_FILEPATH).
Definition build_aes_enc_circuit (mode : Party) := set_aes_enc mode (make AES_ENC_FILEPATH).
Definition build_gcm_circuit (mode : Party) := set_gcm mode (make GCM_FILEPATH).
Definition build_derive_hs_256 (mode : Party) := set_twopc mode (make CHS_256_FILEPATH).
Definition build_derive_hs_384 (mode : Party) := set_twopc mode (make CHS_384_FILEPATH).

(** A null pointer for no curve; any other curve aborts. *)
Inductive Built := Null | Abort | New (w : option t).

Definition build_derive_hs_circuit (id : N) (mode : Party) : Built :=
  if id =? 0 then Null
  else if id =? SSL_CURVE_SECP256R1 then New (build_derive_hs_256 mode)
  else if id =? SSL_CURVE_SECP384R1 then New (build_derive_hs_384 mode)
  else Abort.

(** How many batches are left before the preprocessing is repeated. *)
Definition ks_batches_remaining (w : t) : N := if ks_iters <=? run_times w then 0 else ks_iters - run_times w.

End Ops.
End EmpWrapperAG2PC.
Import EmpWrapperAG2PC.

(** ** The slots of a preprocessing

    [emp::AmortizedC2PC] garbles a fixed number of copies of its circuit in
    [function_dependent] and rewinds its counter there; a call of [online] uses
    the next copy. *)

(** The copies used since the last preprocessing. *)
Fixpoint slots_used (l : list Action) : N :=
  match l with
  | [] => 0
  | Dependent :: _ => 0
  | Online _ :: l => slots_used l + 1
  | _ :: l => slots_used l
  end.

Definition is_dependent (a : Action) : bool := match a with Dependent => true | _ => false end.
Definition is_online (a : Action) : bool := match a with Online _ => true | _ => false end.
Definition is_preproc (a : Action) : bool := match a with Independent | Dependent => true | _ => false end.

(** Every online phase had a fresh copy, out of [iters]. *)
Fixpoint fresh_slots (iters : N) (l : list Action) : Prop :=
  match l with
  | [] => True
  | Online _ :: l => slots_used l < iters /\ existsb is_dependent l = true /\ fresh_slots iters l
  | _ :: l => fresh_slots iters l
  end.

(** ** Sequences of calls *)

(** The methods that run a circuit, with the type of object they are for. *)
Inductive Method :=
  | MakeTag | VerifyTag | VerifyTagCommit | DeriveKsBatch | EncryptBatch | DeriveRotate | DeriveGcmShares | DoJointAes
  | DeriveTs | DeriveRes | DerivePsk | DeriveBinder | DeriveHs (size : N).

Definition type_of (m : Method) : CircuitType :=
  match m with
  | MakeTag => GCM_TAG | VerifyTag | VerifyTagCommit => GCM_VFY | DeriveKsBatch => KS_BATCH
  | EncryptBatch => AES_ENC | DeriveRotate => ROTATE | DeriveGcmShares => GCM | DoJointAes => AES
  | _ => SINGLE
  end.

Definition iters_of (k : CircuitType) : N :=
  match k with
  | GCM => gcm_iters | GCM_VFY => vfy_iters | GCM_TAG => tag_iters | AES => aes_iters
  | KS_BATCH => ks_iters | AES_ENC => aes_enc_iters | ROTATE => rotate_iters | NONE | SINGLE => 1
  end.

Definition amortised (k : CircuitType) : bool := match k with NONE | SINGLE => false | _ => true end.

Section Sequences.
Context {E : Engine}.

Definition run_method (m : Method) (inp out : list N) (w : t) : option (t * (bool * list N)) :=
  match m with
  | MakeTag => make_tag inp out w | VerifyTag => verify_tag inp out w | VerifyTagCommit => verify_tag_commit inp out w
  | DeriveKsBatch => derive_ks_batch inp out w | EncryptBatch => encrypt_batch inp out w
  | DeriveRotate => derive_rotate inp out w | DeriveGcmShares => derive_gcm_shares inp out w
  | DoJointAes => do_joint_aes inp out w | DeriveTs => derive_ts inp out w | DeriveRes => derive_res inp out w
  | DerivePsk => derive_psk inp out w | DeriveBinder => derive_binder inp out w
  | DeriveHs size => derive_hs size inp out w
  end.

Inductive Event := Preprocess | Run (m : Method) (inp out : list N).

Definition step (e : Event) (w : t) : option t :=
  match e with
  | Preprocess => do_preproc w
  | Run m inp out => option_map fst (run_method m inp out w)
  end.

Fixpoint steps (es : list Event) (w : t) : option t :=
  match es with
  | [] => Some w
  | e :: es => match step e w with None => None | Some w => steps es w end
  end.

(** An event an object of type [k] is meant for. *)
Definition fits (k : CircuitType) (e : Event) : Prop :=
  match e with Preprocess => True | Run m _ _ => type_of m = k end.

(** A call of the protocol object leaves everything but the log and the
    state of the channel alone. *)
Lemma preproc_call_eq a w : type w <> NONE -> exists w',
  preproc_call a w = Some w' /\ type w' = type w /\ run_times w' = run_times w /\ log w' = a :: log w.
Proof.
  intros Ht. unfold preproc_call. cbn [act]. destruct (type w) eqn:K; [now destruct Ht|..].
  all: eexists; split; [reflexivity|]; destruct (threw _); repeat split; assumption.
Qed.

Lemma do_preproc_eq w : type w <> NONE -> exists w',
  do_preproc w = Some w' /\ type w' = type w /\ run_times w' = 0 /\
  (io_failed w' = true /\ (log w' = log w \/ log w' = Independent :: log w) \/
   log w' = Dependent :: Independent :: log w).
Proof.
  intros Ht. unfold do_preproc, do_preproc_indep. destruct (io_failed w) eqn:F.
  - unfold do_preproc_dep. cbn [io_failed set_run_times]. rewrite F. eexists. split; [reflexivity|].
    repeat split. left. auto.
  - destruct (preproc_call_eq Independent w Ht) as (w1 & -> & T1 & _ & L1). unfold do_preproc_dep.
    destruct (io_failed (set_run_times 0 w1)) eqn:F1.
    + eexists. split; [reflexivity|]. split; [exact T1|]. split; [reflexivity | left]. auto.
    + destruct (preproc_call_eq Dependent (set_run_times 0 w1)) as (w2 & -> & T2 & R2 & L2); [cbn; congruence|].
      exists w2. split; [reflexivity|]. split; [cbn in T2; congruence|]. split; [exact R2 | right]. rewrite L2. cbn [set_run_times log]. now rewrite L1.
Qed.

(** The log a run adds. *)
Lemma exec_small_eq n inp out w : type w <> NONE -> exists w' ok o,
  exec_small_internal n inp out w = Some (w', (ok, o)) /\ type w' = type w /\
  (io_failed w = true /\ w' = w /\ ok = false /\ o = out \/
   io_failed w = false /\ exists i tail, Forall (fun a => is_online a = false /\ is_preproc a = false) tail /\
     log w' = tail ++ Online i :: log w /\
     (io_failed w' = true /\ ok = false \/
      ok = true /\ run_times w' = if amortised (type w) then wrap 32 (run_times w + 1) else run_times w)).
Proof.
  intros Ht. unfold exec_small_internal. destruct (io_failed w) eqn:F; [repeat eexists; left; auto|].
  cbn [act]. set (i := as_bool _ _). set (r := reply (log w) (Online i)).
  destruct (type w) eqn:K; [now destruct Ht|..].
  all: destruct (threw r);
    [do 3 eexists; split; [reflexivity|]; split; [reflexivity|]; right; split; [reflexivity|]; exists i, []; auto|].
  all: cbn [io_failed]; rewrite F; destruct (dead r) eqn:D; cbn [orb type party run_times amortised];
    [do 3 eexists; split; [reflexivity|]; split; [reflexivity|]; right; split; [reflexivity|]; exists i, []; auto|].
  1: do 3 eexists; split; [reflexivity|]; split; [reflexivity|]; right; split; [reflexivity|]; exists i, []; auto.
  all: destruct (party w); cbn [act fst snd]; do 3 eexists; (split; [reflexivity|]); (split; [reflexivity|]); right;
    (split; [reflexivity|]); eexists i, [_]; (split; [|split; [reflexivity | right; auto]]); repeat constructor.
Qed.

Lemma quiet_tail iters tail l : Forall (fun a => is_online a = false /\ is_preproc a = false) tail ->
  slots_used (tail ++ l) = slots_used l /\ (fresh_slots iters (tail ++ l) <-> fresh_slots iters l) /\
  existsb is_dependent (tail ++ l) = existsb is_dependent l.
Proof.
  induction 1 as [|a tail [O P] _ (E1 & E2 & E3)]; [repeat split; auto|].
  destruct a; try discriminate; cbn [app slots_used fresh_slots existsb is_dependent orb]; auto.
Qed.

(** ** Objects that are used several times *)

Section Amortised.
Variable k : CircuitType.
Hypothesis k_amortised : amortised k = true.

Lemma k_type w : type w = k -> type w <> NONE.
Proof. intros -> ->. discriminate. Qed.

Lemma iters_bounds : 0 < iters_of k < 2 ^ 32.
Proof. destruct k; try discriminate; now vm_compute. Qed.

(** [run_times] counts the copies that are used up. *)
Definition counted (w : t) : Prop :=
  type w = k /\ fresh_slots (iters_of k) (log w) /\
  (io_failed w = true \/
   run_times w = slots_used (log w) /\ run_times w <= iters_of k /\ existsb is_dependent (log w) = true).

(** A preprocessing leaves all the copies unused. *)
Lemma preproc_counted w : type w = k -> fresh_slots (iters_of k) (log w) ->
  exists w', do_preproc w = Some w' /\ counted w' /\ (io_failed w' = true \/ run_times w' < iters_of k).
Proof.
  intros Ht Hf. pose proof iters_bounds as Hi.
  destruct (do_preproc_eq w (k_type w Ht)) as (w' & E1 & T & R & [[F L] | L]); exists w'; split; try exact E1.
  - split; [|now left]. split; [congruence|]. split; [|now left]. destruct L as [-> | ->]; exact Hf.
  - split; [|right; lia]. split; [congruence|]. rewrite L, R. split; [exact Hf|]. right. cbn. repeat split. lia.
Qed.

(** A run with a copy left uses it. *)
Lemma exec_counted n inp out w : counted w -> io_failed w = true \/ run_times w < iters_of k ->
  exists w' r, exec_small_internal n inp out w = Some (w', r) /\ counted w'.
Proof.
  intros (Ht & Hf & Hc) Hs. pose proof iters_bounds as Hi.
  destruct (exec_small_eq n inp out w (k_type w Ht)) as (w' & ok & o & E1 & T & [(F & -> & _) | (F & i & tail & Q & L & H)]).
  { exists w, (ok, o). split; [exact E1|]. split; [exact Ht | split; [exact Hf | now left]]. }
  exists w', (ok, o). split; [exact E1|]. destruct Hc as [Hc | (R & Hle & Hd)]; [congruence|]. destruct Hs as [Hs|Hs]; [congruence|].
  destruct (quiet_tail (iters_of k) tail (Online i :: log w) Q) as (Q1 & Q2 & Q3).
  split; [congruence|]. rewrite L. split; [apply Q2; cbn; rewrite <- R; auto|].
  destruct H as [[H _] | [_ H]]; [now left | right]. rewrite Q1, Q3, H, Ht, k_amortised. cbn [slots_used existsb is_dependent orb].
  rewrite wrap_small by lia. rewrite R in *. repeat split; [lia | exact Hd].
Qed.

Lemma run_counted n inp out w : counted w ->
  exists w' r, run_amortised (iters_of k) n inp out w = Some (w', r) /\ counted w'.
Proof.
  intros H. unfold run_amortised. destruct (N.eqb_spec (run_times w) (iters_of k)) as [Hr|Hr].
  - destruct H as (Ht & Hf & _). destruct (preproc_counted w Ht Hf) as (w1 & -> & C & S). now apply exec_counted.
  - apply exec_counted; [exact H|]. destruct H as (_ & _ & [H | (_ & H & _)]); [now left | right; lia].
Qed.

(** Every event keeps the count, and none fails an assertion. *)
Lemma step_counted e w : counted w -> fits k e -> exists w', step e w = Some w' /\ counted w'.
Proof.
  intros H Hf. destruct e as [|m inp out]; cbn [step fits] in *.
  - destruct H as (Ht & Hs & _). destruct (preproc_counted w Ht Hs) as (w' & -> & C & _). eauto.
  - pose proof k_amortised as A. rewrite <- Hf in A.
    assert (R : exists n, run_method m inp out w = run_amortised (iters_of k) n inp out w)
      by (rewrite <- Hf; destruct m; try discriminate; eexists; reflexivity).
    destruct R as [n R]. destruct (run_counted n inp out w H) as (w' & r & E1 & C).
    exists w'. rewrite R, E1. now split.
Qed.

Lemma steps_counted es : forall w, counted w -> Forall (fits k) es -> exists w', steps es w = Some w' /\ counted w'.
Proof.
  induction es as [|e es IH]; intros w H Hf; [now exists w|].
  inversion_clear Hf as [|? ? He Hes]. destruct (step_counted e w H He) as (w1 & E1 & C1). cbn [steps]. rewrite E1. now apply IH.
Qed.

End Amortised.

End Sequences.

(** C36: A circuit object that is preprocessed for several runs never runs on
    a copy that was not preprocessed for it.  Whatever the protocol and the
    channel do, any sequence of runs and preprocessings after the first
    preprocessing goes through without a failed assertion, and every online
    phase finds an unused copy among those of the last preprocessing: the
    (n+1)-th run preprocesses again. *)
Theorem preprocessing_not_reused {E : Engine} (k : CircuitType) (mode : Party) (f : Filepath) (w0 : t) (es : list Event) :
  amortised k = true -> set_object k mode (make f) = Some w0 -> Forall (fits k) es ->
  exists w, steps (Preprocess :: es) w0 = Some w /\ fresh_slots (iters_of k) (log w).
Proof.
  intros Hk Hw Hf. injection Hw as <-.
  destruct (preproc_counted k Hk (set_type k mode (make f)) eq_refl I) as (w1 & E1 & C1 & _).
  destruct (steps_counted k Hk es w1 C1 Hf) as (w & E2 & (_ & S & _)).
  exists w. split; [cbn [steps step]; now rewrite E1 | exact S].
Qed.

(** ** Objects that are used once *)

Section Single.
Context {E : Engine}.

Lemma exec_single_eq n inp out w : type w = SINGLE -> exists w' r,
  exec_small_internal n inp out w = Some (w', r) /\ type w' = SINGLE /\ run_times w' = run_times w /\
  (io_failed w = true /\ w' = w \/ io_failed w = false /\ exists i, log w' = Online i :: log w).
Proof.
  intros Ht. unfold exec_small_internal. destruct (io_failed w) eqn:F.
  - exists w, (false, out). split; [reflexivity|]. auto.
  - cbn [act]. set (r := reply (log w) _). rewrite Ht. cbn [type io_failed].
    destruct (threw r); [|destruct (io_failed w || dead r)%bool];
      do 2 eexists; (split; [reflexivity|]); (split; [reflexivity|]); (split; [reflexivity|]); right;
      (split; [reflexivity | eexists; reflexivity]).
Qed.

Lemma single_run m inp out w w' : type w = SINGLE -> run_times w = 0 -> type_of m = SINGLE ->
  step (Run m inp out) w = Some w' ->
  type w' = SINGLE /\ run_times w' = 0 /\
  (io_failed w = true /\ w' = w \/ io_failed w = false /\ exists i, log w' = Online i :: log w).
Proof.
  intros Ht Hr Hm Hs.
  assert (R : exists n, option_map fst (exec_small_internal n inp out w) = Some w').
  { cbn [step] in Hs. destruct m; try discriminate; cbn [run_method] in Hs; unfold derive_ts, derive_res, derive_psk, derive_binder, derive_hs, run_single in Hs;
      rewrite ?Hr in Hs; cbn [N.ltb N.compare] in Hs; try (eexists; exact Hs).
    destruct (secret_size w =? size); [eexists; exact Hs | discriminate]. }
  destruct R as [n R]. destruct (exec_single_eq n inp out w Ht) as (w1 & r & E1 & H). rewrite E1 in R. injection R as <-.
  now rewrite <- Hr.
Qed.

Definition single_call (e : Event) : Prop := match e with Preprocess => False | Run m _ _ => type_of m = SINGLE end.

Lemma single_failed es : forall w w', type w = SINGLE -> run_times w = 0 -> Forall single_call es ->
  io_failed w = true -> steps es w = Some w' -> io_failed w' = true.
Proof.
  induction es as [|e es IH]; intros w w' Ht Hr Hf F Hs; [now injection Hs as <-|].
  inversion_clear Hf as [|? ? He Hes]. destruct e as [|m inp out]; [easy|]. cbn [steps] in Hs.
  destruct (step (Run m inp out) w) as [w1|] eqn:E1; [|discriminate].
  destruct (single_run m inp out w w1 Ht Hr He E1) as (T1 & R1 & [[_ ->] | [F' _]]); [now apply (IH w) | congruence].
Qed.

End Single.

(** A circuit object of the single kind is preprocessed once and for all: its
    runs do not count, so the test for an earlier run is never true, and any
    number of runs uses the same preprocessing. *)
Theorem single_reuses_preprocessing {E : Engine} (w : t) (es : list Event) (w' : t) :
  type w = SINGLE -> run_times w = 0 ->
  Forall single_call es ->
  steps es w = Some w' ->
  run_times w' = 0 /\
  exists added, log w' = added ++ log w /\ Forall (fun a => is_preproc a = false) added /\
    (io_failed w' = false -> slots_used (log w') = slots_used (log w) + size es).
Proof.
  revert w. induction es as [|e es IH]; intros w Ht Hr Hf Hs.
  - injection Hs as <-. split; [exact Hr|]. exists []. repeat split; [constructor | cbn; lia].
  - inversion_clear Hf as [|? ? He Hes]. destruct e as [|m inp out]; [easy|]. cbn [steps] in Hs.
    destruct (step (Run m inp out) w) as [w1|] eqn:E1; [|discriminate].
    destruct (single_run m inp out w w1 Ht Hr He E1) as (T1 & R1 & H).
    destruct (IH w1 T1 R1 Hes Hs) as (R & added & L & Q & S). split; [exact R|].
    destruct H as [[F ->] | [F [i Hi]]].
    + exists added. repeat split; auto. intros F'. rewrite (single_failed es w w' Ht Hr Hes F Hs) in F'. discriminate.
    + exists (added ++ [Online i]). rewrite L, Hi, <- app_assoc. split; [reflexivity|]. split; [apply Forall_app; auto|].
      intros F'. specialize (S F'). rewrite L, Hi in S. cbn [slots_used] in S. rewrite S. unfold size. cbn [List.length]. lia.
Qed.

(** ** Both parties of a run *)

(** What a run needs of the protocol and of the two channels: the online
    phases go through, Bob's delivers the circuit on his wires and Alice's (and
    so does Alice's in the single kind), and Alice's last read returns what
    Bob's last write sent. *)
Record RunTogether (EA EB : Engine) (C : list bool -> list bool -> list bool) (output_size : nat)
    (A B : t) (inA inB : list N) : Prop := {
  alice_online : let r := @reply EA (log A) (Online (as_bool ALICE inA)) in threw r = false /\ dead r = false;
  bob_online : let r := @reply EB (log B) (Online (as_bool BOB inB)) in threw r = false /\ dead r = false;
  bob_computes : bits_out (@reply EB (log B) (Online (as_bool BOB inB))) =
    C (skipn (8 * length inA) (as_bool ALICE inA)) (firstn (8 * length inB) (as_bool BOB inB));
  alice_computes : type A = SINGLE -> bits_out (@reply EA (log A) (Online (as_bool ALICE inA))) =
    bits_out (@reply EB (log B) (Online (as_bool BOB inB)));
  delivered : forall B' r bs, @exec_small_internal EB output_size inB [] B = Some (B', r) ->
    hd_error (log B') = Some (Send bs) ->
    got (@reply EA (Online (as_bool ALICE inA) :: log A) (Recv output_size)) = bs }.

Lemma my_wires inp : skipn (8 * length inp) (as_bool ALICE inp) = convert_uint8_to_bool inp /\
  firstn (8 * length inp) (as_bool BOB inp) = convert_uint8_to_bool inp.
Proof.
  unfold as_bool. rewrite (Nat.mul_comm 8), <- length_bits. split.
  - apply skipn_exact. apply repeat_length.
  - now apply firstn_exact.
Qed.

(** C37: Both parties' [exec_small_internal] implement the circuit: when the
    two objects are of the same type and the protocol and the channels do
    their part, both return true and hold the same bytes, the circuit's output
    on the prover's input as Alice's wires and the verifier's as Bob's (the
    layout of the wires presumes that these have the same size). *)
Theorem exec_small_joint (EA EB : Engine) (C : list bool -> list bool -> list bool) (output_size : nat)
    (A B : t) (inA inB outA : list N) :
  type A = type B -> type A <> NONE -> party A = ALICE -> party B = BOB ->
  io_failed A = false -> io_failed B = false ->
  RunTogether EA EB C output_size A B inA inB ->
  exists A' B',
    @exec_small_internal EA output_size inA outA A = Some (A', (true, exec C output_size inA inB)) /\
    @exec_small_internal EB output_size inB [] B = Some (B', (true, exec C output_size inA inB)).
Proof.
  intros Ht Hn PA PB FA FB [[TA DA] [TB DB] HB HA HD].
  destruct (my_wires inA) as [WA _], (my_wires inB) as [_ WB]. rewrite WA, WB in HB.
  assert (EBx : exists B', @exec_small_internal EB output_size inB [] B = Some (B', (true, exec C output_size inA inB)) /\
    (type B <> SINGLE -> hd_error (log B') = Some (Send (exec C output_size inA inB)))).
  { unfold exec_small_internal. cbn [act]. rewrite FB, PB, TB, DB, HB. cbn [io_failed orb type party log].
    rewrite <- Ht. destruct (type A) eqn:K; [now destruct Hn|..]; eexists; (split; [reflexivity|]); intros; easy. }
  destruct EBx as (B' & EBx & HS). specialize (fun bs => HD B' _ bs EBx).
  unfold exec_small_internal at 1. cbn [act]. rewrite FA, PA, TA, DA. cbn [io_failed orb type party log].
  destruct (type A) eqn:K; [now destruct Hn|..].
  1: do 2 eexists; split; [rewrite (HA eq_refl), HB; reflexivity | exact EBx].
  all: do 2 eexists; split; [rewrite (HD _ (HS ltac:(congruence))); reflexivity | exact EBx].
Qed.

(** ** A channel that dies *)

(** After a failure every run returns false and touches neither the protocol
    nor the caller's array. *)
Theorem failed_runs_refused {E : Engine} (m : Method) (inp out : list N) (w w' : t) (ok : bool) (o : list N) :
  type w <> NONE -> io_failed w = true -> run_method m inp out w = Some (w', (ok, o)) ->
  ok = false /\ o = out /\ io_failed w' = true /\ log w' = log w.
Proof.
  intros Ht F Hr.
  assert (P : do_preproc w = Some (set_run_times 0 w))
    by (unfold do_preproc, do_preproc_indep; rewrite F; unfold do_preproc_dep; cbn [io_failed set_run_times]; now rewrite F).
  assert (X : forall n v, io_failed v = true -> exec_small_internal n inp out v = Some (v, (false, out)))
    by (intros n v Fv; unfold exec_small_internal; now rewrite Fv).
  assert (A : forall iters n, run_amortised iters n inp out w = Some (w', (ok, o)) -> ok = false /\ o = out /\ io_failed w' = true /\ log w' = log w).
  { intros iters n. unfold run_amortised. destruct (run_times w =? iters); rewrite ?P, X by (cbn; assumption).
    all: intros [= <- <- <-]; auto. }
  assert (S : forall n, run_single n inp out w = Some (w', (ok, o)) -> ok = false /\ o = out /\ io_failed w' = true /\ log w' = log w).
  { intros n. unfold run_single. destruct (0 <? run_times w); rewrite ?P, X by (cbn; assumption).
    all: intros [= <- <- <-]; auto. }
  destruct m; cbn [run_method] in Hr; try (now apply A in Hr); try (now apply S in Hr).
  - unfold derive_binder in Hr. rewrite X in Hr by assumption. injection Hr as <- <- <-. auto.
  - unfold derive_hs in Hr. destruct (secret_size w =? size); [now apply S in Hr | discriminate].
Qed.

(** A channel that dies while Alice waits for the forwarded output is not
    noticed in that run: it returns true with whatever the read left, although
    the object is marked as failed. *)
Theorem dead_channel_unnoticed {E : Engine} (n : nat) (inp out : list N) (w : t) :
  amortised (type w) = true -> party w = ALICE -> io_failed w = false ->
  let i := Online (as_bool ALICE inp) in
  threw (reply (log w) i) = false -> dead (reply (log w) i) = false ->
  dead (reply (i :: log w) (Recv n)) = true ->
  exists w', exec_small_internal n inp out w = Some (w', (true, got (reply (i :: log w) (Recv n)))) /\ io_failed w' = true.
Proof.
  intros Hk Hp F i Ht Hd Hr. unfold exec_small_internal. cbn [act]. rewrite F, Hp. fold i. rewrite Ht, Hd.
  cbn [io_failed orb type party log]. fold i.
  destruct (type w); try discriminate; eexists; (split; [reflexivity|]); cbn [set_run_times io_failed]; exact Hr.
Qed.

(** ** Examples *)

Module Ag2pcExample.

(** A protocol that runs through and delivers eight ones. *)
Definition calm : Engine := fun _ a =>
  {| threw := false; dead := false; bits_out := repeat true 8; got := [255] |}.

(** As [calm], but the channel dies in every read. *)
Definition dying : Engine := fun _ a =>
  {| threw := false; dead := match a with Recv _ => true | _ => false end; bits_out := []; got := [0] |}.

Definition ones (_ _ : list bool) : list bool := repeat true 8.

Definition alice : t := set_type AES ALICE (make AES_CTR_JOINT_FILEPATH).
Definition bob : t := set_type AES BOB (make AES_CTR_JOINT_FILEPATH).
Definition once : t := set_type SINGLE ALICE (make PSK_FILEPATH).

(** Five runs of an object that is preprocessed for two. *)
Definition five_runs : list Event := repeat (Run DoJointAes [1] []) 5.

End Ag2pcExample.
Import Ag2pcExample.

Lemma preprocessing_not_reused_witness :
  exists w, @steps calm (Preprocess :: five_runs) alice = Some w /\ fresh_slots 2 (log w).
Proof.
  apply (@preprocessing_not_reused calm AES ALICE AES_CTR_JOINT_FILEPATH alice five_runs).
  - reflexivity.
  - reflexivity.
  - repeat constructor.
Defined.

Lemma exec_small_joint_witness : exists A' B',
  @exec_small_internal calm 1 [3] [] alice = Some (A', (true, [255])) /\
  @exec_small_internal calm 1 [5] [] bob = Some (B', (true, [255])).
Proof.
  apply (exec_small_joint calm calm ones 1 alice bob [3] [5] []); try reflexivity; [discriminate|].
  split; try (split; reflexivity); try reflexivity.
  intros B' r bs H. vm_compute in H. injection H as <- <-. intros [= <-]. reflexivity.
Defined.

Lemma single_reuses_preprocessing_witness :
  exists w', @steps calm (repeat (Run DerivePsk [1] []) 3) once = Some w' /\
  run_times w' = 0 /\
  exists added, log w' = added ++ log once /\ Forall (fun a => is_preproc a = false) added /\
    (io_failed w' = false -> slots_used (log w') = slots_used (log once) + 3).
Proof.
  eexists. split; [reflexivity|].
  apply (@single_reuses_preprocessing calm once (repeat (Run DerivePsk [1] []) 3)); try reflexivity. repeat constructor.
Defined.

Lemma failed_runs_refused_witness : false = false /\ [7] = [7] /\ io_failed (mark_io_failed alice) = true /\
  log (mark_io_failed alice) = [].
Proof.
  apply (@failed_runs_refused calm DoJointAes [1] [7] (mark_io_failed alice) (mark_io_failed alice) false [7]);
    [discriminate | reflexivity | reflexivity].
Defined.

Lemma dead_channel_unnoticed_witness : exists w',
  @exec_small_internal dying 1 [1] [9] alice = Some (w', (true, [0])) /\ io_failed w' = true.
Proof. apply (@dead_channel_unnoticed dying 1 [1] [9] alice); reflexivity. Defined.
