(* ===== verification/CircuitGcm.v ===== *)
(** * The circuit for shares of the hash key ([2pc/DeriveCircuits.cpp], [2pc/CircuitSynthesis.cpp])

    [DeriveGCMMultiplicativeShares]: the hash key from the joint key, its
    product with Bob's mask by the transcription of the SIMD multiplication to
    wires, and Alice's mask.  The wire operations compute what the intrinsics
    do, so the circuit multiplies in the field. *)

From S2P Require Import Prelude Block128 GF128 FieldCode Messaging Util GHash Arrays CircuitWires.

Import Util Wires.
Local Open Scope N_scope.

Module GcmCircuit.

(** ** 128 wires as a register ([CircuitSynthesis]) *)

Definition shuffle_epi32 (a : list bool) (imm : N) : list bool :=
  let sel j := (32 * N.to_nat (N.land (N.shiftr imm (2 * j)) 3))%nat in
  slice (sel 0) 32 a ++ slice (sel 1) 32 a ++ slice (sel 2) 32 a ++ slice (sel 3) 32 a.

Definition xor_si128 (a b : list bool) : list bool := xor_wires 128 a b.
Definition and_si128 (a b : list bool) : list bool := tabulate 128 (fun i => and_gate (wire a i) (wire b i)).
Definition andnot_si128 (a b : list bool) : list bool :=
  tabulate 128 (fun i => and_gate (not_gate (wire a i)) (wire b i)).

(** A shift of [size] wires by [n]. *)
Definition shift_wires (left : bool) (size n : nat) (a : list bool) : list bool :=
  if left then repeat false n ++ firstn (size - n) a else skipn n a ++ repeat false n.

Definition shift_si128 (left : bool) (a : list bool) (imm : nat) : list bool :=
  shift_wires left 128 (8 * (if 15 <? imm then 16 else imm))%nat a.
Definition slli_si128 := shift_si128 true.
Definition srli_si128 := shift_si128 false.

Definition shift_single_epi32 (left : bool) (a : list bool) (imm : nat) : list bool :=
  shift_wires left 32 imm a.
Definition shift_epi32 (left : bool) (a : list bool) (imm : nat) : list bool :=
  let shift_by := if (31 <? imm)%nat then 32%nat else imm in
  shift_single_epi32 left (slice 0 32 a) shift_by ++ shift_single_epi32 left (slice 32 32 a) shift_by ++
  shift_single_epi32 left (slice 64 32 a) shift_by ++ shift_single_epi32 left (slice 96 32 a) shift_by.
Definition slli_epi32 := shift_epi32 true.
Definition srli_epi32 := shift_epi32 false.

(** ** Multiplication *)

(** The carry-less product of 64 wires by 64 wires. *)
Definition pclmulqdq (a b : list bool) : list bool :=
  tabulate 64 (fun i =>
    fold_left (fun tmp j => xor_gate tmp (and_gate (wire a j) (wire b (i - j)))) (List.seq 1 i)
      (and_gate (wire a 0) (wire b i))) ++
  map (fun i =>
    fold_left (fun tmp j => xor_gate tmp (and_gate (wire a j) (wire b (i - j))))
      (List.seq (i - 63) (127 - i)) false) (List.seq 64 63) ++
  [false].

Definition gcm_mult (a b : list bool) : list bool :=
  let XMMMASK := repeat true 32 ++ repeat false 96 in
  let tmp3 := pclmulqdq (slice 0 64 a) (slice 0 64 b) in
  let tmp6 := pclmulqdq (slice 64 64 a) (slice 64 64 b) in
  let tmp4 := shuffle_epi32 a 78 in
  let tmp5 := shuffle_epi32 b 78 in
  let tmp4 := xor_si128 tmp4 a in
  let tmp5 := xor_si128 tmp5 b in
  let tmp4 := pclmulqdq (slice 0 64 tmp4) (slice 0 64 tmp5) in
  let tmp4 := xor_si128 tmp4 tmp3 in
  let tmp4 := xor_si128 tmp4 tmp6 in
  let tmp5 := slli_si128 tmp4 8 in
  let tmp4 := srli_si128 tmp4 8 in
  let tmp3 := xor_si128 tmp3 tmp5 in
  let tmp6 := xor_si128 tmp6 tmp4 in
  let tmp7 := srli_epi32 tmp6 31 in
  let tmp8 := srli_epi32 tmp6 30 in
  let tmp9 := srli_epi32 tmp6 25 in
  let tmp7 := xor_si128 tmp7 tmp8 in
  let tmp7 := xor_si128 tmp7 tmp9 in
  let tmp8 := shuffle_epi32 tmp7 147 in
  let tmp7 := and_si128 XMMMASK tmp8 in
  let tmp8 := andnot_si128 XMMMASK tmp8 in
  let tmp3 := xor_si128 tmp3 tmp8 in
  let tmp6 := xor_si128 tmp6 tmp7 in
  let tmp10 := slli_epi32 tmp6 1 in
  let tmp3 := xor_si128 tmp3 tmp10 in
  let tmp11 := slli_epi32 tmp6 2 in
  let tmp3 := xor_si128 tmp3 tmp11 in
  let tmp12 := slli_epi32 tmp6 7 in
  let tmp3 := xor_si128 tmp3 tmp12 in
  xor_si128 tmp6 tmp3.

Definition DeriveGCMMultiplicativeShares `{BristolAES} (alice_blocks bob_blocks : list bool) : list bool :=
  let key := xor_wires 128 (slice 0 128 alice_blocks) (slice 0 128 bob_blocks) in
  let gcm_key_raw := compute (key ++ repeat false 128) in
  let c := gcm_mult gcm_key_raw (slice 128 128 bob_blocks) in
  xor_wires 128 c (slice 128 128 alice_blocks).

End GcmCircuit.
Import GcmCircuit.

(** ** Wires of a number *)

Definition wires (n : nat) (x : N) : list bool := tabulate n (fun i => N.testbit x (N.of_nat i)).

Lemma length_wires n x : length (wires n x) = n.
Proof. apply length_tabulate. Qed.

Lemma wire_wires n x i : (i < n)%nat -> wire (wires n x) i = N.testbit x (N.of_nat i).
Proof. intros Hi. unfold wires. now rewrite nth_tabulate. Qed.

Lemma wires_ext n w x :
  length w = n -> (forall i, (i < n)%nat -> wire w i = N.testbit x (N.of_nat i)) -> w = wires n x.
Proof.
  intros Hl H. apply (nth_ext _ _ false false); [now rewrite length_wires|].
  intros i Hi. rewrite H, wire_wires by lia. reflexivity.
Qed.

Lemma wires_wrap n x : wires n (wrap (N.of_nat n) x) = wires n x.
Proof.
  symmetry. apply wires_ext; [apply length_wires|]. intros i Hi.
  rewrite wire_wires, wrap_spec, (proj2 (N.ltb_lt _ _)) by lia. now rewrite andb_true_r.
Qed.

Lemma wires_split n m x : wires (n + m) x = wires n x ++ wires m (N.shiftr x (N.of_nat n)).
Proof.
  symmetry. apply wires_ext; [now rewrite length_app, !length_wires|]. intros i Hi.
  destruct (Nat.lt_ge_cases i n) as [H|H].
  - rewrite app_nth1 by (now rewrite length_wires). now apply wire_wires.
  - rewrite app_nth2 by (now rewrite length_wires). rewrite length_wires, wire_wires by lia.
    rewrite N.shiftr_spec'. f_equal. lia.
Qed.

Lemma wires_join n m lo hi : lo < 2 ^ N.of_nat n ->
  wires (n + m) (lo ⊕ N.shiftl hi (N.of_nat n)) = wires n lo ++ wires m hi.
Proof.
  intros Hlo. rewrite wires_split. f_equal.
  - apply wires_ext; [apply length_wires|]. intros i Hi. rewrite wire_wires, N.lxor_spec by exact Hi.
    rewrite N.shiftl_spec_low by lia. apply xorb_false_r.
  - f_equal. rewrite N.shiftr_lxor, N.shiftr_shiftl_l, N.sub_diag, N.shiftl_0_r by reflexivity.
    rewrite N.shiftr_div_pow2, N.div_small by exact Hlo. apply N.lxor_0_l.
Qed.

Lemma slice_wires off n m x : (off + n <= m)%nat ->
  slice off n (wires m x) = wires n (N.shiftr x (N.of_nat off)).
Proof.
  intros H. apply wires_ext.
  - unfold slice. rewrite length_firstn, length_skipn, length_wires. lia.
  - intros i Hi. unfold slice. rewrite nth_firstn, (proj2 (Nat.ltb_lt _ _)), nth_skipn by exact Hi.
    rewrite wire_wires, N.shiftr_spec' by lia. f_equal. lia.
Qed.

(** Byte strings are numbers in this order. *)
Lemma bits_wires bs : arr 16 bs -> bits bs = wires 128 (F2128.arr_to_block bs).
Proof.
  intros [Hl Hb]. apply wires_ext; [now rewrite length_bits, Hl|]. intros k Hk.
  pose proof (Nat.div_mod_eq k 8) as E. pose proof (Nat.mod_upper_bound k 8 ltac:(lia)).
  assert (k / 8 < 16)%nat by (apply Nat.Div0.div_lt_upper_bound; lia).
  rewrite E at 1. rewrite Nat.mul_comm, wire_bits by lia.
  unfold F2128.arr_to_block. rewrite firstn_all2 by lia. rewrite setr_bits.
  replace (N.of_nat k / 8) with (N.of_nat (k / 8)) by (rewrite Nat2N.inj_div; reflexivity).
  replace (N.of_nat k mod 8) with (N.of_nat (k mod 8)) by (rewrite Nat2N.inj_mod; reflexivity).
  rewrite Nat2N.id, wrap_small by (apply (bytes_at bs); exact Hb). reflexivity.
Qed.

(** ** The register operations *)

Lemma xor_wires_spec n x y : xor_wires n (wires n x) (wires n y) = wires n (x ⊕ y).
Proof.
  apply wires_ext; [apply length_tabulate|]. intros i Hi. unfold xor_wires.
  rewrite nth_tabulate, !wire_wires, N.lxor_spec by exact Hi. reflexivity.
Qed.

Lemma and_spec x y : and_si128 (wires 128 x) (wires 128 y) = wires 128 (mm_and_si128 x y).
Proof.
  apply wires_ext; [apply length_tabulate|]. intros i Hi. unfold and_si128, mm_and_si128.
  rewrite nth_tabulate, !wire_wires, N.land_spec by exact Hi. reflexivity.
Qed.

Lemma andnot_spec x y : andnot_si128 (wires 128 x) (wires 128 y) = wires 128 (mm_andnot_si128 x y).
Proof.
  apply wires_ext; [apply length_tabulate|]. intros i Hi. unfold andnot_si128, mm_andnot_si128.
  rewrite nth_tabulate, !wire_wires, N.ldiff_spec by exact Hi. apply andb_comm.
Qed.

Lemma shift_left_spec size n x : (n <= size)%nat ->
  shift_wires true size n (wires size x) = wires size (N.shiftl x (N.of_nat n)).
Proof.
  intros Hn. apply wires_ext; unfold shift_wires.
  - rewrite length_app, repeat_length, length_firstn, length_wires. lia.
  - intros i Hi. destruct (Nat.lt_ge_cases i n) as [H|H].
    + rewrite app_nth1, nth_repeat by (rewrite repeat_length; lia). now rewrite N.shiftl_spec_low by lia.
    + rewrite app_nth2, repeat_length by (rewrite repeat_length; lia).
      rewrite nth_firstn, (proj2 (Nat.ltb_lt _ _)), wire_wires by lia.
      rewrite N.shiftl_spec_high' by lia. f_equal. lia.
Qed.

Lemma shift_right_spec size n x : (n <= size)%nat -> x < 2 ^ N.of_nat size ->
  shift_wires false size n (wires size x) = wires size (N.shiftr x (N.of_nat n)).
Proof.
  intros Hn Hx. apply wires_ext; unfold shift_wires.
  - rewrite length_app, repeat_length, length_skipn, length_wires. lia.
  - intros i Hi. rewrite N.shiftr_spec'. destruct (Nat.lt_ge_cases (i + n) size) as [H|H].
    + rewrite app_nth1, nth_skipn, wire_wires by (rewrite ?length_skipn, ?length_wires; lia). f_equal. lia.
    + rewrite app_nth2, nth_repeat by (rewrite ?length_skipn, ?length_wires; lia).
      rewrite (testbit_high x (N.of_nat size)); [reflexivity | exact Hx | lia].
Qed.

Lemma slli_si128_spec x : slli_si128 (wires 128 x) 8 = wires 128 (mm_slli_si128 x 8).
Proof.
  unfold slli_si128, shift_si128, mm_slli_si128. rewrite (wires_wrap 128). apply (shift_left_spec 128 64); lia.
Qed.

Lemma srli_si128_spec x : x < 2 ^ 128 -> srli_si128 (wires 128 x) 8 = wires 128 (mm_srli_si128 x 8).
Proof. intros Hx. now apply (shift_right_spec 128 64); [lia|]. Qed.

Lemma lanes_spec (f : list bool -> list bool) (g : N -> N) :
  (forall x, x < 2 ^ 32 -> f (wires 32 x) = wires 32 (g x) /\ g x < 2 ^ 32) ->
  forall x, x < 2 ^ 128 ->
  f (slice 0 32 (wires 128 x)) ++ f (slice 32 32 (wires 128 x)) ++ f (slice 64 32 (wires 128 x)) ++
  f (slice 96 32 (wires 128 x)) = wires 128 (map_lanes 32 4 g x).
Proof.
  intros H x Hx. rewrite !slice_wires by lia. cbn [map_lanes].
  assert (Hg : forall y, f (wires 32 y) = wires 32 (g (wrap 32 y)) /\ g (wrap 32 y) < 2 ^ 32).
  { intros y. rewrite <- (wires_wrap 32 y). apply (H (wrap 32 y)), wrap_lt. }
  change 128%nat with (32 + (32 + (32 + (32 + 0))))%nat.
  do 4 (rewrite wires_join by apply Hg). rewrite !(proj1 (Hg _)), N.shiftr_0_r, !N.shiftr_shiftr, app_nil_r.
  reflexivity.
Qed.

Lemma slli_epi32_spec n x : (n <= 31)%nat -> x < 2 ^ 128 ->
  slli_epi32 (wires 128 x) n = wires 128 (mm_slli_epi32 x (N.of_nat n)).
Proof.
  intros Hn Hx. unfold slli_epi32, shift_epi32. rewrite (proj2 (Nat.ltb_ge _ _)) by lia.
  apply (lanes_spec (fun w => shift_single_epi32 true w n)); [|exact Hx]. intros d Hd. split; [|apply wrap_lt].
  rewrite (wires_wrap 32). apply (shift_left_spec 32). lia.
Qed.

Lemma srli_epi32_spec n x : (n <= 31)%nat -> x < 2 ^ 128 ->
  srli_epi32 (wires 128 x) n = wires 128 (mm_srli_epi32 x (N.of_nat n)).
Proof.
  intros Hn Hx. unfold srli_epi32, shift_epi32. rewrite (proj2 (Nat.ltb_ge _ _)) by lia.
  apply (lanes_spec (fun w => shift_single_epi32 false w n)); [|exact Hx]. intros d Hd. split.
  - apply (shift_right_spec 32); [lia | exact Hd].
  - apply shiftr_lt. apply (pow2_weaken _ 32); [exact Hd | lia].
Qed.

Lemma shuffle_spec imm x : shuffle_epi32 (wires 128 x) imm = wires 128 (mm_shuffle_epi32 x imm).
Proof.
  unfold shuffle_epi32, mm_shuffle_epi32.
  assert (L : forall j, N.land (N.shiftr imm (2 * j)) 3 = lane 2 j imm) by reflexivity.
  assert (B : forall j, lane 2 j imm < 4) by (intros; apply (wrap_lt 2)).
  assert (S : forall j, slice (32 * N.to_nat (lane 2 j imm)) 32 (wires 128 x) = wires 32 (lane 32 (lane 2 j imm) x)).
  { intros j. specialize (B j). rewrite slice_wires by lia. unfold lane at 2. rewrite (wires_wrap 32).
    do 2 f_equal. lia. }
  cbv zeta. rewrite !L, !S.
  assert (W : forall i, lane 32 i x < 2 ^ 32) by (intros; apply (wrap_lt 32)).
  rewrite !N.lxor_assoc.
  replace (N.shiftl (lane 32 (lane 2 1 imm) x) 32 ⊕ (N.shiftl (lane 32 (lane 2 2 imm) x) 64 ⊕ N.shiftl (lane 32 (lane 2 3 imm) x) 96))
    with (N.shiftl (lane 32 (lane 2 1 imm) x ⊕ N.shiftl (lane 32 (lane 2 2 imm) x ⊕ N.shiftl (lane 32 (lane 2 3 imm) x) 32) 32) 32)
    by (now rewrite !N.shiftl_lxor, !N.shiftl_shiftl).
  change 128%nat with (32 + (32 + (32 + 32)))%nat. now do 3 (rewrite wires_join by apply W).
Qed.

(** ** The carry-less product on wires *)

(** A sum of bits. *)
Definition bit_sum (f : nat -> bool) (js : list nat) : bool := fold_left (fun tmp j => xorb tmp (f j)) js false.

Lemma bit_sum_acc f js : forall acc, fold_left (fun tmp j => xorb tmp (f j)) js acc = xorb acc (bit_sum f js).
Proof.
  unfold bit_sum. induction js as [|j js IH]; intros acc; cbn; [now rewrite xorb_false_r|].
  rewrite IH, (IH (f j)). apply xorb_assoc.
Qed.

Lemma bit_sum_app f js ks : bit_sum f (js ++ ks) = xorb (bit_sum f js) (bit_sum f ks).
Proof. unfold bit_sum at 1. rewrite fold_left_app. apply bit_sum_acc. Qed.

Lemma bit_sum_ext f g js : (forall j, In j js -> f j = g j) -> bit_sum f js = bit_sum g js.
Proof. intros H. apply fold_left_ext. intros a j Hj. now rewrite H. Qed.

Lemma bit_sum_zero f js : (forall j, In j js -> f j = false) -> bit_sum f js = false.
Proof.
  intros H. rewrite (bit_sum_ext _ (fun _ => false)) by exact H. unfold bit_sum.
  induction js as [|j js IH]; [reflexivity|]. apply IH. intros k Hk. apply H. now right.
Qed.

Lemma bit_sum_map f (g : nat -> nat) js : bit_sum f (map g js) = bit_sum (fun j => f (g j)) js.
Proof. unfold bit_sum. generalize false. induction js as [|j js IH]; intros acc; [reflexivity | apply IH]. Qed.

(** The coefficient at [k] of a product. *)
Definition coefficient (a b : N) (k j : nat) : bool :=
  N.testbit a (N.of_nat j) && (j <=? k)%nat && N.testbit b (N.of_nat (k - j)).

Lemma clmul_n_bit n b : forall a k,
  N.testbit (clmul_n n a b) (N.of_nat k) = bit_sum (coefficient a b k) (List.seq 0 n).
Proof.
  induction n as [|n IH]; intros a k; [apply N.bits_0|].
  cbn [clmul_n]. rewrite <- cons_seq. change (0%nat :: ?l) with ([0%nat] ++ l).
  rewrite bit_sum_app, <- seq_shift, bit_sum_map, N.lxor_spec. f_equal.
  - unfold bit_sum, coefficient. cbn. rewrite Nat.sub_0_r, andb_true_r.
    destruct (N.testbit a 0); [reflexivity | apply N.bits_0].
  - destruct k as [|k].
    + rewrite N.shiftl_spec_low by lia. symmetry. apply bit_sum_zero. intros j _.
      unfold coefficient. cbn. now rewrite andb_false_r.
    + rewrite N.shiftl_spec_high' by lia. replace (N.of_nat (S k) - 1) with (N.of_nat k) by lia.
      rewrite IH. apply bit_sum_ext. intros j _. unfold coefficient.
      rewrite N.shiftr_spec'. replace (N.of_nat j + 1) with (N.of_nat (S j)) by lia. reflexivity.
Qed.

(** The product loses no term when the sum runs over a smaller range. *)
Lemma coefficients_in lo len a b k : (lo + len <= 64)%nat ->
  (forall j, (j < 64)%nat -> ~ (lo <= j < lo + len)%nat -> coefficient a b k j = false) ->
  bit_sum (coefficient a b k) (List.seq 0 64) = bit_sum (coefficient a b k) (List.seq lo len).
Proof.
  intros Hle H. replace 64%nat with (lo + (len + (64 - lo - len)))%nat by lia.
  rewrite !seq_app, !bit_sum_app, (bit_sum_zero _ (List.seq 0 lo)), (bit_sum_zero _ (List.seq _ (64 - lo - len))).
  - now rewrite xorb_false_l, xorb_false_r.
  - intros j Hj%in_seq. apply H; lia.
  - intros j Hj%in_seq. apply H; lia.
Qed.

Lemma pclmulqdq_spec a b : a < 2 ^ 64 -> b < 2 ^ 64 ->
  pclmulqdq (wires 64 a) (wires 64 b) = wires 128 (clmul a b).
Proof.
  intros Ha Hb. rewrite (clmul_clmul_n 64) by exact Ha. unfold pclmulqdq.
  apply wires_ext; [rewrite !length_app, length_tabulate, length_map, length_seq; reflexivity|].
  intros k Hk. rewrite clmul_n_bit.
  assert (T : forall j, (j < 64)%nat -> (j <= k)%nat -> (k - j < 64)%nat ->
    and_gate (wire (wires 64 a) j) (wire (wires 64 b) (k - j)) = coefficient a b k j).
  { intros j H1 H2 H3. rewrite !wire_wires by assumption. unfold coefficient.
    now rewrite (proj2 (Nat.leb_le _ _)), andb_true_r. }
  assert (Z : forall j, (k < j)%nat \/ (64 <= k - j)%nat -> coefficient a b k j = false).
  { intros j [H|H]; unfold coefficient.
    - now rewrite (proj2 (Nat.leb_gt _ _) H), andb_false_r.
    - rewrite (testbit_high b 64) by (exact Hb || lia). apply andb_false_r. }
  destruct (Nat.lt_ge_cases k 64) as [H|H].
  - rewrite app_nth1, nth_tabulate by (rewrite ?length_tabulate; exact H).
    rewrite (coefficients_in 0 (S k)) by (lia || (intros; apply Z; lia)).
    rewrite <- cons_seq. change (0%nat :: ?l) with ([0%nat] ++ l). rewrite bit_sum_app.
    rewrite (fold_left_ext _ (fun tmp j => xorb tmp (coefficient a b k j))).
    + rewrite bit_sum_acc. f_equal. rewrite <- (Nat.sub_0_r k) at 1. apply T; lia.
    + intros tmp j Hj%in_seq. unfold xor_gate. f_equal. apply T; lia.
  - rewrite app_nth2 by (rewrite length_tabulate; exact H). rewrite length_tabulate.
    destruct (Nat.eq_dec k 127) as [-> |Hne].
    + symmetry. apply bit_sum_zero. intros j Hj%in_seq. apply Z. lia.
    + rewrite app_nth1 by (rewrite length_map, length_seq; lia).
      rewrite nth_map_seq by lia.
      replace (64 + (k - 64))%nat with k by lia.
      rewrite (coefficients_in (k - 63) (127 - k)) by (lia || (intros; apply Z; lia)).
      apply fold_left_ext. intros tmp j Hj%in_seq. unfold xor_gate. f_equal. apply T; lia.
Qed.

(** ** The product *)

Lemma slice_lane i x : i < 2 ->
  slice (64 * N.to_nat i) 64 (wires 128 x) = wires 64 (lane 64 i x).
Proof.
  intros Hi. rewrite slice_wires by lia. unfold lane. rewrite (wires_wrap 64).
  do 2 f_equal. lia.
Qed.

Lemma pclmul_low x y :
  pclmulqdq (slice 0 64 (wires 128 x)) (slice 0 64 (wires 128 y)) = wires 128 (clmul (lane 64 0 x) (lane 64 0 y)).
Proof. rewrite !(slice_lane 0) by reflexivity. apply pclmulqdq_spec; apply lane64_lt. Qed.

Lemma pclmul_high x y :
  pclmulqdq (slice 64 64 (wires 128 x)) (slice 64 64 (wires 128 y)) = wires 128 (clmul (lane 64 1 x) (lane 64 1 y)).
Proof. rewrite !(slice_lane 1) by reflexivity. apply pclmulqdq_spec; apply lane64_lt. Qed.

(** The second half of the circuit. *)
Definition reduce_wires (tmp3 tmp6 : list bool) : list bool :=
  let XMMMASK := repeat true 32 ++ repeat false 96 in
  let tmp8 := shuffle_epi32 (xor_si128 (xor_si128 (srli_epi32 tmp6 31) (srli_epi32 tmp6 30)) (srli_epi32 tmp6 25)) 147 in
  let tmp3 := xor_si128 tmp3 (andnot_si128 XMMMASK tmp8) in
  let tmp6 := xor_si128 tmp6 (and_si128 XMMMASK tmp8) in
  xor_si128 tmp6 (xor_si128 (xor_si128 (xor_si128 tmp3 (slli_epi32 tmp6 1)) (slli_epi32 tmp6 2)) (slli_epi32 tmp6 7)).

Lemma mask_wires : repeat true 32 ++ repeat false 96 = wires 128 (mm_setr_epi32 (2 ^ 32 - 1) 0 0 0).
Proof. vm_compute. reflexivity. Qed.

Lemma folded_lt hi : hi < 2 ^ 128 -> folded hi < 2 ^ 128.
Proof.
  intros H. apply (lxor_lt _ _ 128); [exact H|]. apply (pow2_weaken _ 32); [|lia].
  change (mm_setr_epi32 (2 ^ 32 - 1) 0 0 0) with (N.ones 32). rewrite N.land_comm, N.land_ones. now apply N.mod_lt.
Qed.

Lemma reduce_wires_spec lo hi : hi < 2 ^ 128 ->
  reduce_wires (wires 128 lo) (wires 128 hi) = wires 128 (reduce lo hi).
Proof.
  intros Hh. unfold reduce_wires. rewrite mask_wires. cbv zeta. unfold xor_si128.
  rewrite !srli_epi32_spec by (lia || exact Hh). rewrite !xor_wires_spec, shuffle_spec.
  rewrite and_spec, andnot_spec, !xor_wires_spec. fold (carries hi). cbn [N.of_nat Pos.of_succ_nat Pos.succ].
  change (hi ⊕ mm_and_si128 _ _) with (folded hi).
  rewrite !slli_epi32_spec by (lia || now apply folded_lt). rewrite !xor_wires_spec. reflexivity.
Qed.

Lemma gcm_mult_kara a b : a < 2 ^ 128 -> b < 2 ^ 128 ->
  gcm_mult (wires 128 a) (wires 128 b) =
  reduce_wires (wires 128 (fst (kara a b))) (wires 128 (snd (kara a b))).
Proof.
  intros Ha Hb. unfold kara. cbv zeta. rewrite <- (shuffle_fold a Ha), <- (shuffle_fold b Hb).
  unfold gcm_mult, xor_si128. cbv zeta.
  rewrite pclmul_low, pclmul_high, !shuffle_spec, !xor_wires_spec, pclmul_low, !xor_wires_spec.
  rewrite slli_si128_spec, srli_si128_spec.
  - rewrite !xor_wires_spec. unfold mm_slli_si128, mm_srli_si128, reduce_wires, xor_si128.
    change (8 * 8) with 64. cbn [fst snd]. cbv zeta. reflexivity.
  - repeat apply (lxor_lt _ _ 128); apply clmul64_lt; apply lane64_lt.
Qed.

(** The circuit's multiplication is the field's. *)
Lemma gcm_mult_spec a b : a < 2 ^ 128 -> b < 2 ^ 128 ->
  gcm_mult (wires 128 a) (wires 128 b) = wires 128 (a ⊗ b).
Proof.
  intros Ha Hb. destruct (kara_bounds a b) as [B1 B2].
  now rewrite gcm_mult_kara, reduce_wires_spec, <- mul_kara, mul_gf_mul by assumption.
Qed.

(** ** The share circuit *)

Lemma wires_bits_block x : x < 2 ^ 128 -> wires 128 x = bits (F2128.block_to_arr x).
Proof.
  intros Hx. rewrite bits_wires by (split; [reflexivity | apply block_to_arr_bytes]).
  now rewrite arr_block_roundtrip.
Qed.

Lemma rev_bits_bits h : arr 16 h -> rev_bits128 (bits h) = bits (GHash.bitrev h).
Proof.
  intros [Lh Bh]. apply bits_ext; unfold rev_bits128, GHash.bitrev; rewrite !length_tabulate; [reflexivity|].
  intros i j Hi Hj. rewrite !nth_tabulate by lia.
  rewrite (Nat.add_comm (i * 8) j), Nat.div_add, Nat.Div0.mod_add, (Nat.div_small j), (Nat.mod_small j) by lia.
  cbn [Nat.add]. rewrite wire_bits, bitrev_byte_spec, rev_bits_spec by (apply (bytes_at h); exact Bh) || lia.
  change (N.of_nat 8) with 8. rewrite (proj2 (N.ltb_lt _ _)) by lia. cbn [andb]. f_equal. lia.
Qed.

Lemma zero_bits : repeat false 128 = bits (repeat 0 16).
Proof. reflexivity. Qed.

Section Share.
Context {bf : BristolAES} {aes : list N -> list N -> list N} {Bok : BristolOk bf aes}.

(** The hash key as an element of the field code's order. *)
Definition hash_key (k : list N) : N := rev128 (NIST.be_int (aes k (repeat 0 16))).

Lemma raw_hash_key k : arr 16 k ->
  compute (bits (rev k) ++ repeat false 128) = wires 128 (hash_key k).
Proof.
  intros Hk. pose proof (aes_block k (repeat 0 16)) as Ha. 
  rewrite zero_bits, bristol_aes, rev_involutive by (now apply arr_rev) || (now apply arr_repeat).
  change (rev (repeat 0 16)) with (repeat 0 16).
  rewrite rev_bits_bits by exact Ha. rewrite bits_wires.
  - now rewrite bitrev_block by apply Ha.
  - split; [apply length_bitrev | apply bitrev_bytes, Ha].
Qed.

(** The inputs of a share circuit on wires. *)
Lemma share_inputs k m : arr 16 k -> arr 16 m ->
  slice 0 128 (bits (rev k ++ m)) = bits (rev k) /\ slice 128 128 (bits (rev k ++ m)) = bits m.
Proof.
  intros [Lk Bk] [Lm Bm]. rewrite bits_app.
  assert (L : length (bits (rev k)) = 128%nat) by (rewrite length_bits, length_rev, Lk; reflexivity).
  rewrite slice_head by exact L. split; [reflexivity|]. rewrite (slice_skip 0 128) by exact L.
  apply slice_all. now rewrite length_bits, Lm.
Qed.

Lemma joint_raw_key ka kb : arr 16 ka -> arr 16 kb ->
  compute (xor_wires 128 (bits (rev ka)) (bits (rev kb)) ++ repeat false 128) =
  wires 128 (hash_key (MaskConstants.xor_bytes ka kb)).
Proof.
  intros Ha Hb. pose proof Ha as [La _]. pose proof Hb as [Lb _].
  rewrite xor_wires_bits by (now rewrite length_rev).
  replace (MaskConstants.xor_bytes (rev ka) (rev kb)) with (rev (MaskConstants.xor_bytes ka kb)).
  - apply raw_hash_key, xor_bytes_arr.
  - apply (nth_ext _ _ 0 0); [now rewrite length_rev|]. unfold MaskConstants.xor_bytes.
    rewrite length_rev, length_tabulate. intros i Hi.
    rewrite rev_nth, length_tabulate, !nth_tabulate, !rev_nth, La, Lb by (rewrite ?length_tabulate; lia). reflexivity.
Qed.

Lemma gcm_share_circuit_spec ka ma kb mb :
  arr 16 ka -> arr 16 ma -> arr 16 kb -> arr 16 mb ->
  exec DeriveGCMMultiplicativeShares 16 (rev ka ++ ma) (rev kb ++ mb) =
  F2128.block_to_arr (hash_key (MaskConstants.xor_bytes ka kb) ⊗ F2128.arr_to_block mb ⊕ F2128.arr_to_block ma).
Proof.
  intros Hka Hma Hkb Hmb. unfold exec, DeriveGCMMultiplicativeShares.
  destruct (share_inputs ka ma Hka Hma) as [-> ->], (share_inputs kb mb Hkb Hmb) as [-> ->].
  rewrite joint_raw_key, !bits_wires by assumption.
  rewrite gcm_mult_spec by (apply rev128_lt || apply arr_lt). rewrite xor_wires_spec.
  rewrite wires_bits_block.
  - apply (post_proc_bits (F2128.block_to_arr _)). apply block_to_arr_bytes.
  - apply (lxor_lt _ _ 128); [apply gf_mul_lt, rev128_lt | apply arr_lt].
Qed.

End Share.
