(* ===== verification/Sha256.v ===== *)
(** * Hashing and key derivation, as the standards define them

    SHA-256 (FIPS 180-4), HMAC (RFC 2104), HKDF (RFC 5869) and the labels of
    TLS 1.3 (RFC 8446, 7.1), on byte strings: the reference for the circuits
    that derive the keys of a session. *)

From Stdlib Require Import String Ascii.
From S2P Require Import Prelude Messaging Arrays.
From Stdlib Require Import List.
Import ListNotations.

Import ByteString.
Local Open Scope N_scope.

Module SHA2.

Definition add32 (a b : N) : N := wrap 32 (a + b).
Definition rotr (n x : N) : N := N.lor (N.shiftr x n) (wrap 32 (N.shiftl x (32 - n))).
Definition Ch (x y z : N) : N := N.lxor (N.land x y) (N.land (N.lxor x (2 ^ 32 - 1)) z).
Definition Maj (x y z : N) : N := N.lxor (N.lxor (N.land x y) (N.land x z)) (N.land y z).
Definition Sigma0 (x : N) : N := N.lxor (N.lxor (rotr 2 x) (rotr 13 x)) (rotr 22 x).
Definition Sigma1 (x : N) : N := N.lxor (N.lxor (rotr 6 x) (rotr 11 x)) (rotr 25 x).
Definition sigma0 (x : N) : N := N.lxor (N.lxor (rotr 7 x) (rotr 18 x)) (N.shiftr x 3).
Definition sigma1 (x : N) : N := N.lxor (N.lxor (rotr 17 x) (rotr 19 x)) (N.shiftr x 10).

(** The constants are the first 32 bits of the fractional parts of the cube
    roots (of [K]) and the square roots (of [H0]) of the first primes. *)
Definition is_prime (n : N) : bool :=
  forallb (fun d => negb (n mod N.of_nat d =? 0)) (seq 2 (N.to_nat n - 2)).

Definition primes (below : nat) : list N :=
  filter is_prime (map N.of_nat (seq 2 (below - 2))).

(** The integer part of the cube root of a number below [2^(3 bits)]. *)
Definition cube_root (bits : nat) (n : N) : N :=
  fold_left (fun r b => let r' := r + 2 ^ N.of_nat b in if r' * r' * r' <=? n then r' else r)
    (rev (seq 0 bits)) 0.

Definition K : list N :=
  Eval vm_compute in map (fun p => wrap 32 (cube_root 36 (N.shiftl p 96))) (primes 312).

Definition H0 : list N :=
  Eval vm_compute in map (fun p => wrap 32 (N.sqrt (N.shiftl p 64))) (primes 20).

(** Big-endian words of a block, and the schedule (newest word first). *)
Definition word (blk : list N) (i : nat) : N :=
  fold_left (fun acc b => N.lor (N.shiftl acc 8) b) (firstn 4 (skipn (4 * i) blk)) 0.

Definition schedule (blk : list N) : list N :=
  rev (fold_left (fun ws _ =>
         add32 (add32 (sigma1 ws.[1]) ws.[6]) (add32 (sigma0 ws.[14]) ws.[15]) :: ws)
       (seq 16 48) (rev (tabulate 16 (word blk)))).

Definition round (ws : list N) (st : list N) (t : nat) : list N :=
  match st with
  | [a; b; c; d; e; f; g; h] =>
      let T1 := add32 (add32 (add32 h (Sigma1 e)) (add32 (Ch e f g) K.[t])) ws.[t] in
      let T2 := add32 (Sigma0 a) (Maj a b c) in
      [add32 T1 T2; a; b; c; add32 d T1; e; f; g]
  | _ => st
  end.

Definition compress (st blk : list N) : list N :=
  let out := fold_left (round (schedule blk)) (seq 0 64) st in
  tabulate 8 (fun i => add32 st.[i] out.[i]).

(** The message, a one bit, zeros, and the length in bits. *)
Definition be_bytes (n : nat) (v : N) : list N :=
  tabulate n (fun i => wrap 8 (N.shiftr v (8 * N.of_nat (n - 1 - i)))).

Definition pad (bs : list N) : list N :=
  bs ++ [128] ++ repeat 0 ((64 - (length bs + 9) mod 64) mod 64) ++ be_bytes 8 (8 * size bs).

Definition blocks (bs : list N) : list (list N) :=
  tabulate (length bs / 64) (fun i => firstn 64 (skipn (64 * i) bs)).

Definition sha256 (bs : list N) : list N :=
  flat_map (be_bytes 4) (fold_left compress (blocks (pad bs)) H0).

End SHA2.

Module KDF.

Definition xor_pad (c : N) (key : list N) : list N := tabulate 64 (fun i => N.lxor c key.[i]).

(** A key of at most one block. *)
Definition hmac (key data : list N) : list N :=
  SHA2.sha256 (xor_pad 0x5c key ++ SHA2.sha256 (xor_pad 0x36 key ++ data)).

Definition extract (salt ikm : list N) : list N := hmac salt ikm.

(** [T(i)] for [i = k, k+1, ...], with [T(k-1)] given. *)
Fixpoint expand_from (n : nat) (prk info prev : list N) (k : N) : list N :=
  match n with
  | O => []
  | S n => let t := hmac prk (prev ++ info ++ [k]) in t ++ expand_from n prk info t (k + 1)
  end.

Definition expand (prk info : list N) (L : nat) : list N :=
  firstn L (expand_from ((L + 31) / 32) prk info [] 1).

Definition string_bytes (s : string) : list N := map N_of_ascii (list_ascii_of_string s).

Definition hkdf_label (label : string) (context : list N) (L : nat) : list N :=
  let l := string_bytes (String.append "tls13 "%string label) in
  SHA2.be_bytes 2 (N.of_nat L) ++ [size l] ++ l ++ [size context] ++ context.

Definition expand_label (secret : list N) (label : string) (context : list N) (L : nat) : list N :=
  expand secret (hkdf_label label context L) L.

End KDF.

(** ** Known answers *)

Example sha256_abc : SHA2.sha256 [97; 98; 99] =
  [0xba; 0x78; 0x16; 0xbf; 0x8f; 0x01; 0xcf; 0xea; 0x41; 0x41; 0x40; 0xde; 0x5d; 0xae; 0x22; 0x23;
   0xb0; 0x03; 0x61; 0xa3; 0x96; 0x17; 0x7a; 0x9c; 0xb4; 0x10; 0xff; 0x61; 0xf2; 0x00; 0x15; 0xad].
Proof. vm_compute. reflexivity. Qed.

(** RFC 4231, test case 2. *)
Example hmac_jefe : KDF.hmac (KDF.string_bytes "Jefe"%string) (KDF.string_bytes "what do ya want for nothing?"%string) =
  [0x5b; 0xdc; 0xc1; 0x46; 0xbf; 0x60; 0x75; 0x4e; 0x6a; 0x04; 0x24; 0x26; 0x08; 0x95; 0x75; 0xc7;
   0x5a; 0x00; 0x3f; 0x08; 0x9d; 0x27; 0x39; 0x83; 0x9d; 0xec; 0x58; 0xb9; 0x64; 0xec; 0x38; 0x43].
Proof. vm_compute. reflexivity. Qed.

(** RFC 5869, test case 1, the expansion to 42 bytes. *)
Example expand_rfc5869 :
  KDF.expand [0x07; 0x77; 0x09; 0x36; 0x2c; 0x2e; 0x32; 0xdf; 0x0d; 0xdc; 0x3f; 0x0d; 0xc4; 0x7b; 0xba; 0x63;
              0x90; 0xb6; 0xc7; 0x3b; 0xb5; 0x0f; 0x9c; 0x31; 0x22; 0xec; 0x84; 0x4a; 0xd7; 0xc2; 0xb3; 0xe5]
    [0xf0; 0xf1; 0xf2; 0xf3; 0xf4; 0xf5; 0xf6; 0xf7; 0xf8; 0xf9] 42 =
  [0x3c; 0xb2; 0x5f; 0x25; 0xfa; 0xac; 0xd5; 0x7a; 0x90; 0x43; 0x4f; 0x64; 0xd0; 0x36; 0x2f; 0x2a;
   0x2d; 0x2d; 0x0a; 0x90; 0xcf; 0x1a; 0x5a; 0x4c; 0x5d; 0xb0; 0x2d; 0x56; 0xec; 0xc4; 0xc5; 0xbf;
   0x34; 0x00; 0x72; 0x08; 0xd5; 0xb8; 0x87; 0x18; 0x58; 0x65].
Proof. vm_compute. reflexivity. Qed.

(** Numbers as bytes, most significant first. *)
Lemma length_be n v : length (SHA2.be_bytes n v) = n.
Proof. apply length_tabulate. Qed.

Lemma be_bytes_arr n v : arr n (SHA2.be_bytes n v).
Proof. apply arr_tabulate. intros. apply (wrap_lt 8). Qed.
