(* ===== verification/F2128Single.v ===== *)
(** * Multiplications one at a time ([mta/F2128MtA.inl], [emp-tool/utils/f2k.h])

    The variant of the binary protocol in which the parties hold an additive
    sharing of the hash key and multiply block by block: [single_iter], the
    consistency check by a digest, and [generate_shares_repeated], which builds
    the shares of every power from two products each.  Both parties run in one
    function over the random draws of the run. *)

From S2P Require Import Prelude Block128 GF128 FieldCode FieldInverse.
From S2P Require Import F2128MtA F2128Shares F2128Powers F2128Claims GHash Sha256.

From Stdlib Require Import ZArith.

Import Simd F2128 F2128_MTA.

(** ** The field routines of emp-tool ([f2k.h]) *)

Module EmpF2k.

(** Schoolbook product of two blocks: the low and the high half. *)
Definition mul128 (a b : N) : N * N :=
  let tmp3 := mm_clmulepi64_si128 a b 0x00 in
  let tmp4 := mm_clmulepi64_si128 a b 0x10 in
  let tmp5 := mm_clmulepi64_si128 a b 0x01 in
  let tmp6 := mm_clmulepi64_si128 a b 0x11 in
  let tmp4 := mm_xor_si128 tmp4 tmp5 in
  let tmp5 := mm_slli_si128 tmp4 8 in
  let tmp4 := mm_srli_si128 tmp4 8 in
  let tmp3 := mm_xor_si128 tmp3 tmp5 in
  let tmp6 := mm_xor_si128 tmp6 tmp4 in
  (tmp3, tmp6).

Definition gfmul (a b : N) : N :=
  let XMMMASK := mm_setr_epi32 (2 ^ 32 - 1) 0 0 0 in
  let '(tmp3, tmp6) := mul128 a b in
  let tmp7 := mm_srli_epi32 tmp6 31 in
  let tmp8 := mm_srli_epi32 tmp6 30 in
  let tmp9 := mm_srli_epi32 tmp6 25 in
  let tmp7 := mm_xor_si128 tmp7 tmp8 in
  let tmp7 := mm_xor_si128 tmp7 tmp9 in
  let tmp8 := mm_shuffle_epi32 tmp7 147 in
  let tmp7 := mm_and_si128 XMMMASK tmp8 in
  let tmp8 := mm_andnot_si128 XMMMASK tmp8 in
  let tmp3 := mm_xor_si128 tmp3 tmp8 in
  let tmp6 := mm_xor_si128 tmp6 tmp7 in
  let tmp10 := mm_slli_epi32 tmp6 1 in
  let tmp3 := mm_xor_si128 tmp3 tmp10 in
  let tmp11 := mm_slli_epi32 tmp6 2 in
  let tmp3 := mm_xor_si128 tmp3 tmp11 in
  let tmp12 := mm_slli_epi32 tmp6 7 in
  let tmp3 := mm_xor_si128 tmp3 tmp12 in
  mm_xor_si128 tmp3 tmp6.

Definition vector_inn_prdt_sum_red (a b : list N) (sz : nat) : N :=
  fold_left (fun r i => r ⊕ gfmul a.[i] b.[i]) (seq 0 sz) zero_block.

End EmpF2k.

(** ** The protocol *)

Module Repeated.

Import EmpF2k.

(** [EVP_Digest] with [EVP_sha256] of BoringSSL: [None] when it fails. *)
Class Digest := evp_digest : list N -> option (list N).

(** The bytes of an array of blocks. *)
Definition block_bytes (xs : list N) : list N := flat_map block_to_arr xs.

(** [chi] and [chi hat]: the sender's draw in slot 0, the receiver's in slot
    1, for both parties. *)
Definition generate_randomness (sender : bool) (randomness received : N) : N * N :=
  if sender then (randomness, received) else (received, randomness).

(** The sender's combination of its pads, row by row. *)
Definition proof_rows (t_a : OTOutType) (chi : N * N) : list N :=
  tabulate batch_size (fun i => mul (fst chi) (fst t_a).[i] ⊕ mul (snd chi) (snd t_a).[i]).

(** What [SSL_write] and [SSL_read] return on the connection of the check, and
    what is in the sender's variable [worked], which has no initial value. *)
Record Link := {
  write_proof : Z; read_proof : Z; write_verdict : Z; read_verdict : Z; stale_worked : bool }.

Definition size_of_proof : Z := 48%Z.
Definition size_of_verdict : Z := 1%Z.

(** The sender: the message it wrote, the digest in the first two blocks and
    [u], and what it returns.  [answer] is the verdict that the other party
    writes for a message.  The read fails for the code only when it returns 0. *)
Definition prove_consistency `{Digest} (ln : Link) (answer : list N * N -> option bool)
    (alpha alpha_hat : N) (t_a : OTOutType) (chi : N * N) : option (list N * N) * bool :=
  match evp_digest (block_bytes (proof_rows t_a chi)) with
  | None => (None, false)
  | Some hash =>
      let arr := (hash, mul (fst chi) alpha ⊕ mul (snd chi) alpha_hat) in
      if negb (write_proof ln =? size_of_proof)%Z then (None, false)
      else
        let worked := match answer arr with
                      | Some v => if (read_verdict ln =? size_of_verdict)%Z then v else stale_worked ln
                      | None => stale_worked ln
                      end in
        if (read_verdict ln =? 0)%Z then (Some arr, false) else (Some arr, worked)
  end.

(** The receiver's combination, with [u] where its choice bit is set. *)
Definition check_rows (u : N) (t_b : OTOutType) (chi : N * N) (omega : list bool) : list N :=
  let mask := [makeBlock 0 0; makeBlock 0 1] in
  tabulate batch_size (fun i =>
    mul (fst chi) (fst t_b).[i] ⊕ mul (snd chi) (snd t_b).[i] ⊕
    mul u mask.[Nat.b2n (nth (2 * i) omega false)]).

(** The receiver: the verdict it wrote and what it returns. *)
Definition check_consistency `{Digest} (ln : Link) (r : list N * N) (t_b : OTOutType) (chi : N * N) (omega : list bool)
    : option bool * bool :=
  if negb (read_proof ln =? size_of_proof)%Z then (None, false)
  else
    let u := snd r in
    let correct :=
      match evp_digest (block_bytes (check_rows u t_b chi omega)) with
      | None => false
      | Some hash => if list_eq_dec N.eq_dec (fst r) hash then true else false
      end in
    if negb (write_verdict ln =? size_of_verdict)%Z then (None, false)
    else (Some correct, correct).

Definition compute_share (upper : nat) (t g : list N) : N := vector_inn_prdt_sum_red t g upper.

(** The random draws of one multiplication. *)
Record IterTape := {
  it_gadget : list N; it_gamma : list N; it_pads : list N; it_alpha_hat : N;
  it_chi : N; it_chi_hat : N }.

(** Both parties of [single_iter]: the share of the sender and that of the
    receiver, [None] for a party that returns [false].  The gadget and the
    challenges, whose transfers the code does not check, arrive as sent. *)
Definition single_iter `{OTChannel} `{Digest} (ln : Link) (it : IterTape) (sender_in receiver_in : N) : option N * option N :=
  let gadget_r := it_gadget it in
  let g := generate_g gadget_r in
  let omega := encode (it_gamma it) receiver_in gadget_r in
  let choice_bits := get_choice_bits omega in
  let pads := it_pads it in
  let alpha_vec := prepare_pairs sender_in (it_alpha_hat it) pads in
  let t_b := play_receiver (fst alpha_vec) (snd alpha_vec) choice_bits in
  let t_a := get_sender_out pads in
  let r_chi := generate_randomness false (it_chi_hat it) (it_chi it) in
  let s_chi := generate_randomness true (it_chi it) (it_chi_hat it) in
  let check r := check_consistency ln r t_b r_chi choice_bits in
  let '(proof, proved) := prove_consistency ln (fun r => fst (check r)) sender_in (it_alpha_hat it) t_a s_chi in
  let checked := match proof with Some r => snd (check r) | None => false end in
  (if proved then Some (compute_share (length g) (fst t_a) g) else None,
   if checked then Some (compute_share (length g) (fst t_b) g) else None).

(** Round [i] of the loop: the verifier is the receiver in both products.  A
    party whose product failed aborts, and the run of both ends. *)
Definition repeated_round `{OTChannel} `{Digest} (lns : Link * Link) (its : IterTape * IterTape) (p_in v_in : N) (i : nat)
    (out : list N * list N) : option (list N * list N) :=
  let '(out_p, out_v) := out in
  let our_p := mul out_p.[i - 1] p_in in
  let our_v := mul out_v.[i - 1] v_in in
  match single_iter (fst lns) (fst its) out_p.[i - 1] v_in with
  | (Some first_p, Some first_v) =>
      match single_iter (snd lns) (snd its) p_in out_v.[i - 1] with
      | (Some second_p, Some second_v) =>
          Some (compute_squares i (upd i (our_p ⊕ first_p ⊕ second_p) out_p),
                compute_squares i (upd i (our_v ⊕ first_v ⊕ second_v) out_v))
      | _ => None
      end
  | _ => None
  end.

(** Both parties of [generate_shares_repeated], over the connection and the
    draws of every round and the memory their arrays start with; [None]: the
    [std::abort] of a party. *)
Definition generate_shares_repeated `{OTChannel} `{Digest} (link : nat -> Link * Link) (tape : nat -> IterTape * IterTape)
    (mem_p mem_v : list N) (p_in v_in : N) : option (list N * list N) :=
  fold_left (fun out i =>
      match out with None => None | Some o => repeated_round (link i) (tape i) p_in v_in i o end)
    (for_step 2 num_powers 2)
    (Some (compute_squares 0 (upd 0 p_in mem_p), compute_squares 0 (upd 0 v_in mem_v))).

End Repeated.

Import EmpF2k Repeated.

(** ** The routines of emp-tool compute in the field *)

Lemma mul128_kara a b : mul128 a b = kara a b.
Proof.
  assert (E : forall a0 a1 b0 b1, clmul a0 b1 ⊕ clmul a1 b0 =
    clmul (a0 ⊕ a1) (b0 ⊕ b1) ⊕ clmul a0 b0 ⊕ clmul a1 b1).
  { intros. rewrite clmul_distr_l, !clmul_distr_r. lxor_ring. }
  unfold kara. cbv zeta. rewrite <- E. reflexivity.
Qed.

Lemma gfmul_gf_mul a b : (a < 2^128)%N -> (b < 2^128)%N -> gfmul a b = gf_mul a b.
Proof.
  intros Ha Hb. rewrite <- (mul_gf_mul a b Ha Hb), (mul_kara a b Ha Hb). unfold gfmul.
  rewrite mul128_kara. destruct (kara a b) as [lo hi]. cbn [fst snd].
  apply N.lxor_comm.
Qed.

#[local] Opaque gf_mul gfmul xtime F2128.mul num_powers gadget_elements.
#[local] Strategy 1000 [lxor_sum fold_left].

Lemma compute_share_spec n t g :
  compute_share n t g = lxor_sum n (fun i => gfmul t.[i] g.[i]).
Proof. reflexivity. Qed.

(** ** Encoding and choice bits *)

Lemma nth_extract_odd n v j :
  (j < n)%nat -> nth (j * 2 + 1) (extract_from n v) false = nth (j * 2) (extract_from n v) false.
Proof.
  revert v j; induction n as [|n IH]; intros v j Hj; [lia|].
  destruct j as [|j]; [reflexivity|].
  change (S j * 2)%nat with (S (S (j * 2))). cbn [extract_from nth Nat.add]. apply IH. lia.
Qed.

Lemma nth_block_odd blk j :
  (j < 128)%nat -> nth (j * 2 + 1) (block_choice_bits blk) false = N.testbit blk (N.of_nat j).
Proof.
  intros Hj. rewrite <- nth_block_choice_bits by assumption. unfold block_choice_bits.
  destruct (Nat.lt_ge_cases j 64) as [Hl|Hl].
  - rewrite !app_nth1 by (rewrite length_extract_from; lia). now apply nth_extract_odd.
  - rewrite !app_nth2, length_extract_from by (rewrite length_extract_from; lia).
    replace (j * 2 + 1 - 64 * 2)%nat with ((j - 64) * 2 + 1)%nat by lia.
    replace (j * 2 - 64 * 2)%nat with ((j - 64) * 2)%nat by lia.
    apply nth_extract_odd. lia.
Qed.

(** Both copies of choice bit [n] are bit [n] of the encoding. *)
Lemma choice_bit_pair omega n :
  (n < length omega * 128)%nat ->
  nth (2 * n) (get_choice_bits omega) false = gadget_bit omega n /\
  nth (2 * n + 1) (get_choice_bits omega) false = gadget_bit omega n.
Proof.
  intros Hn. split; [rewrite Nat.mul_comm; now apply nth_choice_bits|].
  unfold get_choice_bits, gadget_bit.
  pose proof (Nat.div_mod_eq n 128). pose proof (Nat.mod_upper_bound n 128).
  rewrite <- nth_block_odd by lia.
  replace (2 * n + 1)%nat with (n / 128 * 256 + (n mod 128 * 2 + 1))%nat by lia.
  apply (nth_flat_map _ _ _ _ _ 0%N).
  - intros; apply length_block_choice_bits.
  - lia.
  - apply Nat.Div0.div_lt_upper_bound; lia.
Qed.

Lemma length_powers n x : length (powers_of_two n x) = n.
Proof. revert x; induction n as [|n IH]; intros x; cbn; [reflexivity | now rewrite IH]. Qed.

Lemma powers_are_powers j : (j < 128)%nat -> (powers_of_two 128 (makeBlock 0 1)).[j] = (2 ^ N.of_nat j)%N.
Proof.
  intros Hj. enough (E : powers_of_two 128 (makeBlock 0 1) = tabulate 128 (fun j => 2 ^ N.of_nat j)%N)
    by (rewrite E; now rewrite nth_tabulate).
  vm_compute. reflexivity.
Qed.

(** A block is the sum of the powers of two at its bits. *)
Lemma bits_of_block n x : (x < 2 ^ N.of_nat n)%N ->
  lxor_sum n (fun j => if N.testbit x (N.of_nat j) then 2 ^ N.of_nat j else 0)%N = x.
Proof.
  intros Hx. apply N.bits_inj. intros i.
  enough (E : N.testbit (lxor_sum n (fun j => if N.testbit x (N.of_nat j) then 2 ^ N.of_nat j else 0)%N) i
              = (N.testbit x i && (i <? N.of_nat n))%N%bool).
  { rewrite E. destruct (N.ltb_spec i (N.of_nat n)) as [Hi|Hi]; [apply andb_true_r|].
    rewrite andb_false_r. symmetry. apply (testbit_high _ (N.of_nat n)); assumption. }
  clear Hx. induction n as [|n IH].
  - rewrite lxor_sum_0, N.bits_0, (proj2 (N.ltb_ge i (N.of_nat 0))), andb_false_r by lia. reflexivity.
  - rewrite lxor_sum_S, N.lxor_spec, IH. destruct (N.eq_dec i (N.of_nat n)) as [->|Hi].
    + rewrite N.ltb_irrefl, andb_false_r, (proj2 (N.ltb_lt _ _)) by lia.
      destruct (N.testbit x (N.of_nat n)); [now rewrite N.pow2_bits_true | now rewrite N.bits_0].
    + replace (N.testbit (if N.testbit x (N.of_nat n) then 2 ^ N.of_nat n else 0)%N i) with false
        by (destruct (N.testbit x (N.of_nat n)); [now rewrite N.pow2_bits_false by auto | now rewrite N.bits_0]).
      rewrite xorb_false_r. f_equal. destruct (N.ltb_spec i (N.of_nat n)), (N.ltb_spec i (N.of_nat (S n))); lia || reflexivity.
Qed.

Lemma gadget_bit_shift o gamma n : gadget_bit (o :: gamma) (128 + n) = gadget_bit gamma n.
Proof.
  unfold gadget_bit. replace (128 + n)%nat with (n + 1 * 128)%nat by lia.
  rewrite Nat.div_add, Nat.Div0.mod_add by lia. now rewrite Nat.add_1_r.
Qed.

Lemma gadget_bit_first o gamma n : (n < 128)%nat -> gadget_bit (o :: gamma) n = N.testbit o (N.of_nat n).
Proof. intros Hn. unfold gadget_bit. now rewrite Nat.div_small, Nat.mod_small. Qed.

(** The bits of an encoding, weighted with [g], give the encoded block. *)
Lemma encode_decode gamma x gadget :
  blocks gamma -> (x < 2^128)%N -> blocks gadget ->
  lxor_sum batch_size (fun n => if gadget_bit (encode gamma x gadget) n
                                then (generate_g gadget).[n] else 0%N) = x.
Proof.
  intros Hg Hx Hr. change batch_size with (128 + gadget_elements)%nat. rewrite lxor_sum_split. unfold encode.
  set (d := dot_product gamma gadget).
  assert (Hd : (d < 2^128)%N).
  { unfold d. rewrite dot_product_spec by assumption. apply (lxor_sum_lt _ _ 128). intros j _.
    destruct gadget_bit; [now apply blocks_nth | reflexivity]. }
  rewrite (lxor_sum_ext 128 _ (fun j => if N.testbit (x ⊕ d) (N.of_nat j) then 2 ^ N.of_nat j else 0)%N).
  - rewrite bits_of_block by (now apply lxor_lt128).
    rewrite (lxor_sum_ext gadget_elements _ (fun n => if gadget_bit gamma n then gadget.[n] else 0%N)).
    + rewrite <- dot_product_spec by assumption. fold d. now rewrite N.lxor_assoc, N.lxor_nilpotent, N.lxor_0_r.
    + intros n _. rewrite gadget_bit_shift. unfold generate_g.
      rewrite app_nth2, length_powers by (rewrite length_powers; lia).
      now replace (128 + n - 128)%nat with n by lia.
  - intros j Hj. rewrite gadget_bit_first by assumption. unfold generate_g.
    rewrite app_nth1, powers_are_powers by (rewrite ?length_powers; lia). reflexivity.
Qed.

(** ** One multiplication *)

(** The draws have the sizes of their types. *)
Record IterOk (it : IterTape) : Prop := {
  iok_gadget : length (it_gadget it) = gadget_elements /\ blocks (it_gadget it);
  iok_gamma : length (it_gamma it) = 3%nat /\ blocks (it_gamma it);
  iok_pads : length (it_pads it) = number_of_ots /\ blocks (it_pads it);
  iok_hat : (it_alpha_hat it < 2^128)%N;
  iok_chi : (it_chi it < 2^128)%N /\ (it_chi_hat it < 2^128)%N }.

Lemma length_generate_g it : IterOk it -> length (generate_g (it_gadget it)) = batch_size.
Proof. intros [[Hl _] _ _ _ _]. unfold generate_g. now rewrite length_app, length_powers, Hl. Qed.

Lemma generate_g_blocks it : IterOk it -> blocks (generate_g (it_gadget it)).
Proof.
  intros [[_ Hb] _ _ _ _]. apply Forall_app. split; [|exact Hb].
  apply Forall_nth. intros i d Hi. rewrite length_powers in Hi. rewrite (nth_indep _ d 0%N) by (now rewrite length_powers).
  rewrite powers_are_powers by assumption. change 340282366920938463463374607431768211456%N with (2 ^ 128)%N. apply N.pow_lt_mono_r; lia.
Qed.

Section Transfer.
Context {ot : OTChannel} {ot_ok : OTCorrect}.
Variables (omega pads : list N) (m1 : list N).
Hypothesis omega_len : length omega = 4%nat.
Hypothesis pads_len : length pads = number_of_ots.
Hypothesis m1_len : length m1 = number_of_ots.

(** What the receiver holds in row [n]: the entries its choice bit selects. *)
Lemma received_pads n :
  (n < batch_size)%nat ->
  let t_b := play_receiver pads m1 (get_choice_bits omega) in
  (fst t_b).[n] = (if gadget_bit omega n then m1.[2 * n] else pads.[2 * n]) /\
  (snd t_b).[n] = (if gadget_bit omega n then m1.[2 * n + 1] else pads.[2 * n + 1]).
Proof.
  intros Hn t_b. subst t_b. cbn [play_receiver fst snd].
  assert (Hc : length (get_choice_bits omega) = number_of_ots)
    by (unfold get_choice_bits; rewrite (length_flat_map_const _ 256), omega_len by (intros; apply length_block_choice_bits); reflexivity).
  change (number_of_ots / 2)%nat with batch_size. rewrite !nth_tabulate by assumption.
  change number_of_ots with (2 * batch_size)%nat in *.
  destruct (choice_bit_pair omega n) as [E0 E1]; [rewrite omega_len; change batch_size with 512%nat in *; lia|].
  rewrite !ot_choice, E0, E1 by lia. split; reflexivity.
Qed.
End Transfer.

Lemma length_prepare alpha alpha_hat ts : length (snd (prepare_pairs alpha alpha_hat ts)) = number_of_ots.
Proof.
  cbn [prepare_pairs snd]. unfold number_of_ots. rewrite (length_flat_map_const _ 2), length_for_step_even by auto. lia.
Qed.

Lemma nth_prepare alpha alpha_hat ts n :
  (n < batch_size)%nat ->
  (snd (prepare_pairs alpha alpha_hat ts)).[2 * n] = alpha ⊕ ts.[2 * n] /\
  (snd (prepare_pairs alpha alpha_hat ts)).[2 * n + 1] = alpha_hat ⊕ ts.[2 * n + 1].
Proof.
  intros Hn. cbn [prepare_pairs snd]. unfold number_of_ots. split.
  - replace (2 * n)%nat with (n * 2 + 0)%nat at 1 by lia.
    rewrite (nth_flat_map _ 2 _ _ _ 0%nat); [|auto | lia | now rewrite length_for_step_even].
    rewrite nth_for_step_0 by lia. now rewrite (Nat.mul_comm n 2).
  - replace (2 * n + 1)%nat with (n * 2 + 1)%nat at 1 by lia.
    rewrite (nth_flat_map _ 2 _ _ _ 0%nat); [|auto | lia | now rewrite length_for_step_even].
    rewrite nth_for_step_0 by lia. now rewrite (Nat.mul_comm n 2).
Qed.

(** ** The consistency check *)

Section Consistency.
Context {ot : OTChannel} {ot_ok : OTCorrect} {dg : Digest}.
Variables (omega pads m1 : list N) (chi : N * N) (u : N).
Hypothesis omega_len : length omega = 4%nat.
Hypothesis pads_ok : length pads = number_of_ots /\ blocks pads.
Hypothesis m1_ok : length m1 = number_of_ots /\ blocks m1.
Hypothesis chi_ok : (fst chi < 2^128)%N /\ (snd chi < 2^128)%N.
Hypothesis u_lt : (u < 2^128)%N.

(** What the two entries of row [n] differ by, under the challenge. *)
Definition row_difference (n : nat) : N :=
  mul (fst chi) (m1.[2 * n] ⊕ pads.[2 * n]) ⊕ mul (snd chi) (m1.[2 * n + 1] ⊕ pads.[2 * n + 1]).

Definition rows_sent : list N := proof_rows (get_sender_out pads) chi.
Definition rows_checked : list N :=
  check_rows u (play_receiver pads m1 (get_choice_bits omega)) chi (get_choice_bits omega).

Lemma choose_product c (b : bool) x y : (c < 2^128)%N -> (x < 2^128)%N -> (y < 2^128)%N ->
  mul c (if b then x else y) = mul c y ⊕ (if b then mul c (x ⊕ y) else 0%N).
Proof.
  intros Hc Hx Hy. destruct b; [|now rewrite N.lxor_0_r].
  rewrite !mul_gf_mul, gf_mul_distr_l by auto using lxor_lt128. lxor_ring.
Qed.

(** The receiver's row is the sender's, plus [u] and the difference of the
    entries where the choice bit is set. *)
Lemma checked_row n : (n < batch_size)%nat ->
  rows_checked.[n] = rows_sent.[n] ⊕ (if gadget_bit omega n then row_difference n ⊕ u else 0%N).
Proof.
  intros Hn. destruct pads_ok as [Lp Bp], m1_ok as [Lm Bm], chi_ok as [C0 C1].
  unfold rows_checked, rows_sent, check_rows, proof_rows, row_difference. rewrite !nth_tabulate by assumption.
  destruct (received_pads omega pads m1 omega_len Lp Lm n Hn) as [-> ->].
  destruct (choice_bit_pair omega n) as [-> _]; [rewrite omega_len; change batch_size with 512%nat in *; lia|].
  rewrite !choose_product by auto using blocks_nth. cbn [get_sender_out fst snd]. rewrite !nth_tabulate by assumption.
  destruct (gadget_bit omega n); cbn [Nat.b2n nth]; change (makeBlock 0 1) with 1%N; change (makeBlock 0 0) with 0%N.
  - rewrite (mul_gf_mul u 1), gf_mul_1_r by (assumption || reflexivity). lxor_ring.
  - rewrite (mul_gf_mul u 0), gf_mul_0_r by (assumption || reflexivity). lxor_ring.
Qed.

(** The sender answered with one [u] for every row the receiver selected. *)
Definition rows_consistent : Prop :=
  forall n, (n < batch_size)%nat -> gadget_bit omega n = true -> row_difference n = u.

Lemma rows_length : length rows_checked = batch_size /\ length rows_sent = batch_size.
Proof. split; apply length_tabulate. Qed.

Lemma rows_equal : rows_consistent <-> rows_checked = rows_sent.
Proof.
  destruct rows_length as [Lc Ls]. split; intros H.
  - apply (nth_ext _ _ 0%N 0%N); [lia|]. intros n Hn. rewrite Lc in Hn. rewrite checked_row by assumption.
    destruct (gadget_bit omega n) eqn:B; [|apply N.lxor_0_r].
    rewrite (H n Hn B), N.lxor_nilpotent. apply N.lxor_0_r.
  - intros n Hn B. pose proof (checked_row n Hn) as E. rewrite H, B in E.
    apply N.lxor_eq. apply (f_equal (N.lxor rows_sent.[n])) in E.
    now rewrite <- N.lxor_assoc, N.lxor_nilpotent, N.lxor_0_l in E.
Qed.

Lemma rows_sent_blocks : blocks rows_sent.
Proof.
  destruct pads_ok as [_ Bp], chi_ok as [C0 C1]. apply Forall_nth. intros n d Hn. rewrite (proj2 rows_length) in Hn.
  rewrite (nth_indep _ d 0%N) by (now rewrite (proj2 rows_length)).
  unfold rows_sent, proof_rows. rewrite nth_tabulate by assumption. cbn [get_sender_out fst snd]. rewrite !nth_tabulate by assumption.
  rewrite !mul_gf_mul by auto using blocks_nth. apply lxor_lt128; now apply gf_mul_lt.
Qed.

Lemma rows_checked_blocks : blocks rows_checked.
Proof.
  destruct pads_ok as [_ Bp], m1_ok as [_ Bm], chi_ok as [C0 C1]. apply Forall_nth. intros n d Hn. rewrite (proj1 rows_length) in Hn.
  rewrite (nth_indep _ d 0%N) by (now rewrite (proj1 rows_length)). rewrite checked_row by assumption.
  apply lxor_lt128; [apply blocks_nth, rows_sent_blocks|]. destruct (gadget_bit omega n); [|reflexivity].
  apply lxor_lt128; [|assumption]. unfold row_difference.
  rewrite !mul_gf_mul by auto using blocks_nth, lxor_lt128. apply lxor_lt128; now apply gf_mul_lt.
Qed.

Lemma block_bytes_inj xs : forall ys, blocks xs -> blocks ys -> block_bytes xs = block_bytes ys -> xs = ys.
Proof.
  induction xs as [|x xs IH]; intros [|y ys] Bx By E; try discriminate; [reflexivity|].
  inversion_clear Bx as [|? ? Hx Bx']; inversion_clear By as [|? ? Hy By'].
  unfold block_bytes in E. cbn [flat_map] in E.
  pose proof (f_equal (firstn 16) E) as E1. pose proof (f_equal (skipn 16) E) as E2.
  rewrite !firstn_exact in E1 by reflexivity. rewrite !skipn_exact in E2 by reflexivity.
  f_equal; [|now apply IH]. rewrite <- (arr_block_roundtrip x), <- (arr_block_roundtrip y) by assumption. now rewrite E1.
Qed.

End Consistency.

(** A connection that carries both messages of the check. *)
Record Delivers (ln : Link) : Prop := {
  proof_written : write_proof ln = size_of_proof; proof_read : read_proof ln = size_of_proof;
  verdict_written : write_verdict ln = size_of_verdict; verdict_read : read_verdict ln = size_of_verdict }.

(** The digest answers on every input. *)
Definition DigestWorks (dg : Digest) : Prop := forall m, exists h, evp_digest m = Some h.

Section Multiplication.
Context {ot : OTChannel} {ot_ok : OTCorrect} {dg : Digest} (dg_ok : DigestWorks dg).
Variables (it : IterTape) (sender_in receiver_in : N).
Hypothesis it_ok : IterOk it.
Hypothesis sender_lt : (sender_in < 2^128)%N.
Hypothesis receiver_lt : (receiver_in < 2^128)%N.

Abbreviation omega := (encode (it_gamma it) receiver_in (it_gadget it)).
Abbreviation entries := (snd (prepare_pairs sender_in (it_alpha_hat it) (it_pads it))).
Abbreviation pads := (it_pads it).
Abbreviation chi := (it_chi it, it_chi_hat it).
Abbreviation u := (mul (it_chi it) sender_in ⊕ mul (it_chi_hat it) (it_alpha_hat it)).
Abbreviation received := (play_receiver pads entries (get_choice_bits omega)).
Abbreviation g := (generate_g (it_gadget it)).

Lemma omega_length : length omega = 4%nat.
Proof. unfold encode. cbn [length]. now rewrite (proj1 (iok_gamma _ it_ok)). Qed.

Lemma entries_ok : length entries = number_of_ots /\ blocks entries.
Proof.
  split; [apply length_prepare|]. cbn [prepare_pairs snd]. apply Forall_flat_map, Forall_forall.
  intros i _. destruct it_ok as [_ _ [_ Bp] Hh _]. repeat constructor; apply lxor_lt128; auto using blocks_nth.
Qed.

Lemma u_block : (u < 2^128)%N.
Proof. destruct it_ok as [_ _ _ Hh [C0 C1]]. rewrite !mul_gf_mul by assumption. apply lxor_lt128; now apply gf_mul_lt. Qed.

(** An honest sender's rows all differ by its [u]. *)
Lemma honest_rows : rows_consistent omega pads entries chi u.
Proof.
  intros n Hn _. unfold row_difference. cbn [fst snd].
  destruct (nth_prepare sender_in (it_alpha_hat it) pads n Hn) as [-> ->].
  now rewrite !N.lxor_assoc, !N.lxor_nilpotent, !N.lxor_0_r.
Qed.

Lemma honest_check : rows_checked omega pads entries chi u = rows_sent pads chi.
Proof.
  apply rows_equal; [apply omega_length | apply it_ok | apply entries_ok | | apply u_block | apply honest_rows].
  destruct it_ok as [_ _ _ _ [C0 C1]]. now split.
Qed.

Lemma single_iter_accepts ln : Delivers ln ->
  single_iter ln it sender_in receiver_in =
  (Some (compute_share batch_size (fst (get_sender_out pads)) g), Some (compute_share batch_size (fst received) g)).
Proof.
  intros [E1 E2 E3 E4]. unfold single_iter. cbv zeta. rewrite length_generate_g by assumption.
  unfold prove_consistency, check_consistency. rewrite E1, E2, E3, E4. cbn [generate_randomness fst snd Z.eqb Pos.eqb size_of_proof size_of_verdict negb].
  destruct (dg_ok (block_bytes (proof_rows (get_sender_out pads) chi))) as [h Eh]. rewrite Eh. cbn [fst snd prepare_pairs].
  change (check_rows u _ chi (get_choice_bits omega)) with (rows_checked omega pads entries chi u).
  rewrite honest_check. unfold rows_sent. rewrite Eh. now destruct (list_eq_dec N.eq_dec h h).
Qed.

(** Whatever the connection does, a share that comes out is the one of a run
    without faults. *)
Lemma single_iter_shares ln s r : single_iter ln it sender_in receiver_in = (Some s, Some r) ->
  s = compute_share batch_size (fst (get_sender_out pads)) g /\ r = compute_share batch_size (fst received) g.
Proof.
  unfold single_iter. cbv zeta. rewrite length_generate_g by assumption.
  destruct (prove_consistency _ _ _ _ _ _) as [proof [|]]; [|discriminate].
  destruct (match proof with Some _ => _ | None => _ end); [|discriminate].
  intros E. apply pair_equal_spec in E as [Es Er]. split; symmetry; apply some_inj; assumption.
Qed.

Lemma sent_lt n : ((fst (get_sender_out pads)).[n] < 2^128)%N.
Proof. apply blocks_nth, blocks_tabulate. intros i. apply blocks_nth, it_ok. Qed.

Lemma received_row n : (n < batch_size)%nat ->
  (fst received).[n] = (fst (get_sender_out pads)).[n] ⊕ (if gadget_bit omega n then sender_in else 0%N).
Proof.
  intros Hn. destruct (received_pads omega pads entries omega_length (proj1 (iok_pads _ it_ok)) (proj1 entries_ok) n Hn) as [-> _].
  destruct (nth_prepare sender_in (it_alpha_hat it) pads n Hn) as [-> _].
  cbn [get_sender_out fst]. rewrite nth_tabulate by assumption.
  destruct (gadget_bit omega n); [apply N.lxor_comm | now rewrite N.lxor_0_r].
Qed.

Lemma received_product :
  compute_share batch_size (fst received) g =
  compute_share batch_size (fst (get_sender_out pads)) g ⊕ sender_in ⊗ receiver_in.
Proof.
  rewrite !compute_share_spec.
  pose proof (encode_decode (it_gamma it) receiver_in (it_gadget it)
    (proj2 (iok_gamma _ it_ok)) receiver_lt (proj2 (iok_gadget _ it_ok))) as E.
  rewrite <- (f_equal (gf_mul sender_in) E). clear E.
  rewrite <- row_product. apply lxor_sum_ext. intros n Hn. rewrite received_row by assumption.
  pose proof (sent_lt n) as Hp. pose proof (blocks_nth g n (generate_g_blocks _ it_ok)) as Hg.
  assert (Hr : ((fst (get_sender_out pads)).[n] ⊕ (if gadget_bit omega n then sender_in else 0) < 2^128)%N)
    by (apply lxor_lt128; [exact Hp | now destruct gadget_bit]).
  rewrite !gfmul_gf_mul, <- !mul_gf_mul by assumption.
  now apply pad_product.
Qed.

Lemma sender_share_lt : (compute_share batch_size (fst (get_sender_out pads)) g < 2^128)%N.
Proof.
  rewrite compute_share_spec. apply (lxor_sum_lt _ _ 128). intros n _.
  rewrite gfmul_gf_mul by (apply sent_lt || apply blocks_nth, generate_g_blocks, it_ok).
  apply gf_mul_lt, sent_lt.
Qed.

(** One multiplication leaves shares of the product. *)
Lemma single_iter_product ln s r : single_iter ln it sender_in receiver_in = (Some s, Some r) ->
  (s < 2^128)%N /\ (r < 2^128)%N /\ s ⊕ r = sender_in ⊗ receiver_in.
Proof.
  intros E. destruct (single_iter_shares ln s r E) as [-> ->]. pose proof sender_share_lt as Hs. split; [exact Hs|].
  rewrite received_product. split; [apply lxor_lt128; [exact Hs | now apply gf_mul_lt]|].
  now rewrite <- N.lxor_assoc, N.lxor_nilpotent, N.lxor_0_l.
Qed.

End Multiplication.

(** ** All powers *)

Section Rounds.
Context {ot : OTChannel} {ot_ok : OTCorrect} {dg : Digest} (dg_ok : DigestWorks dg).
Variables p_in v_in : N.
Hypothesis p_lt : (p_in < 2^128)%N.
Hypothesis v_lt : (v_in < 2^128)%N.
Abbreviation h := (p_in ⊕ v_in).

Lemma h_block : (h < 2^128)%N.
Proof. now apply lxor_lt128. Qed.

(** The powers whose odd part is among the first [n] odd numbers are shared. *)
Definition shared_upto (n : nat) (out : list N * list N) : Prop :=
  length (fst out) = num_powers /\ length (snd out) = num_powers /\
  forall m t, (m < n)%nat -> ((2 * m + 1) * 2 ^ t <= num_powers)%nat ->
    Good h (fst out) (snd out) ((2 * m + 1) * 2 ^ t - 1).

Lemma Good_upd x y i j op ov :
  (i < length op)%nat -> (i < length ov)%nat -> (x < 2^128)%N -> (y < 2^128)%N -> x ⊕ y = gf_pow h (i + 1) ->
  (j = i \/ Good h op ov j) -> Good h (upd i x op) (upd i y ov) j.
Proof.
  intros Hp Hv Hx Hy E H. unfold Good. destruct (Nat.eq_dec i j) as [<-|Hn].
  - now rewrite !nth_upd_eq by assumption.
  - rewrite !nth_upd_ne by assumption. now destruct H as [->|H].
Qed.

Lemma pow_fuel m t : ((2 * m + 1) * 2 ^ t <= num_powers)%nat -> (t <= num_powers)%nat.
Proof. intros H. pose proof (Nat.pow_gt_lin_r 2 t). nia. Qed.

(** A new odd power and its squares. *)
Lemma shared_step n x y op ov :
  shared_upto n (op, ov) -> (2 * n < num_powers)%nat ->
  (x < 2^128)%N -> (y < 2^128)%N -> x ⊕ y = gf_pow h (2 * n + 1) ->
  shared_upto (S n) (compute_squares (2 * n) (upd (2 * n) x op), compute_squares (2 * n) (upd (2 * n) y ov)).
Proof.
  intros (Lp & Lv & G) Hn Hx Hy E. cbn [fst snd] in *.
  assert (K : forall j, j = (2 * n)%nat \/ Good h op ov j -> Good h (upd (2 * n) x op) (upd (2 * n) y ov) j)
    by (intros j; apply Good_upd; try assumption; lia).
  destruct (squares_loop_good h h_block num_powers (2 * n) (upd (2 * n) x op) (upd (2 * n) y ov)) as (H1 & H2 & H3 & H4);
    [now rewrite length_upd.. | apply K; now left |].
  split; [exact H1 | split; [exact H2|]]. intros m t Hm Hb. unfold compute_squares. cbn [fst snd].
  destruct (Nat.eq_dec m n) as [->|].
  - apply H4; [now apply pow_fuel in Hb | exact Hb].
  - apply H3, K. right. apply G; [lia | exact Hb].
Qed.

(** The power before an odd one is already shared. *)
Lemma previous_shared n out : shared_upto n out -> (0 < n)%nat -> (2 * n < num_powers)%nat ->
  Good h (fst out) (snd out) (2 * n - 1).
Proof.
  intros (_ & _ & G) Hn Hb. destruct (odd_part (2 * n - 1)) as (m & [|t] & E); [cbn in E; lia|].
  pose proof (Nat.pow_nonzero 2 t). rewrite Nat.pow_succ_r' in E.
  replace (2 * n - 1)%nat with ((2 * m + 1) * 2 ^ S t - 1)%nat by (rewrite Nat.pow_succ_r'; lia).
  apply G; [nia | rewrite Nat.pow_succ_r'; lia].
Qed.

(** The four products of a round add up to the product of the sums. *)
Lemma mixed_products op ov first_p first_v second_p second_v :
  (op < 2^128)%N -> (ov < 2^128)%N ->
  first_p ⊕ first_v = op ⊗ v_in -> second_p ⊕ second_v = p_in ⊗ ov ->
  (mul op p_in ⊕ first_p ⊕ second_p) ⊕ (mul ov v_in ⊕ first_v ⊕ second_v) = (op ⊕ ov) ⊗ h.
Proof.
  intros Hp Hv E1 E2. rewrite !mul_gf_mul by assumption.
  rewrite gf_mul_distr_l, !gf_mul_distr_r.
  rewrite (gf_mul_comm ov p_in) by assumption. rewrite <- E1, <- E2. lxor_ring.
Qed.

Lemma repeated_round_shared lns its n out out' :
  IterOk (fst its) -> IterOk (snd its) -> (0 < n)%nat -> (2 * n < num_powers)%nat -> shared_upto n out ->
  repeated_round lns its p_in v_in (2 * n) out = Some out' -> shared_upto (S n) out'.
Proof.
  intros I1 I2 Hn Hb Hs. destruct (previous_shared n out Hs Hn Hb) as (Gp & Gv & E).
  destruct out as [op ov]. cbn [fst snd] in *. unfold repeated_round.
  destruct (single_iter (fst lns) _ _ _) as [[p1|] [v1|]] eqn:S1; try discriminate.
  destruct (single_iter (snd lns) _ _ _) as [[p2|] [v2|]] eqn:S2; try discriminate.
  intros <-%some_inj.
  destruct (single_iter_product (fst its) op.[2 * n - 1] v_in I1 Gp v_lt _ p1 v1 S1) as (P1 & V1 & E1).
  destruct (single_iter_product (snd its) p_in ov.[2 * n - 1] I2 p_lt Gv _ p2 v2 S2) as (P2 & V2 & E2).
  apply shared_step; try assumption; [rewrite mul_gf_mul by assumption; auto using lxor_lt128, gf_mul_lt..|].
  rewrite (mixed_products _ _ p1 v1 p2 v2 Gp Gv E1 E2), E.
  replace (2 * n - 1 + 1)%nat with (2 * n)%nat by lia.
  now rewrite gf_pow_add, gf_pow_1 by apply h_block.
Qed.

(** A round over a working connection does not abort. *)
Lemma repeated_round_returns lns its n out :
  IterOk (fst its) -> IterOk (snd its) -> (0 < n)%nat -> (2 * n < num_powers)%nat -> shared_upto n out ->
  Delivers (fst lns) -> Delivers (snd lns) -> exists out', repeated_round lns its p_in v_in (2 * n) out = Some out'.
Proof.
  intros I1 I2 Hn Hb Hs D1 D2. destruct (previous_shared n out Hs Hn Hb) as (Gp & Gv & _).
  destruct out as [op ov]. cbn [fst snd] in *. unfold repeated_round.
  rewrite !(single_iter_accepts dg_ok) by assumption. now eexists.
Qed.

Variables (link : nat -> Link * Link) (tape : nat -> IterTape * IterTape).
Hypothesis tape_ok : forall i, IterOk (fst (tape i)) /\ IterOk (snd (tape i)).

Definition rounds (n : nat) (out : list N * list N) : option (list N * list N) :=
  fold_left (fun o i => match o with None => None | Some o => repeated_round (link i) (tape i) p_in v_in i o end)
    (map (fun k => (2 + k * 2)%nat) (seq 0 n)) (Some out).

Lemma rounds_S n out : rounds (S n) out =
  match rounds n out with Some o => repeated_round (link (2 * S n)) (tape (2 * S n)) p_in v_in (2 * S n) o | None => None end.
Proof.
  unfold rounds. rewrite seq_S, map_app, fold_left_app. cbn [map fold_left Nat.add].
  now replace (S (S (n * 2))) with (2 * S n)%nat by lia.
Qed.

Lemma rounds_shared n out out' : (2 * S n <= num_powers)%nat -> shared_upto 1 out -> rounds n out = Some out' -> shared_upto (S n) out'.
Proof.
  revert out'. induction n as [|n IH]; intros out' Hn Hs; [now intros [= <-]|]. rewrite rounds_S.
  destruct (rounds n out) as [o|]; [|discriminate]. apply repeated_round_shared; [apply tape_ok.. | lia | lia |].
  apply IH; [lia | exact Hs | reflexivity].
Qed.

Lemma rounds_return n out : (forall i, Delivers (fst (link i)) /\ Delivers (snd (link i))) ->
  (2 * S n <= num_powers)%nat -> shared_upto 1 out -> exists out', rounds n out = Some out'.
Proof.
  intros D. induction n as [|n IH]; intros Hn Hs; [now eexists|]. rewrite rounds_S.
  destruct IH as [o E]; [lia | exact Hs|]. rewrite E.
  apply repeated_round_returns; [apply tape_ok.. | lia | lia | apply (rounds_shared n out o); [lia | exact Hs | exact E] | apply D | apply D].
Qed.

Lemma shared_all out j : shared_upto 544 out -> (j < num_powers)%nat -> Good h (fst out) (snd out) j.
Proof.
  intros (_ & _ & G) Hj. destruct (odd_part j) as (m & t & E).
  replace j with ((2 * m + 1) * 2 ^ t - 1)%nat by lia. apply G; [|lia].
  pose proof (Nat.pow_nonzero 2 t). rewrite num_powers_value in *. nia.
Qed.

Lemma first_squares mem_p mem_v : length mem_p = num_powers -> length mem_v = num_powers ->
  shared_upto 1 (compute_squares 0 (upd 0 p_in mem_p), compute_squares 0 (upd 0 v_in mem_v)).
Proof.
  intros Lp Lv. apply (shared_step 0); [|rewrite num_powers_value; lia | assumption | assumption | symmetry; apply gf_pow_1].
  split; [exact Lp | split; [exact Lv|]]. intros m t Hm. lia.
Qed.

End Rounds.

(** C14: Whatever the draws, if both parties of [generate_shares_repeated]
    return, entry [j] of their arrays adds up to the [(j+1)]-th power of the
    sum of their inputs, for every [j < 1088], whatever the connection of the
    checks did; and both return (no honest run aborts) when it delivers their
    messages and the digest does not fail. *)
Theorem repeated_shares {ot : OTChannel} (ot_ok : OTCorrect) {dg : Digest} (dg_ok : DigestWorks dg)
    (link : nat -> Link * Link) (tape : nat -> IterTape * IterTape) (mem_p mem_v : list N) (p_in v_in : N) :
  (forall i, IterOk (fst (tape i)) /\ IterOk (snd (tape i))) ->
  length mem_p = num_powers -> length mem_v = num_powers ->
  (p_in < 2^128)%N -> (v_in < 2^128)%N ->
  (forall out_p out_v, generate_shares_repeated link tape mem_p mem_v p_in v_in = Some (out_p, out_v) ->
    forall j, (j < num_powers)%nat ->
      (out_p.[j] < 2^128)%N /\ (out_v.[j] < 2^128)%N /\
      out_p.[j] ⊕ out_v.[j] = gf_pow (p_in ⊕ v_in) (j + 1)) /\
  ((forall i, Delivers (fst (link i)) /\ Delivers (snd (link i))) ->
    exists out_p out_v, generate_shares_repeated link tape mem_p mem_v p_in v_in = Some (out_p, out_v)).
Proof.
  intros Ht Lp Lv Hp Hv. pose proof (first_squares p_in v_in Hp Hv mem_p mem_v Lp Lv) as H1.
  assert (Hn : (2 * 544 <= num_powers)%nat) by (rewrite num_powers_value; lia).
  split; [intros op ov E | intros D].
  - intros j Hj. exact (shared_all p_in v_in Hp Hv (op, ov) j (rounds_shared p_in v_in Hp Hv link tape Ht 543 _ _ Hn H1 E) Hj).
  - destruct (rounds_return dg_ok p_in v_in Hp Hv link tape Ht 543 _ D Hn H1) as [[op ov] E]. now exists op, ov.
Qed.

(** ** What the check accepts *)

(** C35: Whatever pairs the sender puts into the transfer and whatever [u] it
    sends along with the digest of its rows, the receiver accepts if all the
    pairs it selected differ by [u] under the challenge and the connection
    works.  If it accepts, over any connection, they do, or the rows that it
    computed and those that the sender committed to are two different strings
    with the same digest: a sender that uses another input in a selected row
    is caught, or has broken the digest on exactly these rows.  A verdict that
    it writes is the one that it returns. *)
Theorem check_consistency_binding {ot : OTChannel} (ot_ok : OTCorrect) {dg : Digest} (ln : Link)
    (omega pads m1 : list N) (chi : N * N) (u : N) (hash : list N) :
  length omega = 4%nat -> length pads = number_of_ots -> blocks pads -> length m1 = number_of_ots -> blocks m1 ->
  (fst chi < 2^128)%N -> (snd chi < 2^128)%N -> (u < 2^128)%N ->
  evp_digest (block_bytes (rows_sent pads chi)) = Some hash ->
  let bits := get_choice_bits omega in
  let check := check_consistency ln (hash, u) (play_receiver pads m1 bits) chi bits in
  let seen := block_bytes (rows_checked omega pads m1 chi u) in
  let sent := block_bytes (rows_sent pads chi) in
  (Delivers ln -> rows_consistent omega pads m1 chi u -> snd check = true) /\
  (snd check = true -> rows_consistent omega pads m1 chi u \/ (seen <> sent /\ evp_digest seen = evp_digest sent)) /\
  (fst check = None \/ fst check = Some (snd check)).
Proof.
  intros Ho Lp Bp Lm Bm C0 C1 Hu Eh bits check seen sent. fold sent in Eh.
  pose proof (rows_equal omega pads m1 chi u Ho (conj Lp Bp) (conj Lm Bm) (conj C0 C1) Hu) as Eq.
  unfold check, check_consistency. cbn [fst snd]. change (check_rows u _ chi bits) with (rows_checked omega pads m1 chi u). fold seen.
  set (correct := match evp_digest seen with Some _ => _ | None => _ end).
  assert (Ev : correct = true <-> evp_digest seen = Some hash).
  { unfold correct. destruct (evp_digest seen) as [h|]; [|split; discriminate].
    destruct (list_eq_dec N.eq_dec hash h) as [->|Hn]; split; congruence. }
  assert (Snd : correct = true ->
    rows_consistent omega pads m1 chi u \/ (seen <> sent /\ evp_digest seen = evp_digest sent)).
  { intros Ec%Ev. rewrite Eq.
    destruct (list_eq_dec N.eq_dec (rows_checked omega pads m1 chi u) (rows_sent pads chi)) as [E|Hn]; [now left|right].
    split; [|congruence]. intros E. apply Hn.
    apply block_bytes_inj; [apply rows_checked_blocks | apply rows_sent_blocks | exact E]; auto. }
  destruct (read_proof ln =? size_of_proof)%Z eqn:E1, (write_verdict ln =? size_of_verdict)%Z eqn:E2; cbn [negb fst snd];
    (split; [intros [D1 D2 D3 D4]; rewrite ?D2, ?D3 in *; try discriminate | split; [try discriminate; auto | auto]]).
  intros Hr%Eq. apply Ev. unfold seen. now rewrite Hr.
Qed.

(** The sender looks at the verdict only when its read returned 0: after a read
    that failed with a negative result it returns what was in the variable. *)
Theorem failed_verdict_read_ignored {dg : Digest} (ln : Link) answer alpha alpha_hat t_a chi hash :
  evp_digest (block_bytes (proof_rows t_a chi)) = Some hash -> write_proof ln = size_of_proof -> (read_verdict ln < 0)%Z ->
  snd (prove_consistency ln answer alpha alpha_hat t_a chi) = stale_worked ln.
Proof.
  intros Eh Ew Hr. unfold prove_consistency. rewrite Eh, Ew. cbn [Z.eqb Pos.eqb size_of_proof negb].
  rewrite !(proj2 (Z.eqb_neq _ _)) by (unfold size_of_verdict; lia). now destruct (answer _).
Qed.

(** ** A concrete run *)

Definition sha_digest : Digest := fun m => Some (SHA2.sha256 m).

Lemma sha_digest_works : DigestWorks sha_digest.
Proof. intros m. eexists. reflexivity. Qed.

Definition simple_iter : IterTape := {|
  it_gadget := repeat 3%N gadget_elements; it_gamma := [1; 2; 3]%N; it_pads := repeat 5%N number_of_ots;
  it_alpha_hat := 7%N; it_chi := 9%N; it_chi_hat := 11%N |}.

Lemma simple_iter_ok : IterOk simple_iter.
Proof.
  split; cbn [it_gadget it_gamma it_pads it_alpha_hat it_chi it_chi_hat simple_iter].
  - split; [apply repeat_length | now apply blocks_repeat].
  - split; [reflexivity | now repeat constructor].
  - split; [apply repeat_length | now apply blocks_repeat].
  - reflexivity.
  - now split.
Qed.

(** A connection that works, and one whose last read fails. *)
Definition good_link : Link := {| write_proof := 48%Z; read_proof := 48%Z; write_verdict := 1%Z; read_verdict := 1%Z; stale_worked := false |}.
Definition cut_link : Link := {| write_proof := 48%Z; read_proof := 48%Z; write_verdict := 1%Z; read_verdict := (-1)%Z; stale_worked := true |}.

Lemma repeated_shares_witness :
  exists out_p out_v,
    @generate_shares_repeated ideal_ot sha_digest (fun _ => (good_link, good_link)) (fun _ => (simple_iter, simple_iter))
      (repeat 0%N num_powers) (repeat 0%N num_powers) 5 9 = Some (out_p, out_v) /\
    forall j, (j < num_powers)%nat ->
      (out_p.[j] < 2^128)%N /\ (out_v.[j] < 2^128)%N /\
      out_p.[j] ⊕ out_v.[j] = gf_pow (5 ⊕ 9) (j + 1).
Proof.
  destruct (@repeated_shares ideal_ot ideal_ot_correct sha_digest sha_digest_works (fun _ => (good_link, good_link))
    (fun _ => (simple_iter, simple_iter)) (repeat 0%N num_powers) (repeat 0%N num_powers) 5 9) as [Hs Hr].
  - intros i. split; exact simple_iter_ok.
  - apply repeat_length.
  - apply repeat_length.
  - reflexivity.
  - reflexivity.
  - destruct Hr as (op & ov & E); [intros i; now split|]. exists op, ov. split; [exact E | exact (Hs op ov E)].
Defined.

(** A sender that offers two equal entries in every row and sends [u = 1]. *)
Lemma check_consistency_binding_witness :
  let omega := [1; 0; 0; 0]%N in let pads := repeat 5%N number_of_ots in
  let bits := get_choice_bits omega in
  exists hash,
  let check := @check_consistency sha_digest good_link (hash, 1%N) (@play_receiver ideal_ot pads pads bits) (1, 0)%N bits in
  let seen := block_bytes (@rows_checked ideal_ot omega pads pads (1, 0)%N 1) in
  let sent := block_bytes (rows_sent pads (1, 0)%N) in
  (Delivers good_link -> rows_consistent omega pads pads (1, 0)%N 1 -> snd check = true) /\
  (snd check = true -> rows_consistent omega pads pads (1, 0)%N 1 \/
    (seen <> sent /\ @evp_digest sha_digest seen = @evp_digest sha_digest sent)) /\
  (fst check = None \/ fst check = Some (snd check)).
Proof.
  intros omega pads bits. eexists.
  apply (@check_consistency_binding ideal_ot ideal_ot_correct sha_digest good_link);
    [reflexivity | apply repeat_length | now apply blocks_repeat | apply repeat_length | now apply blocks_repeat
    | reflexivity | reflexivity | reflexivity |]. reflexivity.
Defined.
