(* ===== verification/CircuitHkdf.v ===== *)
(** * Hashing and key derivation on wires ([2pc/CircuitSynthesis.cpp])

    The routines that the generators of the key-derivation circuits call:
    SHA-256 around the block circuit that is loaded from a file, HMAC, and
    HKDF with the labels of TLS 1.3.  The block circuit is the parameter
    [Sha256Circuit]; on the bits of byte strings the routines compute what the
    standards define ([Sha256.v]). *)

From Stdlib Require Import String Ascii.
From S2P Require Import Prelude Messaging Util GHash Arrays CircuitWires Sha256.
From Stdlib Require Import List.
Import ListNotations Util Wires ByteString.
#[local] Abbreviation length := List.length.
Local Open Scope N_scope.

(** [BristolFormat::compute] of the SHA-256 file: 512 message wires and 256
    digest wires to 256 digest wires. *)
Class Sha256Circuit := sha_compute : list bool -> list bool.

Module CircuitSynthesis.

(** ** Orders *)

(** The wires of each byte, reversed. *)
Definition change_endian (inp : list bool) : list bool :=
  tabulate (length inp) (fun k => wire inp (k / 8 * 8 + (7 - k mod 8))).

(** The bytes of each word, reversed. *)
Definition change_endian_four (inp : list bool) : list bool :=
  tabulate 256 (fun k => wire inp (k / 32 * 32 + (3 - k mod 32 / 8) * 8 + k mod 8)).

(** Both, over the whole input. *)
Definition rearrange_sum_bits (sum : list bool) : list bool := rev (change_endian sum).

(** ** SHA-256 *)

Definition get_K (len : nat) : nat := ((512 - (len + 1 + 64) mod 512) mod 512)%nat.
Definition get_padded_len (len : nat) : nat := (len + 1 + get_K len + 64)%nat.

Definition padding (inp : list bool) : list bool :=
  let len := length inp in
  inp ++ [true] ++ repeat false (get_K len + 48) ++
  tabulate 16 (fun i => negb (N.land (N.of_nat len) (N.shiftl 1 (N.of_nat (16 - 1 - i))) =? 0)).

(** Low bit first; [w] bits for each entry. *)
Definition entry_bits (w : nat) (x : N) : list bool := tabulate w (fun j => N.testbit x (N.of_nat j)).
Definition arr_to_block (w : nat) (arr : list N) : list bool := flat_map (entry_bits w) arr.

Definition digest : list N := [
  0x6a09e667; 0xbb67ae85; 0x3c6ef372; 0xa54ff53a; 0x510e527f; 0x9b05688c; 0x1f83d9ab; 0x5be0cd19].
Definition produce_digest_bits : list bool := arr_to_block 32 digest.

Section Routines.
Context `{Sha256Circuit}.

Definition sha256 (inp : list bool) : list bool :=
  let input_new := change_endian inp in
  let padded_input := padding input_new in
  let num_blocks := (get_padded_len (length inp) / 512)%nat in
  let digest_bits := fold_left (fun digest_bits b => sha_compute (slice (512 * b) 512 padded_input ++ digest_bits))
    (seq 0 num_blocks) produce_digest_bits in
  change_endian_four digest_bits.

(** ** HMAC *)

Definition create_array (value : N) : list N := repeat value 64.

Definition input_key_xor (out key : list bool) : list bool :=
  tabulate (length out) (fun i => if (i <? length key)%nat then xor_gate (wire out i) (wire key i) else wire out i).

Definition hmac (key data : list bool) : list bool :=
  let input_to_hash_function := input_key_xor (arr_to_block 8 (create_array 0x36)) key ++ data in
  let second := sha256 input_to_hash_function in
  sha256 (input_key_xor (arr_to_block 8 (create_array 0x5c)) key ++ second).

(** ** HKDF *)

Definition hkdf_extract (salt ikm : list bool) : list bool :=
  if (length salt =? 0)%nat then hmac (repeat false 256) ikm else hmac salt ikm.

(** The iterations from [i] on; the copy stops at the end of the output. *)
Fixpoint expand_loop (n : nat) (key info : list bool) (i : N) (cur_T out : list bool) (output_byte_len : nat)
  : list bool :=
  match n with
  | O => out
  | S n =>
      let cur_T := hmac key (cur_T ++ info ++ entry_bits 8 i) in
      let out := out ++ firstn (output_byte_len * 8 - (N.to_nat i - 1) * 256) cur_T in
      if (output_byte_len * 8 <? N.to_nat i * 256)%nat then out
      else expand_loop n key info (i + 1) cur_T out output_byte_len
  end.

Definition hkdf_expand (key info : list bool) (output_byte_len : nat) : list bool :=
  let N_ := ((output_byte_len + 31) / 32)%nat in
  let cur_T := hmac key (info ++ true :: repeat false 7) in
  if (output_byte_len <? 32)%nat then firstn (8 * output_byte_len) cur_T
  else if (N_ =? 1)%nat then cur_T
  else expand_loop (N_ - 1) key info 2 cur_T cur_T output_byte_len.

(** [copy_loop]: a byte at an offset; the label is filled in order but for
    the two bytes of the length. *)
Definition copy_loop (value : N) : list bool := entry_bits 8 value.

Definition hkdf_label (label : string) (context : list bool) (output_byte_len : nat) : list bool :=
  let long_label := map N_of_ascii (list_ascii_of_string (String.append "tls13 "%string label)) in
  copy_loop (N.shiftr (N.of_nat output_byte_len) 8) ++ copy_loop (N.of_nat output_byte_len) ++
  copy_loop (wrap 8 (size long_label)) ++ flat_map copy_loop long_label ++
  copy_loop (wrap 8 (N.of_nat (length context / 8))) ++ context.

Definition hkdf_expand_label (key : list bool) (label : string) (context : list bool) (output_byte_len : nat)
  : list bool :=
  hkdf_expand key (hkdf_label label context output_byte_len) output_byte_len.

End Routines.
End CircuitSynthesis.
Import CircuitSynthesis.

(** ** Bytes, most significant bit first *)

Definition msb_byte (b : N) : list bool := tabulate 8 (fun j => N.testbit b (N.of_nat (7 - j))).
Definition msb (bs : list N) : list bool := flat_map msb_byte bs.

Lemma length_msb bs : length (msb bs) = (length bs * 8)%nat.
Proof. apply length_flat_map_const. intros. apply length_tabulate. Qed.

Lemma msb_app a b : msb (a ++ b) = msb a ++ msb b.
Proof. apply flat_map_app. Qed.

(** Positions [8 i + j]. *)
Lemma div_mod_8 i j : (j < 8)%nat -> ((i * 8 + j) / 8 = i /\ (i * 8 + j) mod 8 = j)%nat.
Proof.
  intros Hj. rewrite (Nat.add_comm (i * 8)), Nat.div_add, Nat.Div0.mod_add, Nat.div_small, Nat.mod_small by lia.
  now split.
Qed.

Lemma change_endian_bits bs : change_endian (bits bs) = msb bs.
Proof.
  apply (nth_ext _ _ false false); unfold change_endian; rewrite length_tabulate, length_bits; [now rewrite length_msb|].
  intros k Hk. pose proof (Nat.div_mod_eq k 8) as E. rewrite Nat.mul_comm in E.
  pose proof (Nat.mod_upper_bound k 8 ltac:(lia)) as Hm. set (i := (k / 8)%nat) in *. set (j := (k mod 8)%nat) in *.
  rewrite nth_tabulate by exact Hk. fold i j. rewrite E. unfold msb.
  rewrite (nth_flat_map _ 8 _ _ _ 0) by (intros; apply length_tabulate || lia).
  rewrite wire_bits by lia. unfold msb_byte. now rewrite nth_tabulate.
Qed.

(** Bytes of a stretch of the wires. *)
Lemma slice_msb bs i n : slice (8 * i) (8 * n) (msb bs) = msb (firstn n (skipn i bs)).
Proof.
  unfold slice, msb. revert i n. induction bs as [|b bs IH]; intros i n.
  - now rewrite skipn_nil, !firstn_nil, skipn_nil, firstn_nil.
  - assert (L : length (msb_byte b) = 8%nat) by reflexivity. destruct i as [|i].
    + rewrite Nat.mul_0_r. destruct n as [|n]; [reflexivity|]. cbn [skipn flat_map firstn].
      rewrite firstn_app, firstn_all2 by lia. f_equal. rewrite L.
      replace (8 * S n - 8)%nat with (8 * n)%nat by lia. exact (IH 0%nat n).
    + cbn [flat_map]. rewrite skipn_app, skipn_all2 by lia. rewrite L.
      replace (8 * S i - 8)%nat with (8 * i)%nat by lia. exact (IH i n).
Qed.

(** *** Padding *)

Lemma K_bytes n : get_K (n * 8) = (7 + 8 * ((64 - (n + 9) mod 64) mod 64))%nat.
Proof.
  unfold get_K. pose proof (Nat.div_mod_eq (n + 9) 64) as E. set (q := ((n + 9) / 64)%nat) in *.
  pose proof (Nat.mod_upper_bound (n + 9) 64 ltac:(lia)) as B. set (m := ((n + 9) mod 64)%nat) in *.
  destruct (Nat.eq_dec m 0) as [Hm|Hm].
  - replace (n * 8 + 1 + 64)%nat with (505 + (q - 1) * 512)%nat by lia.
    rewrite Nat.Div0.mod_add, (Nat.mod_small 505) by lia. rewrite Hm. reflexivity.
  - replace (n * 8 + 1 + 64)%nat with (8 * m - 7 + q * 512)%nat by lia.
    rewrite Nat.Div0.mod_add, (Nat.mod_small (8 * m - 7)) by lia. rewrite !Nat.mod_small by lia. lia.
Qed.

Lemma msb_zeros n : msb (repeat 0 n) = repeat false (8 * n).
Proof.
  induction n as [|n IH]; [reflexivity|]. replace (8 * S n)%nat with (8 + 8 * n)%nat by lia.
  rewrite repeat_app, <- IH. reflexivity.
Qed.


Lemma land_bit v n : negb (N.land v (N.shiftl 1 n) =? 0) = N.testbit v n.
Proof.
  rewrite N.shiftl_1_l, N.land_comm.
  assert (E : N.land (2 ^ n) v = if N.testbit v n then 2 ^ n else 0).
  { apply N.bits_inj. intros m. rewrite N.land_spec, N.pow2_bits_eqb.
    destruct (N.eqb_spec n m) as [<-|Hn]; [destruct (N.testbit v n); rewrite ?N.pow2_bits_true, ?N.bits_0; reflexivity|].
    destruct (N.testbit v n); rewrite ?N.pow2_bits_false, ?N.bits_0 by congruence; reflexivity. }
  rewrite E. destruct (N.testbit v n); [|reflexivity].
  apply negb_true_iff, N.eqb_neq, N.pow_nonzero. discriminate.
Qed.

Lemma msb_be n v k : (k < n * 8)%nat -> wire (msb (SHA2.be_bytes n v)) k = N.testbit v (N.of_nat (n * 8 - 1 - k)).
Proof.
  intros Hk. pose proof (Nat.div_mod_eq k 8) as E. rewrite Nat.mul_comm in E.
  pose proof (Nat.mod_upper_bound k 8 ltac:(lia)) as Hm. set (i := (k / 8)%nat) in *. set (j := (k mod 8)%nat) in *.
  rewrite E at 1. unfold msb. rewrite (nth_flat_map _ 8 _ _ _ 0) by (intros; rewrite ?length_be; reflexivity || lia).
  unfold msb_byte, SHA2.be_bytes. rewrite !nth_tabulate by lia.
  rewrite wrap_spec, N.shiftr_spec', (proj2 (N.ltb_lt _ _)), andb_true_r by lia. f_equal. lia.
Qed.

Lemma msb_length v : v < 2 ^ 16 ->
  msb (SHA2.be_bytes 8 v) =
  repeat false 48 ++ tabulate 16 (fun i => negb (N.land v (N.shiftl 1 (N.of_nat (16 - 1 - i))) =? 0)).
Proof.
  intros Hv. apply (nth_ext _ _ false false); [now rewrite length_msb, length_app, length_tabulate|].
  rewrite length_msb, length_be. intros k Hk. rewrite msb_be by exact Hk.
  destruct (Nat.lt_ge_cases k 48) as [H|H].
  - rewrite app_nth1, nth_repeat by (rewrite repeat_length; exact H). apply (testbit_high _ 16); [exact Hv | lia].
  - rewrite app_nth2, repeat_length, nth_tabulate, land_bit by (rewrite ?repeat_length; lia). f_equal. lia.
Qed.

(** The padding of the standard, for messages whose length fits 16 bits. *)
Lemma padding_msb bs : 8 * size bs < 2 ^ 16 -> padding (msb bs) = msb (SHA2.pad bs).
Proof.
  intros Hl. unfold padding, SHA2.pad. rewrite !msb_app, length_msb, K_bytes, msb_zeros, msb_length by exact Hl.
  f_equal. change (msb [128]) with (true :: repeat false 7). cbn [app]. f_equal.
  replace (N.of_nat (length bs * 8)) with (8 * size bs) by (unfold size; lia).
  rewrite !app_assoc, <- !repeat_app. do 2 f_equal.
Qed.

(** ** The block circuit

    Message wires most significant bit first, digest words least significant
    bit first. *)
Class Sha256Ok (sc : Sha256Circuit) : Prop :=
  sha_block : forall st blk, length st = 8%nat -> Forall (fun w => w < 2 ^ 32) st -> arr 64 blk ->
    sha_compute (msb blk ++ arr_to_block 32 st) = arr_to_block 32 (SHA2.compress st blk).

Lemma compress_state st blk :
  length (SHA2.compress st blk) = 8%nat /\ Forall (fun w => w < 2 ^ 32) (SHA2.compress st blk).
Proof.
  unfold SHA2.compress. split; [apply length_tabulate|]. apply Forall_forall. intros w Hw.
  apply in_map_iff in Hw as (i & <- & _). apply (wrap_lt 32).
Qed.

(** Digest words to bytes. *)
Lemma wire_words st k : (k < length st * 32)%nat ->
  wire (arr_to_block 32 st) k = N.testbit st.[k / 32] (N.of_nat (k mod 32)).
Proof.
  intros Hk. pose proof (Nat.div_mod_eq k 32) as E. rewrite Nat.mul_comm in E.
  pose proof (Nat.mod_upper_bound k 32 ltac:(lia)) as Hm. rewrite E at 1. unfold arr_to_block.
  rewrite (nth_flat_map _ 32 _ _ _ 0).
  - unfold entry_bits. now rewrite nth_tabulate.
  - intros. apply length_tabulate.
  - exact Hm.
  - apply Nat.Div0.div_lt_upper_bound. lia.
Qed.

Lemma change_endian_four_words st : length st = 8%nat ->
  change_endian_four (arr_to_block 32 st) = bits (flat_map (SHA2.be_bytes 4) st).
Proof.
  intros L. apply bits_ext.
  - unfold change_endian_four. rewrite length_tabulate, (length_flat_map_const _ 4) by (intros; apply length_be). now rewrite L.
  - rewrite (length_flat_map_const _ 4), L by (intros; apply length_be). intros i j Hi Hj.
    unfold change_endian_four. rewrite nth_tabulate by lia.
    pose proof (Nat.div_mod_eq i 4) as E. rewrite Nat.mul_comm in E.
    pose proof (Nat.mod_upper_bound i 4 ltac:(lia)) as Hm. set (q := (i / 4)%nat) in *. set (r := (i mod 4)%nat) in *.
    assert (E32 : (i * 8 + j = q * 32 + (r * 8 + j))%nat) by lia.
    assert (D : ((i * 8 + j) / 32 = q)%nat) by (symmetry; apply (Nat.div_unique _ 32 q (r * 8 + j)); lia).
    assert (M : ((i * 8 + j) mod 32 = r * 8 + j)%nat) by (symmetry; apply (Nat.mod_unique _ 32 q); lia).
    rewrite D, M, (proj1 (div_mod_8 r j Hj)), (proj2 (div_mod_8 i j Hj)).
    set (p := ((3 - r) * 8 + j)%nat). replace (q * 32 + (3 - r) * 8 + j)%nat with (q * 32 + p)%nat by (unfold p; lia).
    assert (Hp : (p < 32)%nat) by (unfold p; lia).
    rewrite wire_words by (rewrite L; lia).
    rewrite <- (Nat.div_unique (q * 32 + p) 32 q p), <- (Nat.mod_unique (q * 32 + p) 32 q p) by lia.
    rewrite E, (nth_flat_map _ 4 _ _ _ 0) by (intros; rewrite ?length_be, ?L; reflexivity || lia).
    unfold SHA2.be_bytes. rewrite nth_tabulate, wrap_spec, N.shiftr_spec', (proj2 (N.ltb_lt _ _)), andb_true_r by lia.
    f_equal. unfold p. lia.
Qed.

Lemma pad_bytes bs : bytes bs -> bytes (SHA2.pad bs).
Proof.
  intros Hb. unfold SHA2.pad. repeat (apply Forall_app; split); try assumption.
  - repeat constructor.
  - apply arr_repeat.
  - apply be_bytes_arr.
Qed.

Lemma padded_len bs : get_padded_len (length bs * 8) = (8 * length (SHA2.pad bs))%nat.
Proof.
  unfold get_padded_len, SHA2.pad. rewrite K_bytes, !length_app, repeat_length, length_be. cbn [length]. lia.
Qed.

Lemma fold_left_map {A B C} (f : A -> B -> A) (g : C -> B) xs : forall a,
  fold_left f (map g xs) a = fold_left (fun a x => f a (g x)) xs a.
Proof. induction xs as [|x xs IH]; intros a; [reflexivity | apply IH]. Qed.

Section Hash.
Context {sc : Sha256Circuit} {sok : Sha256Ok sc}.

(** The digests of the loop. *)
Lemma blocks_loop (p : list N) js : bytes p -> (forall j, In j js -> (64 * j + 64 <= length p)%nat) -> forall st,
  length st = 8%nat -> Forall (fun w => w < 2 ^ 32) st ->
  let st' := fold_left (fun st j => SHA2.compress st (firstn 64 (skipn (64 * j) p))) js st in
  fold_left (fun d b => sha_compute (slice (512 * b) 512 (msb p) ++ d)) js (arr_to_block 32 st) = arr_to_block 32 st' /\
  length st' = 8%nat.
Proof.
  intros Hp. induction js as [|j js IH]; intros Hj st L B; [now split|]. cbn [fold_left].
  replace (slice (512 * j) 512 (msb p)) with (msb (firstn 64 (skipn (64 * j) p)))
    by (replace (512 * j)%nat with (8 * (64 * j))%nat by lia; symmetry; apply (slice_msb p (64 * j) 64)).
  rewrite sha_block.
  - apply IH; [intros; apply Hj; now right | apply compress_state..].
  - exact L.
  - exact B.
  - split; [|now apply bytes_firstn, bytes_skipn]. rewrite length_firstn, length_skipn.
    specialize (Hj j (or_introl eq_refl)). lia.
Qed.

Lemma sha256_bits bs : bytes bs -> 8 * size bs < 2 ^ 16 -> sha256 (bits bs) = bits (SHA2.sha256 bs).
Proof.
  intros Hb Hl. unfold sha256. rewrite change_endian_bits, padding_msb, length_bits, padded_len by exact Hl.
  assert (Eq : (8 * length (SHA2.pad bs) / 512 = length (SHA2.pad bs) / 64)%nat)
    by exact (Nat.Div0.div_mul_cancel_l (length (SHA2.pad bs)) 64 8 ltac:(discriminate)).
  rewrite Eq. unfold SHA2.sha256, SHA2.blocks, tabulate. rewrite fold_left_map.
  destruct (blocks_loop (SHA2.pad bs) (seq 0 (length (SHA2.pad bs) / 64)) (pad_bytes bs Hb)) with (st := SHA2.H0)
    as [E L].
  - intros j Hj%in_seq. pose proof (Nat.Div0.mul_div_le (length (SHA2.pad bs)) 64). nia.
  - reflexivity.
  - repeat constructor.
  - unfold produce_digest_bits. change digest with SHA2.H0. rewrite E. now apply change_endian_four_words.
Qed.

Lemma sha256_arr bs : arr 32 (SHA2.sha256 bs).
Proof.
  unfold SHA2.sha256. set (st := fold_left _ _ _).
  assert (L : length st = 8%nat).
  { unfold st. generalize (SHA2.blocks (SHA2.pad bs)) as blks. intros blks.
    assert (H : length SHA2.H0 = 8%nat) by reflexivity. revert H. generalize SHA2.H0.
    induction blks as [|b blks IH]; intros h H; [exact H|]. apply IH, compress_state. }
  split; [now rewrite (length_flat_map_const _ 4), L by (intros; apply length_be)|].
  apply Forall_flat_map, Forall_forall. intros w _. apply be_bytes_arr.
Qed.

Lemma arr_to_block_bits bs : arr_to_block 8 bs = bits bs.
Proof.
  unfold arr_to_block. apply bits_ext; [apply length_flat_map_const; intros; apply length_tabulate|].
  intros i j Hi Hj. rewrite (nth_flat_map _ 8 _ _ _ 0) by (intros; apply length_tabulate || assumption).
  unfold entry_bits. now rewrite nth_tabulate.
Qed.

Lemma entry_bits_bits b : entry_bits 8 b = bits [b].
Proof. rewrite <- arr_to_block_bits. unfold arr_to_block. cbn [flat_map]. now rewrite app_nil_r. Qed.

(** ** HMAC *)

Lemma key_xor_bits c key : (length key <= 64)%nat -> c < 256 ->
  input_key_xor (arr_to_block 8 (create_array c)) (bits key) = bits (KDF.xor_pad c key).
Proof.
  intros Lk Hc. rewrite arr_to_block_bits. unfold create_array.
  apply bits_ext; unfold input_key_xor, KDF.xor_pad; rewrite !length_tabulate, length_bits, ?repeat_length; [reflexivity|].
  intros i j Hi Hj. rewrite !nth_tabulate, length_bits by lia.
  rewrite wire_bits by (rewrite ?repeat_length; lia). rewrite nth_repeat_lt by lia. rewrite N.lxor_spec.
  destruct (Nat.ltb_spec (i * 8 + j) (length key * 8)) as [H|H].
  - now rewrite wire_bits by lia.
  - rewrite (nth_overflow key) by lia. now rewrite N.bits_0, xorb_false_r.
Qed.

Lemma xor_pad_arr c key : c < 256 -> bytes key -> arr 64 (KDF.xor_pad c key).
Proof. intros Hc Hk. apply arr_tabulate. intros. apply lxor_byte; [exact Hc | now apply bytes_at]. Qed.

Lemma hmac_bits key data : bytes key -> bytes data -> (length key <= 64)%nat -> 8 * (64 + size data) < 2 ^ 16 ->
  hmac (bits key) (bits data) = bits (KDF.hmac key data).
Proof.
  intros Hk Hd Lk Ld. unfold hmac, KDF.hmac.
  assert (P : forall c, c < 256 -> bytes (KDF.xor_pad c key)) by (intros; now apply xor_pad_arr).
  assert (S : forall c, size (KDF.xor_pad c key) = 64) by (intros; unfold size, KDF.xor_pad; now rewrite length_tabulate).
  rewrite !key_xor_bits by (lia || exact Lk). rewrite <- bits_app, sha256_bits.
  - rewrite <- bits_app, sha256_bits; [reflexivity| |].
    + apply Forall_app. split; [now apply P | apply sha256_arr].
    + unfold size in *. rewrite length_app, Nat2N.inj_add, S, (proj1 (sha256_arr _)). reflexivity.
  - apply Forall_app. split; [now apply P | exact Hd].
  - unfold size in *. rewrite length_app, Nat2N.inj_add, S. exact Ld.
Qed.

Lemma hmac_arr key data : arr 32 (KDF.hmac key data).
Proof. apply sha256_arr. Qed.

(** ** HKDF *)

Lemma hkdf_extract_bits salt ikm : bytes salt -> bytes ikm -> (0 < length salt <= 64)%nat -> 8 * (64 + size ikm) < 2 ^ 16 ->
  hkdf_extract (bits salt) (bits ikm) = bits (KDF.extract salt ikm).
Proof.
  intros Hs Hi Ls Li. unfold hkdf_extract. rewrite length_bits.
  rewrite (proj2 (Nat.eqb_neq _ _)) by lia. apply hmac_bits; (assumption || lia).
Qed.

(** An empty salt stands for zeros, which HMAC pads alike. *)
Lemma hkdf_extract_nil ikm : bytes ikm -> 8 * (64 + size ikm) < 2 ^ 16 ->
  hkdf_extract [] (bits ikm) = bits (KDF.extract [] ikm).
Proof.
  intros Hi Li. unfold hkdf_extract. cbn [length Nat.eqb]. change (repeat false 256) with (bits (repeat 0 32)).
  rewrite hmac_bits; [|apply arr_repeat | exact Hi | rewrite repeat_length; lia | exact Li]. reflexivity.
Qed.

(** The outputs of the iterations, concatenated. *)
Lemma expand_from_length prk info n : forall prev k, length (KDF.expand_from n prk info prev k) = (32 * n)%nat.
Proof.
  induction n as [|n IH]; intros prev k; [reflexivity|]. cbn [KDF.expand_from]. rewrite length_app, IH.
  rewrite (proj1 (hmac_arr _ _)). lia.
Qed.

Lemma expand_from_bytes prk info n : forall prev k, bytes (KDF.expand_from n prk info prev k).
Proof.
  induction n as [|n IH]; intros prev k; [constructor|]. cbn [KDF.expand_from]. apply Forall_app.
  split; [apply hmac_arr | apply IH].
Qed.

Lemma firstn_bits n bs : firstn (n * 8) (bits bs) = bits (firstn n bs).
Proof.
  revert n. induction bs as [|b bs IH]; intros n; [now rewrite !firstn_nil|].
  destruct n as [|n]; [reflexivity|]. change (bits (b :: bs)) with (unpack_bits 8 b ++ bits bs).
  change (bits (firstn (S n) (b :: bs))) with (unpack_bits 8 b ++ bits (firstn n bs)). rewrite <- IH.
  rewrite firstn_app, length_unpack_bits, firstn_all2 by (rewrite length_unpack_bits; lia).
  do 2 f_equal. lia.
Qed.

Section Expand.
Variables (prk info : list N).
Hypothesis prk_ok : bytes prk.
Hypothesis info_ok : bytes info.
Hypothesis prk_short : (length prk <= 64)%nat.
Hypothesis info_short : 8 * (64 + 32 + size info + 1) < 2 ^ 16.

Lemma expand_loop_bits L n : forall i t out,
  (N.to_nat i + n - 1 = (L + 31) / 32)%nat -> (2 <= i) -> i + N.of_nat n <= 256 -> arr 32 t ->
  expand_loop n (bits prk) (bits info) i (bits t) (bits out) L =
  bits (out ++ firstn (L - (N.to_nat i - 1) * 32) (KDF.expand_from n prk info t i)).
Proof.
  induction n as [|n IH]; intros i t out Hn Hi Hb Ht; cbn [expand_loop KDF.expand_from].
  - now rewrite firstn_nil, app_nil_r.
  - rewrite entry_bits_bits, <- !bits_app, hmac_bits.
    2: exact prk_ok.
    2: { repeat (apply Forall_app; split); [apply Ht | exact info_ok | constructor; [lia | constructor]]. }
    2: exact prk_short.
    2: { unfold size in *. rewrite !length_app, (proj1 Ht). cbn [length]. lia. }
    set (t' := KDF.hmac prk (t ++ info ++ [i])). assert (Ht' : arr 32 t') by apply hmac_arr.
    replace (L * 8 - (N.to_nat i - 1) * 256)%nat with ((L - (N.to_nat i - 1) * 32) * 8)%nat by lia.
    rewrite firstn_bits, <- bits_app. rewrite firstn_app, (proj1 Ht').
    destruct (Nat.ltb_spec (L * 8) (N.to_nat i * 256)) as [H|H].
    + replace (L - (N.to_nat i - 1) * 32 - 32)%nat with 0%nat by lia. now rewrite firstn_O, app_nil_r.
    + rewrite IH by (lia || exact Ht'). f_equal. rewrite <- app_assoc. do 2 f_equal.
      f_equal. lia.
Qed.

Lemma hkdf_expand_bits L : (L <= 255 * 32)%nat ->
  hkdf_expand (bits prk) (bits info) L = bits (KDF.expand prk info L).
Proof.
  intros HL. unfold hkdf_expand, KDF.expand. change (true :: repeat false 7) with (bits [1]).
  rewrite <- bits_app, hmac_bits.
  2: exact prk_ok.
  2: { apply Forall_app. split; [exact info_ok | repeat constructor]. }
  2: exact prk_short.
  2: { unfold size in *. rewrite length_app. cbn [length]. lia. }
  set (t := KDF.hmac prk (info ++ [1])). assert (Ht : arr 32 t) by apply hmac_arr.
  pose proof (Nat.div_mod_eq (L + 31) 32) as E. pose proof (Nat.mod_upper_bound (L + 31) 32 ltac:(lia)) as Hm.
  destruct (Nat.ltb_spec L 32) as [H|H].
  - rewrite Nat.mul_comm, firstn_bits. f_equal. destruct ((L + 31) / 32)%nat as [|[|n]] eqn:Q; [|cbn|lia].
    + replace L with 0%nat by lia. now rewrite firstn_O.
    + rewrite app_nil_r. reflexivity.
  - destruct ((L + 31) / 32)%nat as [|n] eqn:Q; [lia|]. cbn [KDF.expand_from app]. fold t.
    destruct (Nat.eqb_spec (S n) 1) as [Hn|Hn].
    + assert (n = 0%nat) as -> by lia. cbn [KDF.expand_from]. rewrite app_nil_r, firstn_all2; [reflexivity|].
      rewrite (proj1 Ht). lia.
    + rewrite Nat.sub_succ, Nat.sub_0_r, expand_loop_bits by (lia || exact Ht). f_equal.
      rewrite firstn_app, (firstn_all2 t) by (rewrite (proj1 Ht); lia). f_equal. rewrite (proj1 Ht). reflexivity.
Qed.

End Expand.

Lemma expand_arr prk info L : arr L (KDF.expand prk info L).
Proof.
  split; [|apply bytes_firstn, expand_from_bytes]. unfold KDF.expand. rewrite length_firstn, expand_from_length.
  pose proof (Nat.div_mod_eq (L + 31) 32). pose proof (Nat.mod_upper_bound (L + 31) 32 ltac:(lia)). lia.
Qed.

(** ** Labels *)

Lemma entry_bits_wrap x : entry_bits 8 (wrap 8 x) = entry_bits 8 x.
Proof.
  unfold entry_bits, tabulate. apply map_ext_in. intros j Hj%in_seq.
  rewrite wrap_spec, (proj2 (N.ltb_lt _ _)), andb_true_r by lia. reflexivity.
Qed.

Lemma string_bytes_ok s : bytes (KDF.string_bytes s).
Proof. apply Forall_forall. intros b Hb. apply in_map_iff in Hb as (a & <- & _). apply N_ascii_bounded. Qed.

Lemma hkdf_label_bits label context L :
  size (KDF.string_bytes (String.append "tls13 "%string label)) < 256 -> size context < 256 ->
  hkdf_label label (bits context) L = bits (KDF.hkdf_label label context L).
Proof.
  intros Hl Hc. unfold hkdf_label, KDF.hkdf_label. unfold KDF.string_bytes in *.
  set (l := map N_of_ascii _) in *. rewrite !bits_app.
  change (flat_map copy_loop l) with (arr_to_block 8 l). unfold copy_loop. rewrite arr_to_block_bits, !entry_bits_bits.
  rewrite length_bits, Nat.div_mul by lia. fold (size context). rewrite !wrap_small by assumption.
  change (SHA2.be_bytes 2 (N.of_nat L)) with [wrap 8 (N.shiftr (N.of_nat L) 8); wrap 8 (N.shiftr (N.of_nat L) 0)].
  rewrite N.shiftr_0_r. change [?x; ?y] with ([x] ++ [y]). rewrite bits_app, <- !app_assoc.
  rewrite <- (entry_bits_bits (wrap 8 (N.shiftr (N.of_nat L) 8))), <- (entry_bits_bits (wrap 8 (N.of_nat L))).
  now rewrite !entry_bits_wrap, !entry_bits_bits.
Qed.

Lemma hkdf_label_ok label context L : bytes context ->
  size (KDF.string_bytes (String.append "tls13 "%string label)) < 256 -> size context < 256 ->
  bytes (KDF.hkdf_label label context L) /\ size (KDF.hkdf_label label context L) < 516.
Proof.
  intros Hb Hl Hc. unfold KDF.hkdf_label. split.
  - repeat (apply Forall_app; split); try assumption; try apply be_bytes_arr; try apply string_bytes_ok;
      (constructor; [assumption | constructor]).
  - unfold size in *. rewrite !length_app, length_be. cbn [length]. lia.
Qed.

Lemma hkdf_expand_label_bits key label context L :
  bytes key -> (length key <= 64)%nat -> bytes context ->
  size (KDF.string_bytes (String.append "tls13 "%string label)) < 256 -> size context < 256 -> (L <= 255 * 32)%nat ->
  hkdf_expand_label (bits key) label (bits context) L = bits (KDF.expand_label key label context L).
Proof.
  intros Hk Lk Hb Hl Hc HL. unfold hkdf_expand_label, KDF.expand_label. rewrite hkdf_label_bits by assumption.
  destruct (hkdf_label_ok label context L Hb Hl Hc) as [Hi Si].
  apply hkdf_expand_bits; try assumption. change (2 ^ 16) with 65536. lia.
Qed.

Lemma expand_label_arr key label context L : arr L (KDF.expand_label key label context L).
Proof. apply expand_arr. Qed.

End Hash.

(** ** A block circuit to evaluate with

    The compression function between the two conversions. *)
Definition reference_sha : Sha256Circuit := fun w =>
  let blk := post_proc 64 (change_endian (firstn 512 w)) in
  let st := post_proc 32 (change_endian_four (skipn 512 w)) in
  arr_to_block 32 (SHA2.compress (tabulate 8 (SHA2.word st)) blk).

Lemma change_endian_msb bs : change_endian (msb bs) = bits bs.
Proof.
  apply bits_ext; [unfold change_endian; now rewrite length_tabulate, length_msb|].
  intros i j Hi Hj. unfold change_endian. rewrite nth_tabulate by (rewrite length_msb; lia). destruct (div_mod_8 i j Hj) as [-> ->]. unfold msb.
  rewrite (nth_flat_map _ 8 _ _ _ 0) by (intros; apply length_tabulate || lia).
  unfold msb_byte. rewrite nth_tabulate by lia. do 2 f_equal. lia.
Qed.

Lemma byte_step x : N.lor (N.shiftl (N.shiftr x 8) 8) (wrap 8 x) = x.
Proof.
  apply N.bits_inj. intros m. rewrite N.lor_spec, wrap_spec. destruct (N.ltb_spec m 8) as [H|H].
  - now rewrite N.shiftl_spec_low, andb_true_r by exact H.
  - rewrite N.shiftl_spec_high', N.shiftr_spec', N.sub_add, andb_false_r, orb_false_r by exact H. reflexivity.
Qed.

Lemma word_be v : v < 2 ^ 32 -> fold_left (fun acc b => N.lor (N.shiftl acc 8) b) (SHA2.be_bytes 4 v) 0 = v.
Proof.
  intros Hv. change (SHA2.be_bytes 4 v) with
    [wrap 8 (N.shiftr v 24); wrap 8 (N.shiftr v 16); wrap 8 (N.shiftr v 8); wrap 8 (N.shiftr v 0)].
  cbn [fold_left]. rewrite N.shiftl_0_l, N.lor_0_l, N.shiftr_0_r, (wrap_small 8 (N.shiftr v 24)).
  - change (N.shiftr v 24) with (N.shiftr v (16 + 8)). rewrite <- N.shiftr_shiftr, byte_step.
    change (N.shiftr v 16) with (N.shiftr v (8 + 8)). rewrite <- N.shiftr_shiftr, byte_step. apply byte_step.
  - rewrite N.shiftr_div_pow2. apply N.Div0.div_lt_upper_bound. exact Hv.
Qed.

Lemma words_be st : Forall (fun w => w < 2 ^ 32) st -> tabulate (length st) (SHA2.word (flat_map (SHA2.be_bytes 4) st)) = st.
Proof.
  intros H. apply (nth_ext _ _ 0 0); [apply length_tabulate|]. rewrite length_tabulate. intros i Hi.
  rewrite nth_tabulate by exact Hi. unfold SHA2.word. transitivity (fold_left (fun acc b => N.lor (N.shiftl acc 8) b) (SHA2.be_bytes 4 st.[i]) 0);
    [|apply word_be].
  - f_equal. clear H. revert i Hi. induction st as [|v st IH]; intros i Hi; [inversion Hi|].
    destruct i as [|i]; [reflexivity|]. rewrite Nat.mul_succ_r, Nat.add_comm. apply IH. cbn in Hi. lia.
  - rewrite Forall_forall in H. now apply H, nth_In.
Qed.

#[export] Instance reference_sha_ok : Sha256Ok reference_sha.
Proof.
  intros st blk L B [Lb Hb]. unfold sha_compute, reference_sha.
  assert (E : length (msb blk) = 512%nat) by now rewrite length_msb, Lb.
  rewrite firstn_app, skipn_app, E, Nat.sub_diag, firstn_O, app_nil_r, firstn_all2, skipn_all2 by (rewrite E; lia).
  cbn [skipn app]. rewrite change_endian_msb, change_endian_four_words by exact L.
  rewrite <- Lb at 1. rewrite post_proc_bits by exact Hb.
  assert (Lw : length (flat_map (SHA2.be_bytes 4) st) = 32%nat)
    by (rewrite (length_flat_map_const _ 4) by (intros; apply length_be); now rewrite L).
  rewrite <- Lw, post_proc_bits, <- L, words_be by (try exact B; apply Forall_flat_map, Forall_forall; intros; apply be_bytes_arr).
  reflexivity.
Qed.
