(* ===== verification/CircuitHashKey.v ===== *)
(** * The other circuits for the hash key ([2pc/DeriveCircuits.cpp])

    [DeriveGCMMultiplicativeSharesNaive] multiplies bit by bit as the GCM
    specification does, where [DeriveGCMMultiplicativeShares] uses the
    transcription of the SIMD code; [DeriveGCMAdditiveShares] computes additive
    shares of all the powers in one circuit.  The first is shown to be the same
    function as the circuit in use, the second to output the powers that the
    oblivious-transfer protocol shares. *)

From S2P Require Import Prelude Block128 GF128 FieldCode FieldInverse F2128Shares Messaging Util GHash Arrays.
From S2P Require Import CircuitWires CircuitRecords CircuitGcm Sha256 CircuitHkdf.
From Stdlib Require Import List.
Import ListNotations Util Wires GcmCircuit.
#[local] Abbreviation length := List.length.
Local Open Scope N_scope.

Module HashKeyCircuits.

(** ** Bit by bit *)

Definition R : list bool := upd 7 true (upd 2 true (upd 1 true (upd 0 true (repeat false 128)))).

(** One round of the lambda [mult]. *)
Definition mult_round (y : list bool) (zv : list bool * list bool) (i : nat) : list bool * list bool :=
  let '(z, v) := zv in
  let tmp_v := tabulate 128 (fun j => and_gate (wire v j) (wire y i)) in
  let z := xor_wires 128 z tmp_v in
  let tmp_r := tabulate 8 (fun j => and_gate (wire v 127) (wire R j)) in
  let v := skipn 127 v ++ firstn 127 v in
  let v := upd 0 false v in
  (z, xor_wires 8 v tmp_r ++ skipn 8 v).

Definition mult (x y : list bool) : list bool :=
  fst (fold_left (mult_round y) (List.seq 0 128) (repeat false 128, x)).

Definition DeriveGCMMultiplicativeSharesNaive `{BristolAES} (alice_blocks bob_blocks : list bool) : list bool :=
  let key := xor_wires 128 (slice 0 128 alice_blocks) (slice 0 128 bob_blocks) in
  let gcm_key_raw := compute (key ++ repeat false 128) in
  let bob_share := slice 128 128 bob_blocks in
  let prod := mult gcm_key_raw bob_share in
  xor_wires 128 prod (slice 128 128 alice_blocks).

(** ** All powers at once *)

Definition BLOCK : nat := 1024.

(** Row [i] of [middle_results] from row [i - 1]. *)
Definition middle_next (prev : list bool) : list bool :=
  let row := wire prev 127 :: firstn 127 prev in
  let row := upd 7 (xor_gate (wire prev 6) (wire prev 127)) row in
  let row := upd 2 (xor_gate (wire prev 1) (wire prev 127)) row in
  upd 1 (xor_gate (wire prev 0) (wire prev 127)) row.

Fixpoint middle_results (n : nat) (row : list bool) : list (list bool) :=
  match n with O => [] | S n => row :: middle_results n (middle_next row) end.

(** Block [b] of [result] from block [b - 1]. *)
Definition next_power (middle : list (list bool)) (prev : list bool) : list bool :=
  fold_left (fun acc i => xor_wires 128 acc (tabulate 128 (fun j => and_gate (wire (nth i middle []) j) (wire prev i))))
    (List.seq 0 128) (repeat false 128).

Fixpoint results (n : nat) (middle : list (list bool)) (block : list bool) : list (list bool) :=
  match n with O => [] | S n => block :: results n middle (next_power middle block) end.

Definition DeriveGCMAdditiveShares `{BristolAES} (alice_blocks bob_blocks : list bool) : list bool :=
  let key := xor_wires 128 (slice 0 128 alice_blocks) (slice 0 128 bob_blocks) in
  let gcm_key_raw := compute (key ++ repeat false 128) in
  let result := concat (results BLOCK (middle_results 128 gcm_key_raw) gcm_key_raw) in
  let out := CircuitSynthesis.change_endian result in
  xor_wires (128 * BLOCK) out
    (xor_wires (128 * BLOCK) (slice 128 (128 * BLOCK) alice_blocks) (slice 128 (128 * BLOCK) bob_blocks)).

End HashKeyCircuits.
Import HashKeyCircuits.

(** ** Multiplication by x *)

Lemma xtime_bits v j : (j < 128)%nat ->
  N.testbit (xtime v) (N.of_nat j) =
  xorb (negb (j =? 0)%nat && N.testbit v (N.of_nat (j - 1))) (N.testbit v 127 && N.testbit 0x87 (N.of_nat j)).
Proof.
  intros Hj. unfold xtime. rewrite N.lxor_spec, wrap_spec, (proj2 (N.ltb_lt _ _)), andb_true_r by lia. f_equal.
  - destruct j as [|j]; [now rewrite N.shiftl_spec_low by (cbn; lia)|]. rewrite N.shiftl_spec_high' by lia. cbn [Nat.eqb negb andb]. f_equal. lia.
  - destruct (N.testbit v 127); [reflexivity | apply N.bits_0].
Qed.

Lemma high_0x87 j : (8 <= j)%nat -> N.testbit 0x87 (N.of_nat j) = false.
Proof. intros Hj. apply (testbit_high _ 8); [reflexivity | lia]. Qed.

Lemma shifted_wires v : skipn 127 (wires 128 v) ++ firstn 127 (wires 128 v) =
  N.testbit v 127 :: wires 127 v.
Proof.
  change 128%nat with (127 + 1)%nat. rewrite wires_split, skipn_exact, firstn_exact by apply length_wires.
  unfold wires, tabulate. cbn [List.seq map app]. rewrite N.shiftr_spec'. reflexivity.
Qed.

Lemma round_v v : let w := upd 0 false (skipn 127 (wires 128 v) ++ firstn 127 (wires 128 v)) in
  xor_wires 8 w (tabulate 8 (fun j => and_gate (wire (wires 128 v) 127) (wire R j))) ++ skipn 8 w = wires 128 (xtime v).
Proof.
  cbv zeta. rewrite shifted_wires. cbn [upd]. set (w := false :: wires 127 v).
  assert (Lw : length w = 128%nat) by (unfold w; cbn [List.length]; now rewrite length_wires).
  assert (Hw : forall j, (j < 128)%nat -> wire w j = (negb (j =? 0)%nat && N.testbit v (N.of_nat (j - 1)))%bool).
  { intros [|j] Hj; [reflexivity|]. unfold w. cbn [nth Nat.eqb negb andb]. rewrite wire_wires by lia. do 2 f_equal. lia. }
  apply wires_ext.
  - rewrite length_app, length_skipn, Lw. unfold xor_wires. rewrite length_tabulate. reflexivity.
  - intros j Hj. rewrite xtime_bits by exact Hj. destruct (Nat.lt_ge_cases j 8) as [H8|H8].
    + rewrite app_nth1 by (unfold xor_wires; now rewrite length_tabulate).
      unfold xor_wires. rewrite !nth_tabulate, Hw, wire_wires by lia. unfold xor_gate, and_gate. f_equal. f_equal.
      do 8 (destruct j as [|j]; [reflexivity|]). lia.
    + rewrite app_nth2 by (unfold xor_wires; rewrite length_tabulate; lia). unfold xor_wires. rewrite length_tabulate, nth_skipn.
      replace (8 + (j - 8))%nat with j by lia. rewrite Hw, high_0x87, andb_false_r, xorb_false_r by lia. reflexivity.
Qed.

(** ** The product is the field product *)

Lemma gf_mul_sum n : forall a b, gf_mul_n n a b = lxor_sum n (fun i => if N.testbit b (N.of_nat i) then xpow i a else 0).
Proof.
  induction n as [|n IH]; intros a b; [reflexivity|]. cbn [gf_mul_n].
  change (S n) with (1 + n)%nat. rewrite lxor_sum_split, IH. f_equal.
  apply lxor_sum_ext. intros i _. rewrite N.shiftr_spec', xpow_S. replace (N.of_nat i + 1) with (N.of_nat (1 + i)) by lia. reflexivity.
Qed.

Lemma mult_rounds x y n : (n <= 128)%nat ->
  fold_left (mult_round (wires 128 y)) (List.seq 0 n) (repeat false 128, wires 128 x) =
  (wires 128 (lxor_sum n (fun i => if N.testbit y (N.of_nat i) then xpow i x else 0)), wires 128 (xpow n x)).
Proof.
  induction n as [|n IH]; intros Hn; [reflexivity|].
  rewrite seq_S, fold_left_app, IH by lia. cbn [fold_left Nat.add]. unfold mult_round. rewrite round_v. f_equal.
  rewrite lxor_sum_S, <- xor_wires_spec. f_equal. apply wires_ext; [apply length_tabulate|].
  intros j Hj. rewrite nth_tabulate, !wire_wires by lia. unfold and_gate.
  destruct (N.testbit y (N.of_nat n)); [apply andb_true_r | rewrite andb_false_r; now rewrite N.bits_0].
Qed.

Lemma mult_spec x y : mult (wires 128 x) (wires 128 y) = wires 128 (x ⊗ y).
Proof. unfold mult. rewrite mult_rounds by lia. cbn [fst]. unfold gf_mul. now rewrite gf_mul_sum. Qed.

(** ** Row by row *)

Lemma middle_next_spec v : middle_next (wires 128 v) = wires 128 (xtime v).
Proof.
  unfold middle_next. set (row := wire (wires 128 v) 127 :: firstn 127 (wires 128 v)).
  assert (Lr : length row = 128%nat) by (unfold row; cbn [List.length]; rewrite length_firstn, length_wires; reflexivity).
  assert (Hr : forall j, (j < 128)%nat -> wire row j = if (j =? 0)%nat then N.testbit v 127 else N.testbit v (N.of_nat (j - 1))).
  { intros [|j] Hj; [reflexivity|]. unfold row. cbn [nth Nat.eqb]. rewrite nth_firstn, (proj2 (Nat.ltb_lt _ _)), wire_wires by lia.
    do 2 f_equal. lia. }
  apply wires_ext; [now rewrite !length_upd|]. intros j Hj. rewrite xtime_bits by exact Hj.
  rewrite !nth_upd, !length_upd, Lr, !wire_wires by lia. unfold xor_gate.
  change (N.of_nat 127) with 127. do 8 (destruct j as [|j]; [rewrite ?Hr by lia; cbn -[N.testbit]; destruct (N.testbit v 127); cbn; now rewrite ?xorb_false_r, ?xorb_true_r|]).
  rewrite Hr, high_0x87, andb_false_r, xorb_false_r by lia. reflexivity.
Qed.

Lemma middle_rows n : forall v i, (i < n)%nat -> nth i (middle_results n (wires 128 v)) [] = wires 128 (xpow i v).
Proof.
  induction n as [|n IH]; intros v i Hi; [lia|]. cbn [middle_results]. rewrite middle_next_spec.
  destruct i as [|i]; [reflexivity|]. cbn [nth]. rewrite IH, xpow_S by lia. reflexivity.
Qed.

Lemma next_power_spec h p : next_power (middle_results 128 (wires 128 h)) (wires 128 p) = wires 128 (h ⊗ p).
Proof.
  unfold next_power, gf_mul. rewrite gf_mul_sum.
  enough (H : forall n, (n <= 128)%nat ->
    fold_left (fun acc i => xor_wires 128 acc (tabulate 128 (fun j =>
      and_gate (wire (nth i (middle_results 128 (wires 128 h)) []) j) (wire (wires 128 p) i)))) (List.seq 0 n) (repeat false 128) =
    wires 128 (lxor_sum n (fun i => if N.testbit p (N.of_nat i) then xpow i h else 0))) by now apply H.
  induction n as [|n IH]; intros Hn; [reflexivity|].
  rewrite seq_S, fold_left_app, IH by lia. cbn [fold_left Nat.add]. rewrite lxor_sum_S, <- xor_wires_spec. f_equal.
  apply wires_ext; [apply length_tabulate|]. intros j Hj. rewrite nth_tabulate, middle_rows, !wire_wires by lia. unfold and_gate.
  destruct (N.testbit p (N.of_nat n)); [apply andb_true_r | rewrite andb_false_r; now rewrite N.bits_0].
Qed.

Lemma results_spec h n : forall p, p < 2 ^ 128 -> h < 2 ^ 128 ->
  results n (middle_results 128 (wires 128 h)) (wires 128 p) = map (fun k => wires 128 (gf_pow h k ⊗ p)) (List.seq 0 n).
Proof.
  induction n as [|n IH]; intros p Hp Hh; [reflexivity|]. cbn [results List.seq map]. f_equal.
  - cbn [gf_pow]. now rewrite gf_mul_1_l.
  - rewrite next_power_spec, IH by (try assumption; now apply gf_mul_lt). rewrite <- seq_shift, map_map.
    apply map_ext. intros k. rewrite gf_pow_S. rewrite (gf_mul_comm h (gf_pow h k)) by (assumption || now apply gf_pow_lt).
    now rewrite gf_mul_assoc by (assumption || now apply gf_pow_lt).
Qed.

(** ** The bytes of the output *)

Lemma msb_bitrev h : arr 16 h -> msb h = bits (GHash.bitrev h).
Proof.
  intros Hh. rewrite <- rev_bits_bits by exact Hh. rewrite <- change_endian_bits. unfold CircuitSynthesis.change_endian.
  rewrite length_bits, (proj1 Hh). reflexivity.
Qed.

Lemma msb_blocks hs : Forall (arr 16) hs -> msb (concat hs) = bits (concat (map GHash.bitrev hs)).
Proof.
  induction 1 as [|h hs Hh _ IH]; [reflexivity|]. cbn [concat map]. now rewrite msb_app, bits_app, msb_bitrev, IH.
Qed.

Definition xor_n (n : nat) (a b : list N) : list N := tabulate n (fun i => a.[i] ⊕ b.[i]).

Lemma xor_n_bits n a b : length a = n -> length b = n -> xor_wires (8 * n) (bits a) (bits b) = bits (xor_n n a b).
Proof.
  intros La Lb. apply bits_ext; unfold xor_n, xor_wires; rewrite !length_tabulate; [lia|].
  intros i j Hi Hj. rewrite !nth_tabulate, !wire_bits, N.lxor_spec by lia. reflexivity.
Qed.

Lemma arr_xor_n n a b : arr n a -> arr n b -> arr n (xor_n n a b).
Proof.
  intros [La Ba] [Lb Bb]. apply arr_tabulate. intros i Hi. apply (lxor_lt _ _ 8); apply bytes_at; assumption.
Qed.

(** The first [n] powers of [h], as the blocks that GHASH takes. *)
Definition power_blocks (h : N) (n : nat) : list N :=
  concat (map (fun b => GHash.bitrev (F2128.block_to_arr (gf_pow h (b + 1)))) (List.seq 0 n)).

Lemma power_blocks_arr h n : arr (16 * n) (power_blocks h n).
Proof.
  unfold power_blocks.
  enough (H : forall s, arr (16 * n) (concat (map (fun b => GHash.bitrev (F2128.block_to_arr (gf_pow h (b + 1)))) (List.seq s n))))
    by apply H.
  induction n as [|n IH]; intros s; [split; [reflexivity | constructor]|].
  cbn [List.seq map concat]. replace (16 * S n)%nat with (16 + 16 * n)%nat by lia.
  destruct (IH (S s)) as [L B]. split.
  - rewrite length_app, length_bitrev, L. reflexivity.
  - apply Forall_app. split; [apply bitrev_bytes, block_to_arr_bytes | exact B].
Qed.

Lemma results_endian h n : h < 2 ^ 128 ->
  CircuitSynthesis.change_endian (concat (results n (middle_results 128 (wires 128 h)) (wires 128 h))) = bits (power_blocks h n).
Proof.
  intros Hh. rewrite results_spec by assumption.
  rewrite (map_ext _ (fun k => bits (F2128.block_to_arr (gf_pow h (k + 1))))).
  - rewrite <- (map_map (fun k => F2128.block_to_arr (gf_pow h (k + 1))) bits), <- bits_concat, change_endian_bits, msb_blocks, map_map.
    + reflexivity.
    + apply Forall_map, Forall_forall. intros k _. split; [reflexivity | apply block_to_arr_bytes].
  - intros k. rewrite <- wires_bits_block by (now apply gf_pow_lt). rewrite gf_pow_add, gf_pow_1 by assumption. reflexivity.
Qed.

Section Circuits.
Context {bf : BristolAES} {aes : list N -> list N -> list N} {Bok : BristolOk bf aes}.

Lemma hash_key_lt k : hash_key (aes := aes) k < 2 ^ 128.
Proof. apply rev128_lt. Qed.

#[local] Opaque BLOCK.

Lemma additive_inputs k m : arr 16 k -> arr (16 * BLOCK) m ->
  slice 0 128 (bits (rev k ++ m)) = bits (rev k) /\ slice 128 (128 * BLOCK) (bits (rev k ++ m)) = bits m.
Proof.
  intros [Lk Bk] [Lm Bm]. rewrite bits_app.
  assert (L : length (bits (rev k)) = 128%nat) by (rewrite length_bits, length_rev, Lk; reflexivity).
  rewrite slice_head by exact L. split; [reflexivity|].
  pose proof (slice_skip 0 128 (128 * BLOCK) (bits (rev k)) (bits m) L) as E. rewrite Nat.add_0_r in E. rewrite E.
  apply slice_all. rewrite length_bits, Lm. lia.
Qed.

(** C39: The naive circuit for the hash key, which multiplies bit by bit as in
    the GCM specification, gives for all inputs of 32 bytes the same output as
    the circuit that is used, whose multiplication transcribes the carry-less
    SIMD code with its shift-based reduction. *)
Theorem naive_circuit_equivalent (ka ma kb mb : list N) :
  arr 16 ka -> arr 16 ma -> arr 16 kb -> arr 16 mb ->
  exec DeriveGCMMultiplicativeSharesNaive 16 (rev ka ++ ma) (rev kb ++ mb) =
  exec DeriveGCMMultiplicativeShares 16 (rev ka ++ ma) (rev kb ++ mb).
Proof.
  intros Hka Hma Hkb Hmb. unfold exec, DeriveGCMMultiplicativeSharesNaive, DeriveGCMMultiplicativeShares.
  destruct (share_inputs ka ma Hka Hma) as [-> ->], (share_inputs kb mb Hkb Hmb) as [-> ->].
  rewrite joint_raw_key, !bits_wires by assumption.
  now rewrite mult_spec, gcm_mult_spec by (apply rev128_lt || apply arr_lt).
Qed.

(** The circuit for additive shares outputs the first 1024 powers of the
    hash key AES_k(0) of the joint key, in the byte order of GHASH, under the
    exclusive or of the two parties' masks: a party that removes its mask and
    the other that keeps its own hold additive shares of every power. *)
Theorem additive_shares_powers (ka ma kb mb : list N) :
  arr 16 ka -> arr (16 * BLOCK) ma -> arr 16 kb -> arr (16 * BLOCK) mb ->
  exec DeriveGCMAdditiveShares (16 * BLOCK) (rev ka ++ ma) (rev kb ++ mb) =
  xor_n (16 * BLOCK) (power_blocks (hash_key (aes := aes) (MaskConstants.xor_bytes ka kb)) BLOCK) (xor_n (16 * BLOCK) ma mb).
Proof.
  intros Hka Hma Hkb Hmb. apply exec_bytes; [apply arr_xor_n; [apply power_blocks_arr | now apply arr_xor_n]|].
  unfold DeriveGCMAdditiveShares.
  destruct (additive_inputs ka ma Hka Hma) as [-> ->], (additive_inputs kb mb Hkb Hmb) as [-> ->].
  rewrite joint_raw_key, results_endian by (assumption || apply hash_key_lt).
  replace (128 * BLOCK)%nat with (8 * (16 * BLOCK))%nat by lia.
  rewrite (xor_n_bits (16 * BLOCK) ma mb) by (apply Hma || apply Hmb).
  apply xor_n_bits; [apply power_blocks_arr | now apply arr_xor_n].
Qed.

End Circuits.

Lemma naive_circuit_equivalent_witness :
  exec (DeriveGCMMultiplicativeSharesNaive (H := toy_bristol)) 16 (rev (repeat 3 16) ++ repeat 0 16) (rev (repeat 5 16) ++ repeat 9 16) =
  exec (DeriveGCMMultiplicativeShares (H := toy_bristol)) 16 (rev (repeat 3 16) ++ repeat 0 16) (rev (repeat 5 16) ++ repeat 9 16).
Proof. apply (naive_circuit_equivalent (Bok := toy_bristol_ok)); apply arr_const; reflexivity. Defined.

Lemma additive_shares_powers_witness :
  exec (DeriveGCMAdditiveShares (H := toy_bristol)) (16 * BLOCK) (rev (repeat 3 16) ++ repeat 1 (16 * BLOCK)) (rev (repeat 5 16) ++ repeat 2 (16 * BLOCK)) =
  xor_n (16 * BLOCK) (power_blocks (hash_key (aes := MaskConstants.xor_bytes) (MaskConstants.xor_bytes (repeat 3 16) (repeat 5 16))) BLOCK)
    (xor_n (16 * BLOCK) (repeat 1 (16 * BLOCK)) (repeat 2 (16 * BLOCK))).
Proof. apply (additive_shares_powers (Bok := toy_bristol_ok)); apply arr_const; reflexivity. Defined.
