(* ===== verification/CircuitKeys.v ===== *)
(** * The key-derivation circuits ([2pc/DeriveCircuits.cpp]) and their use
      ([ssl/ThreePartyHandshake.cpp])

    The generators of the circuits that derive the secrets of a session, as
    functions on the wires of the two parties, and the functions that pack a
    party's input, call the circuit and unmask its output.  The reference is
    the key schedule of RFC 8446 ([Schedule]).  A secret of 32 bytes is split:
    the prover holds the low half and the verifier the high half. *)

From Stdlib Require Import String.
From S2P Require Import Prelude Messaging Util Arrays CircuitWires CircuitRecords Sha256 CircuitHkdf.
From Stdlib Require Import List.
Import ListNotations Wires ByteString CircuitSynthesis.
#[local] Abbreviation length := List.length.
Local Open Scope N_scope.

(** ** The key schedule of RFC 8446, 7.1, 7.2, 4.2.11.2 and 4.6.1 *)
Module Schedule.

Definition derive_secret (s : list N) (label : string) (h : list N) : list N := KDF.expand_label s label h 32.
Definition derived (s : list N) : list N := derive_secret s "derived" (SHA2.sha256 []).

Definition early_secret (psk : list N) : list N := KDF.extract (repeat 0 32) psk.
Definition handshake_secret (psk dhe : list N) : list N := KDF.extract (derived (early_secret psk)) dhe.
Definition master_secret (hs : list N) : list N := KDF.extract (derived hs) (repeat 0 32).

Definition traffic_key (s : list N) : list N := KDF.expand_label s "key" [] 16.
Definition traffic_iv (s : list N) : list N := KDF.expand_label s "iv" [] 12.
Definition finished_key (s : list N) : list N := KDF.expand_label s "finished" [] 32.
Definition next_traffic_secret (s : list N) : list N := KDF.expand_label s "traffic upd" [] 32.

Definition ticket_psk (rms nonce : list N) : list N := KDF.expand_label rms "resumption" nonce 32.
Definition psk_binder (psk ch_hash : list N) : list N :=
  KDF.hmac (finished_key (derive_secret (early_secret psk) "res binder" (SHA2.sha256 []))) ch_hash.

End Schedule.

(** ** Generators *)

(** [BristolFashion::compute] of a modular adder: [p], [b] and [a], to the sum. *)
Class ModAdder := add_compute : list bool -> list bool.

Module KeyCircuits.

Inductive TypeOfDerivation :=
  | CLIENT_HANDSHAKE_IV | CLIENT_TRAFFIC_IV | SERVER_HANDSHAKE_IV | SERVER_TRAFFIC_IV
  | CLIENT_HANDSHAKE_KEY | CLIENT_TRAFFIC_KEY | SERVER_HANDSHAKE_KEY | SERVER_TRAFFIC_KEY
  | DHS | SERVER_HTS | CLIENT_HTS | MS | CATS | SATS | EMS | FK_S | RMS | PSK | SIZE.

(** The two that a static assertion excludes have no label. *)
Definition get_tag (mode : TypeOfDerivation) : string :=
  match mode with
  | CLIENT_HANDSHAKE_IV | CLIENT_TRAFFIC_IV | SERVER_HANDSHAKE_IV | SERVER_TRAFFIC_IV => "iv"
  | DHS => "derived"
  | CLIENT_HANDSHAKE_KEY | CLIENT_TRAFFIC_KEY | SERVER_HANDSHAKE_KEY | SERVER_TRAFFIC_KEY => "key"
  | SERVER_HTS => "s hs traffic"
  | CLIENT_HTS => "c hs traffic"
  | CATS => "c ap traffic"
  | SATS => "s ap traffic"
  | FK_S => "finished"
  | EMS => "exp master"
  | RMS => "res master"
  | PSK => "resumption"
  | MS | SIZE => ""
  end.

Definition get_empty_hash : list N := [
  0xe3; 0xb0; 0xc4; 0x42; 0x98; 0xfc; 0x1c; 0x14; 0x9a; 0xfb; 0xf4;
  0xc8; 0x99; 0x6f; 0xb9; 0x24; 0x27; 0xae; 0x41; 0xe4; 0x64; 0x9b;
  0x93; 0x4c; 0xa4; 0x95; 0x99; 0x1b; 0x78; 0x52; 0xb8; 0x55].

(** Bit [i] of the number on wire [i]. *)
Definition serialise_bignum (prime_length : nat) (num : N) : list bool :=
  tabulate prime_length (fun i => N.testbit num (N.of_nat i)).

(** The low half under Alice's mask and the high half under Bob's. *)
Definition xor_secrets (alice_mask bob_mask blocks : list bool) : list bool :=
  xor_wires 128 alice_mask (slice 0 128 blocks) ++ xor_wires 128 bob_mask (slice 128 128 blocks).

Section Generators.
Context {sc : Sha256Circuit}.

(** dHE, CHTS, SHTS, dHS, MS (256 each, masked) || fk_s (256) || key (128, under Alice's mask) || iv (96) *)
Definition ProduceCombinedCircuit {ma : ModAdder} (length : nat) (p : N) (alice bob : list bool) : list bool :=
  let h0 := chars_to_bools get_empty_hash in
  let zero_key := repeat false 256 in
  let psk := slice 0 128 alice ++ slice 0 128 bob in
  let h2 := slice 128 256 alice in
  let alice_mask k := slice (384 + 128 * k) 128 alice in
  let bob_mask k := slice (384 + 128 * k) 128 bob in
  let alice_share_in := slice 1152 length alice in
  let bob_share_in := slice 1152 length bob in
  let addition := add_compute (serialise_bignum length p ++ bob_share_in ++ alice_share_in) ++
    (if (length =? 521)%nat then repeat false 7 else []) in
  let addition := rearrange_sum_bits addition in
  let es := hkdf_extract zero_key psk in
  let des := hkdf_expand_label es (get_tag DHS) h0 32 in
  let derived_secret := hkdf_extract des addition in
  let derived_chts := hkdf_expand_label derived_secret (get_tag CLIENT_HTS) h2 32 in
  let derived_shts := hkdf_expand_label derived_secret (get_tag SERVER_HTS) h2 32 in
  let derived_dhs := hkdf_expand_label derived_secret (get_tag DHS) h0 32 in
  let ms := hkdf_extract derived_dhs zero_key in
  let fks := hkdf_expand_label derived_shts (get_tag FK_S) [] 32 in
  let aes_key := hkdf_expand_label derived_shts (get_tag SERVER_HANDSHAKE_KEY) [] 16 in
  let iv := hkdf_expand_label derived_shts (get_tag SERVER_HANDSHAKE_IV) [] 12 in
  let secret k b := xor_secrets (alice_mask k) (bob_mask k) b in
  secret 0%nat derived_secret ++ secret 1%nat derived_chts ++ secret 2%nat derived_shts ++
  secret 3%nat derived_dhs ++ secret 4%nat ms ++ fks ++ xor_wires 128 aes_key (alice_mask 5%nat) ++ iv.

(** cts (128) || ctiv (96) || sts (128) || stiv (96) || cats (256) || sats (256) *)
Definition ProduceCombinedTrafficCircuits (alice bob : list bool) : list bool :=
  let ms := slice 0 128 alice ++ slice 0 128 bob in
  let h3 := slice 128 256 alice in
  let alice_mask k := slice (384 + 128 * k) 128 alice in
  let bob_mask k := slice (384 + 128 * k) 128 bob in
  let derived_cats := hkdf_expand_label ms (get_tag CATS) h3 32 in
  let derived_sats := hkdf_expand_label ms (get_tag SATS) h3 32 in
  let cts := hkdf_expand_label derived_cats (get_tag CLIENT_TRAFFIC_KEY) [] 16 in
  let ctiv := hkdf_expand_label derived_cats (get_tag CLIENT_TRAFFIC_IV) [] 12 in
  let sts := hkdf_expand_label derived_sats (get_tag SERVER_TRAFFIC_KEY) [] 16 in
  let stiv := hkdf_expand_label derived_sats (get_tag SERVER_TRAFFIC_IV) [] 12 in
  xor_wires 128 (alice_mask 0%nat) cts ++ ctiv ++ xor_wires 128 (alice_mask 1%nat) sts ++ stiv ++
  xor_secrets (alice_mask 2%nat) (bob_mask 2%nat) derived_cats ++
  xor_secrets (alice_mask 3%nat) (bob_mask 3%nat) derived_sats.

Definition ProduceCombinedRMS (alice bob : list bool) : list bool :=
  let ms := slice 0 128 alice ++ slice 0 128 bob in
  let h6 := slice 128 256 alice in
  let rms := hkdf_expand_label ms (get_tag RMS) h6 32 in
  xor_secrets (slice 384 128 alice) (slice 384 128 bob) rms.

Definition ProduceCombinedPSK (NONCE_BYTES : nat) (alice bob : list bool) : list bool :=
  let NONCE_BITS := (NONCE_BYTES * 8)%nat in
  let rms := slice 0 128 alice ++ slice 0 128 bob in
  let ticket := slice 128 NONCE_BITS alice in
  let psk := hkdf_expand_label rms (get_tag PSK) ticket 32 in
  xor_secrets (slice (128 + NONCE_BITS) 128 alice) (slice (128 + NONCE_BITS) 128 bob) psk.

Definition ProduceBinderCircuit (alice bob : list bool) : list bool :=
  let zero_key := repeat false 256 in
  let h0 := chars_to_bools get_empty_hash in
  let psk := slice 0 128 alice ++ slice 0 128 bob in
  let ch_hash := slice 128 256 alice in
  let es := hkdf_extract zero_key psk in
  let binder_key := hkdf_expand_label es "res binder" h0 32 in
  let finished_key := hkdf_expand_label binder_key (get_tag FK_S) [] 32 in
  hkdf_extract finished_key ch_hash.

(** secret' (256, masked) || key' (128, under Alice's mask) || iv' (96) *)
Definition DeriveRotateKey (a b : list bool) : list bool :=
  let kOffShare := 0%nat in let kOffSecretMask := 128%nat in let kOffKeyMask := 256%nat in
  let secret := slice kOffShare 128 a ++ slice kOffShare 128 b in
  let next := hkdf_expand_label secret "traffic upd" [] 32 in
  let key := hkdf_expand_label next (get_tag SERVER_TRAFFIC_KEY) [] 16 in
  let iv := hkdf_expand_label next (get_tag SERVER_TRAFFIC_IV) [] 12 in
  xor_secrets (slice kOffSecretMask 128 a) (slice kOffSecretMask 128 b) next ++
  xor_wires 128 (slice kOffKeyMask 128 a) key ++ iv.

End Generators.
End KeyCircuits.
