(* ===== verification/KeyDerive.v ===== *)
(** * Deriving the keys of a session ([ssl/ThreePartyHandshake.cpp])

    The functions that both parties call to run a key-derivation circuit: the
    packing of a party's input, the call, and what the party keeps of the
    output.  Each takes the party ([is_verifier]), the random mask and the
    circuit, a function from this party's input to the output. *)

From Stdlib Require Import String.
From S2P Require Import Prelude Messaging Util Arrays CircuitWires CircuitRecords Sha256 CircuitHkdf CircuitKeys GHash.
From Stdlib Require Import List.
Import ListNotations Wires ByteString.
#[local] Abbreviation length := List.length.
Local Open Scope N_scope.

Module KeyDerivation.

(** [EmpWrapperAG2PC]: the size of the field and the call; a null pointer is [None]. *)
Record EmpWrapperAG2PC := { get_size : N; derive : list N -> option (list N) }.

(** [n] bytes from offset [i]. *)
Definition sub (i n : nat) (bs : list N) : list N := firstn n (skipn i bs).

(** [dest[i] = output[off + i] ^ xor_mask[m + i]] *)
Definition unmask (output : list N) (off : nat) (xor_mask : list N) (m : nat) : list N :=
  tabulate 16 (fun i => output.[off + i] ⊕ xor_mask.[m + i]).

Definition call {O} (circuit : option EmpWrapperAG2PC) (input : list N) (k : list N -> O) : option O :=
  match circuit with
  | None => None
  | Some c => match derive c input with None => None | Some output => Some (k output) end
  end.

(** ** Handshake secrets *)

Record HandshakeCircuitIn := { hs_hash : list N; hs_key_share : list N; hs_psk_share : list N }.

Record HandshakeCircuitOut := {
  hs_xor_mask : list N;
  dHE_share : list N; CHTS_share : list N; SHTS_share : list N; dHS_share : list N; MS_share : list N;
  fk_s : list N; hs_server_key_share : list N; hs_iv : list N }.

Definition HANDSHAKE_SECRETS_OUTPUT_SIZE : nat := 220.

(** PSK share || hash (prover only) || mask || share of the secret, which the
    circuit takes in little-endian order *)
Definition pack_handshake (verifier : bool) (i : HandshakeCircuitIn) (xor_mask : list N) : list N :=
  hs_psk_share i ++ (if verifier then repeat 0 32 else hs_hash i) ++ xor_mask ++ rev (hs_key_share i).

Definition handshake_out (verifier : bool) (xor_mask out_arr : list N) : HandshakeCircuitOut :=
  let offset := if verifier then 16%nat else 0%nat in
  {| hs_xor_mask := xor_mask;
     dHE_share := unmask out_arr offset xor_mask 0;
     CHTS_share := unmask out_arr (offset + 32) xor_mask 16;
     SHTS_share := unmask out_arr (offset + 64) xor_mask 32;
     dHS_share := unmask out_arr (offset + 96) xor_mask 48;
     MS_share := unmask out_arr (offset + 128) xor_mask 64;
     fk_s := sub 160 32 out_arr;
     hs_server_key_share := sub 192 16 out_arr;
     hs_iv := sub 208 12 out_arr |}.

Definition run_handshake_circuit_internal (verifier : bool) (circuit : EmpWrapperAG2PC)
    (i : HandshakeCircuitIn) (xor_mask : list N) : option HandshakeCircuitOut :=
  call (Some circuit) (pack_handshake verifier i xor_mask) (handshake_out verifier xor_mask).

Definition run_handshake_circuit (circuit : option EmpWrapperAG2PC) (verifier : bool)
    (i : HandshakeCircuitIn) (xor_mask : list N) : option HandshakeCircuitOut :=
  match circuit with
  | None => None
  | Some c =>
      if get_size c =? 256 then run_handshake_circuit_internal verifier c i xor_mask
      else if get_size c =? 384 then run_handshake_circuit_internal verifier c i xor_mask
      else None
  end.

(** ** Traffic secrets *)

Record TrafficCircuitIn := { ts_hash : list N; ts_ms_share : list N }.

Record TrafficCircuitOut := {
  ts_xor_mask : list N;
  client_key_share : list N; client_iv : list N;
  server_key_share : list N; server_iv : list N;
  CATS_share : list N; SATS_share : list N }.

Definition TRAFFIC_SECRETS_OUTPUT_SIZE : nat := 120.

(** ms share || hash (prover only) || mask *)
Definition pack_traffic (is_verifier : bool) (i : TrafficCircuitIn) (xor_mask : list N) : list N :=
  ts_ms_share i ++ (if is_verifier then repeat 0 32 else ts_hash i) ++ xor_mask.

(** The prover's share of a key is its mask, the verifier's the masked key. *)
Definition traffic_out (is_verifier : bool) (xor_mask output : list N) : TrafficCircuitOut :=
  let half := if is_verifier then 16%nat else 0%nat in
  {| ts_xor_mask := xor_mask;
     client_iv := sub 16 12 output;
     server_iv := sub 44 12 output;
     client_key_share := if is_verifier then sub 0 16 output else sub 0 16 xor_mask;
     server_key_share := if is_verifier then sub 28 16 output else sub 16 16 xor_mask;
     CATS_share := unmask output (56 + half) xor_mask 32;
     SATS_share := unmask output (88 + half) xor_mask 48 |}.

Definition run_traffic_circuit (circuit : option EmpWrapperAG2PC) (verifier : bool)
    (i : TrafficCircuitIn) (xor_mask : list N) : option TrafficCircuitOut :=
  call circuit (pack_traffic verifier i xor_mask) (traffic_out verifier xor_mask).

(** ** Resumption: the master secret, the PSK, the binder *)

Record ResumptionCircuitIn := { res_hash : list N; res_ms_share : list N }.
Record ResumptionCircuitOut := { res_xor_mask : list N; RMS_share : list N }.

Definition pack_resumption (is_verifier : bool) (i : ResumptionCircuitIn) (xor_mask : list N) : list N :=
  res_ms_share i ++ (if is_verifier then repeat 0 32 else res_hash i) ++ xor_mask.

Definition resumption_out (is_verifier : bool) (xor_mask output : list N) : ResumptionCircuitOut :=
  let offset := if is_verifier then 16%nat else 0%nat in
  {| res_xor_mask := xor_mask; RMS_share := unmask output offset xor_mask 0 |}.

Definition run_resumption_circuit (circuit : option EmpWrapperAG2PC) (verifier : bool)
    (i : ResumptionCircuitIn) (xor_mask : list N) : option ResumptionCircuitOut :=
  call circuit (pack_resumption verifier i xor_mask) (resumption_out verifier xor_mask).

(** The width of the nonce fixes the input type: none, one or eight bytes. *)
Record PskCircuitIn := { psk_rms_share : list N; ticket_nonce : list N }.
Record PskCircuitOut := { psk_xor_mask : list N; PSK_share : list N }.

Definition pack_psk (is_verifier : bool) (i : PskCircuitIn) (xor_mask : list N) : list N :=
  psk_rms_share i ++
  (if is_verifier then repeat 0 (length (ticket_nonce i)) else ticket_nonce i) ++ xor_mask.

Definition psk_out (is_verifier : bool) (xor_mask output : list N) : PskCircuitOut :=
  let offset := if is_verifier then 16%nat else 0%nat in
  {| psk_xor_mask := xor_mask; PSK_share := unmask output offset xor_mask 0 |}.

Definition run_psk_circuit (circuit : option EmpWrapperAG2PC) (verifier : bool)
    (i : PskCircuitIn) (xor_mask : list N) : option PskCircuitOut :=
  call circuit (pack_psk verifier i xor_mask) (psk_out verifier xor_mask).

Record BinderCircuitIn := { bi_psk_share : list N; ch_hash : list N }.

Definition pack_binder (is_verifier : bool) (i : BinderCircuitIn) : list N :=
  bi_psk_share i ++ (if is_verifier then repeat 0 32 else ch_hash i).

Definition run_binder_circuit (circuit : option EmpWrapperAG2PC) (verifier : bool) (i : BinderCircuitIn)
  : option (list N) :=
  call circuit (pack_binder verifier i) (fun output => output).

End KeyDerivation.
Import KeyDerivation CircuitSynthesis KeyCircuits.

(** ** A joint run

    Each party's call returns the output of the circuit on its own input and
    the input of its peer. *)
Definition with_bob (size : N) (C : list bool -> list bool -> list bool) (n : nat) (bob : list N) :=
  Some {| get_size := size; derive := fun alice => Some (exec C n alice bob) |}.
Definition with_alice (size : N) (C : list bool -> list bool -> list bool) (n : nat) (alice : list N) :=
  Some {| get_size := size; derive := fun bob => Some (exec C n alice bob) |}.

(** ** Stretches *)

Lemma sub_all n a : length a = n -> sub 0 n a = a.
Proof. intros H. apply firstn_all2. cbn. lia. Qed.

Lemma sub_head n a b : length a = n -> sub 0 n (a ++ b) = a.
Proof. intros H. unfold sub. cbn [skipn]. rewrite firstn_app, firstn_all2 by lia. now rewrite H, Nat.sub_diag, app_nil_r. Qed.

Lemma sub_skip m i n a b : length a = m -> sub (m + i) n (a ++ b) = sub i n b.
Proof.
  intros H. unfold sub. rewrite skipn_app, skipn_all2 by lia. f_equal. cbn [app]. f_equal. lia.
Qed.

Lemma nth_sub i n bs j : (j < n)%nat -> (sub i n bs).[j] = bs.[i + j].
Proof. intros H. unfold sub. rewrite nth_firstn, (proj2 (Nat.ltb_lt _ _)) by exact H. now rewrite nth_skipn. Qed.

Lemma tabulate_sub i n bs : (i + n <= length bs)%nat -> tabulate n (fun j => bs.[i + j]) = sub i n bs.
Proof.
  intros H. assert (L : length (sub i n bs) = n) by (unfold sub; rewrite length_firstn, length_skipn; lia).
  apply (nth_ext _ _ 0 0); [now rewrite length_tabulate, L|]. rewrite length_tabulate. intros j Hj.
  now rewrite nth_tabulate, nth_sub.
Qed.

Lemma sub_arr i n m bs : arr m bs -> (i + n <= m)%nat -> arr n (sub i n bs).
Proof.
  intros [L B] H. split; [|now apply bytes_firstn, bytes_skipn].
  unfold sub. rewrite length_firstn, length_skipn. lia.
Qed.

Lemma slice_sub i n bs : slice (8 * i) (8 * n) (bits bs) = bits (sub i n bs).
Proof.
  unfold slice, sub. rewrite <- firstn_bits, (Nat.mul_comm n 8). f_equal.
  rewrite <- (firstn_skipn i bs) at 1. rewrite bits_app.
  destruct (Nat.le_gt_cases i (length bs)) as [H|H].
  - rewrite skipn_app, skipn_all2, length_bits, length_firstn by (rewrite length_bits, length_firstn; lia).
    replace (8 * i - Nat.min i (length bs) * 8)%nat with 0%nat by lia. reflexivity.
  - rewrite (skipn_all2 bs) by lia. rewrite app_nil_r, skipn_all2; [reflexivity|].
    rewrite length_bits, length_firstn. lia.
Qed.

(** Two halves, masked. *)
Definition mask_halves (ma mb s : list N) : list N :=
  MaskConstants.xor_bytes ma (sub 0 16 s) ++ MaskConstants.xor_bytes mb (sub 16 16 s).

Lemma xor_secrets_bits ma mb s : arr 16 ma -> arr 16 mb -> arr 32 s ->
  xor_secrets (bits ma) (bits mb) (bits s) = bits (mask_halves ma mb s).
Proof.
  intros Ha Hb Hs. unfold xor_secrets, mask_halves. rewrite bits_app.
  rewrite (slice_sub 0 16 s : slice 0 128 (bits s) = _), (slice_sub 16 16 s : slice 128 128 (bits s) = _).
  rewrite !xor_wires_bits; try reflexivity; try (apply Ha || apply Hb); apply (sub_arr _ _ _ _ Hs); lia.
Qed.

Lemma mask_halves_arr ma mb s : arr 32 (mask_halves ma mb s).
Proof.
  unfold mask_halves. split; [reflexivity|]. apply Forall_app. split; apply xor_bytes_arr.
Qed.

(** A share without its mask. *)
Lemma unmask_xor out off mask m x : arr 16 x -> bytes mask ->
  sub off 16 out = MaskConstants.xor_bytes (sub m 16 mask) x -> unmask out off mask m = x.
Proof.
  intros [L B] M E. apply (nth_ext _ _ 0 0); [now rewrite L|]. unfold unmask. rewrite length_tabulate. intros i Hi.
  rewrite nth_tabulate, <- (nth_sub off 16), E by exact Hi. unfold MaskConstants.xor_bytes.
  rewrite nth_tabulate, nth_sub by exact Hi. rewrite wrap_small by (apply lxor_byte; now apply bytes_at).
  now rewrite N.lxor_comm, lxor_cancel_l.
Qed.

(** A mask and a masked key are shares of the key. *)
Lemma xor_bytes_cancel m k : bytes m -> arr 16 k -> MaskConstants.xor_bytes m (MaskConstants.xor_bytes m k) = k.
Proof.
  intros M [L B]. apply (nth_ext _ _ 0 0); [now rewrite L|]. unfold MaskConstants.xor_bytes.
  rewrite length_tabulate. intros i Hi. rewrite !nth_tabulate by exact Hi.
  rewrite (wrap_small 8 (m.[i] ⊕ k.[i])) by (apply lxor_byte; now apply bytes_at).
  rewrite lxor_cancel_l. apply wrap_small. now apply (bytes_at k).
Qed.

Lemma xor_bytes_comm a b : MaskConstants.xor_bytes a b = MaskConstants.xor_bytes b a.
Proof. apply map_ext. intros i. now rewrite N.lxor_comm. Qed.

(** The halves of a secret. *)
Lemma halves s : length s = 32%nat -> sub 0 16 s ++ sub 16 16 s = s.
Proof.
  intros H. unfold sub. cbn [skipn]. rewrite <- (firstn_skipn 16 s) at 3. f_equal.
  apply firstn_all2. rewrite length_skipn. lia.
Qed.

(** What each party keeps of a masked secret at an offset of the output. *)
Lemma share_low out off ma mb ka s : bytes ma -> arr 32 s ->
  sub off 32 out = mask_halves (sub ka 16 ma) mb s -> unmask out off ma ka = sub 0 16 s.
Proof.
  intros Hm Hs E. apply unmask_xor; [apply (sub_arr _ _ _ _ Hs); lia | exact Hm|].
  transitivity (sub 0 16 (sub off 32 out)); [|rewrite E; now apply sub_head].
  unfold sub. cbn [skipn]. now rewrite firstn_firstn.
Qed.

Lemma share_high out off ma mb kb s : bytes mb -> arr 32 s ->
  sub off 32 out = mask_halves ma (sub kb 16 mb) s -> unmask out (off + 16) mb kb = sub 16 16 s.
Proof.
  intros Hm Hs E. apply unmask_xor; [apply (sub_arr _ _ _ _ Hs); lia | exact Hm|].
  transitivity (sub 16 16 (sub off 32 out)).
  - unfold sub. rewrite skipn_firstn_comm, firstn_firstn, skipn_skipn. do 2 f_equal. lia.
  - rewrite E. unfold mask_halves. rewrite (sub_skip 16 0) by reflexivity. now apply sub_all.
Qed.

(** Both shares. *)
Lemma shares_of_secret out off ma mb k s : bytes ma -> bytes mb -> arr 32 s ->
  sub off 32 out = mask_halves (sub k 16 ma) (sub k 16 mb) s -> unmask out off ma k ++ unmask out (off + 16) mb k = s.
Proof.
  intros Ha Hb Hs E. rewrite (share_low out off ma (sub k 16 mb) k s), (share_high out off (sub k 16 ma) mb k s) by assumption.
  apply halves, Hs.
Qed.

Lemma slice_eq i n o l bs : o = (8 * i)%nat -> l = (8 * n)%nat -> slice o l (bits bs) = bits (sub i n bs).
Proof. intros -> ->. apply slice_sub. Qed.

(** Slices at literal offsets, as stretches of bytes. *)
Ltac slices :=
  repeat match goal with
  | |- context [slice ?o ?l (bits ?x)] =>
      let i := eval vm_compute in (o / 8)%nat in
      let n := eval vm_compute in (l / 8)%nat in
      rewrite (slice_eq i n o l x eq_refl eq_refl)
  end.

Lemma sub_past m i n a b : length a = m -> (m <= i)%nat -> sub i n (a ++ b) = sub (i - m) n b.
Proof. intros H Hi. rewrite <- (sub_skip m (i - m) n a b H). f_equal. lia. Qed.

(** The parts of an input: a share, a hash, and masks. *)
Lemma input_share a h m : arr 16 a -> sub 0 16 (a ++ h ++ m) = a.
Proof. intros [L _]. now apply sub_head. Qed.

Lemma input_hash a h m : arr 16 a -> arr 32 h -> sub 16 32 (a ++ h ++ m) = h.
Proof. intros [L _] [L' _]. rewrite (sub_past 16), sub_head by (assumption || lia). reflexivity. Qed.

Lemma input_mask i a h m : arr 16 a -> arr 32 h -> sub (48 + i) 16 (a ++ h ++ m) = sub i 16 m.
Proof.
  intros [L _] [L' _]. rewrite (sub_past 16), (sub_past 32) by (assumption || lia). f_equal. lia.
Qed.

#[local] Opaque KDF.expand_label KDF.extract KDF.hmac SHA2.sha256 MaskConstants.xor_bytes mask_halves.

(** A part of a packed sequence. *)
Lemma sub_part (ps : list (list N)) k i n :
  length (concat (firstn k ps)) = i -> length (nth k ps []) = n -> (k < length ps)%nat -> sub i n (concat ps) = nth k ps [].
Proof.
  revert k i. induction ps as [|x ps IH]; intros k i Hi Hn Hk; [cbn in Hk; lia|]. destruct k as [|k].
  - cbn in Hi. subst i. now apply sub_head.
  - cbn [firstn concat] in Hi. rewrite length_app in Hi. cbn [concat nth]. rewrite (sub_past (length x)) by (reflexivity || lia).
    apply IH; [lia | exact Hn | cbn in Hk; lia].
Qed.

(** Parts of known sizes. *)
Definition shape (ns : list nat) (ps : list (list N)) : Prop := Forall2 arr ns ps.

Lemma shape_arr ns ps : shape ns ps -> arr (list_sum ns) (concat ps).
Proof.
  induction 1 as [|n p ns ps Hp H IH]; [split; constructor|]. destruct Hp as [Lp Bp], IH as [L B].
  split; cbn [list_sum fold_right concat]; [rewrite length_app, Lp, L; reflexivity | now apply Forall_app].
Qed.

Lemma shape_part ns ps k i n d : shape ns ps -> list_sum (firstn k ns) = i -> nth k ns d = n ->
  (k < length ns)%nat -> sub i n (concat ps) = nth k ps [].
Proof.
  intros H Hi Hn Hk. assert (L : length ns = length ps) by (eapply Forall2_length; exact H).
  apply sub_part; [| |now rewrite <- L].
  - rewrite <- Hi. clear - H. revert k. induction H as [|m p ns ps [Hp _] H IH]; intros [|k]; try reflexivity.
    cbn [firstn concat]. now rewrite length_app, Hp, IH.
  - clear - H Hn Hk. revert k Hn Hk. induction H as [|m p ns ps [Hp _] H IH]; intros [|k] Hn Hk; cbn in *;
      [lia | lia | congruence | apply IH; [exact Hn | lia]].
Qed.

Section Joint.
Context {sc : Sha256Circuit} {sok : Sha256Ok sc}.

Definition short (label : String.string) : Prop :=
  size (KDF.string_bytes (String.append "tls13 "%string label)) < 256.

Lemma expand_bits s label h L : arr 32 s -> bytes h -> size h < 256 -> short label -> (L <= 32)%nat ->
  hkdf_expand_label (bits s) label (bits h) L = bits (KDF.expand_label s label h L).
Proof. intros [Ls Bs] Bh Lh Hl HL. apply hkdf_expand_label_bits; (assumption || lia). Qed.

Lemma expand_bits0 s label L : arr 32 s -> short label -> (L <= 32)%nat ->
  hkdf_expand_label (bits s) label [] L = bits (KDF.expand_label s label [] L).
Proof. intros Hs Hl HL. apply (expand_bits s label [] L); (assumption || constructor). Qed.

Lemma expand_arr32 s label h : arr 32 (KDF.expand_label s label h 32).
Proof. apply expand_label_arr. Qed.

Lemma arr_bytes n a : arr n a -> bytes a.
Proof. apply proj2. Qed.

Lemma arr_app n m a b : arr n a -> arr m b -> arr (n + m) (a ++ b).
Proof. intros [La Ba] [Lb Bb]. split; [rewrite length_app; lia | now apply Forall_app]. Qed.

Lemma empty_hash : get_empty_hash = SHA2.sha256 [].
Proof. vm_compute. reflexivity. Qed.

Lemma hash_size h : arr 32 h -> size h < 256.
Proof. intros [L _]. unfold size. rewrite L. reflexivity. Qed.

(** ** Traffic secrets *)

Section Traffic.
Variables (msA msB hA hB mA mB : list N).
Hypotheses (msA_ok : arr 16 msA) (msB_ok : arr 16 msB) (hA_ok : arr 32 hA) (hB_ok : arr 32 hB)
  (mA_ok : arr 64 mA) (mB_ok : arr 64 mB).

Let cats := Schedule.derive_secret (msA ++ msB) "c ap traffic" hA.
Let sats := Schedule.derive_secret (msA ++ msB) "s ap traffic" hA.

Definition traffic_secrets : list (list N) := [
  MaskConstants.xor_bytes (sub 0 16 mA) (Schedule.traffic_key cats); Schedule.traffic_iv cats;
  MaskConstants.xor_bytes (sub 16 16 mA) (Schedule.traffic_key sats); Schedule.traffic_iv sats;
  mask_halves (sub 32 16 mA) (sub 32 16 mB) cats; mask_halves (sub 48 16 mA) (sub 48 16 mB) sats].

Lemma traffic_shape : shape [16; 12; 16; 12; 32; 32]%nat traffic_secrets.
Proof.
  unfold traffic_secrets.
  repeat apply Forall2_cons; [apply xor_bytes_arr | apply expand_label_arr | apply xor_bytes_arr | apply expand_label_arr
    | apply mask_halves_arr | apply mask_halves_arr | constructor].
Qed.

Lemma traffic_circuit_spec :
  exec ProduceCombinedTrafficCircuits TRAFFIC_SECRETS_OUTPUT_SIZE (msA ++ hA ++ mA) (msB ++ hB ++ mB) =
  concat traffic_secrets.
Proof.
  assert (A : forall i, (i <= 48)%nat -> arr 16 (sub i 16 mA)) by (intros; apply (sub_arr _ _ 64); (assumption || lia)).
  assert (B : forall i, (i <= 48)%nat -> arr 16 (sub i 16 mB)) by (intros; apply (sub_arr _ _ 64); (assumption || lia)).
  pose proof (arr_app _ _ _ _ msA_ok msB_ok) as Hms.
  assert (Kx : forall i s l, (i <= 48)%nat -> xor_wires 128 (bits (sub i 16 mA)) (bits (KDF.expand_label s l [] 16)) =
    bits (MaskConstants.xor_bytes (sub i 16 mA) (KDF.expand_label s l [] 16)))
    by (intros; apply xor_wires_bits; [now apply A | apply expand_label_arr]).
  apply exec_bytes.
  - exact (shape_arr _ _ traffic_shape).
  - unfold ProduceCombinedTrafficCircuits. slices.
    rewrite !input_share, input_hash by assumption.
    rewrite (input_mask 0), (input_mask 16), (input_mask 32), (input_mask 48) by assumption.
    rewrite (input_mask 32), (input_mask 48) by assumption.
    rewrite <- bits_app, !(expand_bits (msA ++ msB)), !expand_bits0
      by (apply expand_arr32 || assumption || reflexivity || lia || (now apply hash_size) || (now apply (arr_bytes 32))).
    rewrite !Kx, !xor_secrets_bits by (lia || (apply A; lia) || (apply B; lia) || apply expand_arr32).
    unfold traffic_secrets. cbn [concat]. now rewrite !bits_app, app_nil_r.
Qed.

End Traffic.

Lemma call_alice {O} size C n b a (k : list N -> O) : call (with_bob size C n b) a k = Some (k (exec C n a b)).
Proof. reflexivity. Qed.

Lemma call_bob {O} size C n a b (k : list N -> O) : call (with_alice size C n a) b k = Some (k (exec C n a b)).
Proof. reflexivity. Qed.

(** Run jointly by prover and verifier on shares of the master secret, the
    traffic circuit leaves the two parties with shares of the traffic secrets
    of RFC 8446: the halves of the client's and the server's application
    traffic secret join to the secrets, the shares of the two keys have the
    keys as their exclusive or, and both hold the two IVs; only the prover's
    transcript hash counts. *)
Lemma traffic_secrets_joined msA msB h hB mA mB :
  arr 16 msA -> arr 16 msB -> arr 32 h -> arr 64 mA -> arr 64 mB ->
  let inA := {| ts_hash := h; ts_ms_share := msA |} in
  let inB := {| ts_hash := hB; ts_ms_share := msB |} in
  let cats := Schedule.derive_secret (msA ++ msB) "c ap traffic" h in
  let sats := Schedule.derive_secret (msA ++ msB) "s ap traffic" h in
  exists oA oB,
    run_traffic_circuit (with_bob 0 ProduceCombinedTrafficCircuits 120 (pack_traffic true inB mB)) false inA mA = Some oA /\
    run_traffic_circuit (with_alice 0 ProduceCombinedTrafficCircuits 120 (pack_traffic false inA mA)) true inB mB = Some oB /\
    CATS_share oA ++ CATS_share oB = cats /\ SATS_share oA ++ SATS_share oB = sats /\
    MaskConstants.xor_bytes (client_key_share oA) (client_key_share oB) = Schedule.traffic_key cats /\
    MaskConstants.xor_bytes (server_key_share oA) (server_key_share oB) = Schedule.traffic_key sats /\
    client_iv oA = Schedule.traffic_iv cats /\ client_iv oB = Schedule.traffic_iv cats /\
    server_iv oA = Schedule.traffic_iv sats /\ server_iv oB = Schedule.traffic_iv sats.
Proof.
  intros HA HB Hh HmA HmB inA inB cats sats. unfold run_traffic_circuit, pack_traffic.
  pose proof (traffic_shape msA msB h mA mB) as Hs. fold cats sats in Hs.
  pose proof (traffic_circuit_spec msA msB h (repeat 0 32) mA mB HA HB Hh (arr_repeat 32) HmA HmB) as E.
  do 2 eexists. split; [apply call_alice|]. split; [apply call_bob|]. cbn [ts_ms_share ts_hash inA inB].
  change 120%nat with TRAFFIC_SECRETS_OUTPUT_SIZE. rewrite E. set (out := concat _).
  pose proof (fun k i n => shape_part _ _ k i n 0%nat Hs) as P. fold out in P.
  unfold traffic_out. cbv beta iota zeta. rewrite !Nat.add_0_r.
  cbn [CATS_share SATS_share client_key_share server_key_share client_iv server_iv].
  rewrite (shares_of_secret out 56 mA mB 32 cats), (shares_of_secret out 88 mA mB 48 sats)
    by first [ apply expand_arr32 | apply HmA | apply HmB | exact (P 4%nat 56%nat 32%nat eq_refl eq_refl ltac:(cbn; lia))
             | exact (P 5%nat 88%nat 32%nat eq_refl eq_refl ltac:(cbn; lia)) ].
  rewrite (P 0%nat 0%nat 16%nat), (P 1%nat 16%nat 12%nat), (P 2%nat 28%nat 16%nat), (P 3%nat 44%nat 12%nat)
    by (reflexivity || (cbn; lia)).
  unfold traffic_secrets. cbn [nth]. fold cats sats.
  rewrite !xor_bytes_cancel by (apply expand_label_arr || now apply bytes_firstn, bytes_skipn, (arr_bytes 64)).
  repeat apply conj; reflexivity.
Qed.

(** ** Resumption *)

(** A circuit whose only output is a masked secret. *)
Lemma secret_exec C a b ma mb s : arr 16 ma -> arr 16 mb -> arr 32 s ->
  C (bits a) (bits b) = xor_secrets (bits ma) (bits mb) (bits s) -> exec C 32 a b = mask_halves ma mb s.
Proof.
  intros Ha Hb Hs E. apply exec_bytes; [apply mask_halves_arr|]. rewrite E. now apply xor_secrets_bits.
Qed.

Lemma shares_join ma mb s : arr 16 ma -> arr 16 mb -> arr 32 s ->
  unmask (mask_halves ma mb s) 0 ma 0 = sub 0 16 s /\ unmask (mask_halves ma mb s) 16 mb 0 = sub 16 16 s.
Proof.
  intros Ha Hb Hs. pose proof (mask_halves_arr ma mb s) as [L _]. split.
  - apply (share_low _ 0 ma mb 0); [apply Ha | exact Hs|]. now rewrite !sub_all by (assumption || apply Ha).
  - apply (share_high _ 0 ma mb 0); [apply Hb | exact Hs|]. now rewrite !sub_all by (assumption || apply Hb).
Qed.

Lemma rms_circuit_spec msA msB h hB mA mB :
  arr 16 msA -> arr 16 msB -> arr 32 h -> arr 32 hB -> arr 16 mA -> arr 16 mB ->
  exec ProduceCombinedRMS 32 (msA ++ h ++ mA) (msB ++ hB ++ mB) =
  mask_halves mA mB (Schedule.derive_secret (msA ++ msB) "res master" h).
Proof.
  intros HA HB Hh HhB HmA HmB. apply secret_exec; [exact HmA | exact HmB | apply expand_arr32|].
  unfold ProduceCombinedRMS. slices. rewrite !input_share, input_hash, !(input_mask 0) by assumption.
  rewrite !(sub_all 16) by (apply HmA || apply HmB). rewrite <- bits_app, expand_bits;
    [reflexivity | exact (arr_app _ _ _ _ HA HB) | apply Hh | now apply hash_size | reflexivity | lia].
Qed.

Lemma psk_circuit_spec rA rB nonce nB mA mB :
  arr 16 rA -> arr 16 rB -> bytes nonce -> size nonce < 256 -> length nB = length nonce -> arr 16 mA -> arr 16 mB ->
  exec (ProduceCombinedPSK (length nonce)) 32 (rA ++ nonce ++ mA) (rB ++ nB ++ mB) =
  mask_halves mA mB (Schedule.ticket_psk (rA ++ rB) nonce).
Proof.
  intros HA HB Bn Ln E HmA HmB. apply secret_exec; [exact HmA | exact HmB | apply expand_arr32|].
  unfold ProduceCombinedPSK. set (n := length nonce) in *.
  rewrite !(slice_eq 0 16 0 128), (slice_eq 16 n 128 (n * 8)), !(slice_eq (16 + n) 16 (128 + n * 8) 128) by lia.
  rewrite !input_share, (sub_past 16 16 n), sub_head by (assumption || reflexivity || apply HA || lia).
  rewrite (sub_past 16 _ _ rA), (sub_past 16 _ _ rB), (sub_past n _ _ nonce), (sub_past n _ _ nB)
    by (assumption || reflexivity || apply HA || apply HB || lia).
  replace (16 + n - 16 - n)%nat with 0%nat by lia. rewrite !(sub_all 16) by (apply HmA || apply HmB).
  rewrite <- bits_app, expand_bits; [reflexivity | exact (arr_app _ _ _ _ HA HB) | exact Bn | exact Ln | reflexivity | lia].
Qed.

Lemma early_bits psk : arr 32 psk ->
  hkdf_extract (repeat false 256) (bits psk) = bits (Schedule.early_secret psk).
Proof.
  intros Hp. change (repeat false 256) with (bits (repeat 0 32)). apply hkdf_extract_bits.
  - apply arr_repeat.
  - apply Hp.
  - rewrite repeat_length. lia.
  - destruct Hp as [L _]. unfold size. rewrite L. reflexivity.
Qed.

Lemma extract_bits salt ikm : arr 32 salt -> bytes ikm -> size ikm < 256 ->
  hkdf_extract (bits salt) (bits ikm) = bits (KDF.extract salt ikm).
Proof.
  intros [L B] Hi Hl. apply hkdf_extract_bits; [exact B | exact Hi | lia|]. change (2 ^ 16) with 65536. lia.
Qed.

Lemma extract_arr salt ikm : arr 32 (KDF.extract salt ikm).
Proof. apply hmac_arr. Qed.

Lemma empty_hash_arr : arr 32 get_empty_hash.
Proof. rewrite empty_hash. apply sha256_arr. Qed.

Lemma binder_circuit_spec pA pB h hB : arr 16 pA -> arr 16 pB -> arr 32 h -> arr 32 hB ->
  exec ProduceBinderCircuit 32 (pA ++ h) (pB ++ hB) = Schedule.psk_binder (pA ++ pB) h.
Proof.
  intros HA HB Hh HhB. pose proof empty_hash_arr as He. apply exec_bytes; [apply hmac_arr|].
  unfold ProduceBinderCircuit, chars_to_bools. slices.
  rewrite !(sub_head 16), (sub_past 16), (sub_all 32) by (apply HA || apply HB || apply Hh || lia).
  rewrite <- bits_app, early_bits by exact (arr_app _ _ _ _ HA HB).
  rewrite expand_bits by (apply extract_arr || apply He || (now apply hash_size) || reflexivity || lia).
  rewrite expand_bits0, extract_bits, empty_hash
    by (apply expand_arr32 || apply Hh || (now apply hash_size) || reflexivity || lia).
  reflexivity.
Qed.

(** The shares of one session resume the next: from shares of the master
    secret the parties obtain shares of the resumption master secret, from
    these shares of the PSK of a ticket, and from these both the binder that
    RFC 8446 prescribes for that PSK; the halves of the PSK join to the PSK of
    the ticket, for a nonce of any width below 256 bytes. *)
Lemma resumption_chain msA msB h hB mA mB nonce nB qA qB ch chB :
  arr 16 msA -> arr 16 msB -> arr 32 h -> arr 16 mA -> arr 16 mB ->
  bytes nonce -> size nonce < 256 -> length nB = length nonce -> arr 16 qA -> arr 16 qB -> arr 32 ch ->
  let inA := {| res_hash := h; res_ms_share := msA |} in
  let inB := {| res_hash := hB; res_ms_share := msB |} in
  let psk := Schedule.ticket_psk (Schedule.derive_secret (msA ++ msB) "res master" h) nonce in
  exists rA rB pA pB b,
    run_resumption_circuit (with_bob 0 ProduceCombinedRMS 32 (pack_resumption true inB mB)) false inA mA = Some rA /\
    run_resumption_circuit (with_alice 0 ProduceCombinedRMS 32 (pack_resumption false inA mA)) true inB mB = Some rB /\
    (let tA := {| psk_rms_share := RMS_share rA; ticket_nonce := nonce |} in
     let tB := {| psk_rms_share := RMS_share rB; ticket_nonce := nB |} in
     let C := ProduceCombinedPSK (length nonce) in
     run_psk_circuit (with_bob 0 C 32 (pack_psk true tB qB)) false tA qA = Some pA /\
     run_psk_circuit (with_alice 0 C 32 (pack_psk false tA qA)) true tB qB = Some pB) /\
    PSK_share pA ++ PSK_share pB = psk /\
    (let bA := {| bi_psk_share := PSK_share pA; ch_hash := ch |} in
     let bB := {| bi_psk_share := PSK_share pB; ch_hash := chB |} in
     run_binder_circuit (with_bob 0 ProduceBinderCircuit 32 (pack_binder true bB)) false bA = Some b /\
     run_binder_circuit (with_alice 0 ProduceBinderCircuit 32 (pack_binder false bA)) true bB = Some b) /\
    b = Schedule.psk_binder psk ch.
Proof.
  intros HA HB Hh HmA HmB Bn Sn En HqA HqB Hch inA inB psk.
  set (rms := Schedule.derive_secret (msA ++ msB) "res master" h) in *.
  assert (Hr : arr 32 rms) by apply expand_arr32. assert (Hp : arr 32 psk) by apply expand_arr32.
  assert (Halves : forall s, arr 32 s -> arr 16 (sub 0 16 s) /\ arr 16 (sub 16 16 s))
    by (intros s Hs; split; apply (sub_arr _ _ _ _ Hs); lia).
  destruct (Halves _ Hr) as [HrA HrB]. destruct (Halves _ Hp) as [HpA HpB].
  destruct (shares_join mA mB rms HmA HmB Hr) as [ErA ErB]. destruct (shares_join qA qB psk HqA HqB Hp) as [EpA EpB].
  exists {| res_xor_mask := mA; RMS_share := sub 0 16 rms |}, {| res_xor_mask := mB; RMS_share := sub 16 16 rms |},
    {| psk_xor_mask := qA; PSK_share := sub 0 16 psk |}, {| psk_xor_mask := qB; PSK_share := sub 16 16 psk |},
    (Schedule.psk_binder psk ch).
  cbn [RMS_share PSK_share]. unfold run_resumption_circuit, run_psk_circuit, run_binder_circuit.
  rewrite !call_alice, !call_bob. unfold pack_resumption, pack_psk, pack_binder, resumption_out, psk_out.
  cbn [res_ms_share res_hash psk_rms_share ticket_nonce bi_psk_share ch_hash inA inB].
  rewrite (rms_circuit_spec msA msB h (repeat 0 32) mA mB) by (assumption || apply arr_repeat). fold rms. rewrite ErA, ErB.
  rewrite (psk_circuit_spec (sub 0 16 rms) (sub 16 16 rms) nonce) by (assumption || now rewrite repeat_length).
  rewrite (halves rms) by apply Hr. fold psk. rewrite EpA, EpB.
  rewrite (binder_circuit_spec (sub 0 16 psk)) by (assumption || apply arr_repeat). rewrite (halves psk) by apply Hp.
  repeat apply conj; reflexivity.
Qed.

(** ** Handshake secrets *)

Lemma derived_bits s : arr 32 s ->
  hkdf_expand_label (bits s) (get_tag DHS) (bits get_empty_hash) 32 = bits (Schedule.derived s).
Proof.
  intros Hs. pose proof empty_hash_arr as He. rewrite expand_bits; [|exact Hs | apply He | now apply hash_size | reflexivity | lia].
  now rewrite empty_hash.
Qed.

Lemma serialise_bits bs : bytes bs -> bits (rev bs) = serialise_bignum (8 * length bs) (NIST.be_int bs).
Proof.
  intros Hb. symmetry. apply bits_ext; [unfold serialise_bignum; rewrite length_tabulate, length_rev; lia|].
  rewrite length_rev. intros i j Hi Hj. unfold serialise_bignum. rewrite nth_tabulate, be_int_setr, setr_bits by lia.
  replace (N.of_nat (i * 8 + j) / 8) with (N.of_nat i)
    by (apply (N.div_unique _ 8 (N.of_nat i) (N.of_nat j)); lia).
  replace (N.of_nat (i * 8 + j) mod 8) with (N.of_nat j)
    by (apply (N.mod_unique _ 8 (N.of_nat i) (N.of_nat j)); lia).
  rewrite Nat2N.id, wrap_small; [reflexivity|]. apply bytes_at, Forall_rev, Hb.
Qed.

(** The sum in the order that HKDF takes. *)
Lemma rearrange_bits n v : rearrange_sum_bits (serialise_bignum (8 * n) v) = bits (SHA2.be_bytes n v).
Proof.
  unfold rearrange_sum_bits, change_endian, serialise_bignum. apply bits_ext.
  - rewrite length_rev, !length_tabulate, length_be. lia.
  - rewrite length_be. intros i j Hi Hj. rewrite rev_nth, !length_tabulate by (rewrite !length_tabulate; lia).
    replace (8 * n - S (i * 8 + j))%nat with ((n - 1 - i) * 8 + (7 - j))%nat by lia.
    rewrite nth_tabulate by lia. destruct (div_mod_8 (n - 1 - i) (7 - j) ltac:(lia)) as [-> ->].
    rewrite nth_tabulate by lia. unfold SHA2.be_bytes. rewrite nth_tabulate by exact Hi.
    rewrite wrap_spec, N.shiftr_spec', (proj2 (N.ltb_lt _ _)), andb_true_r by lia. f_equal. lia.
Qed.

(** What the adder's description says, for summands below the prime. *)
Class ModAdderOk (ma : ModAdder) (length : nat) (p : N) : Prop :=
  adds : forall a b, a < p -> b < p ->
    add_compute (serialise_bignum length p ++ serialise_bignum length b ++ serialise_bignum length a) =
    serialise_bignum length ((a + b) mod p).

Section Handshake.
Context {ma : ModAdder} (n : nat) (p : N) {maok : ModAdderOk ma (8 * n) p}.
Variables (pA pB h hB mA mB xA xB : list N).
Hypotheses (n_ok : (n <= 48)%nat) (pA_ok : arr 16 pA) (pB_ok : arr 16 pB) (h_ok : arr 32 h) (hB_ok : arr 32 hB)
  (mA_ok : arr 96 mA) (mB_ok : arr 96 mB) (xA_ok : arr n xA) (xB_ok : arr n xB)
  (a_lt : NIST.be_int xA < p) (b_lt : NIST.be_int xB < p).

(** The x coordinate of the shared point, from its additive shares. *)
Definition dhe : list N := SHA2.be_bytes n ((NIST.be_int xA + NIST.be_int xB) mod p).

Let hs := Schedule.handshake_secret (pA ++ pB) dhe.
Let chts := Schedule.derive_secret hs "c hs traffic" h.
Let shts := Schedule.derive_secret hs "s hs traffic" h.

Definition handshake_secrets : list (list N) :=
  let m k s := mask_halves (sub (16 * k) 16 mA) (sub (16 * k) 16 mB) s in [
  m 0%nat hs; m 1%nat chts; m 2%nat shts; m 3%nat (Schedule.derived hs); m 4%nat (Schedule.master_secret hs);
  Schedule.finished_key shts; MaskConstants.xor_bytes (sub 80 16 mA) (Schedule.traffic_key shts); Schedule.traffic_iv shts].

Lemma handshake_shape : shape [32; 32; 32; 32; 32; 32; 16; 12]%nat handshake_secrets.
Proof.
  unfold handshake_secrets.
  do 5 (apply Forall2_cons; [apply mask_halves_arr|]). apply Forall2_cons; [apply expand_label_arr|].
  apply Forall2_cons; [apply xor_bytes_arr|]. apply Forall2_cons; [apply expand_label_arr|]. constructor.
Qed.

Lemma handshake_input ps hh m x : arr 16 ps -> arr 32 hh -> arr 96 m -> arr n x ->
  slice 1152 (8 * n) (bits (ps ++ hh ++ m ++ rev x)) = serialise_bignum (8 * n) (NIST.be_int x).
Proof.
  intros [Lp _] [Lh _] [Lm _] [L B]. rewrite (slice_eq 144 n 1152 (8 * n)) by reflexivity.
  rewrite (sub_past 16), (sub_past 32), (sub_past 96) by (assumption || lia).
  cbn [Nat.sub]. rewrite sub_all by (rewrite length_rev; exact L). rewrite serialise_bits by exact B. now rewrite L.
Qed.

Lemma handshake_mask k ps hh m x : arr 16 ps -> arr 32 hh -> arr 96 m -> (k <= 80)%nat ->
  sub (48 + k) 16 (ps ++ hh ++ m ++ x) = sub k 16 m.
Proof.
  intros Hp Hh [Lm _] Hk. rewrite input_mask by assumption. unfold sub. rewrite skipn_app, firstn_app.
  rewrite length_skipn, Lm. replace (16 - (96 - k))%nat with 0%nat by lia. now rewrite firstn_O, app_nil_r.
Qed.

Lemma handshake_circuit_spec :
  exec (ProduceCombinedCircuit (8 * n) p) HANDSHAKE_SECRETS_OUTPUT_SIZE
    (pA ++ h ++ mA ++ rev xA) (pB ++ hB ++ mB ++ rev xB) = concat handshake_secrets.
Proof.
  assert (A : forall i, (i <= 80)%nat -> arr 16 (sub i 16 mA)) by (intros; apply (sub_arr _ _ 96); (assumption || lia)).
  assert (B : forall i, (i <= 80)%nat -> arr 16 (sub i 16 mB)) by (intros; apply (sub_arr _ _ 96); (assumption || lia)).
  pose proof empty_hash_arr as He. assert (D : bytes dhe /\ size dhe < 256).
  { pose proof (be_bytes_arr n ((NIST.be_int xA + NIST.be_int xB) mod p)) as [Ld Bd]. split; [exact Bd|].
    unfold size, dhe. rewrite Ld. lia. }
  apply exec_bytes; [exact (shape_arr _ _ handshake_shape)|].
  unfold ProduceCombinedCircuit, chars_to_bools. rewrite !handshake_input by assumption.
  rewrite (proj2 (Nat.eqb_neq _ _)), app_nil_r, adds, rearrange_bits by (assumption || lia). fold dhe.
  slices. rewrite !input_share, input_hash by assumption.
  rewrite (handshake_mask 0), (handshake_mask 16), (handshake_mask 32), (handshake_mask 48), (handshake_mask 64),
    (handshake_mask 80) by (assumption || lia).
  rewrite (handshake_mask 0), (handshake_mask 16), (handshake_mask 32), (handshake_mask 48), (handshake_mask 64)
    by (assumption || lia).
  rewrite <- bits_app, early_bits by exact (arr_app _ _ _ _ pA_ok pB_ok).
  change (repeat false 256) with (bits (repeat 0 32)).
  rewrite derived_bits, !(extract_bits _ dhe) by (apply extract_arr || apply expand_arr32 || apply D).
  fold (Schedule.handshake_secret (pA ++ pB) dhe). fold hs. assert (Hhs : arr 32 hs) by apply extract_arr.
  rewrite derived_bits, extract_bits by (exact Hhs || apply expand_arr32 || apply arr_repeat || reflexivity).
  rewrite !(expand_bits hs) by (exact Hhs || apply h_ok || (now apply hash_size) || reflexivity || lia).
  rewrite !expand_bits0 by (apply expand_arr32 || reflexivity || lia).
  rewrite !xor_secrets_bits by (exact Hhs || apply expand_arr32 || apply extract_arr || (apply A; lia) || (apply B; lia)).
  rewrite xor_wires_bits, xor_bytes_comm by (apply expand_label_arr || (apply A; lia)).
  unfold handshake_secrets. cbn [concat]. now rewrite !bits_app, app_nil_r.
Qed.

End Handshake.

Lemma run_handshake_sized c verifier i m : get_size c = 256 \/ get_size c = 384 ->
  run_handshake_circuit (Some c) verifier i m = run_handshake_circuit_internal verifier c i m.
Proof. intros [E | E]; unfold run_handshake_circuit; rewrite E; reflexivity. Qed.

(** Run jointly on shares of the PSK and on additive shares of the x
    coordinate of the Diffie-Hellman point, with the 256-bit or the 384-bit
    circuit, the handshake circuit leaves the parties with the halves of the
    handshake secret, of both handshake traffic secrets, of the derived secret
    and of the master secret of RFC 8446, and both with the server's finished
    key and IV.  Both also keep the same value as their share of the server's
    handshake key: the key under the prover's mask. *)
Lemma handshake_secrets_joined {ma : ModAdder} (n : nat) (p : N) {maok : ModAdderOk ma (8 * n) p}
    pA pB h hB mA mB xA xB :
  (n = 32 \/ n = 48)%nat -> arr 16 pA -> arr 16 pB -> arr 32 h -> arr 96 mA -> arr 96 mB -> arr n xA -> arr n xB ->
  NIST.be_int xA < p -> NIST.be_int xB < p ->
  let inA := {| hs_hash := h; hs_key_share := xA; hs_psk_share := pA |} in
  let inB := {| hs_hash := hB; hs_key_share := xB; hs_psk_share := pB |} in
  let hs := Schedule.handshake_secret (pA ++ pB) (SHA2.be_bytes n ((NIST.be_int xA + NIST.be_int xB) mod p)) in
  let shts := Schedule.derive_secret hs "s hs traffic" h in
  let C := ProduceCombinedCircuit (8 * n) p in
  let size := 8 * N.of_nat n in
  exists oA oB,
    run_handshake_circuit (with_bob size C 220 (pack_handshake true inB mB)) false inA mA = Some oA /\
    run_handshake_circuit (with_alice size C 220 (pack_handshake false inA mA)) true inB mB = Some oB /\
    dHE_share oA ++ dHE_share oB = hs /\
    CHTS_share oA ++ CHTS_share oB = Schedule.derive_secret hs "c hs traffic" h /\
    SHTS_share oA ++ SHTS_share oB = shts /\
    dHS_share oA ++ dHS_share oB = Schedule.derived hs /\
    MS_share oA ++ MS_share oB = Schedule.master_secret hs /\
    fk_s oA = Schedule.finished_key shts /\ fk_s oB = Schedule.finished_key shts /\
    hs_iv oA = Schedule.traffic_iv shts /\ hs_iv oB = Schedule.traffic_iv shts /\
    hs_server_key_share oA = MaskConstants.xor_bytes (sub 80 16 mA) (Schedule.traffic_key shts) /\
    hs_server_key_share oB = hs_server_key_share oA.
Proof.
  intros Hn HpA HpB Hh HmA HmB HxA HxB La Lb inA inB hs shts C size.
  assert (Hle : (n <= 48)%nat) by lia.
  pose proof (handshake_circuit_spec n p pA pB h (repeat 0 32) mA mB xA xB Hle HpA HpB Hh (arr_repeat 32) HmA HmB HxA HxB La Lb) as E.
  pose proof (handshake_shape n p pA pB h mA mB xA xB) as Hs.
  assert (R : size = 256 \/ size = 384) by (unfold size; destruct Hn as [-> | ->]; auto).
  do 2 eexists. split; [unfold with_bob; rewrite run_handshake_sized by exact R; apply (call_alice size)|].
  split; [unfold with_alice; rewrite run_handshake_sized by exact R; apply (call_bob size)|].
  unfold pack_handshake. cbn [hs_hash hs_key_share hs_psk_share inA inB].
  change 220%nat with HANDSHAKE_SECRETS_OUTPUT_SIZE. unfold C. rewrite E. set (out := concat _).
  pose proof (fun k i n => shape_part _ _ k i n 0%nat Hs) as P. fold out in P.
  unfold handshake_out. cbv beta iota zeta.
  cbn [dHE_share CHTS_share SHTS_share dHS_share MS_share fk_s hs_iv hs_server_key_share].
  rewrite (P 5%nat 160%nat 32%nat), (P 6%nat 192%nat 16%nat), (P 7%nat 208%nat 12%nat) by (reflexivity || (cbn; lia)).
  assert (S : forall k s, (k < 5)%nat -> arr 32 s ->
    nth k (handshake_secrets n p pA pB h mA mB xA xB) [] = mask_halves (sub (16 * k) 16 mA) (sub (16 * k) 16 mB) s ->
    unmask out (32 * k) mA (16 * k) ++ unmask out (32 * k + 16) mB (16 * k) = s).
  { intros k s Hk As Es. apply shares_of_secret; [apply HmA | apply HmB | exact As|]. rewrite <- Es.
    apply P; [| |cbn; lia]; destruct k as [|[|[|[|[|k]]]]]; (reflexivity || lia). }
  split; [apply (S 0%nat); [lia | apply extract_arr | reflexivity]|].
  split; [apply (S 1%nat); [lia | apply expand_arr32 | reflexivity]|].
  split; [apply (S 2%nat); [lia | apply expand_arr32 | reflexivity]|].
  split; [apply (S 3%nat); [lia | apply expand_arr32 | reflexivity]|].
  split; [apply (S 4%nat); [lia | apply extract_arr | reflexivity]|].
  repeat apply conj; reflexivity.
Qed.
End Joint.

(** ** Runs with the reference circuits *)

Definition num (w : list bool) : N := fold_right (fun b acc => N.b2n b + 2 * acc) 0 w.

Definition reference_adder (n : nat) : ModAdder := fun w =>
  let p := num (slice 0 n w) in
  let b := num (slice n n w) in
  let a := num (slice (n + n) n w) in
  serialise_bignum n ((a + b) mod p).

Lemma num_serialise n : forall v, v < 2 ^ N.of_nat n -> num (serialise_bignum n v) = v.
Proof.
  induction n as [|n IH]; intros v Hv; [change (2 ^ N.of_nat 0) with 1 in Hv; cbn; lia|].
  unfold serialise_bignum, tabulate. cbn [seq map num fold_right]. rewrite <- seq_shift, map_map.
  rewrite (map_ext _ (fun i => N.testbit (N.div2 v) (N.of_nat i)))
    by (intros i; rewrite Nat2N.inj_succ; symmetry; apply N.testbit_div2).
  change (fold_right _ 0 _) with (num (serialise_bignum n (N.div2 v))). rewrite (IH (N.div2 v)).
  - rewrite N.bit0_odd, N.add_comm. symmetry. apply N.div2_odd.
  - rewrite Nat2N.inj_succ, N.pow_succ_r' in Hv. rewrite N.div2_div. apply N.Div0.div_lt_upper_bound. exact Hv.
Qed.

Lemma reference_adds n p : p < 2 ^ N.of_nat n -> ModAdderOk (reference_adder n) n p.
Proof.
  intros Hp a b Ha Hb. unfold add_compute, reference_adder.
  assert (L : forall v, length (serialise_bignum n v) = n) by (intros; apply length_tabulate).
  pose proof (fun v w => slice_skip 0 n n (serialise_bignum n v) w (L v)) as E. setoid_rewrite Nat.add_0_r in E.
  rewrite (slice_skip n n n) by apply L. rewrite !E, slice_head, slice_head, slice_all by apply L.
  rewrite !num_serialise by lia. reflexivity.
Qed.

Definition P256 : N := 0xffffffff00000001000000000000000000000000ffffffffffffffffffffffff.
