(* ===== verification/CircuitSingles.v ===== *)
(** * The circuits for single derivations and single blocks ([2pc/DeriveCircuits.cpp])

    Beside the combined circuits, the generator program has a circuit for each
    derivation of the key schedule, in which a party feeds its half of a secret
    and gets its half of the next one, and circuits that encrypt one block or a
    batch under shares of a key.  The derivations chain to the key schedule of
    RFC 8446; two of the block circuits do not use the IV they are given.  What
    the generator computes on its test data is left out. *)

From Stdlib Require Import String.
From S2P Require Import Prelude Messaging Util GHash Arrays CircuitWires CircuitRecords CircuitGcm Sha256 CircuitHkdf.
From S2P Require Import CircuitKeys KeyDerive CircuitHashKey.
From Stdlib Require Import List.
Import ListNotations Util Wires ByteString CircuitSynthesis KeyCircuits.
#[local] Abbreviation length := List.length.
Local Open Scope N_scope.

Module SingleCircuits.

(** Each bit on a public wire. *)
Definition chars_to_blocks (arr : list N) : list bool :=
  flat_map (fun w => tabulate 8 (fun j => N.testbit w (N.of_nat j))) arr.

(** The half revealed to Alice and the half revealed to Bob. *)
Definition extract_secret_each (derived_secret : list bool) : list bool * list bool :=
  (slice 0 128 derived_secret, slice 128 128 derived_secret).

(** ** Derivations *)

Definition dES : list N := [
  0x6F; 0x26; 0x15; 0xA1; 0x08; 0xC7; 0x02; 0xC5; 0x67; 0x8F; 0x54;
  0xFC; 0x9D; 0xBA; 0xB6; 0x97; 0x16; 0xC0; 0x76; 0x18; 0x9C; 0x48;
  0x25; 0x0C; 0xEB; 0xEA; 0xC3; 0x57; 0x6C; 0x36; 0x11; 0xBA].

Section Derivations.
Context {sc : Sha256Circuit}.

(** The inputs are shares modulo the order of the curve's group. *)
Definition DeriveHS {ma : ModAdder} (length : nat) (order : N) (a b : list bool) : list bool * list bool :=
  let context := chars_to_blocks dES in
  let addition := add_compute (serialise_bignum length order ++ b ++ a) ++
    (if (length =? 521)%nat then repeat false 7 else []) in
  extract_secret_each (hkdf_extract context addition).

Definition DeriveSessionSecrets (mode : TypeOfDerivation) (alice bob hash : list bool) : list bool * list bool :=
  extract_secret_each (hkdf_expand_label (alice ++ bob) (get_tag mode) hash 32).

(** The array for the result has 16 entries; [None] is a write past it. *)
Definition DerivePSK (alice bob nonce : list bool) : option (list bool * list bool) :=
  let capacity := 16%nat in
  let derived := hkdf_expand_label (alice ++ bob) (get_tag PSK) nonce 32 in
  if (List.length derived <=? capacity)%nat then Some (extract_secret_each derived) else None.

Definition DeriveDHS (alice bob : list bool) : list bool * list bool :=
  let context := chars_to_blocks get_empty_hash in
  extract_secret_each (hkdf_expand_label (alice ++ bob) (get_tag DHS) context 32).

Definition DeriveMS (alice bob : list bool) : list bool * list bool :=
  extract_secret_each (hkdf_extract (alice ++ bob) (repeat false 256)).

(** Alice's output; Bob keeps his mask. *)
Definition DeriveIVOrKey (mode : TypeOfDerivation) (alice bob bob_mask : list bool) : list bool :=
  let derived := hkdf_expand_label (alice ++ bob) (get_tag mode) [] 16 in
  xor_wires 128 derived bob_mask.

End Derivations.

(** ** Blocks *)

Section Blocks.
Context {bf : BristolAES}.

Definition DeriveAESEncryption (message alice_key bob_key : list bool) : list bool :=
  compute (xor_wires 128 alice_key bob_key ++ message).

(** The masked counter block and its masked encryption. *)
Definition DeriveAESSplit (alice_blocks bob_blocks : list bool) : list bool * list bool :=
  let key := xor_wires 128 (slice 0 128 alice_blocks) (slice 0 128 bob_blocks) in
  let iv := xor_wires 96 (slice 0 96 alice_blocks) (slice 0 96 bob_blocks) ++ repeat false 31 ++ [true] in
  let output := compute (key ++ iv) in
  (xor_wires 128 (xor_wires 128 iv (slice 224 128 alice_blocks)) (slice 224 128 bob_blocks),
   xor_wires 128 (xor_wires 128 output (slice 352 128 alice_blocks)) (slice 352 128 bob_blocks)).

(** A block of wires under one more wire. *)
Definition gated_wires (ok : bool) (w : list bool) : list bool := tabulate 128 (fun i => and_gate (wire w i) ok).

Definition DeriveCTXCommitments (alice_blocks bob_blocks : list bool) : list bool :=
  let IV := xor_wires 128 (slice 0 128 alice_blocks) (slice 0 128 bob_blocks) in
  let key := xor_wires 128 (slice 128 128 alice_blocks) (slice 128 128 bob_blocks) in
  let output := compute (key ++ IV) in
  let were_same := equals 128 alice_blocks bob_blocks in
  gated_wires were_same (xor_wires 128 output (slice 256 128 alice_blocks)) ++ repeat were_same 8.

Definition DeriveKeystream (alice_blocks bob_blocks : list bool) : list bool :=
  let key := xor_wires 128 (slice 0 128 alice_blocks) (slice 0 128 bob_blocks) in
  let output := compute (key ++ slice 128 128 alice_blocks) in
  let were_ctrs_same := equals 128 (skipn 128 alice_blocks) (skipn 128 bob_blocks) in
  gated_wires were_ctrs_same (xor_wires 128 output (slice 256 128 alice_blocks)) ++ repeat were_ctrs_same 8.

Definition DeriveAESJoint (alice_blocks bob_blocks : list bool) : list bool :=
  let key := xor_wires 128 (slice 128 128 alice_blocks) (slice 128 128 bob_blocks) in
  let output := compute (key ++ slice 256 128 alice_blocks) in
  let were_ivs_same := equals 128 (skipn 256 alice_blocks) (skipn 256 bob_blocks) in
  repeat were_ivs_same 8 ++ gated_wires were_ivs_same (xor_wires 128 output (slice 0 128 alice_blocks)).

(** [BristolFashion::compute] of [Inc128.txt]. *)
Class Increment := inc_compute : list bool -> list bool.

(** The blocks of [DeriveAESEnc]: the counter is incremented before each. *)
Fixpoint enc_blocks {ic : Increment} (n i : nat) (key IV alice_blocks : list bool) : list bool :=
  match n with
  | O => []
  | S n =>
      let IV := inc_compute IV in
      xor_wires 128 (compute (key ++ IV)) (slice (i * 128 + 256) 128 alice_blocks) ++ enc_blocks n (S i) key IV alice_blocks
  end.

Definition DeriveAESEnc {ic : Increment} (size : nat) (alice_blocks bob_blocks : list bool) : list bool :=
  let were_ivs_same := equals 128 (skipn 128 alice_blocks) (skipn 128 bob_blocks) in
  let IV := slice 128 128 alice_blocks in
  let key := xor_wires 128 (slice 0 128 alice_blocks) (slice 0 128 bob_blocks) in
  repeat were_ivs_same 8 ++ enc_blocks size 0 key IV alice_blocks.

End Blocks.
End SingleCircuits.
Import SingleCircuits.
Import KeyDerivation.

(** ** Halves of a secret *)

Lemma chars_to_blocks_bits bs : chars_to_blocks bs = bits bs.
Proof.
  apply bits_ext; [unfold chars_to_blocks; rewrite (length_flat_map_const _ 8); [reflexivity|]; intros; apply length_tabulate|].
  intros i j Hi Hj. unfold chars_to_blocks.
  rewrite (nth_flat_map _ 8 _ _ _ 0); [now rewrite nth_tabulate | intros; apply length_tabulate | assumption..].
Qed.

(** What Alice and what Bob get of a secret of 32 bytes. *)
Definition shared (s : list N) : list bool * list bool := (bits (sub 0 16 s), bits (sub 16 16 s)).

Lemma extract_halves s : extract_secret_each (bits s) = shared s.
Proof. unfold extract_secret_each, shared. now rewrite <- (slice_sub 0 16), <- (slice_sub 16 16). Qed.

Lemma joined_halves s : arr 32 s -> bits (sub 0 16 s) ++ bits (sub 16 16 s) = bits s.
Proof.
  intros [L _]. rewrite <- bits_app. f_equal. now apply halves.
Qed.

#[local] Opaque KDF.extract KDF.expand_label SHA2.sha256.

Section Schedule.
Context {sc : Sha256Circuit} {sok : Sha256Ok sc}.

(** The labels of the session secrets. *)
Lemma tag_short mode : short (get_tag mode).
Proof. destruct mode; reflexivity. Qed.

Lemma derive_session_spec mode s h : arr 32 s -> arr 32 h ->
  DeriveSessionSecrets mode (fst (shared s)) (snd (shared s)) (bits h) = shared (Schedule.derive_secret s (get_tag mode) h).
Proof.
  intros Hs Hh. unfold DeriveSessionSecrets, shared at 1 2. cbn [fst snd]. rewrite joined_halves by exact Hs.
  rewrite expand_bits by (assumption || apply tag_short || (now apply hash_size) || (now apply (arr_bytes 32)) || lia).
  apply extract_halves.
Qed.

Lemma derive_dhs_spec s : arr 32 s ->
  DeriveDHS (fst (shared s)) (snd (shared s)) = shared (Schedule.derived s).
Proof.
  intros Hs. unfold DeriveDHS. rewrite chars_to_blocks_bits.
  change (extract_secret_each _) with (DeriveSessionSecrets DHS (fst (shared s)) (snd (shared s)) (bits get_empty_hash)).
  rewrite derive_session_spec by (assumption || apply empty_hash_arr). rewrite empty_hash. unfold Schedule.derived. cbn [get_tag]. reflexivity.
Qed.

Lemma derive_ms_spec s : arr 32 s ->
  DeriveMS (fst (shared s)) (snd (shared s)) = shared (KDF.extract s (repeat 0 32)).
Proof.
  intros Hs. unfold DeriveMS, shared at 1 2. cbn [fst snd]. rewrite joined_halves by exact Hs.
  change (repeat false 256) with (bits (repeat 0 32)). destruct Hs as [L B].
  rewrite hkdf_extract_bits; [apply extract_halves | exact B | exact (proj2 (arr_repeat 32)) | rewrite L; lia | reflexivity].
Qed.

Lemma derive_key_spec mode s mask : arr 32 s -> arr 16 mask ->
  DeriveIVOrKey mode (fst (shared s)) (snd (shared s)) (bits mask) =
  bits (MaskConstants.xor_bytes (KDF.expand_label s (get_tag mode) [] 16) mask).
Proof.
  intros Hs Hm. unfold DeriveIVOrKey, shared. cbn [fst snd]. rewrite joined_halves by exact Hs.
  rewrite expand_bits0 by (assumption || apply tag_short || lia). apply xor_wires_bits; [apply expand_label_arr | apply Hm].
Qed.

End Schedule.

(** C40: The circuits for single derivations chain to the key schedule of RFC
    8446.  When each party feeds into the next circuit the half that the last
    one revealed to it, then from the halves of the handshake secret the
    circuits for the derived secret, the master secret, an application traffic
    secret and its key give the halves of the master secret and of the traffic
    secret, and Alice's key share and Bob's mask add up to the traffic key. *)
Theorem single_derivations_chain {sc : Sha256Circuit} {sok : Sha256Ok sc} (mode kmode : TypeOfDerivation) (hs h mask : list N) :
  arr 32 hs -> arr 32 h -> arr 16 mask ->
  (mode, kmode) = (CATS, CLIENT_TRAFFIC_KEY) \/ (mode, kmode) = (SATS, SERVER_TRAFFIC_KEY) ->
  let '(a0, b0) := shared hs in
  let '(a1, b1) := DeriveDHS a0 b0 in
  let '(a2, b2) := DeriveMS a1 b1 in
  let '(a3, b3) := DeriveSessionSecrets mode a2 b2 (bits h) in
  let key_share := DeriveIVOrKey kmode a3 b3 (bits mask) in
  let ats := Schedule.derive_secret (Schedule.master_secret hs) (get_tag mode) h in
  (a2, b2) = shared (Schedule.master_secret hs) /\ (a3, b3) = shared ats /\
  xor_wires 128 key_share (bits mask) = bits (Schedule.traffic_key ats).
Proof.
  intros Hhs Hh Hm Hk. destruct (shared hs) as [a0 b0] eqn:E0.
  pose proof (derive_dhs_spec hs Hhs) as D. rewrite E0 in D. cbn [fst snd] in D. rewrite D.
  destruct (shared (Schedule.derived hs)) as [a1 b1] eqn:E1.
  pose proof (derive_ms_spec (Schedule.derived hs) (expand_arr32 _ _ _)) as M. rewrite E1 in M. cbn [fst snd] in M.
  fold (Schedule.master_secret hs) in M. rewrite M. clear M.
  assert (Hms : arr 32 (Schedule.master_secret hs)) by apply hmac_arr. generalize dependent (Schedule.master_secret hs). intros ms Hms.
  destruct (shared ms) as [a2 b2] eqn:E2.
  pose proof (derive_session_spec mode ms h Hms Hh) as S. rewrite E2 in S. cbn [fst snd] in S. rewrite S. clear S.
  assert (Ha : arr 32 (Schedule.derive_secret ms (get_tag mode) h)) by apply expand_arr32.
  generalize dependent (Schedule.derive_secret ms (get_tag mode) h). intros ats Ha.
  destruct (shared ats) as [a3 b3] eqn:E3.
  pose proof (derive_key_spec kmode ats mask Ha Hm) as K. rewrite E3 in K. cbn [fst snd] in K. rewrite K.
  split; [now rewrite ?E2|]. split; [now rewrite ?E3|].
  rewrite xor_wires_bits by (apply Hm || (unfold MaskConstants.xor_bytes; apply length_tabulate)). f_equal.
  replace (get_tag kmode) with "key"%string by (destruct Hk as [[= _ ->] | [= _ ->]]; reflexivity).
  rewrite (xor_bytes_comm _ mask), (xor_bytes_comm _ mask). apply xor_bytes_cancel; [apply Hm | apply expand_label_arr].
Qed.

(** ** Derivations that differ from the schedule *)

(** The constant is the derived early secret of RFC 8446 without a PSK. *)
Lemma dES_derived : dES = Schedule.derived (Schedule.early_secret (repeat 0 32)).
Proof. vm_compute. reflexivity. Qed.

Lemma serialise_low_first n v : serialise_bignum (8 * n) v = bits (rev (SHA2.be_bytes n v)).
Proof.
  apply bits_ext; rewrite length_rev, length_be; [unfold serialise_bignum; rewrite length_tabulate; lia|].
  intros i j Hi Hj. unfold serialise_bignum. rewrite nth_tabulate, rev_nth, length_be by (rewrite ?length_be; lia).
  unfold SHA2.be_bytes. rewrite nth_tabulate, wrap_spec, N.shiftr_spec', (proj2 (N.ltb_lt _ _)), andb_true_r by lia. f_equal. lia.
Qed.

(** [DeriveHS] adds the shares modulo the order of the group and feeds the sum
    into the extraction with its lowest byte first; the combined circuit, and
    the key schedule, add modulo the prime of the field and take the bytes in
    the opposite order. *)
Theorem derive_hs_of_order {sc : Sha256Circuit} {sok : Sha256Ok sc} {ma : ModAdder} (n : nat) (order : N)
    {maok : ModAdderOk ma (8 * n) order} (a b : N) :
  (n = 32 \/ n = 48)%nat -> a < order -> b < order ->
  DeriveHS (8 * n) order (serialise_bignum (8 * n) a) (serialise_bignum (8 * n) b) =
  shared (Schedule.handshake_secret (repeat 0 32) (rev (SHA2.be_bytes n ((a + b) mod order)))).
Proof.
  intros Hn Ha Hb. unfold DeriveHS. rewrite adds by assumption. rewrite chars_to_blocks_bits.
  replace ((8 * n =? 521)%nat) with false by (destruct Hn as [-> | ->]; reflexivity). rewrite app_nil_r.
  set (v := (a + b) mod order). pose proof (be_bytes_arr n v) as [Lv Bv].
  rewrite (serialise_low_first n v), hkdf_extract_bits.
  - rewrite extract_halves. unfold Schedule.handshake_secret. now rewrite <- dES_derived.
  - vm_compute. repeat constructor.
  - now apply Forall_rev.
  - cbn. lia.
  - unfold size. rewrite length_rev, Lv. destruct Hn as [-> | ->]; reflexivity.
Qed.

(** The circuits for IVs derive sixteen bytes.  The length is part of the
    label, so what they output is not an extension of the IV of RFC 8446: for
    the secret of zeros the first twelve bytes differ from it. *)
Theorem derive_iv_wrong_length {sc : Sha256Circuit} {sok : Sha256Ok sc} (s mask : list N) :
  arr 32 s -> arr 16 mask ->
  xor_wires 128 (DeriveIVOrKey CLIENT_TRAFFIC_IV (fst (shared s)) (snd (shared s)) (bits mask)) (bits mask) =
    bits (KDF.expand_label s "iv" [] 16) /\
  sub 0 12 (KDF.expand_label (repeat 0 32) "iv" [] 16) <> Schedule.traffic_iv (repeat 0 32).
Proof.
  intros Hs Hm. split; [|vm_compute; discriminate].
  rewrite derive_key_spec by assumption. cbn [get_tag].
  rewrite xor_wires_bits by (apply Hm || (unfold MaskConstants.xor_bytes; apply length_tabulate)).
  rewrite (xor_bytes_comm _ mask), (xor_bytes_comm _ mask), xor_bytes_cancel; [reflexivity | apply Hm | apply expand_label_arr].
Qed.

(** [DerivePSK] always writes past its array: 256 wires into 16. *)
Theorem derive_psk_overflows {sc : Sha256Circuit} {sok : Sha256Ok sc} (a b nonce : list N) :
  arr 16 a -> arr 16 b -> arr 2 nonce -> DerivePSK (bits a) (bits b) (bits nonce) = None.
Proof.
  intros Ha Hb [Ln Bn]. unfold DerivePSK. rewrite <- bits_app.
  rewrite expand_bits by (exact (arr_app 16 16 a b Ha Hb) || exact Bn || apply tag_short || (unfold size; rewrite Ln; reflexivity) || lia).
  rewrite length_bits, (proj1 (expand_label_arr _ _ _ _)). reflexivity.
Qed.

(** ** What the block circuits encrypt *)

Section BlockInputs.
Context {bf : BristolAES}.

Lemma xor_wires_same n w : xor_wires n w w = repeat false n.
Proof.
  apply (nth_ext _ _ false false); [unfold xor_wires; now rewrite length_tabulate, repeat_length|].
  intros i Hi. unfold xor_wires in *. rewrite length_tabulate in Hi. rewrite nth_tabulate, nth_repeat by exact Hi. apply xorb_nilpotent.
Qed.

Lemma gated_wires_true w : length w = 128%nat -> gated_wires true w = w.
Proof.
  intros L. apply (nth_ext _ _ false false); [unfold gated_wires; now rewrite length_tabulate|].
  intros i Hi. unfold gated_wires in *. rewrite length_tabulate in Hi. rewrite nth_tabulate by exact Hi. apply andb_true_r.
Qed.

Lemma gated_wires_false w : gated_wires false w = repeat false 128.
Proof.
  apply (nth_ext _ _ false false); [unfold gated_wires; now rewrite length_tabulate, repeat_length|].
  intros i Hi. unfold gated_wires in *. rewrite length_tabulate in Hi. rewrite nth_tabulate, nth_repeat by exact Hi. apply andb_false_r.
Qed.

(** Three parts of 128 wires. *)
Lemma thirds a b c : length a = 128%nat -> length b = 128%nat -> length c = 128%nat ->
  slice 0 128 (a ++ b ++ c) = a /\ slice 128 128 (a ++ b ++ c) = b /\ slice 256 128 (a ++ b ++ c) = c /\
  skipn 128 (a ++ b ++ c) = b ++ c /\ skipn 256 (a ++ b ++ c) = c.
Proof.
  intros La Lb Lc. repeat split.
  - now apply slice_head.
  - rewrite (slice_skip 0 128) by exact La. now apply slice_head.
  - rewrite (slice_skip 128 128), (slice_skip 0 128) by assumption. now apply slice_all.
  - now apply skipn_exact.
  - rewrite app_assoc. apply skipn_exact. now rewrite length_app, La, Lb.
Qed.

Lemma equals_heads n a b x y : length a = n -> length b = n -> equals n (a ++ x) (b ++ y) = equals n a b.
Proof.
  intros La Lb. unfold equals. f_equal. apply fold_left_ext. intros out i Hi%in_seq. now rewrite !app_nth1 by lia.
Qed.

Lemma equals_dec n a b : length a = n -> length b = n -> {equals n a b = true /\ a = b} + {equals n a b = false /\ a <> b}.
Proof.
  intros La Lb. destruct (equals n a b) eqn:E; [left | right].
  - split; [reflexivity | now apply equals_spec in E].
  - split; [reflexivity|]. intros H. apply (equals_spec n a b La Lb) in H. congruence.
Qed.

(** The commitment circuit adds the two IVs, which it requires to be equal: a
    run that passes its check encrypts the zero block, whatever the IV, so all
    the counter blocks under one key share the commitment. *)
Theorem ctx_commitment_ignores_iv (iv iv' ka kb m m' : list bool) :
  length iv = 128%nat -> length iv' = 128%nat -> length ka = 128%nat -> length kb = 128%nat ->
  length m = 128%nat -> length m' = 128%nat ->
  DeriveCTXCommitments (iv ++ ka ++ m) (iv' ++ kb ++ m') =
  if equals 128 iv iv' then xor_wires 128 (compute (xor_wires 128 ka kb ++ repeat false 128)) m ++ repeat true 8
  else repeat false 136.
Proof.
  intros L1 L2 L3 L4 L5 L6. unfold DeriveCTXCommitments.
  destruct (thirds iv ka m L1 L3 L5) as (-> & -> & -> & _), (thirds iv' kb m' L2 L4 L6) as (-> & -> & _).
  rewrite equals_heads by assumption. destruct (equals_dec 128 iv iv' L1 L2) as [[-> <-] | [-> _]].
  - rewrite xor_wires_same, gated_wires_true; [reflexivity | apply length_tabulate].
  - rewrite gated_wires_false. reflexivity.
Qed.

(** The circuit for the first counter block reads the wires of the key where
    it should read those of the IV: the twelve bytes after the key share have
    no influence on its outputs. *)
Theorem aes_split_ignores_iv (ka kb iva ivb iva' ivb' ma mb : list bool) :
  length ka = 128%nat -> length kb = 128%nat -> length iva = 96%nat -> length ivb = 96%nat ->
  length iva' = 96%nat -> length ivb' = 96%nat ->
  DeriveAESSplit (ka ++ iva ++ ma) (kb ++ ivb ++ mb) = DeriveAESSplit (ka ++ iva' ++ ma) (kb ++ ivb' ++ mb).
Proof.
  intros L1 L2 L3 L4 L5 L6. unfold DeriveAESSplit.
  assert (H0 : forall k (r : list bool) n, length k = 128%nat -> (n <= 128)%nat -> slice 0 n (k ++ r) = slice 0 n k).
  { intros k r n Hk Hn. unfold slice. cbn [skipn]. rewrite firstn_app. replace (n - length k)%nat with 0%nat by lia. now rewrite firstn_O, app_nil_r. }
  assert (H1 : forall k i (r : list bool), length k = 128%nat -> length i = 96%nat -> slice 224 128 (k ++ i ++ r) = slice 0 128 r).
  { intros k i r Hk Hi. change 224%nat with (128 + (96 + 0))%nat. now rewrite !slice_skip. }
  assert (H2 : forall k i (r : list bool), length k = 128%nat -> length i = 96%nat -> slice 352 128 (k ++ i ++ r) = slice 128 128 r).
  { intros k i r Hk Hi. change 352%nat with (128 + (96 + 128))%nat. now rewrite !slice_skip. }
  rewrite !H1, !H2 by assumption.
  now rewrite !H0 by (assumption || lia).
Qed.

(** The circuits for one block of keystream and for the joint counter block
    encrypt the common counter under the joint key and mask the result for
    Alice; if the parties feed different counters, all outputs are zero. *)
Theorem keystream_gated (ka kb ca cb m x : list bool) :
  length ka = 128%nat -> length kb = 128%nat -> length ca = 128%nat -> length cb = 128%nat ->
  length m = 128%nat -> length x = 128%nat ->
  let e := xor_wires 128 (compute (xor_wires 128 ka kb ++ ca)) m in
  DeriveKeystream (ka ++ ca ++ m) (kb ++ cb ++ x) = (if equals 128 ca cb then e ++ repeat true 8 else repeat false 136) /\
  DeriveAESJoint (m ++ ka ++ ca) (x ++ kb ++ cb) = (if equals 128 ca cb then repeat true 8 ++ e else repeat false 136).
Proof.
  intros L1 L2 L3 L4 L5 L6. unfold DeriveKeystream, DeriveAESJoint.
  destruct (thirds ka ca m L1 L3 L5) as (-> & -> & -> & -> & _), (thirds kb cb x L2 L4 L6) as (-> & _ & _ & -> & _).
  destruct (thirds m ka ca L5 L1 L3) as (-> & -> & -> & _ & ->), (thirds x kb cb L6 L2 L4) as (_ & -> & _ & _ & ->).
  rewrite equals_heads by assumption. destruct (equals_dec 128 ca cb L3 L4) as [[-> <-] | [-> _]].
  - rewrite gated_wires_true by apply length_tabulate. now split.
  - rewrite gated_wires_false. now split.
Qed.

(** The circuit for a batch of blocks outputs whether the IVs agree but does
    not gate the blocks with it: the blocks are those of Alice's IV, whatever
    Bob feeds. *)
Theorem aes_enc_not_gated {ic : Increment} (n : nat) (ka kb iva ivb ivb' m m' : list bool) :
  length ka = 128%nat -> length kb = 128%nat -> length iva = 128%nat -> length ivb = 128%nat -> length ivb' = 128%nat ->
  skipn 8 (DeriveAESEnc n (ka ++ iva ++ m) (kb ++ ivb ++ m')) = skipn 8 (DeriveAESEnc n (ka ++ iva ++ m) (kb ++ ivb' ++ m')) /\
  firstn 8 (DeriveAESEnc n (ka ++ iva ++ m) (kb ++ ivb ++ m')) = repeat (equals 128 iva ivb) 8.
Proof.
  intros L1 L2 L3 L4 L5. unfold DeriveAESEnc. split.
  - rewrite !skipn_exact by apply repeat_length. now rewrite !(slice_head 128 kb) by exact L2.
  - rewrite firstn_exact by apply repeat_length. now rewrite !skipn_exact, equals_heads by assumption.
Qed.

End BlockInputs.

(** ** Witnesses *)

Lemma single_derivations_chain_witness :
  let '(a0, b0) := shared (repeat 1 32) in
  let '(a1, b1) := DeriveDHS (sc := reference_sha) a0 b0 in
  let '(a2, b2) := DeriveMS (sc := reference_sha) a1 b1 in
  let '(a3, b3) := DeriveSessionSecrets (sc := reference_sha) CATS a2 b2 (bits (repeat 2 32)) in
  let key_share := DeriveIVOrKey (sc := reference_sha) CLIENT_TRAFFIC_KEY a3 b3 (bits (repeat 3 16)) in
  let ats := Schedule.derive_secret (Schedule.master_secret (repeat 1 32)) (get_tag CATS) (repeat 2 32) in
  (a2, b2) = shared (Schedule.master_secret (repeat 1 32)) /\ (a3, b3) = shared ats /\
  xor_wires 128 key_share (bits (repeat 3 16)) = bits (Schedule.traffic_key ats).
Proof.
  apply (single_derivations_chain CATS CLIENT_TRAFFIC_KEY (repeat 1 32) (repeat 2 32) (repeat 3 16));
    [split; [reflexivity | repeat constructor]..|]. now left.
Defined.

Lemma derive_hs_of_order_witness :
  DeriveHS (sc := reference_sha) (ma := reference_adder 256) 256 101 (serialise_bignum 256 60) (serialise_bignum 256 70) =
  shared (Schedule.handshake_secret (repeat 0 32) (rev (SHA2.be_bytes 32 29))).
Proof.
  refine (derive_hs_of_order (ma := reference_adder 256) 32 101 (maok := reference_adds 256 101 eq_refl) 60 70 _ _ _);
    [now left | reflexivity | reflexivity].
Defined.

Lemma ctx_commitment_ignores_iv_witness :
  let z := repeat false 128 in
  let k := repeat true 128 in
  DeriveCTXCommitments (bf := fun w => skipn 128 w) (z ++ k ++ z) (k ++ k ++ z) = repeat false 136.
Proof.
  exact (ctx_commitment_ignores_iv (bf := fun w => skipn 128 w) (repeat false 128) (repeat true 128) (repeat true 128)
    (repeat true 128) (repeat false 128) (repeat false 128) eq_refl eq_refl eq_refl eq_refl eq_refl eq_refl).
Defined.
