(* ===== verification/Containers.v ===== *)
(** * Containers of blocks and bytes ([mta/EmpBlockSpan], [mta/PackArray], [mta/EmpBlockArray])

    The arrays that the protocols over prime fields pass to the oblivious
    transfer.  They manage memory by hand, so the model has a heap: a pointer
    is an address or null, the allocator may refuse a request, and the misuse
    of memory (a second release, an access outside a buffer or through a null
    pointer) is an outcome of its own.  Module [EmpBlockSpan] has the owning
    and the non-owning span, Module [PackArray] the aligned array of bytes. *)

From S2P Require Import Prelude.
From stdpp Require Import gmap fin_maps list.
Local Open Scope N_scope.

Module Memory.

(** Addresses are never given out twice. *)
Record Heap := { buffers : gmap N (list N); allocations : N }.

Definition empty_heap : Heap := {| buffers := ∅; allocations := 0 |}.

(** Whether request [k] of the program, of [n] bytes, is refused, and what the
    memory holds that is given out. *)
Class Allocator := { refuses : N -> N -> bool; stale : N -> nat -> N }.

Inductive Outcome (A : Type) :=
  | Done (a : A) (h : Heap)
  | Terminated
  | Undefined.
Arguments Done {A} a h.
Arguments Terminated {A}.
Arguments Undefined {A}.

Definition M (A : Type) : Type := Heap -> Outcome A.

Definition ret {A} (a : A) : M A := fun h => Done a h.

Definition bind {A B} (m : M A) (k : A -> M B) : M B := fun h =>
  match m h with Done a h => k a h | Terminated => Terminated | Undefined => Undefined end.

Definition terminate {A} : M A := fun _ => Terminated.

Definition undefined {A} : M A := fun _ => Undefined.

Definition request {al : Allocator} (n : N) (content : nat -> N) (size : N) : M (option N) := fun h =>
  let k := allocations h in
  if refuses k n then Done None {| buffers := buffers h; allocations := k + 1 |}
  else Done (Some k) {| buffers := <[k := tabulate (N.to_nat size) content]> (buffers h); allocations := k + 1 |}.

(** [free] and [delete[]]. *)
Definition release (p : option N) : M unit := fun h =>
  match p with
  | None => Done tt h
  | Some p =>
      match buffers h !! p with
      | Some _ => Done tt {| buffers := delete p (buffers h); allocations := allocations h |}
      | None => Undefined
      end
  end.

(** The buffer at a pointer. *)
Definition buffer_at (h : Heap) (p : option N) : option (list N) :=
  match p with Some p => buffers h !! p | None => None end.

Definition load (p : option N) (i : N) : M N := fun h =>
  match buffer_at h p with
  | Some l => match l !! N.to_nat i with Some v => Done v h | None => Undefined end
  | None => Undefined
  end.

Definition store (p : option N) (i : N) (v : N) : M unit := fun h =>
  match p with
  | Some q =>
      match buffers h !! q with
      | Some l =>
          if i <? N.of_nat (length l) then Done tt {| buffers := <[q := <[N.to_nat i := v]> l]> (buffers h); allocations := allocations h |}
          else Undefined
      | None => Undefined
      end
  | None => Undefined
  end.

(** [std::copy]: the first [n] elements at [p] to [q]; nothing for [n = 0],
    whatever the pointers. *)
Definition copy_to (p q : option N) (n : N) : M unit := fun h =>
  if n =? 0 then Done tt h else
  match buffer_at h p, q with
  | Some l, Some q =>
      match buffers h !! q with
      | Some l' =>
          if (n <=? N.of_nat (length l)) && (n <=? N.of_nat (length l')) then
            Done tt {| buffers := <[q := take (N.to_nat n) l ++ drop (N.to_nat n) l']> (buffers h); allocations := allocations h |}
          else Undefined
      | None => Undefined
      end
  | _, _ => Undefined
  end.

(** [memcpy]: both pointers must be valid, also for [n = 0]. *)
Definition memcpy_to (p q : option N) (n : N) : M unit := fun h =>
  match buffer_at h p, buffer_at h q with
  | Some _, Some _ => copy_to p q n h
  | _, _ => Undefined
  end.

(** The two fields of both classes. *)
Record Span := { data_ : option N; size_ : N }.

Definition size_of_block : N := 16.

End Memory.
Import Memory.

Declare Scope memory_scope.
Notation "x <- m ;; k" := (bind m (fun x => k)) (at level 100, m at next level, right associativity) : memory_scope.
Notation "m ;; k" := (bind m (fun _ => k)) (at level 100, right associativity) : memory_scope.
Local Open Scope memory_scope.

Module EmpBlockSpan.
Section Span.
Context {al : Allocator} (owns : bool).

(** [new emp::block[size]()]: zeros; the constructors and [init] do not throw,
    so a refusal ends the program. *)
Definition new_blocks (size : N) : M (option N) :=
  p <- request (size * size_of_block) (fun _ => 0) size ;;
  match p with Some p => ret (Some p) | None => terminate end.

Definition empty_span : Span := {| data_ := None; size_ := 0 |}.

Definition wrap_data (data : option N) (size : N) : Span := {| data_ := data; size_ := size |}.

Definition make (size : N) : M Span :=
  if negb owns then terminate else
  data <- new_blocks size ;;
  ret {| data_ := data; size_ := size |}.

Definition copy (other : Span) : M Span :=
  if owns then
    data <- new_blocks (size_ other) ;;
    copy_to (data_ other) data (size_ other) ;;
    ret {| data_ := data; size_ := size_ other |}
  else ret {| data_ := data_ other; size_ := size_ other |}.

(** The assignment that the language generates: both fields are copied. *)
Definition assign (this other : Span) : M Span := ret {| data_ := data_ other; size_ := size_ other |}.

Definition destroy (this : Span) : M unit :=
  if owns then release (data_ this) else ret tt.

Definition size (this : Span) : N := size_ this.

Definition empty (this : Span) : bool := size_ this =? 0.

Definition get (this : Span) (i : N) : M N := load (data_ this) i.

Definition set (this : Span) (i v : N) : M unit := store (data_ this) i v.

Definition front (this : Span) : M N := load (data_ this) 0.

Definition back (this : Span) : M N := load (data_ this) (wrap 64 (size_ this + (2 ^ 64 - 1))).

Definition size_in_bytes (this : Span) : N := wrap 64 (size_of_block * size_ this).

(** The object and the result. *)
Definition init (new_size : N) (this : Span) : M (Span * bool) :=
  if negb owns then terminate else
  if new_size =? size_ this then ret (this, true) else
  release (data_ this) ;;
  if new_size =? 0 then ret ({| data_ := None; size_ := 0 |}, true) else
  data <- new_blocks new_size ;;
  ret ({| data_ := data; size_ := new_size |}, match data with Some _ => true | None => false end).

End Span.
End EmpBlockSpan.

Module PackArray.
Section Array.
Context {al : Allocator}.

Definition nr_bytes_to_allocate (size : N) : N :=
  if size =? 0 then 0 else
  N.land (wrap 64 (size + size_of_block - 1)) (wrap 64 (2 ^ 64 - size_of_block)).

(** [aligned_alloc] leaves the memory as it is; for 0 bytes it may give null. *)
Definition alloc (size : N) : M (option N) := fun h =>
  request (nr_bytes_to_allocate size) (stale (allocations h)) (nr_bytes_to_allocate size) h.

Definition empty_array : Span := {| data_ := None; size_ := 0 |}.

Definition make (size : N) : M Span :=
  data <- alloc size ;;
  ret {| data_ := data; size_ := size |}.

Definition copy (other : Span) : M Span :=
  data <- alloc (size_ other) ;;
  memcpy_to (data_ other) data (size_ other) ;;
  ret {| data_ := data; size_ := size_ other |}.

Definition destroy (this : Span) : M unit := release (data_ this).

Definition size (this : Span) : N := size_ this.

Definition empty (this : Span) : bool := size_ this =? 0.

Definition get (this : Span) (i : N) : M N := load (data_ this) i.

Definition set (this : Span) (i v : N) : M unit := store (data_ this) i v.

Definition front (this : Span) : M N := load (data_ this) 0.

Definition back (this : Span) : M N := load (data_ this) (wrap 64 (size_ this + (2 ^ 64 - 1))).

Definition size_in_bytes (this : Span) : N := wrap 64 (1 * size_ this).

Definition init (new_size : N) (this : Span) : M (Span * bool) :=
  if new_size =? size_ this then ret (this, true) else
  release (data_ this) ;;
  if new_size =? 0 then ret ({| data_ := None; size_ := 0 |}, true) else
  data <- alloc new_size ;;
  ret ({| data_ := data; size_ := new_size |}, match data with Some _ => true | None => false end).

End Array.
End PackArray.

Module EmpBlockArray.

(** The array of the class template; [None] is a failed assertion. *)
Definition make (size : nat) : list N := repeat 0 size.

Definition get (arr : list N) (index : N) : option N :=
  if index <? N.of_nat (length arr) then arr !! N.to_nat index else None.

Definition set (arr : list N) (index v : N) : option (list N) :=
  if index <? N.of_nat (length arr) then Some (<[N.to_nat index := v]> arr) else None.

End EmpBlockArray.

(** ** Programs over a container

    What the two owning classes offer their users, and programs that create,
    copy, resize, read, write and destroy objects by name. *)

Module Programs.

Class Container := {
  c_make : N -> M Span;
  c_copy : Span -> M Span;
  c_init : N -> Span -> M (Span * bool);
  c_destroy : Span -> M unit;
  c_get : Span -> N -> M N;
  c_set : Span -> N -> N -> M unit;
  capacity : N -> N;  (** elements of the buffer for a size *)
  max_size : N;       (** the largest size that the class provides for *)
  copyable : N -> bool (** the sizes of objects that the class can copy *)
}.

Inductive Op :=
  | Default (x : N)
  | Make (x n : N)
  | Copy (x y : N)
  | Init (x n : N)
  | Get (x i : N)
  | Set_ (x i v : N)
  | Destroy (x : N).

Section Programs.
Context {C : Container}.

Definition null_span : Span := {| data_ := None; size_ := 0 |}.

Definition run_op (o : Op) (objs : gmap N Span) : M (gmap N Span) :=
  let with_object x (k : Span -> M (gmap N Span)) := match objs !! x with Some s => k s | None => undefined end in
  match o with
  | Default x => ret (<[x := null_span]> objs)
  | Make x n => s <- c_make n ;; ret (<[x := s]> objs)
  | Copy x y => with_object y (fun s => s <- c_copy s ;; ret (<[x := s]> objs))
  | Init x n => with_object x (fun s => r <- c_init n s ;; ret (<[x := fst r]> objs))
  | Get x i => with_object x (fun s => c_get s i ;; ret objs)
  | Set_ x i v => with_object x (fun s => c_set s i v ;; ret objs)
  | Destroy x => with_object x (fun s => c_destroy s ;; ret (delete x objs))
  end.

(** Objects are created once and used while they live, within their size; the
    sizes asked for and the objects copied are within what the class provides
    for. *)
Definition legal (o : Op) (objs : gmap N Span) : Prop :=
  match o with
  | Default x => objs !! x = None
  | Make x n => objs !! x = None /\ n <= max_size
  | Copy x y => objs !! x = None /\ exists s, objs !! y = Some s /\ copyable (size_ s) = true
  | Init x n => is_Some (objs !! x) /\ n <= max_size
  | Get x i | Set_ x i _ => exists s, objs !! x = Some s /\ i < size_ s
  | Destroy x => is_Some (objs !! x)
  end.

Inductive reachable : gmap N Span -> Heap -> Prop :=
  | reach_start : reachable ∅ empty_heap
  | reach_step o objs h objs' h' :
      reachable objs h -> legal o objs -> run_op o objs h = Done objs' h' -> reachable objs' h'.

(** The buffer of an object is there, with room for its elements. *)
Definition Held (s : Span) (h : Heap) : Prop :=
  size_ s <= max_size /\
  match data_ s with
  | None => size_ s = 0
  | Some p => exists l, buffers h !! p = Some l /\ N.of_nat (length l) = capacity (size_ s)
  end.

Definition released (p : option N) (h : Heap) : gmap N (list N) :=
  match p with Some p => delete p (buffers h) | None => buffers h end.

(** The buffer at [p] is given back and the object [s] has one of its own. *)
Definition Moved (h : Heap) (p : option N) (s : Span) (h' : Heap) : Prop :=
  allocations h <= allocations h' /\
  match data_ s with
  | None => size_ s = 0 /\ buffers h' = released p h
  | Some q => allocations h <= q < allocations h' /\
      exists l, N.of_nat (length l) = capacity (size_ s) /\ buffers h' = <[q := l]> (released p h)
  end.

(** The buffer at [p] has other elements. *)
Definition Written (h : Heap) (p : option N) (h' : Heap) : Prop :=
  exists q l l', p = Some q /\ buffers h !! q = Some l /\ length l' = length l /\
    buffers h' = <[q := l']> (buffers h) /\ allocations h' = allocations h.

(** The addresses in use have been given out. *)
Definition well_formed (h : Heap) : Prop := forall p, is_Some (buffers h !! p) -> p < allocations h.

(** A call does not misuse memory and ends in [P]. *)
Definition safely {A} (r : Outcome A) (P : A -> Heap -> Prop) : Prop :=
  match r with Done a h => P a h | Terminated => True | Undefined => False end.

Class ContainerLaws : Prop := {
  make_moves n h : n <= max_size -> safely (c_make n h) (fun s h' => size_ s = n /\ Moved h None s h');
  copy_moves s h : well_formed h -> Held s h -> copyable (size_ s) = true ->
    safely (c_copy s h) (fun s' h' => size_ s' = size_ s /\ Moved h None s' h');
  init_moves n s h : Held s h -> n <= max_size ->
    safely (c_init n s h) (fun r h' => size_ (fst r) = n /\ (fst r = s /\ h' = h \/ Moved h (data_ s) (fst r) h'));
  destroy_moves s h : Held s h -> safely (c_destroy s h) (fun _ h' => Moved h (data_ s) null_span h');
  get_held s h i : Held s h -> i < size_ s -> safely (c_get s i h) (fun _ h' => h' = h);
  set_held s h i v : Held s h -> i < size_ s -> safely (c_set s i v h) (fun _ h' => Written h (data_ s) h')
}.

(** Every object holds its buffer, no two the same, and every buffer is held. *)
Record Inv (objs : gmap N Span) (h : Heap) : Prop := {
  inv_held : forall x s, objs !! x = Some s -> Held s h;
  inv_sep : forall x y s t p, objs !! x = Some s -> objs !! y = Some t -> data_ s = Some p -> data_ t = Some p -> x = y;
  inv_owned : forall p, is_Some (buffers h !! p) -> exists x s, objs !! x = Some s /\ data_ s = Some p;
  inv_fresh : well_formed h
}.

End Programs.
Arguments ContainerLaws : clear implicits.
End Programs.
Import Programs.

(** ** The invariant *)

Section Invariant.
Context {C : Container}.

(** The pointer of an object, null if there is none of that name. *)
Definition pointer (objs : gmap N Span) (x : N) : option N :=
  match objs !! x with Some s => data_ s | None => None end.

Lemma released_other p po h : Some p <> po -> released po h !! p = buffers h !! p.
Proof. intros Hp. destruct po as [q|]; [|reflexivity]. cbn. apply lookup_delete_ne. congruence. Qed.

Lemma moved_other h po s h' p : Moved h po s h' -> p < allocations h -> Some p <> po -> buffers h' !! p = buffers h !! p.
Proof.
  intros [_ Hm] Hp Ho. destruct (data_ s) as [q|].
  - destruct Hm as ([Hq _] & l & _ & ->). rewrite lookup_insert_ne by lia. now apply released_other.
  - destruct Hm as [_ ->]. now apply released_other.
Qed.

(** Buffers after a move are old ones, apart from the new one. *)
Lemma moved_only h po s h' p : Moved h po s h' -> is_Some (buffers h' !! p) ->
  data_ s = Some p \/ (is_Some (buffers h !! p) /\ po <> Some p).
Proof.
  intros [_ Hm] Hp.
  assert (R : is_Some (released po h !! p) -> is_Some (buffers h !! p) /\ po <> Some p).
  { intros [l Hl]. destruct po as [q|]; cbn in Hl; [|split; [eauto | congruence]].
    apply lookup_delete_Some in Hl as [Hq Hl]. split; [eauto | congruence]. }
  destruct (data_ s) as [q|].
  - destruct Hm as (_ & l & _ & E). rewrite E in Hp. destruct (decide (q = p)) as [->|Hq]; [now left | right].
    rewrite lookup_insert_ne in Hp by exact Hq. now apply R.
  - destruct Hm as [_ E]. rewrite E in Hp. right. now apply R.
Qed.

Lemma moved_held h po s h' : Moved h po s h' -> size_ s <= max_size -> Held s h'.
Proof.
  intros [_ Hm] Hs. split; [exact Hs|]. destruct (data_ s) as [q|]; [|apply Hm].
  destruct Hm as (_ & l & L & ->). exists l. now rewrite lookup_insert_eq.
Qed.

Lemma held_pointer s h p : Held s h -> data_ s = Some p -> is_Some (buffers h !! p).
Proof. intros [_ H] E. rewrite E in H. destruct H as (l & -> & _). eauto. Qed.

Lemma held_at s h h' : Held s h -> (forall p, data_ s = Some p -> buffers h' !! p = buffers h !! p) -> Held s h'.
Proof.
  intros [Hm H] E. split; [exact Hm|]. destruct (data_ s) as [p|]; [|exact H]. now rewrite E.
Qed.

Lemma moved_inv objs h x s h' :
  Inv objs h -> Moved h (pointer objs x) s h' -> size_ s <= max_size -> Inv (<[x := s]> objs) h'.
Proof.
  intros I Hm Hs.
  assert (Other : forall y t p, y <> x -> objs !! y = Some t -> data_ t = Some p ->
      p < allocations h /\ Some p <> pointer objs x).
  { intros y t p Hy Ht Hp. split.
    - apply (inv_fresh _ _ I), (held_pointer t); [now apply (inv_held _ _ I) in Ht | exact Hp].
    - unfold pointer. destruct (objs !! x) as [u|] eqn:Eu; [|discriminate]. intros Hu. apply Hy.
      now apply (inv_sep _ _ I y x t u p). }
  assert (New : forall y t p, y <> x -> objs !! y = Some t -> data_ t = Some p -> data_ s <> Some p).
  { intros y t p Hy Ht Hp Es. destruct (Other y t p Hy Ht Hp) as [Hlt _].
    destruct Hm as [_ Hm]. rewrite Es in Hm. destruct Hm as ([Hge _] & _). lia. }
  constructor.
  - intros y t Hy. destruct (decide (y = x)) as [->|Hne].
    + rewrite lookup_insert_eq in Hy. injection Hy as <-. now apply (moved_held h (pointer objs x)).
    + rewrite lookup_insert_ne in Hy by congruence. apply (held_at t h); [now apply (inv_held _ _ I) in Hy|].
      intros p Hp. destruct (Other y t p Hne Hy Hp). now apply (moved_other h (pointer objs x) s).
  - intros y z t u p Hy Hz Ht Hu. destruct (decide (y = x)) as [->|Hny], (decide (z = x)) as [->|Hnz]; [reflexivity|..];
      rewrite ?lookup_insert_eq in *; rewrite ?lookup_insert_ne in * by congruence; simplify_eq.
    + now destruct (New z u p Hnz Hz Hu).
    + now destruct (New y t p Hny Hy Ht).
    + now apply (inv_sep _ _ I y z t u p).
  - intros p Hp. destruct (moved_only _ _ _ _ _ Hm Hp) as [Es | [Hb Hpo]].
    + exists x, s. now rewrite lookup_insert_eq.
    + destruct (inv_owned _ _ I p Hb) as (y & t & Hy & Ht). exists y, t. split; [|exact Ht].
      rewrite lookup_insert_ne; [exact Hy|]. intros <-. apply Hpo. unfold pointer. now rewrite Hy.
  - intros p Hp. destruct Hm as [Hle Hm]. destruct (moved_only h (pointer objs x) s h' p (conj Hle Hm) Hp) as [Es | [Hb _]].
    + rewrite Es in Hm. destruct Hm as ([_ Hlt] & _). exact Hlt.
    + apply (inv_fresh _ _ I) in Hb. lia.
Qed.

Lemma written_inv objs h x s h' : Inv objs h -> objs !! x = Some s -> Written h (data_ s) h' -> Inv objs h'.
Proof.
  intros I Hx (q & l & l' & Eq & El & Ll & Eh & Ea).
  assert (B : forall p, is_Some (buffers h' !! p) -> is_Some (buffers h !! p)).
  { intros p Hp. rewrite Eh in Hp. destruct (decide (q = p)) as [<-|]; [eauto | now rewrite lookup_insert_ne in Hp]. }
  constructor.
  - intros y t Hy. destruct (inv_held _ _ I y t Hy) as [Hm Ht]. split; [exact Hm|].
    destruct (data_ t) as [p|]; [|exact Ht]. destruct Ht as (k & Hk & Lk). rewrite Eh.
    destruct (decide (q = p)) as [<-|Hne]; [|exists k; now rewrite lookup_insert_ne].
    exists l'. rewrite lookup_insert_eq, Ll. split; [reflexivity | congruence].
  - apply I.
  - intros p Hp. now apply (inv_owned _ _ I), B.
  - intros p Hp. rewrite Ea. now apply (inv_fresh _ _ I), B.
Qed.

(** An object without a buffer can go. *)
Lemma delete_inv objs h x : Inv (<[x := null_span]> objs) h -> Inv (delete x objs) h.
Proof.
  intros I.
  assert (D : forall y t, delete x objs !! y = Some t -> <[x := null_span]> objs !! y = Some t).
  { intros y t [Hne Hy]%lookup_delete_Some. now rewrite lookup_insert_ne. }
  constructor.
  - intros y t Hy%D. now apply (inv_held _ _ I y).
  - intros y z t u p Hy%D Hz%D. now apply (inv_sep _ _ I).
  - intros p Hp. destruct (inv_owned _ _ I p Hp) as (y & t & Hy & Ht). exists y, t. split; [|exact Ht].
    destruct (decide (y = x)) as [->|]; [rewrite lookup_insert_eq in Hy; now simplify_eq|].
    rewrite lookup_insert_ne in Hy by congruence. now rewrite lookup_delete_ne.
  - apply I.
Qed.

Lemma start_inv : Inv ∅ empty_heap.
Proof.
  constructor; cbn; try (intros *; rewrite lookup_empty; discriminate); intros p [l Hl]; cbn in Hl; now rewrite lookup_empty in Hl.
Qed.

Lemma safely_bind {A B} (m : M A) (k : A -> M B) h P Q :
  safely (m h) P -> (forall a h', P a h' -> safely (k a h') Q) -> safely (bind m k h) Q.
Proof. unfold bind, safely. destruct (m h); intros H Hk; [now apply Hk | exact I | contradiction]. Qed.

End Invariant.

Section Safety.
Context {C : Container} {CL : ContainerLaws C}.

Lemma op_safe o objs h : Inv objs h -> legal o objs -> safely (run_op o objs h) Inv.
Proof.
  intros Hi Hl.
  assert (P0 : forall x, objs !! x = None -> pointer objs x = None) by (intros x Hx; unfold pointer; now rewrite Hx).
  assert (P1 : forall x s, objs !! x = Some s -> pointer objs x = data_ s) by (intros x s Hx; unfold pointer; now rewrite Hx).
  destruct o as [x | x n | x y | x n | x i | x i v | x]; cbn [run_op legal] in *.
  - apply (moved_inv objs h); [exact Hi | | cbn; lia]. rewrite P0 by exact Hl. repeat split; cbn; lia.
  - destruct Hl as [Hx Hn]. eapply safely_bind; [now apply make_moves|]. intros s h' [<- Hm].
    apply (moved_inv objs h); [exact Hi | now rewrite P0 | exact Hn].
  - destruct Hl as [Hx (s & Hy & Hok)]. rewrite Hy. pose proof (inv_held _ _ Hi y s Hy) as Hs.
    eapply safely_bind; [apply copy_moves; [apply Hi | exact Hs | exact Hok]|]. intros s' h' [E Hm].
    apply (moved_inv objs h); [exact Hi | now rewrite P0 | rewrite E; apply Hs].
  - destruct Hl as [[s Hx] Hn]. rewrite Hx. pose proof (inv_held _ _ Hi x s Hx) as Hs.
    eapply safely_bind; [now apply init_moves|]. intros [s' b] h' [E Hm]. cbn [fst] in *. subst n.
    destruct Hm as [[-> ->] | Hm]; cbn; [now rewrite insert_id|].
    apply (moved_inv objs h); [exact Hi | now rewrite (P1 x s) | exact Hn].
  - destruct Hl as (s & Hx & Hlt). rewrite Hx. eapply safely_bind; [apply get_held; [now apply (inv_held _ _ Hi x) | exact Hlt]|].
    now intros ? h' ->.
  - destruct Hl as (s & Hx & Hlt). rewrite Hx. eapply safely_bind; [apply set_held; [now apply (inv_held _ _ Hi x) | exact Hlt]|].
    intros ? h' Hw. now apply (written_inv objs h x s).
  - destruct Hl as [s Hx]. rewrite Hx. eapply safely_bind; [apply destroy_moves; now apply (inv_held _ _ Hi x)|].
    intros ? h' Hm. apply delete_inv, (moved_inv objs h); [exact Hi | now rewrite (P1 x s) | cbn; lia].
Qed.

Lemma reachable_inv objs h : reachable objs h -> Inv objs h.
Proof.
  induction 1 as [|o objs h objs' h' _ IH Hl Hr]; [apply start_inv|].
  pose proof (op_safe o objs h IH Hl) as H. now rewrite Hr in H.
Qed.

(** No legal step misuses memory, live objects never share a buffer, and when
    no object is left all memory has been given back. *)
Definition memory_safe : Prop := forall objs h, reachable objs h ->
  (forall o, legal o objs -> run_op o objs h <> Undefined) /\
  (forall x y s t p, objs !! x = Some s -> objs !! y = Some t -> data_ s = Some p -> data_ t = Some p -> x = y) /\
  (objs = ∅ -> buffers h = ∅).

Lemma programs_safe : memory_safe.
Proof.
  intros objs h Hr. pose proof (reachable_inv objs h Hr) as Hi. repeat split.
  - intros o Hl E. pose proof (op_safe o objs h Hi Hl) as H. now rewrite E in H.
  - apply Hi.
  - intros ->. apply map_empty. intros p. destruct (buffers h !! p) as [l|] eqn:E; [|reflexivity].
    destruct (inv_owned _ _ Hi p (ex_intro _ l E)) as (x & s & Hx & _). now rewrite lookup_empty in Hx.
Qed.

End Safety.

(** ** The two classes *)

Section Instances.
Context {al : Allocator}.

Definition span_container : Container := {|
  c_make := EmpBlockSpan.make true; c_copy := EmpBlockSpan.copy true; c_init := EmpBlockSpan.init true;
  c_destroy := EmpBlockSpan.destroy true; c_get := EmpBlockSpan.get; c_set := EmpBlockSpan.set;
  capacity := fun n => n; max_size := 2 ^ 64 - 1; copyable := fun _ => true |}.

Definition array_container : Container := {|
  c_make := PackArray.make; c_copy := PackArray.copy; c_init := PackArray.init;
  c_destroy := PackArray.destroy; c_get := PackArray.get; c_set := PackArray.set;
  capacity := PackArray.nr_bytes_to_allocate; max_size := 2 ^ 64 - 16;
  copyable := fun n => negb (n =? 0) |}.

(** What the limits of the class are: [array_wrapped_size] and
    [array_copy_of_empty] below show that they are needed. *)
Example array_limits : max_size (Container := array_container) = 2 ^ 64 - 16 /\
  (forall n, copyable (Container := array_container) n = negb (n =? 0)).
Proof. split; reflexivity. Qed.

(** The bytes that are asked for are the least multiple of the size of a block
    that holds the elements, unless the sum overflows. *)
Lemma nr_bytes_rounds n : n <= 2 ^ 64 - 16 ->
  PackArray.nr_bytes_to_allocate n = 16 * ((n + 15) / 16).
Proof.
  intros Hn. unfold PackArray.nr_bytes_to_allocate, size_of_block. destruct (N.eqb_spec n 0) as [->|H0]; [reflexivity|].
  replace (n + 16 - 1) with (n + 15) by lia. rewrite wrap_small by lia.
  set (a := n + 15). assert (Ha : a < 2 ^ 64) by (unfold a; lia).
  replace (wrap 64 (2 ^ 64 - 16)) with (N.ldiff (N.ones 64) (N.ones 4)) by reflexivity.
  rewrite N.mul_comm. change 16 with (2 ^ 4). rewrite <- N.shiftr_div_pow2, <- N.shiftl_mul_pow2.
  rewrite <- N.ldiff_ones_r. apply N.bits_inj. intros i. rewrite N.land_spec, !N.ldiff_spec.
  destruct (N.lt_ge_cases i 64) as [Hi|Hi].
  - now rewrite N.ones_spec_low.
  - now rewrite (testbit_high a 64).
Qed.

(** What an allocation gives. *)
Definition Given (h : Heap) (cap : N) (p : option N) (h' : Heap) : Prop :=
  allocations h <= allocations h' /\
  match p with
  | None => buffers h' = buffers h
  | Some q => allocations h <= q < allocations h' /\
      exists l, N.of_nat (length l) = cap /\ buffers h' = <[q := l]> (buffers h)
  end.

Lemma request_gives n c size h : safely (request n c size h) (fun p h' => Given h size p h' /\ (p = None -> refuses (allocations h) n = true)).
Proof.
  unfold request. destruct (refuses _ _) eqn:E; cbn; split; try discriminate; [|done|].
  - split; [cbn; lia | reflexivity].
  - split; [cbn; lia|]. split; [cbn; lia|]. eexists. split; [|reflexivity]. rewrite length_tabulate. lia.
Qed.

Lemma new_blocks_gives n h : safely (EmpBlockSpan.new_blocks n h) (fun p h' => Given h n p h' /\ p <> None).
Proof.
  eapply safely_bind; [apply request_gives|]. intros [q|] h' [Hg _]; [|exact I]. now split.
Qed.

(** An allocator that refuses only requests for no bytes. *)
Class Generous : Prop := never_refuses k n : 0 < n -> refuses k n = false.

Lemma alloc_gives {G : Generous} n h : n <= 2 ^ 64 - 16 ->
  safely (PackArray.alloc n h) (fun p h' => Given h (PackArray.nr_bytes_to_allocate n) p h' /\ (p = None -> n = 0)).
Proof.
  intros Hn. pose proof (request_gives (PackArray.nr_bytes_to_allocate n) (stale (allocations h)) (PackArray.nr_bytes_to_allocate n) h) as H.
  unfold PackArray.alloc, safely in *. destruct (request _ _ _ h); [|exact H..]. destruct H as [Hg Hr]. split; [exact Hg|].
  intros E. specialize (Hr E). destruct (N.eq_dec n 0) as [->|H0]; [reflexivity|].
  rewrite never_refuses in Hr; [discriminate|]. rewrite nr_bytes_rounds by exact Hn.
  pose proof (N.Div0.div_mod (n + 15) 16). pose proof (N.mod_lt (n + 15) 16). lia.
Qed.

Lemma release_held {C : Container} s h : Held s h -> exists h', release (data_ s) h = Done tt h' /\ buffers h' = released (data_ s) h /\ allocations h' = allocations h.
Proof.
  intros [_ H]. destruct (data_ s) as [p|]; cbn; [|now exists h]. destruct H as (l & -> & _). now eexists.
Qed.

(** An allocation after a release moves the object. *)
Lemma given_moves {C : Container} h po h1 n p h' :
  buffers h1 = released po h -> allocations h1 = allocations h -> Given h1 (capacity n) p h' -> (p = None -> n = 0) ->
  Moved h po {| data_ := p; size_ := n |} h'.
Proof.
  intros Eb Ea [Hle Hp] Hn. rewrite Ea, ?Eb in *. split; [exact Hle|]. cbn. destruct p as [q|]; [exact Hp|]. now rewrite Hn, Hp.
Qed.

(** The elements of a held object fit into a new buffer. *)
Lemma copy_given {C : Container} s h p h' :
  (forall n, n <= max_size -> n <= capacity n) ->
  well_formed h -> Held s h -> Given h (capacity (size_ s)) p h' -> (p = None -> size_ s = 0) ->
  safely (copy_to (data_ s) p (size_ s) h') (fun _ h2 => Given h (capacity (size_ s)) p h2).
Proof.
  intros Hcap Hw Hs [Hle Hp] Hn. pose proof (Hcap _ (proj1 Hs)) as Hc. unfold copy_to.
  destruct (N.eqb_spec (size_ s) 0) as [E|E]; [now split|].
  destruct Hs as [_ Hs]. destruct (data_ s) as [p0|]; [|contradiction]. destruct p as [q|]; [|now destruct E; apply Hn].
  destruct Hs as (l & El & Ll), Hp as (Hq & l' & Ll' & Eh). pose proof (Hw p0 (ex_intro _ l El)) as Hp0. cbn [buffer_at].
  rewrite Eh, lookup_insert_ne, El, lookup_insert_eq by lia.
  rewrite (proj2 (N.leb_le _ _)), (proj2 (N.leb_le _ _)) by lia. cbn. split; [exact Hle|]. split; [exact Hq|].
  eexists. split; [|cbn; rewrite insert_insert_eq; reflexivity].
  rewrite length_app, length_take, length_drop. lia.
Qed.

(** The same for [memcpy], where there is something to copy. *)
Lemma memcpy_given {C : Container} s h p h' :
  (forall n, n <= max_size -> n <= capacity n) ->
  well_formed h -> Held s h -> size_ s <> 0 -> Given h (capacity (size_ s)) p h' -> (p = None -> size_ s = 0) ->
  safely (memcpy_to (data_ s) p (size_ s) h') (fun _ h2 => Given h (capacity (size_ s)) p h2).
Proof.
  intros Hcap Hw Hs H0 Hg Hn. pose proof (copy_given s h p h' Hcap Hw Hs Hg Hn) as Hc. unfold memcpy_to.
  destruct p as [q|]; [|now destruct H0; apply Hn]. destruct Hs as [_ Hs]. destruct (data_ s) as [p0|]; [|contradiction].
  destruct Hg as (_ & Hq & l' & _ & Eh), Hs as (l & El & _). pose proof (Hw p0 (ex_intro _ l El)) as Hp0. cbn [buffer_at].
  rewrite Eh, lookup_insert_ne, El, lookup_insert_eq by lia. exact Hc.
Qed.

Section Accesses.
Context {C : Container} (Hcap : forall n, n <= max_size -> n <= capacity n).

Lemma held_element s h i : Held s h -> i < size_ s ->
  exists p l, data_ s = Some p /\ buffers h !! p = Some l /\ i < N.of_nat (length l).
Proof.
  intros [Hm Hs] Hi. specialize (Hcap _ Hm). destruct (data_ s) as [p|]; [|lia].
  destruct Hs as (l & El & Ll). exists p, l. repeat split; [exact El | lia].
Qed.

Lemma load_held s h i : Held s h -> i < size_ s -> safely (load (data_ s) i h) (fun _ h' => h' = h).
Proof.
  intros Hs Hi. destruct (held_element s h i Hs Hi) as (p & l & -> & El & Hl). unfold load. cbn. rewrite El.
  destruct (lookup_lt_is_Some_2 l (N.to_nat i)) as [v ->]; [lia | reflexivity].
Qed.

Lemma store_held s h i v : Held s h -> i < size_ s -> safely (store (data_ s) i v h) (fun _ h' => Written h (data_ s) h').
Proof.
  intros Hs Hi. destruct (held_element s h i Hs Hi) as (p & l & -> & El & Hl). unfold store.
  rewrite El, (proj2 (N.ltb_lt _ _)) by exact Hl. cbn. exists p, l, (<[N.to_nat i := v]> l).
  now rewrite length_insert.
Qed.

Lemma destroy_held s h : Held s h -> safely (release (data_ s) h) (fun _ h' => Moved h (data_ s) null_span h').
Proof.
  intros Hs. destruct (release_held s h Hs) as (h' & -> & Eb & Ea). cbn. split; [lia|]. cbn. now rewrite Eb.
Qed.

(** Both [init]: nothing for the same size, else a release and, for a size
    other than 0, an allocation. *)
Lemma resize_moves (alloc : N -> M (option N)) n s h :
  (forall h, safely (alloc n h) (fun p h' => Given h (capacity n) p h' /\ (p = None -> n = 0))) -> Held s h ->
  safely ((if n =? size_ s then ret (s, true) else
      release (data_ s) ;;
      if n =? 0 then ret ({| data_ := None; size_ := 0 |}, true) else
      data <- alloc n ;;
      ret ({| data_ := data; size_ := n |}, match data with Some _ => true | None => false end)) h)
    (fun r h' => size_ (fst r) = n /\ (fst r = s /\ h' = h \/ Moved h (data_ s) (fst r) h')).
Proof.
  intros Ha Hs. destruct (N.eqb_spec n (size_ s)) as [->|Hne]; [cbn; auto|].
  destruct (release_held s h Hs) as (h1 & Er & Eb & Ea). unfold bind at 1. rewrite Er.
  destruct (N.eqb_spec n 0) as [->|H0].
  - cbn. split; [reflexivity|]. right. split; [lia|]. cbn. now rewrite Eb.
  - eapply safely_bind; [apply Ha|]. intros p h' [Hg Hp]. cbn. split; [reflexivity|]. right.
    now apply (given_moves h (data_ s) h1).
Qed.

End Accesses.

Lemma span_laws : ContainerLaws span_container.
Proof.
  assert (Hcap : forall n, n <= max_size (Container := span_container) -> n <= capacity (Container := span_container) n) by (intros n _; apply N.le_refl).
  assert (Ha : forall n h, safely (EmpBlockSpan.new_blocks n h) (fun p h' => Given h n p h' /\ (p = None -> n = 0))).
  { intros n h. pose proof (new_blocks_gives n h) as H. unfold safely in *. destruct (EmpBlockSpan.new_blocks n h); [|exact H..].
    destruct H as [Hg Hp]. now split. }
  constructor.
  - intros n h _. eapply safely_bind; [apply Ha|]. intros p h' [Hg Hp]. split; [reflexivity|]. now apply (given_moves (C := span_container) h None h).
  - intros s h Hw Hs _. eapply safely_bind; [apply Ha|]. intros p h' [Hg Hp].
    eapply safely_bind; [now apply (copy_given (C := span_container) s h)|]. intros ? h2 Hg2. split; [reflexivity|]. now apply (given_moves (C := span_container) h None h).
  - intros n s h Hs _. now apply (resize_moves (C := span_container) EmpBlockSpan.new_blocks).
  - apply (destroy_held (C := span_container)).
  - now apply (load_held (C := span_container)).
  - now apply (store_held (C := span_container)).
Qed.

Lemma array_laws {G : Generous} : ContainerLaws array_container.
Proof.
  assert (Hcap : forall n, n <= max_size (Container := array_container) -> n <= capacity (Container := array_container) n).
  { intros n Hn. cbn in *. rewrite nr_bytes_rounds by exact Hn.
    pose proof (N.Div0.div_mod (n + 15) 16). pose proof (N.mod_lt (n + 15) 16). lia. }
  constructor.
  - intros n h Hn. eapply safely_bind; [now apply alloc_gives|]. intros p h' [Hg Hp]. split; [reflexivity|].
    now apply (given_moves (C := array_container) h None h).
  - intros s h Hw Hs H0. cbn in H0. apply negb_true_iff, N.eqb_neq in H0.
    eapply safely_bind; [apply alloc_gives; apply Hs|]. intros p h' [Hg Hp].
    eapply safely_bind; [now apply (memcpy_given (C := array_container) s h)|]. intros ? h2 Hg2. split; [reflexivity|]. now apply (given_moves (C := array_container) h None h).
  - intros n s h Hs Hn. apply (resize_moves (C := array_container) PackArray.alloc); [|exact Hs]. intros h0. now apply alloc_gives.
  - apply (destroy_held (C := array_container)).
  - now apply (load_held (C := array_container)).
  - now apply (store_held (C := array_container)).
Qed.

End Instances.

(** C38: Programs over owning spans or byte arrays do not misuse memory.
    Whatever sequence of constructions, copies, resizings, accesses within the
    size and destructions led to a state, no further such step releases a
    buffer twice, leaves a buffer's bounds or goes through a null or dangling
    pointer; no two live objects share a buffer; and when the last object is
    gone all memory has been given back.  Spans may have any size and the
    allocator may refuse, which ends the program.  For byte arrays three
    things are required, each shown to be needed: sizes are at most 2^64 - 16
    (beyond, the request wraps to no bytes), only arrays that are not empty are
    copied (memcpy of a null pointer), and the allocator does not refuse
    requests for bytes (the result is not tested). *)
Theorem containers_memory_safe {al : Allocator} (C : Container) (objs : gmap N Span) (h : Heap) :
  C = span_container \/ (C = array_container /\ Generous) -> reachable (C := C) objs h ->
  (forall o, legal (C := C) o objs -> run_op (C := C) o objs h <> Undefined) /\
  (forall x y s t p, objs !! x = Some s -> objs !! y = Some t -> data_ s = Some p -> data_ t = Some p -> x = y) /\
  (objs = ∅ -> buffers h = ∅).
Proof.
  intros HC. assert (L : ContainerLaws C) by (destruct HC as [-> | [-> G]]; [apply span_laws | now apply array_laws]).
  apply (programs_safe (CL := L)).
Qed.

(** ** Copies *)

(** The copy of a span has the elements of the original in a buffer of its
    own, and the original keeps its buffer. *)
Theorem span_copy_deep {al : Allocator} (s s' : Span) (h h' : Heap) (p : N) (l : list N) :
  well_formed h -> data_ s = Some p -> buffers h !! p = Some l -> N.of_nat (length l) = size_ s ->
  EmpBlockSpan.copy true s h = Done s' h' ->
  exists q, data_ s' = Some q /\ q <> p /\ size_ s' = size_ s /\ buffers h' !! q = Some l /\ buffers h' !! p = Some l.
Proof.
  intros Hw Ep El Ll. pose proof (Hw p (ex_intro _ l El)) as Hp.
  unfold EmpBlockSpan.copy, EmpBlockSpan.new_blocks, bind, request. destruct (refuses _ _); [discriminate|]. cbn.
  unfold copy_to. rewrite Ep. cbn [buffer_at buffers]. rewrite lookup_insert_ne, El, lookup_insert_eq by lia.
  set (q := allocations h) in *. destruct (N.eqb_spec (size_ s) 0) as [E|E].
  - intros [= <- <-]. exists q. cbn. rewrite lookup_insert_eq, lookup_insert_ne by lia.
    destruct l; [|cbn in Ll; lia]. rewrite E. repeat split; [lia | exact El].
  - rewrite length_tabulate, !(proj2 (N.leb_le _ _)) by lia. cbn. intros [= <- <-]. exists q. cbn.
    rewrite lookup_insert_eq, lookup_insert_ne, lookup_insert_ne by lia. repeat split; [lia | | exact El].
    f_equal. rewrite <- Ll, Nat2N.id, firstn_all, skipn_all2, app_nil_r by (rewrite length_tabulate; lia). reflexivity.
Qed.

(** ** Limits *)

(** The classes declare a destructor and a copy constructor but no assignment,
    and the one that the language generates copies the pointer: after it both
    objects release the same buffer. *)
Theorem assignment_double_release {al : Allocator} (this other : Span) (h : Heap) (p : N) :
  data_ other = Some p ->
  bind (EmpBlockSpan.assign this other) (fun this =>
    bind (EmpBlockSpan.destroy true this) (fun _ => EmpBlockSpan.destroy true other)) h = Undefined.
Proof.
  intros E. unfold EmpBlockSpan.assign, EmpBlockSpan.destroy, bind, ret. cbn. unfold release. rewrite E.
  destruct (buffers h !! p); [|reflexivity]. cbn. now rewrite lookup_delete_eq.
Qed.

(** A byte array whose [init] failed keeps the new size, so that the next
    [init] of that size reports success with a null pointer. *)
Theorem array_init_forgets_failure {al : Allocator} (this : Span) (h : Heap) (n : N) :
  data_ this = None -> n <> size_ this -> n <> 0 -> refuses (allocations h) (PackArray.nr_bytes_to_allocate n) = true ->
  exists this' h', PackArray.init n this h = Done (this', false) h' /\
    PackArray.init n this' h' = Done (this', true) h' /\ data_ this' = None.
Proof.
  intros E Hn H0 Hr. unfold PackArray.init at 1. rewrite (proj2 (N.eqb_neq _ _) Hn), E. unfold bind. cbn [release].
  rewrite (proj2 (N.eqb_neq _ _) H0). unfold PackArray.alloc, request. rewrite Hr. do 2 eexists. split; [reflexivity|].
  unfold PackArray.init. cbn. now rewrite N.eqb_refl.
Qed.

(** The copy constructor of the byte array does not look at the result of the
    allocation. *)
Theorem array_copy_unchecked {al : Allocator} (other : Span) (h : Heap) :
  size_ other <> 0 -> refuses (allocations h) (PackArray.nr_bytes_to_allocate (size_ other)) = true ->
  PackArray.copy other h = Undefined.
Proof.
  intros H0 Hr. unfold PackArray.copy, PackArray.alloc, request, bind. rewrite Hr.
  unfold memcpy_to. now destruct (buffer_at _ _).
Qed.

(** The copy of an empty array, such as a new one, gives memcpy a null pointer. *)
Theorem array_copy_of_empty {al : Allocator} (h : Heap) : PackArray.copy PackArray.empty_array h = Undefined.
Proof. unfold PackArray.copy, PackArray.alloc, request, bind. now destruct (refuses _ _). Qed.

(** The size of the request overflows for the sizes within a block of the
    largest. *)
Lemma nr_bytes_overflow n : 2 ^ 64 - 16 < n < 2 ^ 64 -> PackArray.nr_bytes_to_allocate n = 0.
Proof.
  intros Hn. unfold PackArray.nr_bytes_to_allocate, size_of_block. destruct (N.eqb_spec n 0); [reflexivity|].
  replace n with (2 ^ 64 - 16 + 1 + (n - (2 ^ 64 - 16) - 1)) by lia.
  set (k := n - (2 ^ 64 - 16) - 1). assert (Hk : k < 15) by (unfold k; lia). clearbody k.
  rewrite <- (N2Nat.id k). assert (Hj : (N.to_nat k < 15)%nat) by lia. generalize dependent (N.to_nat k). clear.
  intros j Hj. do 15 (destruct j as [|j]; [reflexivity|]). lia.
Qed.

(** An array of that many bytes gets a buffer of none, and any access to it,
    within its size, is outside the buffer. *)
Theorem array_wrapped_size {al : Allocator} (n i : N) (h : Heap) :
  2 ^ 64 - 16 < n < 2 ^ 64 -> bind (PackArray.make n) (fun s => PackArray.get s i) h = Undefined.
Proof.
  intros Hn. unfold PackArray.make, PackArray.alloc, PackArray.get, request, bind. rewrite nr_bytes_overflow by exact Hn.
  destruct (refuses _ _); [reflexivity|]. cbn. unfold load. cbn. now rewrite lookup_insert_eq.
Qed.

(** ** Witnesses *)

Definition roomy : Allocator := {| refuses := fun _ _ => false; stale := fun k i => 7 |}.

Lemma roomy_generous : Generous (al := roomy).
Proof. intros k n _. reflexivity. Qed.

Definition refusing : Allocator := {| refuses := fun _ n => 1000 <? n; stale := fun k i => 7 |}.

Definition run_ops {C : Container} (os : list Op) : M (gmap N Span) :=
  fold_left (fun m o => bind m (run_op o)) os (ret ∅).

Lemma containers_memory_safe_witness :
  let C := array_container (al := roomy) in
  exists objs h, run_ops (C := C) [Make 0 5; Copy 1 0; Set_ 1 4 9; Init 0 20; Destroy 1] empty_heap = Done objs h /\
  run_op (C := C) (Get 0 19) objs h <> Undefined /\ (objs = ∅ -> buffers h = ∅).
Proof.
  intros C. do 2 eexists. split; [vm_compute; reflexivity|].
  match goal with |- run_op _ ?objs ?h <> _ /\ _ => assert (R : reachable (C := C) objs h) end.
  { eapply (reach_step (Destroy 1)); [eapply (reach_step (Init 0 20)); [eapply (reach_step (Set_ 1 4 9));
      [eapply (reach_step (Copy 1 0)); [eapply (reach_step (Make 0 5)); [apply reach_start|..]|..]|..]|..]|..];
      try (vm_compute; reflexivity).
    - split; [reflexivity | vm_compute; discriminate].
    - split; [reflexivity | eexists; split; reflexivity].
    - eexists. split; reflexivity.
    - split; [now eexists | vm_compute; discriminate].
    - now eexists. }
  destruct (containers_memory_safe (al := roomy) C _ _ (or_intror (conj eq_refl roomy_generous)) R) as (Hs & _ & He).
  split; [|exact He]. apply Hs. eexists. split; reflexivity.
Defined.

Lemma array_init_forgets_failure_witness :
  exists this' h', PackArray.init (al := refusing) 2000 null_span empty_heap = Done (this', false) h' /\
    PackArray.init (al := refusing) 2000 this' h' = Done (this', true) h' /\ data_ this' = None.
Proof. now apply (array_init_forgets_failure (al := refusing) null_span empty_heap 2000). Defined.

Lemma span_copy_deep_witness :
  let h := {| buffers := {[0 := [4; 5]]}; allocations := 1 |} in
  exists s' h', EmpBlockSpan.copy (al := roomy) true {| data_ := Some 0; size_ := 2 |} h = Done s' h' /\
  exists q, data_ s' = Some q /\ q <> 0 /\ size_ s' = 2 /\ buffers h' !! q = Some [4; 5] /\ buffers h' !! 0 = Some [4; 5].
Proof.
  intros h. do 2 eexists. split; [vm_compute; reflexivity|].
  apply (span_copy_deep (al := roomy) {| data_ := Some 0; size_ := 2 |} _ h _ 0 [4; 5]); try reflexivity.
  intros p [l Hl]. cbn in Hl. apply lookup_singleton_Some in Hl as [<- _]. reflexivity.
Defined.
