(* ===== verification/PrimeMtA.v ===== *)
(** * Multiplication to addition modulo a prime ([mta/MtA.*])

    The oblivious-transfer multiplication by which a sender with [a] and a
    receiver with [b] obtain shares of [a * b] modulo a prime.  Bignums are
    natural numbers; memory shared between byte packs and blocks is converted
    by the loads and stores of [Block128].  The random choices of a call are a
    tape, the transfer of emp-ot is the class [OTChannel].  Allocations are
    taken to succeed. *)

From S2P Require Import Prelude Block128 FieldCode F2128MtA Messaging GHash Arrays Sha256.

Import ByteString.
Local Open Scope N_scope.

(** ** Bignums

    What the program uses of BoringSSL's bignums; the modulus is the prime of
    a curve. *)

Module BigNum.

Definition BN_mod_add (a b q : N) : N := (a + b) mod q.
Definition BN_mod_sub (a b q : N) : N := (a + (q - b mod q)) mod q.
Definition BN_mod_mul (a b q : N) : N := (a * b) mod q.
Definition BN_mod_sqr (a q : N) : N := (a * a) mod q.

Definition BN_num_bits (a : N) : N := N.size a.
Definition BN_num_bytes (a : N) : N := (BN_num_bits a + 7) / 8.

Definition BN_bin2bn (bs : list N) : N := NIST.be_int bs.
(** Fails when the number does not fit. *)
Definition BN_bn2bin_padded (len : nat) (a : N) : option (list N) :=
  if a <? 2 ^ (8 * N.of_nat len) then Some (SHA2.be_bytes len a) else None.

(** [BN_mod_inverse], and its contract: the inverse, or failure when there is
    none. *)
Class Inverse := BN_mod_inverse : N -> N -> option N.

Class InverseOk (inv : Inverse) : Prop :=
  inverse_spec : forall a q, 1 < q ->
    match BN_mod_inverse a q with
    | Some i => i < q /\ (a * i) mod q = 1
    | None => N.gcd a q <> 1
    end.

End BigNum.

Import BigNum.

(** The option monad of calls that return [false]. *)
Declare Scope mta_scope.
Delimit Scope mta_scope with mta.
Notation "x <- m ;; k" := (match m with Some x => k | None => None end)
  (at level 61, m at next level, right associativity) : mta_scope.
Notation "' p <- m ;; k" := (match m with Some p => k | None => None end)
  (at level 61, p pattern, m at next level, right associativity) : mta_scope.

Module MtA.
Local Open Scope mta_scope.

Definition k : N := 512.

(** On [unsigned]: [(size + 15) & -16]. *)
Definition round_up_to_block (size : N) : N := N.land (wrap 32 (size + 16 - 1)) (2 ^ 32 - 16).

(** Bytes of a bignum in a pack, and the number of entries. *)
Definition size_of_each (q : N) : nat := N.to_nat (round_up_to_block (BN_num_bytes q)).
Definition entries (q : N) : nat := N.to_nat (BN_num_bits q + k).

(** ** Packs *)

(** A pack as the blocks it occupies, and back: [memcpy] and
    [reinterpret_cast]. *)
Definition convert_arr_to_block (bs : list N) : list N :=
  tabulate (length bs / 16) (fun i => F2128.arr_to_block (firstn 16 (skipn (16 * i) bs))).
Definition convert_block_to_arr (blocks : list N) : list N := flat_map F2128.block_to_arr blocks.

Fixpoint serialise_bignums_inplace (xs : list N) (size_of_each : nat) : option (list N) :=
  match xs with
  | [] => Some []
  | x :: xs =>
      bs <- BN_bn2bin_padded size_of_each x ;;
      rest <- serialise_bignums_inplace xs size_of_each ;;
      Some (bs ++ rest)
  end.

(** [add_pack] and [sub_pack]. *)
Fixpoint produce_pairs_loop (delta : list N) (a : N) (size_of_each : nat) (q : N)
  : option (list N * list N) :=
  match delta with
  | [] => Some ([], [])
  | d :: delta =>
      add_data <- BN_bn2bin_padded size_of_each (BN_mod_add d a q) ;;
      sub_data <- BN_bn2bin_padded size_of_each (BN_mod_sub d a q) ;;
      '(add_pack, sub_pack) <- produce_pairs_loop delta a size_of_each q ;;
      Some (add_data ++ add_pack, sub_data ++ sub_pack)
  end.

Definition produce_sender_pairs_inplace (delta : list N) (a : N) (size_of_each : nat) (q : N)
  : option (list N * list N) :=
  if (length delta =? 0)%nat then None else produce_pairs_loop delta a size_of_each q.

Definition deserialise_inner_product (lhs rhs : list N) (size_of_each : nat) (q : N) : option N :=
  if (size_of_each =? 0)%nat || (length rhs =? 0)%nat || (length lhs =? 0)%nat
     || negb (length lhs =? size_of_each * length rhs)%nat
  then None
  else Some (fold_left (fun out i =>
      let deserialised := BN_bin2bn (firstn size_of_each (skipn (i * size_of_each) lhs)) in
      BN_mod_add out (BN_mod_mul rhs.[i] deserialised q) q)
    (seq 0 (length rhs)) 0).

(** ** Receiver *)

(** The random choices of one call of the receiver: the entries of [v], the
    results of [rand()], the four bytes of [pos], and [sigma]. *)
Record ReceiverTape := { draw_v : list N; draw_t : list N; draw_pos : N; draw_sigma : N }.

Definition swap {A} (d : A) (i j : nat) (xs : list A) : list A :=
  upd j (nth i xs d) (upd i (nth j xs d) xs).

(** [t[i] = rand();]: the conversion to [bool] is true of every number but
    zero. *)
Definition choice_of (r : N) : bool := negb (r =? 0).

(** [<v, t>] without the last entry, where a clear bit stands for -1. *)
Definition partial_product (t : list bool) (v : list N) (m : nat) (q : N) : N :=
  fold_left (fun total i =>
      if nth i t false then BN_mod_add total v.[i] q else BN_mod_sub total v.[i] q)
    (seq 0 m) 0.

Definition generate_t_and_v_inplace (b q : N) (tp : ReceiverTape) : list bool * list N :=
  let n := entries q in
  let v := draw_v tp in
  let t := map choice_of (draw_t tp) in
  let total := partial_product t v (n - 1) q in
  let pos := N.to_nat (draw_pos tp mod N.of_nat (n - 1)) in
  let t := swap false (n - 1) pos (upd (n - 1) true t) in
  let v := swap 0 (n - 1) pos (upd (n - 1) (BN_mod_sub b total q) v) in
  (t, v).

Definition expand_t_to_ot_width_inplace (ots_per_bignum : nat) (t : list bool) : list bool :=
  flat_map (fun b => repeat b ots_per_bignum) t.

(** [ReceiverEntry] after the preparation, with [sigma]. *)
Record ReceiverEntry := {
  re_t_extended : list bool; re_v : list N; re_v_serialised : list N;
  re_sigma : N; re_sigma_serialised : list N }.

Definition prepare_receiver (b q : N) (tp : ReceiverTape) : option ReceiverEntry :=
  let size := size_of_each q in
  let '(t, v) := generate_t_and_v_inplace b q tp in
  v_serialised <- serialise_bignums_inplace v size ;;
  sigma_serialised <- BN_bn2bin_padded size (draw_sigma tp) ;;
  Some {| re_t_extended := expand_t_to_ot_width_inplace (size / 16) t;
          re_v := v; re_v_serialised := v_serialised;
          re_sigma := draw_sigma tp; re_sigma_serialised := sigma_serialised |}.

(** What the receiver writes after the transfer. *)
Definition receiver_message (re : ReceiverEntry) : list N :=
  re_v_serialised re ++ re_sigma_serialised re.

Definition finish_receiver (re : ReceiverEntry) (z : list N) (q : N) : option N :=
  tmp <- deserialise_inner_product (convert_block_to_arr z) (re_v re) (size_of_each q) q ;;
  Some (BN_mod_add tmp (re_sigma re) q).

(** ** Sender *)

(** [SenderEntry] after the preparation. *)
Record SenderEntry := { se_delta : list N; se_add_pack : list N; se_sub_pack : list N }.

Definition prepare_sender (a q : N) (delta : list N) : option SenderEntry :=
  '(add_pack, sub_pack) <- produce_sender_pairs_inplace delta a (size_of_each q) q ;;
  Some {| se_delta := delta; se_add_pack := add_pack; se_sub_pack := sub_pack |}.

(** [vals] and [sigma_v] are read in this order; what is left of the
    receiver's bytes is returned. *)
Definition read_values (q : N) (stream : list N) : option (list N * N * list N) :=
  let vals_size := (entries q * size_of_each q)%nat in
  let sigma_size := size_of_each q in
  if (length stream <? vals_size + sigma_size)%nat then None
  else
    let rest := skipn vals_size stream in
    Some (firstn vals_size stream, BN_bin2bn (firstn sigma_size rest), skipn sigma_size rest).

Definition finish_sender (se : SenderEntry) (vals : list N) (sigma q : N) : option N :=
  tmp <- deserialise_inner_product vals (se_delta se) (size_of_each q) q ;;
  let share := BN_mod_sub 0 tmp q in
  Some (BN_mod_sub share sigma q).

(** ** A run of both parties *)

Section Run.
Context {ot : F2128_MTA.OTChannel}.

(** [ot.send] with [b0] and [b1], [ot.recv] into a span as long as the choice
    bits. *)
Definition transfer (sub_pack add_pack : list N) (choices : list bool) : option (list N) :=
  if (length choices =? 0)%nat then None
  else
    let received := F2128_MTA.ot_transfer (convert_arr_to_block sub_pack) (convert_arr_to_block add_pack) choices in
    Some (tabulate (length choices) (fun i => received.[i])).

(** [play_sender_inplace] against [play_receiver_inplace]: the sender's and
    the receiver's output. *)
Definition play_inplace (a b q : N) (delta : list N) (tp : ReceiverTape) : option (N * N) :=
  re <- prepare_receiver b q tp ;;
  se <- prepare_sender a q delta ;;
  z <- transfer (se_sub_pack se) (se_add_pack se) (re_t_extended re) ;;
  '(vals, sigma, _) <- read_values q (receiver_message re) ;;
  out_r <- finish_receiver re z q ;;
  out_s <- finish_sender se vals sigma q ;;
  Some (out_s, out_r).

(** [play_sender_inplace_iknp_2] against [play_receiver_inplace_iknp_2]: two
    multiplications over one transfer. *)
Definition play_inplace_iknp_2 (a1 a2 b1 b2 q : N) (delta1 delta2 : list N) (tp1 tp2 : ReceiverTape)
  : option ((N * N) * (N * N)) :=
  re1 <- prepare_receiver b1 q tp1 ;;
  re2 <- prepare_receiver b2 q tp2 ;;
  se1 <- prepare_sender a1 q delta1 ;;
  se2 <- prepare_sender a2 q delta2 ;;
  let half := length (re_t_extended re1) in
  if negb (half =? length (re_t_extended re2))%nat then None
  else if negb ((length (se_sub_pack se1) =? length (se_sub_pack se2))%nat
       && (length (se_sub_pack se1) =? length (se_add_pack se1))%nat
       && (length (se_sub_pack se1) =? length (se_add_pack se2))%nat) then None
  else
    z_all <- transfer (se_sub_pack se1 ++ se_sub_pack se2) (se_add_pack se1 ++ se_add_pack se2)
               (re_t_extended re1 ++ re_t_extended re2) ;;
    let stream := receiver_message re1 ++ receiver_message re2 in
    '(vals1, sigma1, stream) <- read_values q stream ;;
    '(vals2, sigma2, _) <- read_values q stream ;;
    r1 <- finish_receiver re1 (firstn half z_all) q ;;
    r2 <- finish_receiver re2 (skipn half z_all) q ;;
    s1 <- finish_sender se1 vals1 sigma1 q ;;
    s2 <- finish_sender se2 vals2 sigma2 q ;;
    Some ((s1, r1), (s2, r2)).

End Run.
End MtA.
