(* ===== verification/PrimeShares.v ===== *)
(** * The prime-field multiplication gives shares of the product

    A run of [MtA] of both parties, followed in the ring of integers modulo
    the prime. *)

From Stdlib Require Import ZArith Zmod.
From S2P Require Import Prelude Block128 FieldCode F2128MtA Messaging GHash Arrays Sha256 PrimeMtA.

Import ByteString BigNum MtA.
Local Open Scope N_scope.

(** ** Bytes of a bignum *)

Lemma be_bytes_last n v : SHA2.be_bytes (S n) v = SHA2.be_bytes n (N.shiftr v 8) ++ [wrap 8 v].
Proof.
  unfold SHA2.be_bytes, tabulate. rewrite seq_S, map_app. cbn [map Nat.add]. f_equal.
  - apply map_ext_in. intros i Hi. apply in_seq in Hi. rewrite N.shiftr_shiftr. do 2 f_equal. lia.
  - replace (S n - 1 - n)%nat with 0%nat by lia. now rewrite N.mul_0_r, N.shiftr_0_r.
Qed.

Lemma be_int_bytes n : forall v, v < 2 ^ (8 * N.of_nat n) -> NIST.be_int (SHA2.be_bytes n v) = v.
Proof.
  induction n as [|n IH]; intros v Hv; [change (2 ^ _) with 1 in Hv; cbn; lia|].
  rewrite be_bytes_last. unfold NIST.be_int in *. rewrite fold_left_app, IH.
  - cbn [fold_left]. bitwise i.
    destruct (N.ltb_spec i 8).
    + rewrite N.shiftl_spec_low by assumption. now rewrite !andb_true_r, xorb_false_r.
    + rewrite N.shiftl_spec_high', N.shiftr_spec' by assumption. rewrite !andb_false_r, xorb_false_l. f_equal. lia.
  - apply shiftr_lt. replace (8 * N.of_nat n + 8) with (8 * N.of_nat (S n)) by lia. exact Hv.
Qed.

Lemma block_arr_roundtrip bs : arr 16 bs -> F2128.block_to_arr (F2128.arr_to_block bs) = bs.
Proof.
  intros [Hl Hb]. apply (nth_ext _ _ 0 0); [now rewrite length_block_to_arr|].
  rewrite length_block_to_arr. intros i Hi. rewrite block_to_arr_byte by exact Hi.
  unfold F2128.arr_to_block, lane. rewrite firstn_all2 by lia. bitwise j.
  destruct (N.ltb_spec j 8) as [Hj|Hj]; rewrite ?andb_true_r, ?andb_false_r.
  - rewrite setr_bits. replace ((j + 8 * N.of_nat i) / 8) with (N.of_nat i) by
      (symmetry; rewrite N.add_comm, N.mul_comm, N.div_add_l by lia; rewrite N.div_small by exact Hj; lia).
    rewrite Nat2N.id. replace ((j + 8 * N.of_nat i) mod 8) with j
      by (symmetry; rewrite (N.mul_comm 8), N.Div0.mod_add; now apply N.mod_small).
    f_equal. apply wrap_small. now apply bytes_at.
  - symmetry. apply (testbit_high _ 8); [|exact Hj]. now apply bytes_at.
Qed.

(** ** Packs *)

Lemma chunk_flat_map {A B} (f : A -> list B) c xs i d :
  (forall x, length (f x) = c) -> (i < length xs)%nat -> firstn c (skipn (i * c) (flat_map f xs)) = f (nth i xs d).
Proof.
  intros Hc. revert i. induction xs as [|x xs IH]; intros i Hi; [cbn in Hi; lia|]. destruct i as [|i]; cbn [flat_map nth].
  - cbn [Nat.mul skipn]. rewrite firstn_app, Hc, Nat.sub_diag, firstn_O, app_nil_r. apply firstn_all2. rewrite Hc. lia.
  - rewrite skipn_app, Hc, skipn_all2 by (rewrite Hc; lia).
    replace (S i * c - c)%nat with (i * c)%nat by lia. cbn [app]. apply IH. cbn in Hi. lia.
Qed.

Lemma convert_roundtrip : forall n bs, length bs = (16 * n)%nat -> bytes bs ->
  convert_block_to_arr (convert_arr_to_block bs) = bs.
Proof.
  intros n bs Hl Hb. unfold convert_block_to_arr, convert_arr_to_block, tabulate.
  replace (length bs / 16)%nat with n by (rewrite Hl, Nat.mul_comm, Nat.div_mul by lia; reflexivity).
  rewrite flat_map_concat_map, map_map, <- flat_map_concat_map. revert bs Hl Hb.
  induction n as [|n IH]; intros bs Hl Hb; [now destruct bs|].
  cbn [seq flat_map]. rewrite <- seq_shift, flat_map_concat_map, map_map, <- flat_map_concat_map.
  rewrite Nat.mul_0_r. cbn [skipn]. rewrite <- (firstn_skipn 16 bs) at 2. f_equal.
  - apply block_arr_roundtrip. split; [rewrite length_firstn; lia | now apply bytes_firstn].
  - etransitivity; [|apply (IH (skipn 16 bs)); [rewrite length_skipn; lia | now apply bytes_skipn]].
    apply flat_map_ext. intros i. now rewrite skipn_skipn, Nat.mul_succ_r.
Qed.

(** A pack of bignums, [16 * m] bytes each. *)
Definition pack (m : nat) (xs : list N) : list N := flat_map (SHA2.be_bytes (16 * m)) xs.

Lemma length_pack m xs : length (pack m xs) = (16 * (m * length xs))%nat.
Proof. unfold pack. rewrite (length_flat_map_const _ (16 * m)) by (intros; apply length_be). lia. Qed.

Lemma bytes_pack m xs : bytes (pack m xs).
Proof. apply Forall_flat_map, Forall_forall. intros x _. apply be_bytes_arr. Qed.

Lemma chunk_pack m xs i : (i < length xs)%nat ->
  firstn (16 * m) (skipn (i * (16 * m)) (pack m xs)) = SHA2.be_bytes (16 * m) xs.[i].
Proof. intros Hi. apply chunk_flat_map; [|exact Hi]. intros; apply length_be. Qed.

Lemma block_of_pack m xs i j : (i < length xs)%nat -> (j < m)%nat ->
  (convert_arr_to_block (pack m xs)).[i * m + j] =
  F2128.arr_to_block (firstn 16 (skipn (16 * j) (SHA2.be_bytes (16 * m) xs.[i]))).
Proof.
  intros Hi Hj. unfold convert_arr_to_block.
  rewrite length_pack, (Nat.mul_comm 16), Nat.div_mul by lia. rewrite nth_tabulate by nia. f_equal. rewrite <- (chunk_pack m xs i Hi), skipn_firstn_comm, firstn_firstn, skipn_skipn.
  rewrite Nat.min_l by lia. do 2 f_equal. lia.
Qed.

Lemma nth_expand m t i j : (i < length t)%nat -> (j < m)%nat ->
  nth (i * m + j) (expand_t_to_ot_width_inplace m t) false = nth i t false.
Proof.
  intros Hi Hj. unfold expand_t_to_ot_width_inplace.
  rewrite (nth_flat_map _ m _ _ _ false) by (intros; rewrite ?repeat_length; auto).
  rewrite nth_repeat_lt by exact Hj. reflexivity.
Qed.

Lemma length_expand m t : length (expand_t_to_ot_width_inplace m t) = (length t * m)%nat.
Proof. apply length_flat_map_const. intros. apply repeat_length. Qed.

(** The messages the choice bits select. *)
Definition chosen (t : list bool) (xs0 xs1 : list N) : list N :=
  tabulate (length t) (fun i => if nth i t false then xs1.[i] else xs0.[i]).

Lemma length_chosen t xs0 xs1 : length (chosen t xs0 xs1) = length t.
Proof. apply length_tabulate. Qed.

Lemma length_convert_pack m xs : length (convert_arr_to_block (pack m xs)) = (length xs * m)%nat.
Proof. unfold convert_arr_to_block. rewrite length_tabulate, length_pack, (Nat.mul_comm 16), Nat.div_mul by lia. lia. Qed.

Lemma transfer_chosen {ot : F2128_MTA.OTChannel} {ok : F2128_MTA.OTCorrect} m t xs0 xs1 :
  (0 < m)%nat -> (0 < length t)%nat -> length xs0 = length t -> length xs1 = length t ->
  transfer (pack m xs0) (pack m xs1) (expand_t_to_ot_width_inplace m t) = Some (convert_arr_to_block (pack m (chosen t xs0 xs1))).
Proof.
  intros Hm Ht H0 H1. unfold transfer. rewrite (proj2 (Nat.eqb_neq _ _)) by (rewrite length_expand; nia).
  cbv zeta. f_equal. apply (nth_ext _ _ 0 0); [now rewrite length_tabulate, length_expand, length_convert_pack, length_chosen|].
  intros p Hp. rewrite length_tabulate, length_expand in Hp. rewrite nth_tabulate by (rewrite length_expand; exact Hp).
  rewrite F2128_MTA.ot_choice by (rewrite ?length_expand, ?length_convert_pack; congruence || exact Hp).
  pose proof (Nat.div_mod p m ltac:(lia)) as E. pose proof (Nat.mod_upper_bound p m ltac:(lia)) as Hj.
  assert (Hi : (p / m < length t)%nat) by (apply Nat.Div0.div_lt_upper_bound; lia).
  rewrite E, (Nat.mul_comm m). rewrite nth_expand, !block_of_pack by (rewrite ?length_chosen; lia). unfold chosen. rewrite nth_tabulate by exact Hi.
  now destruct (nth (p / m) t false).
Qed.

(** Two transfers as one. *)
Lemma chosen_app t1 t2 x1 x2 y1 y2 : length x1 = length t1 -> length y1 = length t1 ->
  chosen (t1 ++ t2) (x1 ++ x2) (y1 ++ y2) = chosen t1 x1 y1 ++ chosen t2 x2 y2.
Proof.
  intros Hx Hy. unfold chosen. rewrite length_app, <- tabulate_app. f_equal; apply tabulate_ext; intros i Hi.
  - now rewrite !app_nth1 by lia.
  - rewrite !app_nth2 by lia. now rewrite Hx, Hy, !(Nat.add_comm (length t1)), Nat.add_sub.
Qed.

Lemma convert_app n bs1 bs2 : length bs1 = (16 * n)%nat ->
  convert_arr_to_block (bs1 ++ bs2) = convert_arr_to_block bs1 ++ convert_arr_to_block bs2.
Proof.
  intros Hl. unfold convert_arr_to_block. rewrite length_app, Hl, !(Nat.mul_comm 16), Nat.div_add_l, Nat.div_mul by lia.
  rewrite <- tabulate_app. f_equal; apply tabulate_ext; intros i Hi.
  - rewrite skipn_app, firstn_app, length_skipn. replace (16 - (length bs1 - 16 * i))%nat with 0%nat by lia.
    now rewrite firstn_O, app_nil_r.
  - rewrite skipn_app, skipn_all2 by lia. cbn [app]. do 3 f_equal. lia.
Qed.

(** ** The ring of integers modulo the prime *)

Section Ring.
Context (q : N) (q_pos : 1 < q).

Local Abbreviation Zq := (Zmod (Z.of_N q)).
Definition zq (x : N) : Zq := Zmod.of_Z (Z.of_N q) (Z.of_N x).

Add Ring zq_ring : (Zmod.ring_theory (Z.of_N q)).
Local Open Scope Zmod_scope.

Lemma zq_mod x : zq (x mod q)%N = zq x.
Proof. unfold zq. rewrite N2Z.inj_mod. apply Zmod.of_Z_mod. Qed.

Lemma zq_plus x y : zq (x + y)%N = zq x + zq y.
Proof. unfold zq. now rewrite N2Z.inj_add, Zmod.of_Z_add. Qed.

Lemma zq_add x y : zq (BN_mod_add x y q) = zq x + zq y.
Proof. unfold BN_mod_add. now rewrite zq_mod, zq_plus. Qed.

Lemma zq_times x y : zq (x * y)%N = zq x * zq y.
Proof. unfold zq. now rewrite N2Z.inj_mul, Zmod.of_Z_mul. Qed.

Lemma zq_mul x y : zq (BN_mod_mul x y q) = zq x * zq y.
Proof. unfold BN_mod_mul. now rewrite zq_mod, zq_times. Qed.

Lemma zq_sqr x : zq (BN_mod_sqr x q) = zq x * zq x.
Proof. apply zq_mul. Qed.

Lemma zq_sub x y : zq (BN_mod_sub x y q) = zq x - zq y.
Proof.
  unfold BN_mod_sub. rewrite zq_mod, zq_plus. unfold zq at 2.
  assert (H : (y mod q < q)%N) by (apply N.mod_lt; lia).
  rewrite N2Z.inj_sub by lia. rewrite Zmod.of_Z_sub. fold (zq (y mod q)). rewrite zq_mod.
  replace (Zmod.of_Z (Z.of_N q) (Z.of_N q)) with (Zmod.of_Z (Z.of_N q) 0).
  - rewrite Zmod.of_Z_0. ring.
  - apply Zmod.of_Z_inj. rewrite Z.mod_same by lia. now rewrite Z.mod_0_l by lia.
Qed.

Lemma zq_0 : zq 0 = 0.
Proof. apply Zmod.of_Z_0. Qed.

Lemma zq_inj x y : zq x = zq y -> (x mod q = y mod q)%N.
Proof. intros H. apply Zmod.of_Z_inj in H. rewrite <- !N2Z.inj_mod in H. now apply N2Z.inj. Qed.

(** *** Sums *)

Fixpoint zsum (n : nat) (f : nat -> Zq) : Zq :=
  match n with O => 0 | S n => zsum n f + f n end.

Lemma zsum_ext n f g : (forall i, (i < n)%nat -> f i = g i) -> zsum n f = zsum n g.
Proof. induction n as [|n IH]; intros H; [reflexivity|]. cbn. rewrite IH, H by auto. reflexivity. Qed.

Lemma zsum_add n f g : zsum n (fun i => f i + g i) = zsum n f + zsum n g.
Proof. induction n as [|n IH]; cbn; [|rewrite IH]; ring. Qed.

Lemma zsum_scale n c f : zsum n (fun i => c * f i) = c * zsum n f.
Proof. induction n as [|n IH]; cbn; [|rewrite IH]; ring. Qed.

Lemma zsum_change n f g i : (i < n)%nat -> (forall j, j <> i -> f j = g j) -> zsum n f = zsum n g - g i + f i.
Proof.
  induction n as [|n IH]; intros Hi H; [lia|]. cbn. destruct (Nat.eq_dec i n) as [->|Hn].
  - rewrite (zsum_ext n f g); [ring|]. intros j Hj. apply H. lia.
  - rewrite IH, (H n) by (auto; lia). ring.
Qed.

(** The sum over a list is the same after two entries are swapped. *)
Lemma zsum_swap {A} (g : A -> Zq) d i j xs : (i < length xs)%nat -> (j < length xs)%nat ->
  zsum (length xs) (fun p => g (nth p (swap d i j xs) d)) = zsum (length xs) (fun p => g (nth p xs d)).
Proof.
  intros Hi Hj. unfold swap. set (ys := upd i (nth j xs d) xs).
  assert (Ly : length ys = length xs) by apply length_upd.
  rewrite (zsum_change _ _ (fun p => g (nth p ys d)) j) by (auto; intros p Hp; now rewrite nth_upd_ne by auto).
  rewrite (zsum_change _ (fun p => g (nth p ys d)) (fun p => g (nth p xs d)) i)
    by (auto; intros p Hp; unfold ys; now rewrite nth_upd_ne by auto).
  rewrite nth_upd_eq by (rewrite Ly; exact Hj). unfold ys. rewrite nth_upd_eq by exact Hi.
  rewrite nth_upd. apply Nat.ltb_lt in Hi. rewrite Hi, andb_true_r. destruct (Nat.eqb_spec i j) as [<-|]; ring.
Qed.

(** ** The inner products *)

Lemma inner_product m xs ys : (0 < m)%nat -> (0 < length ys)%nat -> length xs = length ys ->
  Forall (fun x => x < 2 ^ (8 * N.of_nat (16 * m)))%N xs ->
  exists r, deserialise_inner_product (pack m xs) ys (16 * m) q = Some r /\
    (r < q)%N /\ zq r = zsum (length ys) (fun i => zq ys.[i] * zq xs.[i]).
Proof.
  intros Hm Hy Hl Hx. unfold deserialise_inner_product.
  rewrite (proj2 (Nat.eqb_neq (16 * m) 0)), (proj2 (Nat.eqb_neq (length ys) 0)) by lia.
  rewrite (proj2 (Nat.eqb_neq (length (pack m xs)) 0)) by (rewrite length_pack; nia).
  rewrite (proj2 (Nat.eqb_eq _ _)) by (rewrite length_pack; nia). cbn [orb negb].
  eexists. split; [reflexivity|].
  assert (G : forall n acc, (n <= length ys)%nat -> (acc < q)%N ->
    let r := fold_left (fun out i => BN_mod_add out (BN_mod_mul ys.[i]
      (BN_bin2bn (firstn (16 * m) (skipn (i * (16 * m)) (pack m xs)))) q) q) (seq 0 n) acc in
    (r < q)%N /\ zq r = zq acc + zsum n (fun i => zq ys.[i] * zq xs.[i])).
  { induction n as [|n IH]; intros acc Hn Ha; [cbn; split; [exact Ha | ring]|].
    cbv zeta. rewrite seq_S, fold_left_app. cbn [fold_left Nat.add]. split; [apply N.mod_lt; lia|].
    rewrite zq_add, zq_mul. destruct (IH acc ltac:(lia) Ha) as [_ E]. cbv zeta in E. rewrite E.
    rewrite chunk_pack by lia. unfold BN_bin2bn. rewrite be_int_bytes by (apply (proj1 (Forall_nth _ xs) Hx); lia).
    cbn [zsum]. ring. }
  destruct (G (length ys) 0%N (le_n _) ltac:(lia)) as [H1 H2]. cbv zeta in H1, H2. split; [exact H1|].
  rewrite H2, zq_0. ring.
Qed.

(** ** The receiver's choice bits *)

Definition sign (b : bool) : Zq := if b then 1 else - (1).

Lemma partial_product_spec t v m : zq (partial_product t v m q) = zsum m (fun i => sign (nth i t false) * zq v.[i]).
Proof.
  unfold partial_product. induction m as [|m IH]; [apply zq_0|].
  rewrite seq_S, fold_left_app. cbn [fold_left Nat.add zsum].
  destruct (nth m t false); rewrite ?zq_add, ?zq_sub, IH; unfold sign; ring.
Qed.

Lemma combine_upd {A B} i (a : A) (b : B) : forall xs ys, combine (upd i a xs) (upd i b ys) = upd i (a, b) (combine xs ys).
Proof.
  induction i as [|i IH]; intros [|x xs] [|y ys]; cbn; try reflexivity; try now destruct (upd i a xs).
  now rewrite IH.
Qed.

Lemma combine_swap {A B} (d : A) (e : B) i j xs ys : length xs = length ys ->
  combine (swap d i j xs) (swap e i j ys) = swap (d, e) i j (combine xs ys).
Proof. intros H. unfold swap. now rewrite !combine_upd, !combine_nth by exact H. Qed.

Lemma length_swap {A} (d : A) i j xs : length (swap d i j xs) = length xs.
Proof. unfold swap. now rewrite !length_upd. Qed.

Lemma Forall_swap {A} (P : A -> Prop) d i j xs :
  (i < length xs)%nat -> (j < length xs)%nat -> Forall P xs -> Forall P (swap d i j xs).
Proof.
  intros Hi Hj H. assert (G : forall p, (p < length xs)%nat -> P (nth p xs d)) by (intros; now apply Forall_nth).
  unfold swap. repeat apply Forall_upd; auto.
Qed.

(** The shape of the random choices: as many as there are entries, reduced. *)
Definition tape_ok (tp : ReceiverTape) : Prop :=
  length (draw_v tp) = entries q /\ length (draw_t tp) = entries q /\
  Forall (fun x => x < q)%N (draw_v tp) /\ (draw_sigma tp < q)%N.

Lemma entries_pos : (2 <= entries q)%nat.
Proof. unfold entries, k. lia. Qed.

(** The signed sum of [v] is the receiver's input. *)
Lemma generate_t_and_v_spec b tp : tape_ok tp ->
  let '(t, v) := generate_t_and_v_inplace b q tp in
  length t = entries q /\ length v = entries q /\ Forall (fun x => x < q)%N v /\
  zsum (entries q) (fun i => sign (nth i t false) * zq v.[i]) = zq b.
Proof.
  intros (Lv & Lt & Hv & _). unfold generate_t_and_v_inplace. pose proof entries_pos as Hn.
  set (n := entries q) in *. set (pos := N.to_nat _).
  assert (Hp : (pos < n)%nat) by (unfold pos; pose proof (N.mod_lt (draw_pos tp) (N.of_nat (n - 1))); lia).
  set (total := partial_product _ _ _ _). set (t := upd _ _ _). set (v := upd _ _ _).
  assert (Lt' : length t = n) by (unfold t; now rewrite length_upd, length_map).
  assert (Lv' : length v = n) by (unfold v; now rewrite length_upd).
  rewrite !length_swap. split; [exact Lt'|]. split; [exact Lv'|]. split.
  { apply Forall_swap; [lia..|]. apply Forall_upd; [apply N.mod_lt; lia | exact Hv]. }
  pose (g := fun p : bool * N => sign (fst p) * zq (snd p)).
  assert (E : forall ts vs, length ts = n -> length vs = n ->
    zsum n (fun i => sign (nth i ts false) * zq vs.[i]) = zsum n (fun i => g (nth i (combine ts vs) (false, 0%N)))).
  { intros ts vs H1 H2. apply zsum_ext. intros i _. rewrite combine_nth by lia. reflexivity. }
  rewrite E by (rewrite length_swap; assumption). rewrite combine_swap by lia.
  assert (Lc : length (combine t v) = n) by (rewrite length_combine; lia).
  pose proof (zsum_swap g (false, 0%N) (n - 1) pos (combine t v)) as SW. rewrite Lc in SW. rewrite SW by lia.
  rewrite <- E by assumption. clear E SW Lc Lt' Lv' Hp pos g.
  destruct n as [|n]; [lia|]. cbn [zsum]. subst t v total. rewrite Nat.sub_succ, Nat.sub_0_r.
  rewrite !nth_upd_eq by (rewrite ?length_map; lia). rewrite zq_sub, partial_product_spec.
  rewrite (zsum_ext n _ (fun i => sign (nth i (map choice_of (draw_t tp)) false) * zq (draw_v tp).[i])).
  - unfold sign at 2. ring.
  - intros i Hi. now rewrite !nth_upd_ne by lia.
Qed.

(** ** Sizes *)

Context (q_small : q < 2 ^ 521).

Lemma round_up_spec x : (x < 67)%N -> round_up_to_block x = (16 * ((x + 15) / 16))%N.
Proof.
  intros Hx. assert (C : forallb (fun i => round_up_to_block (N.of_nat i) =? 16 * ((N.of_nat i + 15) / 16))%N (seq 0 67) = true)
    by reflexivity.
  rewrite forallb_forall in C. specialize (C (N.to_nat x)). rewrite N2Nat.id in C. apply N.eqb_eq, C, in_seq. lia.
Qed.

Definition blocks_of_each : nat := N.to_nat ((BN_num_bytes q + 15) / 16).

Lemma num_bits_le : (BN_num_bits q <= 521)%N.
Proof. unfold BN_num_bits. rewrite N.size_log2 by lia. apply N.le_succ_l, N.log2_lt_pow2; lia. Qed.

Lemma size_of_each_blocks : size_of_each q = (16 * blocks_of_each)%nat.
Proof.
  unfold size_of_each, blocks_of_each. rewrite round_up_spec, N2Nat.inj_mul; [reflexivity|].
  unfold BN_num_bytes. apply N.Div0.div_lt_upper_bound. pose proof num_bits_le. lia.
Qed.

Lemma q_fits : (q < 2 ^ (8 * N.of_nat (16 * blocks_of_each)))%N.
Proof.
  eapply N.lt_le_trans; [apply N.size_gt|]. apply N.pow_le_mono_r; [lia|].
  unfold blocks_of_each, BN_num_bytes, BN_num_bits. rewrite Nat2N.inj_mul, N2Nat.id.
  pose proof (N.div_mod (N.size q + 7) 8). pose proof (N.mod_lt (N.size q + 7) 8).
  pose proof (N.div_mod ((N.size q + 7) / 8 + 15) 16). pose proof (N.mod_lt ((N.size q + 7) / 8 + 15) 16). lia.
Qed.

Lemma each_pos : (0 < blocks_of_each)%nat.
Proof. destruct blocks_of_each eqn:E; [|lia]. pose proof q_fits as H. rewrite E in H. cbn in H. lia. Qed.

Lemma below_q_fits x : (x < q)%N -> (x < 2 ^ (8 * N.of_nat (16 * blocks_of_each)))%N.
Proof. intros H. exact (N.lt_trans _ _ _ H q_fits). Qed.

Lemma padded_spec x : (x < q)%N ->
  BN_bn2bin_padded (16 * blocks_of_each) x = Some (SHA2.be_bytes (16 * blocks_of_each) x).
Proof. intros H. unfold BN_bn2bin_padded. now rewrite (proj2 (N.ltb_lt _ _)) by now apply below_q_fits. Qed.

Lemma serialise_spec xs : Forall (fun x => x < q)%N xs ->
  serialise_bignums_inplace xs (16 * blocks_of_each) = Some (pack blocks_of_each xs).
Proof.
  induction 1 as [|x xs Hx H IH]; [reflexivity|]. cbn [serialise_bignums_inplace]. rewrite padded_spec, IH by exact Hx. reflexivity.
Qed.

Lemma pairs_spec a delta :
  produce_pairs_loop delta a (16 * blocks_of_each) q =
  Some (pack blocks_of_each (map (fun d => BN_mod_add d a q) delta), pack blocks_of_each (map (fun d => BN_mod_sub d a q) delta)).
Proof.
  induction delta as [|d delta IH]; [reflexivity|]. cbn [produce_pairs_loop].
  rewrite !padded_spec, IH by (apply N.mod_lt; lia). reflexivity.
Qed.

(** ** Both parties *)

Definition receiver_entry (t : list bool) (v : list N) (sigma : N) : ReceiverEntry :=
  {| re_t_extended := expand_t_to_ot_width_inplace blocks_of_each t; re_v := v;
     re_v_serialised := pack blocks_of_each v; re_sigma := sigma;
     re_sigma_serialised := SHA2.be_bytes (16 * blocks_of_each) sigma |}.

Definition sums (a : N) (delta : list N) : list N := map (fun d => BN_mod_add d a q) delta.
Definition diffs (a : N) (delta : list N) : list N := map (fun d => BN_mod_sub d a q) delta.

Definition sender_entry (a : N) (delta : list N) : SenderEntry :=
  {| se_delta := delta; se_add_pack := pack blocks_of_each (sums a delta);
     se_sub_pack := pack blocks_of_each (diffs a delta) |}.

Lemma prepare_receiver_spec b tp : tape_ok tp -> exists t v,
  generate_t_and_v_inplace b q tp = (t, v) /\
  prepare_receiver b q tp = Some (receiver_entry t v (draw_sigma tp)) /\
  length t = entries q /\ length v = entries q /\ Forall (fun x => x < q)%N v /\
  zsum (entries q) (fun i => sign (nth i t false) * zq v.[i]) = zq b.
Proof.
  intros Ht. pose proof (generate_t_and_v_spec b tp Ht) as G. unfold prepare_receiver.
  destruct (generate_t_and_v_inplace b q tp) as [t v]. destruct G as (G1 & G2 & G3 & G4).
  exists t, v. rewrite size_of_each_blocks. rewrite serialise_spec by exact G3.
  rewrite padded_spec by apply Ht. rewrite (Nat.mul_comm 16), Nat.div_mul, <- (Nat.mul_comm 16) by lia. auto 8.
Qed.

Lemma prepare_sender_spec a delta : length delta = entries q ->
  prepare_sender a q delta = Some (sender_entry a delta).
Proof.
  intros Hd. unfold prepare_sender, produce_sender_pairs_inplace. pose proof entries_pos.
  rewrite (proj2 (Nat.eqb_neq _ _)) by lia. now rewrite size_of_each_blocks, pairs_spec.
Qed.

Lemma read_values_spec t v sigma rest : length v = entries q -> (sigma < q)%N ->
  read_values q (receiver_message (receiver_entry t v sigma) ++ rest) = Some (pack blocks_of_each v, sigma, rest).
Proof.
  intros Hv Hs. unfold read_values, receiver_message, receiver_entry. cbn [re_v_serialised re_sigma_serialised].
  rewrite size_of_each_blocks. set (m := blocks_of_each).
  assert (L1 : length (pack m v) = (entries q * (16 * m))%nat) by (rewrite length_pack; nia).
  rewrite (proj2 (Nat.ltb_ge _ _)) by (rewrite !length_app, length_be; lia).
  rewrite <- app_assoc, firstn_exact, !skipn_exact, firstn_exact by (rewrite ?length_be; auto).
  unfold BN_bin2bn. now rewrite be_int_bytes by now apply below_q_fits.
Qed.

(** Shares of a number. *)
Definition shares_of (x : N) (p : N * N) : Prop :=
  (fst p < q /\ snd p < q /\ (fst p + snd p) mod q = x mod q)%N.

Lemma nth_chosen a t delta i : (i < length t)%nat -> length delta = length t ->
  let c := (chosen t (diffs a delta) (sums a delta)).[i] in
  (c < q)%N /\ zq c = zq delta.[i] + sign (nth i t false) * zq a.
Proof.
  intros Hi Hd. unfold chosen, diffs, sums. rewrite nth_tabulate by exact Hi. cbv zeta.
  destruct (nth i t false); rewrite (nth_map_lt _ _ _ 0%N) by lia; unfold sign; rewrite ?zq_add, ?zq_sub;
    (split; [apply N.mod_lt; lia | ring]).
Qed.

Lemma finish_spec a b t v delta sigma :
  length t = entries q -> length v = entries q -> length delta = entries q -> Forall (fun x => x < q)%N v -> (sigma < q)%N ->
  zsum (entries q) (fun i => sign (nth i t false) * zq v.[i]) = zq b ->
  exists s r,
    finish_receiver (receiver_entry t v sigma)
      (convert_arr_to_block (pack blocks_of_each (chosen t (diffs a delta) (sums a delta)))) q = Some r /\
    finish_sender (sender_entry a delta) (pack blocks_of_each v) sigma q = Some s /\
    shares_of (a * b) (s, r).
Proof.
  intros Lt Lv Ld Hv Hs Hb. pose proof entries_pos. pose proof each_pos.
  set (ch := chosen _ _ _).
  assert (Lc : length ch = entries q) by (unfold ch; now rewrite length_chosen).
  assert (Hc : Forall (fun x => x < 2 ^ (8 * N.of_nat (16 * blocks_of_each)))%N ch).
  { apply Forall_nth. intros i d Hi. rewrite (nth_indep _ d 0%N) by exact Hi. apply below_q_fits, nth_chosen; lia. }
  assert (Hv' : Forall (fun x => x < 2 ^ (8 * N.of_nat (16 * blocks_of_each)))%N v)
    by (eapply Forall_impl; [|exact Hv]; intros x; apply below_q_fits).
  unfold finish_receiver, finish_sender, receiver_entry, sender_entry. cbn [re_v re_sigma se_delta].
  rewrite (convert_roundtrip (blocks_of_each * length ch)) by (rewrite ?length_pack; auto using bytes_pack).
  rewrite size_of_each_blocks.
  destruct (inner_product blocks_of_each ch v) as (r & -> & _ & Er); [lia..|exact Hc|].
  destruct (inner_product blocks_of_each v delta) as (s & -> & _ & Es); [lia..|exact Hv'|].
  do 2 eexists. split; [reflexivity|]. split; [reflexivity|]. unfold shares_of. cbn [fst snd].
  split; [apply N.mod_lt; lia|]. split; [apply N.mod_lt; lia|]. apply zq_inj.
  rewrite zq_plus, zq_add, !zq_sub, zq_0, Er, Es, Lv, Ld, zq_times, <- Hb.
  rewrite (zsum_ext _ (fun i => zq v.[i] * zq ch.[i]) (fun i => zq delta.[i] * zq v.[i] + zq a * (sign (nth i t false) * zq v.[i]))).
  - rewrite zsum_add, zsum_scale. ring.
  - intros i Hi. destruct (nth_chosen a t delta i) as [_ E]; [lia..|]. cbv zeta in E. fold ch in E. rewrite E. ring.
Qed.

(** ** What the receiver's message tells *)

Lemma nonzero_draws_chosen b tp : tape_ok tp -> Forall (fun r => r <> 0%N) (draw_t tp) ->
  Forall (eq true) (fst (generate_t_and_v_inplace b q tp)).
Proof.
  intros Ht Hr. unfold generate_t_and_v_inplace. pose proof entries_pos as Hn. destruct Ht as (_ & Lt & _). cbn [fst].
  set (n := entries q) in *.
  apply Forall_swap; rewrite ?length_upd, ?length_map; [lia| |].
  - pose proof (N.mod_lt (draw_pos tp) (N.of_nat (n - 1))). lia.
  - apply Forall_upd; [reflexivity|]. apply Forall_map. eapply Forall_impl; [|exact Hr].
    intros r H. unfold choice_of. now rewrite (proj2 (N.eqb_neq _ _)).
Qed.

(** The sum of the values in the message. *)
Definition sum_of_values (vals : list N) : option N :=
  deserialise_inner_product vals (repeat 1%N (entries q)) (size_of_each q) q.

Lemma message_discloses b tp : tape_ok tp -> Forall (fun r => r <> 0%N) (draw_t tp) ->
  exists re vals sigma, prepare_receiver b q tp = Some re /\
    read_values q (receiver_message re) = Some (vals, sigma, []) /\ sum_of_values vals = Some (b mod q)%N.
Proof.
  intros Ht Hr. pose proof (nonzero_draws_chosen b tp Ht Hr) as T. pose proof entries_pos. pose proof each_pos.
  destruct (prepare_receiver_spec b tp Ht) as (t & v & G & -> & Lt & Lv & Hv & Hb). rewrite G in T. cbn [fst] in T.
  do 3 eexists. split; [reflexivity|]. rewrite <- (app_nil_r (receiver_message _)), read_values_spec by (auto; apply Ht).
  split; [reflexivity|]. unfold sum_of_values. rewrite size_of_each_blocks.
  destruct (inner_product blocks_of_each v (repeat 1%N (entries q))) as (r & -> & Hrq & E);
    [rewrite ?repeat_length; lia..| |].
  { eapply Forall_impl; [|exact Hv]. intros x. apply below_q_fits. }
  f_equal. rewrite <- (N.mod_small r q) by exact Hrq. apply zq_inj. rewrite E, repeat_length, <- Hb.
  apply zsum_ext. intros i Hi. rewrite nth_repeat_lt by exact Hi. f_equal.
  rewrite <- (proj1 (Forall_nth _ t) T i false) by lia. reflexivity.
Qed.

Context {ot : F2128_MTA.OTChannel} {ok : F2128_MTA.OTCorrect}.

Lemma length_sums a delta : length (sums a delta) = length delta. Proof. apply length_map. Qed.
Lemma length_diffs a delta : length (diffs a delta) = length delta. Proof. apply length_map. Qed.

(** One multiplication: both parties end with shares of the product. *)
Lemma play_shares a b delta tp : length delta = entries q -> tape_ok tp ->
  exists p, play_inplace a b q delta tp = Some p /\ shares_of (a * b) p.
Proof.
  intros Ld Ht. pose proof entries_pos. pose proof each_pos. unfold play_inplace.
  destruct (prepare_receiver_spec b tp Ht) as (t & v & _ & -> & Lt & Lv & Hv & Hb).
  rewrite prepare_sender_spec by exact Ld. cbn [sender_entry receiver_entry se_sub_pack se_add_pack re_t_extended].
  rewrite transfer_chosen by (rewrite ?length_sums, ?length_diffs; lia).
  fold (receiver_entry t v (draw_sigma tp)) (sender_entry a delta).
  rewrite <- (app_nil_r (receiver_message _)), read_values_spec by (auto; apply Ht).
  destruct (finish_spec a b t v delta (draw_sigma tp)) as (s & r & -> & -> & H1); auto; [apply Ht|]. eauto.
Qed.

(** Two multiplications over one transfer. *)
Lemma play_iknp_2_shares a1 a2 b1 b2 delta1 delta2 tp1 tp2 :
  length delta1 = entries q -> length delta2 = entries q -> tape_ok tp1 -> tape_ok tp2 ->
  exists p1 p2, play_inplace_iknp_2 a1 a2 b1 b2 q delta1 delta2 tp1 tp2 = Some (p1, p2) /\
    shares_of (a1 * b1) p1 /\ shares_of (a2 * b2) p2.
Proof.
  intros Ld1 Ld2 Ht1 Ht2. pose proof entries_pos. pose proof each_pos. unfold play_inplace_iknp_2.
  destruct (prepare_receiver_spec b1 tp1 Ht1) as (t1 & v1 & _ & -> & Lt1 & Lv1 & Hv1 & Hb1).
  destruct (prepare_receiver_spec b2 tp2 Ht2) as (t2 & v2 & _ & -> & Lt2 & Lv2 & Hv2 & Hb2).
  rewrite !prepare_sender_spec by assumption. cbn [sender_entry receiver_entry se_sub_pack se_add_pack re_t_extended].
  rewrite !length_expand, !length_pack, !length_sums, !length_diffs, Lt1, Lt2, Ld1, Ld2, !Nat.eqb_refl. cbn [negb andb].
  assert (P : forall xs ys, pack blocks_of_each xs ++ pack blocks_of_each ys = pack blocks_of_each (xs ++ ys))
    by (intros; symmetry; apply flat_map_app).
  unfold expand_t_to_ot_width_inplace. rewrite !P, <- flat_map_app. fold (expand_t_to_ot_width_inplace blocks_of_each (t1 ++ t2)).
  rewrite transfer_chosen by (rewrite ?length_app, ?length_sums, ?length_diffs; lia).
  fold (expand_t_to_ot_width_inplace blocks_of_each t1) (expand_t_to_ot_width_inplace blocks_of_each t2).
  fold (receiver_entry t1 v1 (draw_sigma tp1)) (receiver_entry t2 v2 (draw_sigma tp2)) (sender_entry a1 delta1) (sender_entry a2 delta2).
  rewrite read_values_spec by (auto; apply Ht1).
  rewrite <- (app_nil_r (receiver_message _)), read_values_spec by (auto; apply Ht2).
  rewrite chosen_app, <- P by (rewrite ?length_sums, ?length_diffs; lia).
  rewrite (convert_app (length t1 * blocks_of_each)), firstn_exact, skipn_exact
    by (rewrite ?length_convert_pack, ?length_pack, length_chosen; congruence || lia).
  destruct (finish_spec a1 b1 t1 v1 delta1 (draw_sigma tp1)) as (s1 & r1 & -> & -> & H1); auto; [apply Ht1|].
  destruct (finish_spec a2 b2 t2 v2 delta2 (draw_sigma tp2)) as (s2 & r2 & -> & -> & H2); auto; [apply Ht2|]. eauto 6.
Qed.

End Ring.

(** ** What the sender learns *)

(** The receiver of a multiplication draws each choice bit as
    [t[i] = rand();], which is true for every number but zero.  When no draw
    is zero, the message that the receiver sends in the clear determines its
    input: the values in it add up to the input modulo the prime, whatever
    the rest of the randomness is.  In the conversion of curve points the
    receiver's inputs are the prover's coordinates. *)
Theorem receiver_input_disclosed q b tp : 1 < q -> q < 2 ^ 521 -> tape_ok q tp ->
  Forall (fun r => r <> 0) (draw_t tp) ->
  exists re vals sigma,
    prepare_receiver b q tp = Some re /\ read_values q (receiver_message re) = Some (vals, sigma, []) /\
    deserialise_inner_product vals (repeat 1 (entries q)) (size_of_each q) q = Some (b mod q).
Proof. intros Hq Hs Ht Hr. exact (message_discloses q Hq Hs b tp Ht Hr). Qed.

(** A tape over the integers modulo 7. *)
Definition tape7 (r : N) : ReceiverTape :=
  {| draw_v := repeat 3 (entries 7); draw_t := repeat r (entries 7); draw_pos := 11; draw_sigma := 5 |}.

Lemma tape7_ok r : tape_ok 7 (tape7 r).
Proof.
  repeat split; cbn [tape7 draw_v draw_t draw_sigma]; rewrite ?repeat_length; try reflexivity.
  apply Forall_forall. intros x Hx%repeat_spec. now subst.
Defined.

Lemma receiver_input_disclosed_witness :
  exists re vals sigma,
    prepare_receiver 4 7 (tape7 1804289383) = Some re /\ read_values 7 (receiver_message re) = Some (vals, sigma, []) /\
    deserialise_inner_product vals (repeat 1 (entries 7)) (size_of_each 7) 7 = Some 4.
Proof.
  apply (receiver_input_disclosed 7 4 (tape7 1804289383)); [reflexivity | reflexivity | apply tape7_ok|].
  apply Forall_forall. intros x Hx%repeat_spec. now subst.
Defined.
