(* ===== verification/Ectf.v ===== *)
(** * From curve points to field shares ([mta/ectf.cpp])

    The verifier and the prover each hold a point; together they turn the x
    coordinate of the sum of the points into two numbers that add up to it
    modulo the prime of the curve.  The definitions follow both parties at
    once: the verifier is the sender of every multiplication, the prover the
    receiver.  A pair holds the verifier's value first.  The parties'
    random choices are a tape. *)

From Stdlib Require Import ZArith Zmod.
From S2P Require Import Prelude Block128 FieldCode F2128MtA F2128Claims Messaging GHash Arrays Sha256 Util PrimeMtA PrimeShares.

Import ByteString BigNum MtA.
Local Open Scope N_scope.

(** [EC_GROUP_new_by_curve_name] and [EC_GROUP_get_curve_GFp]: the prime of
    the field of a curve, [None] for a curve that the library does not know. *)
Class CurveField := EC_GROUP_get_curve_GFp : N -> option N.

Module ECtF.
Local Open Scope mta_scope.

(** The choices of one multiplication. *)
Record MtaTape := { of_sender : list N; of_receiver : ReceiverTape }.

(** The choices of one conversion. *)
Record Tape := {
  draw_rho : N * N;
  draw_inversion : MtaTape * MtaTape;
  draw_lambda : MtaTape * MtaTape;
  draw_gamma : MtaTape }.

Section Conversion.
Context {ot : F2128_MTA.OTChannel} {inv : Inverse} {curve : CurveField}.

(** Both parties add their two shares. *)
Definition vector_mta_2 (first second : N * N) (p : N) (tp : MtaTape * MtaTape) : option (N * N) :=
  '((v1, p1), (v2, p2)) <-
    play_inplace_iknp_2 (fst first) (fst second) (snd first) (snd second) p
      (of_sender (fst tp)) (of_sender (snd tp)) (of_receiver (fst tp)) (of_receiver (snd tp)) ;;
  Some (BN_mod_add v1 v2 p, BN_mod_add p1 p2 p).

Definition serialised_to_bn (x_secret y_secret : list N) : N * N :=
  (BN_bin2bn x_secret, BN_bin2bn y_secret).

(** The prover swaps its inputs. *)
Definition scale_plus_share_impl (val blind : N * N) (p : N) (tp : MtaTape * MtaTape) : option (N * N) :=
  let first := (fst val, snd blind) in
  let second := (fst blind, snd val) in
  '(tmp_v, tmp_p) <- vector_mta_2 first second p tp ;;
  Some (BN_mod_add tmp_v (BN_mod_mul (fst val) (fst blind) p) p,
        BN_mod_add tmp_p (BN_mod_mul (snd val) (snd blind) p) p).

(** The deltas cross the wire at the size of the prime; each party inverts
    the sum. *)
Definition share_inversion_impl (x rho : N * N) (p : N) (tp : MtaTape * MtaTape) : option (N * N) :=
  '(delta_v, delta_p) <- scale_plus_share_impl x rho p tp ;;
  let size := N.to_nat (BN_num_bytes p) in
  ser_v <- BN_bn2bin_padded size delta_v ;;
  ser_p <- BN_bn2bin_padded size delta_p ;;
  inv_v <- BN_mod_inverse (BN_mod_add delta_v (BN_bin2bn ser_p) p) p ;;
  inv_p <- BN_mod_inverse (BN_mod_add delta_p (BN_bin2bn ser_v) p) p ;;
  Some (inv_v, inv_p).

Definition compute_lambda_impl (y eta : N * N) (p : N) (tp : MtaTape * MtaTape) : option (N * N) :=
  scale_plus_share_impl y eta p tp.

Definition negate_if_verifier (verifier : bool) (input p : N) : N :=
  if verifier then BN_mod_sub 0 input p else input.

Definition compute_gamma_internal (lambda : N * N) (p : N) (tp : MtaTape) : option (N * N) :=
  play_inplace (fst lambda) (snd lambda) p (of_sender tp) (of_receiver tp).

(** [2 * gamma + lambda^2 - x] *)
Definition final_value (gamma lambda x p : N) : N :=
  let tmp_1 := BN_mod_add gamma gamma p in
  let tmp_2 := BN_mod_sqr lambda p in
  let tmp_3 := BN_mod_add tmp_1 tmp_2 p in
  BN_mod_sub tmp_3 x p.

Definition both (f : bool -> N -> N) (x : N * N) : N * N := (f true (fst x), f false (snd x)).

(** The part after the field is known. *)
Definition ectf_bignums (p : N) (x y : N * N) (tp : Tape) : option (N * N) :=
  let rho := draw_rho tp in
  let x_input := both (fun verifier v => negate_if_verifier verifier v p) x in
  delta <- share_inversion_impl x_input rho p (draw_inversion tp) ;;
  let y_input := both (fun verifier v => negate_if_verifier verifier v p) y in
  let eta := (BN_mod_mul (fst rho) (fst delta) p, BN_mod_mul (snd rho) (snd delta) p) in
  lambda <- compute_lambda_impl y_input eta p (draw_lambda tp) ;;
  gamma <- compute_gamma_internal lambda p (draw_gamma tp) ;;
  Some (final_value (fst gamma) (fst lambda) (fst x) p, final_value (snd gamma) (snd lambda) (snd x) p).

(** A party's secrets: the serialised coordinates of its point. *)
Record Secrets := { x_secret : list N; y_secret : list N }.

Definition no_secret (s : Secrets) : bool :=
  (length (x_secret s) =? 0)%nat || (length (y_secret s) =? 0)%nat.

(** The shares and the size of the prime. *)
Definition ectf_internal (v_secrets p_secrets : Secrets) (curve_id : N) (tp : Tape) : option (N * N * nat) :=
  if no_secret v_secrets || no_secret p_secrets then None
  else
    p <- EC_GROUP_get_curve_GFp (Util.get_nid_from_uint16 curve_id) ;;
    let size_of_p := N.to_nat (BN_num_bytes p) in
    let '(x_v, y_v) := serialised_to_bn (x_secret v_secrets) (y_secret v_secrets) in
    let '(x_p, y_p) := serialised_to_bn (x_secret p_secrets) (y_secret p_secrets) in
    out <- ectf_bignums p (x_v, x_p) (y_v, y_p) tp ;;
    Some (out, size_of_p).

Definition ectf (v_secrets p_secrets : Secrets) (curve_id : N) (tp : Tape) : option (list N * list N) :=
  '((b_v, b_p), size_of_p) <- ectf_internal v_secrets p_secrets curve_id tp ;;
  out_v <- BN_bn2bin_padded size_of_p b_v ;;
  out_p <- BN_bn2bin_padded size_of_p b_p ;;
  Some (out_v, out_p).

End Conversion.
End ECtF.

Import ECtF.

(** ** In the ring of integers modulo the prime *)

Section Field.
Context (p : N) (p_prime : Z.prime (Z.of_N p)) (p_small : p < 2 ^ 521).
Context {ot : F2128_MTA.OTChannel} {ok : F2128_MTA.OTCorrect} {inv : Inverse} {invok : InverseOk inv}.

Lemma p_pos : 1 < p.
Proof. destruct p_prime as [H _]. clear -H. lia. Qed.

Add Ring zp_ring : (Zmod.ring_theory (Z.of_N p)).
Local Open Scope Zmod_scope.
Local Abbreviation z := (zq p).

Definition mta_ok (tp : MtaTape) : Prop :=
  length (of_sender tp) = entries p /\ tape_ok p (of_receiver tp).

Definition both_ok (tp : MtaTape * MtaTape) : Prop := mta_ok (fst tp) /\ mta_ok (snd tp).

Definition reduced (x : N * N) : Prop := (fst x < p /\ snd x < p)%N.

(** The value that a pair of shares stands for. *)
Definition joint (x : N * N) : Zmod (Z.of_N p) := z (fst x) + z (snd x).

Lemma joint_shares x s : shares_of p x s -> joint s = z x.
Proof.
  intros (_ & _ & E). unfold joint. rewrite <- zq_plus, <- (zq_mod p (_ + _)), E. apply zq_mod.
Qed.

(** The product of the sums. *)
Lemma scale_plus_share_spec val blind tp : both_ok tp ->
  exists s, scale_plus_share_impl val blind p tp = Some s /\ reduced s /\ joint s = joint val * joint blind.
Proof.
  pose proof p_pos as Hp.
  intros [[D1 T1] [D2 T2]]. unfold scale_plus_share_impl, vector_mta_2.
  destruct (play_iknp_2_shares p Hp p_small (fst val) (fst blind) (snd blind) (snd val)
    (of_sender (fst tp)) (of_sender (snd tp)) (of_receiver (fst tp)) (of_receiver (snd tp)) D1 D2 T1 T2)
    as ([v1 r1] & [v2 r2] & E & S1 & S2).
  cbn [fst snd]. rewrite E. eexists. split; [reflexivity|]. split; [split; apply N.mod_lt; lia|].
  apply joint_shares in S1, S2. unfold joint in *. cbn [fst snd] in *. rewrite !zq_add, !zq_mul.
  rewrite !zq_times in S1, S2.
  transitivity ((z v1 + z r1) + (z v2 + z r2) + z (fst val) * z (fst blind) + z (snd val) * z (snd blind)); [ring|].
  rewrite S1, S2. ring.
Qed.

Lemma num_bytes_fits x : (x < p)%N ->
  BN_bn2bin_padded (N.to_nat (BN_num_bytes p)) x = Some (SHA2.be_bytes (N.to_nat (BN_num_bytes p)) x) /\
  NIST.be_int (SHA2.be_bytes (N.to_nat (BN_num_bytes p)) x) = x.
Proof.
  intros Hx. assert (H : (x < 2 ^ (8 * N.of_nat (N.to_nat (BN_num_bytes p))))%N).
  { rewrite N2Nat.id. eapply N.lt_le_trans; [exact Hx|]. etransitivity; [apply N.lt_le_incl, N.size_gt|].
    apply N.pow_le_mono_r; [lia|]. unfold BN_num_bytes, BN_num_bits.
    pose proof (N.div_mod (N.size p + 7) 8). pose proof (N.mod_lt (N.size p + 7) 8). lia. }
  unfold BN_bn2bin_padded. rewrite (proj2 (N.ltb_lt _ _) H). split; [reflexivity | now apply be_int_bytes].
Qed.

Lemma of_N_gcd a b : Z.of_N (N.gcd a b) = Z.gcd (Z.of_N a) (Z.of_N b).
Proof. now destruct a, b. Qed.

Lemma z_zero a : z a = 0 <-> (Z.of_N p | Z.of_N a)%Z.
Proof.
  pose proof p_pos. rewrite <- (zq_0 p). unfold zq. rewrite Zmod.of_Z_inj, Z.mod_0_l by lia. apply Z.mod_divide. lia.
Qed.

Lemma z_one : z 1 <> 0.
Proof. pose proof p_pos. rewrite z_zero. intros H1%Z.divide_1_r_nonneg; lia. Qed.

Lemma z_one_eq : z 1 = 1.
Proof. apply Zmod.of_Z_1. Qed.

(** Inversion succeeds on everything but zero. *)
Lemma inverse_nonzero a : z a <> 0 -> exists i, BN_mod_inverse a p = Some i /\ z a * z i = 1.
Proof.
  intros Ha. pose proof (inverse_spec a p p_pos) as H. destruct (BN_mod_inverse a p) as [i|].
  - exists i. split; [reflexivity|]. destruct H as [_ H]. now rewrite <- zq_times, <- zq_mod, H, z_one_eq.
  - exfalso. apply H, N2Z.inj. rewrite z_zero in Ha. rewrite N.gcd_comm, of_N_gcd.
    now apply Z.coprime_prime_l.
Qed.

Lemma inverse_zero a : z a = 0 -> BN_mod_inverse a p = None.
Proof.
  intros Ha. pose proof (inverse_spec a p p_pos) as H. destruct (BN_mod_inverse a p) as [i|]; [|reflexivity].
  destruct H as [_ H]. apply (f_equal z) in H. rewrite zq_mod, zq_times, Ha in H. exfalso. apply z_one. rewrite <- H. ring.
Qed.

Lemma joint_pos x : exists n, joint x = z n.
Proof. exists (fst x + snd x)%N. unfold joint. now rewrite zq_plus. Qed.

(** Both parties get the inverse of the product of the sums, or none does. *)
Lemma share_inversion_spec x rho tp : both_ok tp ->
  match share_inversion_impl x rho p tp with
  | Some d => z (fst d) = z (snd d) /\ joint x * joint rho * z (fst d) = 1
  | None => joint x = 0 \/ joint rho = 0
  end.
Proof.
  intros Ht. unfold share_inversion_impl. destruct (scale_plus_share_spec x rho tp Ht) as ([dv dp] & -> & [Hv Hp] & E).
  cbn [fst snd] in *. destruct (num_bytes_fits dv Hv) as [-> Ev]. destruct (num_bytes_fits dp Hp) as [-> Ep].
  unfold BN_bin2bn. rewrite Ev, Ep.
  assert (Jv : z (BN_mod_add dv dp p) = joint x * joint rho) by now rewrite zq_add, <- E.
  assert (Jp : z (BN_mod_add dp dv p) = joint x * joint rho) by (rewrite zq_add, <- E; unfold joint; cbn [fst snd]; ring).
  destruct (joint_pos x) as [nx Ex], (joint_pos rho) as [nr Er].
  destruct (N.eq_dec ((nx * nr) mod p) 0) as [E0|E0].
  - assert (Z0 : joint x * joint rho = 0) by (rewrite Ex, Er, <- zq_times, <- zq_mod, E0; apply zq_0).
    rewrite inverse_zero by now rewrite Jv. now apply Zmod.mul_0_iff_prime.
  - assert (Z1 : joint x * joint rho <> 0).
    { rewrite Ex, Er, <- zq_times, <- (zq_0 p). intros H%zq_inj. rewrite N.Div0.mod_0_l in H. contradiction. }
    destruct (inverse_nonzero (BN_mod_add dv dp p)) as (iv & -> & Iv); [now rewrite Jv|].
    destruct (inverse_nonzero (BN_mod_add dp dv p)) as (ip & -> & Ip); [now rewrite Jp|].
    rewrite Jv in Iv. rewrite Jp in Ip. cbn [fst snd]. split; [|exact Iv].
    transitivity (z iv * (joint x * joint rho * z ip)); [rewrite Ip; ring|].
    transitivity (z ip * (joint x * joint rho * z iv)); [ring|]. rewrite Iv. ring.
Qed.

Lemma joint_negated x :
  joint (both (fun verifier v => negate_if_verifier verifier v p) x) = z (snd x) - z (fst x).
Proof. pose proof p_pos. unfold joint, both, negate_if_verifier. cbn [fst snd]. rewrite zq_sub, zq_0 by assumption. ring. Qed.

(** All choices have the shape that the field asks for. *)
Definition tape_of_ok (tp : Tape) : Prop :=
  both_ok (draw_inversion tp) /\ both_ok (draw_lambda tp) /\ mta_ok (draw_gamma tp).

Lemma ectf_bignums_spec x y tp : tape_of_ok tp ->
  match ectf_bignums p x y tp with
  | Some s => reduced s /\ z (fst x) <> z (snd x) /\ joint (draw_rho tp) <> 0 /\
      exists l, z l * (z (snd x) - z (fst x)) = z (snd y) - z (fst y) /\
        joint s = z l * z l - z (fst x) - z (snd x)
  | None => z (fst x) = z (snd x) \/ joint (draw_rho tp) = 0
  end.
Proof.
  intros (Hi & Hl & Hg1 & Hg2). pose proof p_pos as Hp. unfold ectf_bignums.
  set (xi := both _ x). set (yi := both _ y). set (rho := draw_rho tp).
  assert (Jx : joint xi = z (snd x) - z (fst x)) by apply joint_negated.
  assert (Jy : joint yi = z (snd y) - z (fst y)) by apply joint_negated.
  pose proof (share_inversion_spec xi rho (draw_inversion tp) Hi) as SI.
  destruct (share_inversion_impl xi rho p (draw_inversion tp)) as [[dv dp]|].
  2: { destruct SI as [SI|SI]; [left|now right]. rewrite Jx in SI.
       transitivity (z (snd x) - (z (snd x) - z (fst x))); [ring | rewrite SI; ring]. }
  cbn [fst snd] in *. destruct SI as [Ed E1]. unfold compute_lambda_impl.
  set (eta := (_, _)). destruct (scale_plus_share_spec yi eta (draw_lambda tp) Hl) as ([lv lp] & -> & [Rv Rp] & EL).
  assert (Je : joint eta = joint rho * z dv) by (unfold joint, eta; cbn [fst snd]; rewrite !zq_mul, <- Ed; ring).
  unfold compute_gamma_internal. cbn [fst snd] in *.
  destruct (play_shares p Hp p_small lv lp (of_sender (draw_gamma tp)) (of_receiver (draw_gamma tp)) Hg1 Hg2) as ([gv gp] & -> & SG).
  apply joint_shares in SG. unfold joint at 1 in SG. cbn [fst snd] in *. rewrite zq_times in SG.
  split; [split; apply N.mod_lt; lia|].
  assert (NZ : forall a b : Zmod (Z.of_N p), a = 0 \/ b = 0 -> a * b * z dv <> 1).
  { intros a b H H1. apply z_one. rewrite z_one_eq, <- H1. destruct H as [-> | ->]; ring. }
  split; [intros E; apply (NZ (joint xi) (joint rho)); [left; rewrite Jx, E; ring | exact E1]|].
  split; [intros E; apply (NZ (joint xi) (joint rho)); auto|].
  exists (lv + lp)%N. rewrite zq_plus. change (z lv + z lp) with (joint (lv, lp)). rewrite EL, Je. split.
  - rewrite <- Jx, <- Jy. transitivity (joint yi * (joint xi * joint rho * z dv)); [ring | rewrite E1; ring].
  - rewrite <- Je, <- EL. unfold joint, final_value. cbn [fst snd]. rewrite !zq_sub, !zq_add, !zq_sqr by exact Hp.
    transitivity ((z gv + z gp) + (z gv + z gp) + z lv * z lv + z lp * z lp - z (fst x) - z (snd x)); [ring|].
    rewrite SG. ring.
Qed.

End Field.

(** ** The x coordinate of the sum of two points *)

(** The addition law of the curve for points with different x coordinates:
    [x3 = l^2 - x1 - x2] with the slope [l = (y2 - y1) / (x2 - x1)]. *)
Definition chord (p x1 y1 x2 y2 x3 : N) : Prop :=
  exists l, (l * (x2 + (p - x1))) mod p = (y2 + (p - y1)) mod p /\ (x3 + x1 + x2) mod p = (l * l) mod p.

Section Chord.
Context (p : N) (p_prime : Z.prime (Z.of_N p)).

Add Ring zc_ring : (Zmod.ring_theory (Z.of_N p)).
Local Open Scope Zmod_scope.

Lemma zq_difference x y : (x < p)%N -> zq p (y + (p - x))%N = zq p y - zq p x.
Proof.
  intros Hx. pose proof (zq_sub p (p_pos p p_prime) y x) as H. unfold BN_mod_sub in H. now rewrite (N.mod_small x p) in H by exact Hx;
  rewrite zq_mod in H.
Qed.

Lemma chord_ring x1 y1 x2 y2 x3 l : (x1 < p)%N -> (y1 < p)%N ->
  zq p l * (zq p x2 - zq p x1) = zq p y2 - zq p y1 -> zq p x3 = zq p l * zq p l - zq p x1 - zq p x2 ->
  chord p x1 y1 x2 y2 x3.
Proof.
  intros Hx Hy E1 E2. exists l. split; apply zq_inj.
  - now rewrite zq_times, !zq_difference.
  - rewrite !zq_plus, zq_times, E2. ring.
Qed.

(** There is one such coordinate. *)
Lemma chord_unique x1 y1 x2 y2 x3 x3' : (x1 < p)%N -> (x2 < p)%N -> x1 <> x2 ->
  chord p x1 y1 x2 y2 x3 -> chord p x1 y1 x2 y2 x3' -> (x3 mod p = x3' mod p)%N.
Proof.
  intros H1 H2 Hn (l & E1 & E2) (l' & E1' & E2'). 
  assert (D : zq p (x2 + (p - x1))%N <> 0).
  { rewrite zq_difference by exact H1. rewrite <- (zq_0 p). intros H. apply Hn.
    rewrite <- (N.mod_small x1 p), <- (N.mod_small x2 p) by assumption. apply zq_inj.
    transitivity (zq p x2 - (zq p x2 - zq p x1)); [ring|]. rewrite H, zq_0. ring. }
  assert (L : zq p l = zq p l').
  { apply (Zmod.mul_cancel_r_prime _ _ _ p_prime D). rewrite <- !zq_times, <- zq_mod, E1, <- E1'. apply zq_mod. }
  apply zq_inj. assert (S : zq p (x3 + x1 + x2)%N = zq p (x3' + x1 + x2)%N).
  { rewrite <- zq_mod, E2, <- (zq_mod p (x3' + _ + _)), E2', !zq_mod, !zq_times. now rewrite L. }
  rewrite !zq_plus in S. transitivity (zq p x3 + zq p x1 + zq p x2 - zq p x1 - zq p x2); [ring | rewrite S; ring].
Qed.

End Chord.

Definition coord (bs : list N) : N := NIST.be_int bs.

(** A point of the curve's field, as the key exchange leaves it. *)
Definition secrets_ok (p : N) (s : Secrets) : Prop :=
  x_secret s <> [] /\ y_secret s <> [] /\ coord (x_secret s) < p /\ coord (y_secret s) < p.

Lemma secret_present p s : secrets_ok p s -> no_secret s = false.
Proof. intros (Hx & Hy & _). unfold no_secret. destruct (x_secret s), (y_secret s); cbn; congruence. Qed.

Section Run.
Context {ot : F2128_MTA.OTChannel} {ok : F2128_MTA.OTCorrect} {inv : Inverse} {invok : InverseOk inv} {curve : CurveField}.
Context (curve_id p : N) (V P : Secrets) (tp : Tape).
Hypotheses (curve_p : EC_GROUP_get_curve_GFp (Util.get_nid_from_uint16 curve_id) = Some p)
  (p_prime : Z.prime (Z.of_N p)) (p_small : p < 2 ^ 521)
  (V_ok : secrets_ok p V) (P_ok : secrets_ok p P) (tp_ok : tape_of_ok p tp).

(** The same x coordinate, or blinding values that cancel. *)
Definition collide : Prop :=
  coord (x_secret V) = coord (x_secret P) \/ (fst (draw_rho tp) + snd (draw_rho tp)) mod p = 0.

Lemma collide_ring : collide <->
  zq p (coord (x_secret V)) = zq p (coord (x_secret P)) \/ joint p (draw_rho tp) = 0%Zmod.
Proof.
  unfold collide, joint. rewrite <- zq_plus, <- (zq_0 p). split; (intros [H|H]; [left|right]).
  - now rewrite H.
  - now rewrite <- zq_mod, H.
  - apply zq_inj in H. rewrite !N.mod_small in H by (apply V_ok || apply P_ok). exact H.
  - apply zq_inj in H. now rewrite N.Div0.mod_0_l in H.
Qed.

Lemma ectf_run : ectf V P curve_id tp =
  match ectf_bignums p (coord (x_secret V), coord (x_secret P)) (coord (y_secret V), coord (y_secret P)) tp with
  | Some (b_v, b_p) => Some (SHA2.be_bytes (N.to_nat (BN_num_bytes p)) b_v, SHA2.be_bytes (N.to_nat (BN_num_bytes p)) b_p)
  | None => None
  end.
Proof.
  unfold ectf, ectf_internal. rewrite (secret_present p V V_ok), (secret_present p P P_ok), curve_p. cbn [orb].
  unfold serialised_to_bn, BN_bin2bn. fold (coord (x_secret V)) (coord (y_secret V)) (coord (x_secret P)) (coord (y_secret P)).
  pose proof (ectf_bignums_spec p p_prime p_small (coord (x_secret V), coord (x_secret P)) (coord (y_secret V), coord (y_secret P)) tp tp_ok) as S.
  destruct ectf_bignums as [[sv sp]|]; [|reflexivity]. destruct S as ([Rv Rp] & _). cbn [fst snd] in Rv, Rp.
  now rewrite (proj1 (num_bytes_fits p p_small sv Rv)), (proj1 (num_bytes_fits p p_small sp Rp)).
Qed.

Lemma ectf_aborts : collide -> ectf V P curve_id tp = None.
Proof.
  rewrite collide_ring, ectf_run. intros C.
  pose proof (ectf_bignums_spec p p_prime p_small (coord (x_secret V), coord (x_secret P)) (coord (y_secret V), coord (y_secret P)) tp tp_ok) as S.
  destruct ectf_bignums as [[sv sp]|]; [|reflexivity]. destruct S as (_ & Nx & Nr & _). cbn [fst snd] in *. tauto.
Qed.

Lemma ectf_succeeds : ~ collide -> exists out_v out_p,
  ectf V P curve_id tp = Some (out_v, out_p) /\
  arr (N.to_nat (BN_num_bytes p)) out_v /\ arr (N.to_nat (BN_num_bytes p)) out_p /\ coord out_v < p /\ coord out_p < p /\
  chord p (coord (x_secret V)) (coord (y_secret V)) (coord (x_secret P)) (coord (y_secret P))
    ((coord out_v + coord out_p) mod p).
Proof.
  rewrite collide_ring, ectf_run. intros C.
  pose proof (ectf_bignums_spec p p_prime p_small (coord (x_secret V), coord (x_secret P)) (coord (y_secret V), coord (y_secret P)) tp tp_ok) as S.
  destruct ectf_bignums as [[sv sp]|]; [|now destruct C]. destruct S as ([Rv Rp] & _ & _ & l & E1 & E2). cbn [fst snd] in *.
  do 2 eexists. split; [reflexivity|]. unfold coord at 1 2 7 8.
  rewrite (proj2 (num_bytes_fits p p_small sv Rv)), (proj2 (num_bytes_fits p p_small sp Rp)).
  repeat (split; [solve [apply be_bytes_arr | assumption]|]).
  apply (chord_ring p p_prime) with (l := l); [apply V_ok..|exact E1|]. rewrite zq_mod, zq_plus. exact E2.
Qed.

(** C8: the conversion of curve points to field shares.  On a curve whose
    field has prime order, with points whose coordinates are below the prime,
    the run of both parties fails when the points have the same x coordinate
    or the blinding values cancel; otherwise each party ends with as many
    bytes as the prime has, and the two numbers, both below the prime, add up
    modulo the prime to the x coordinate of the sum of the points. *)
Theorem ectf_shares_x_coordinate :
  (collide -> ectf V P curve_id tp = None) /\
  (~ collide -> exists out_v out_p,
    ectf V P curve_id tp = Some (out_v, out_p) /\
    arr (N.to_nat (BN_num_bytes p)) out_v /\ arr (N.to_nat (BN_num_bytes p)) out_p /\ coord out_v < p /\ coord out_p < p /\
    chord p (coord (x_secret V)) (coord (y_secret V)) (coord (x_secret P)) (coord (y_secret P))
      ((coord out_v + coord out_p) mod p)).
Proof. exact (conj ectf_aborts ectf_succeeds). Qed.

End Run.

(** ** Instances for the witnesses *)

Definition toy_inverse : Inverse := fun a q =>
  let i := Z.to_N (Z.invmod (Z.of_N a) (Z.of_N q)) in if (a * i) mod q =? 1 then Some i else None.

Lemma toy_inverse_ok : InverseOk toy_inverse.
Proof.
  intros a q Hq. unfold BN_mod_inverse, toy_inverse. set (i := Z.invmod _ _).
  assert (Hi : (0 <= i < Z.of_N q)%Z) by (apply Z.mod_pos_bound; lia).
  destruct (N.eqb_spec ((a * Z.to_N i) mod q) 1) as [E|E]; [split; [lia | exact E]|].
  intros G. apply E, N2Z.inj. rewrite N2Z.inj_mod, N2Z.inj_mul, Z2N.id, Z.mul_comm by lia. apply Z.invmod_coprime; [lia|].
  unfold Z.coprime. now rewrite <- of_N_gcd, G.
Qed.

Definition toy_field : CurveField := fun nid => if nid =? Util.NID_X9_62_prime256v1 then Some 7 else None.

Lemma prime_7 : Z.prime 7.
Proof.
  split; [lia|]. intros n Hn [k Hk]. assert (C : (n = 2 \/ n = 3 \/ n = 4 \/ n = 5 \/ n = 6)%Z) by lia.
  destruct C as [-> | [-> | [-> | [-> | ->]]]]; lia.
Qed.

Definition mta7 (r : N) : MtaTape := {| of_sender := repeat 2 (entries 7); of_receiver := tape7 r |}.
Definition ectf7 : Tape :=
  {| draw_rho := (3, 2); draw_inversion := (mta7 0, mta7 1); draw_lambda := (mta7 1, mta7 0); draw_gamma := mta7 0 |}.

Lemma ectf7_ok : tape_of_ok 7 ectf7.
Proof. repeat split; try apply tape7_ok; apply repeat_length. Qed.

Definition point_v : Secrets := {| x_secret := [1]; y_secret := [2] |}.
Definition point_p : Secrets := {| x_secret := [3]; y_secret := [1] |}.

(** The points [(1, 2)] and [(3, 1)]: the slope is 3 and the sum has x
    coordinate 5. *)
Lemma ectf_shares_x_coordinate_witness :
  (collide 7 point_p point_p ectf7 -> @ectf F2128Claims.ideal_ot toy_inverse toy_field point_p point_p 23 ectf7 = None) /\
  exists out_v out_p, @ectf F2128Claims.ideal_ot toy_inverse toy_field point_v point_p 23 ectf7 = Some (out_v, out_p) /\
    coord out_v < 7 /\ coord out_p < 7 /\ chord 7 1 2 3 1 ((coord out_v + coord out_p) mod 7).
Proof.
  assert (T : forall V, secrets_ok 7 V -> _) by (intros V HV; exact (@ectf_shares_x_coordinate F2128Claims.ideal_ot F2128Claims.ideal_ot_correct
    toy_inverse toy_inverse_ok toy_field 23 7 V point_p ectf7 eq_refl prime_7 eq_refl HV ltac:(repeat split; discriminate || reflexivity) ectf7_ok)).
  split; [apply (T point_p); repeat split; discriminate || reflexivity|].
  destruct (T point_v ltac:(repeat split; discriminate || reflexivity)) as [_ H].
  destruct H as (ov & op & E & _ & _ & H); [intros [C|C]; vm_compute in C; discriminate|]. exists ov, op. exact (conj E H).
Defined.

Example ectf7_runs :
  option_map (fun o => (coord (fst o) + coord (snd o)) mod 7)
    (@ectf F2128Claims.ideal_ot toy_inverse toy_field point_v point_p 23 ectf7) = Some 5.
Proof. vm_compute. reflexivity. Qed.
