(* ===== verification/NistPrimes.v ===== *)
(** * The prime of P-256

    The conversion of curve points needs a field: the order of the curve's
    ring must be prime.  Primality is proved by reflection: a checker for
    certificates of Pocklington's kind, its soundness, and the certificate of
    the prime of P-256. *)

From Stdlib Require Import ZArith Zmod Znumtheory.
From S2P Require Import Prelude.

Local Open Scope Z_scope.

(** ** The checker *)

Module Certificate.

Fixpoint pow_mod (a m : Z) (e : positive) : Z :=
  match e with
  | xH => a mod m
  | xO e => let r := pow_mod a m e in (r * r) mod m
  | xI e => let r := pow_mod a m e in ((r * r) mod m * a) mod m
  end.

Definition power (a e m : Z) : Z := match e with Zpos e => pow_mod a m e | _ => 1 mod m end.

(** No divisor among the [fuel] numbers from [d] on. *)
Fixpoint no_divisor (fuel : nat) (d n : Z) : bool :=
  match fuel with
  | O => true
  | S fuel => negb (n mod d =? 0) && no_divisor fuel (d + 1) n
  end.

Definition trial (n : Z) : bool := (1 <? n) && no_divisor (Z.to_nat (Z.sqrt n)) 2 n.

(** A prime factor [q] of [n - 1] for which [a] separates. *)
Definition factor_ok (n a q : Z) : bool :=
  ((n - 1) mod q =? 0) && (Z.gcd (power a ((n - 1) / q) n - 1) n =? 1).

Fixpoint distinct (qs : list Z) : bool :=
  match qs with [] => true | q :: qs => forallb (fun r => negb (q =? r)) qs && distinct qs end.

Definition product (qs : list Z) : Z := fold_right Z.mul 1 qs.

Definition pocklington (n a : Z) (qs : list Z) : bool :=
  (1 <? n) && (power a (n - 1) n =? 1) && forallb (factor_ok n a) qs && distinct qs &&
  (n <? product qs * product qs).

(** Each line proves a number prime with the numbers proved before it; a line
    without factors is checked by trial division. *)
Fixpoint check (proved : list Z) (lines : list (Z * Z * list Z)) : bool :=
  match lines with
  | [] => true
  | (n, a, qs) :: lines =>
      (match qs with
       | [] => trial n
       | _ => forallb (fun q => existsb (Z.eqb q) proved) qs && pocklington n a qs
       end) && check (n :: proved) lines
  end.

End Certificate.
Import Certificate.

(** ** Soundness *)

Lemma pow_mod_spec a m e : pow_mod a m e = a ^ Zpos e mod m.
Proof.
  induction e as [e IH|e IH|]; cbn [pow_mod].
  - rewrite IH, <- Zmult_mod, Zmult_mod_idemp_l. f_equal.
    replace (Zpos (xI e)) with (Zpos e + Zpos e + 1) by lia. now rewrite !Z.pow_add_r, Z.pow_1_r by lia.
  - rewrite IH, <- Zmult_mod, <- Z.pow_add_r by lia. do 2 f_equal. lia.
  - now rewrite Z.pow_1_r.
Qed.

Lemma power_spec a e m : 0 <= e -> power a e m = a ^ e mod m.
Proof. intros He. destruct e as [|e|e]; [reflexivity | apply pow_mod_spec | lia]. Qed.

Lemma no_divisor_spec fuel : forall d n k, no_divisor fuel d n = true -> d <= k < d + Z.of_nat fuel -> 0 < d -> ~ (k | n).
Proof.
  induction fuel as [|fuel IH]; intros d n k H Hk Hd; [lia|]. cbn in H. apply andb_prop in H as [H1 H2].
  destruct (Z.eq_dec k d) as [->|Hn]; [|apply (IH (d + 1)); lia || assumption].
  rewrite <- Z.mod_divide by lia. now apply negb_true_iff, Z.eqb_neq in H1.
Qed.

Lemma trial_sound n : trial n = true -> Z.prime n.
Proof.
  unfold trial. intros [H1%Z.ltb_lt H2]%andb_prop. split; [exact H1|].
  assert (G : forall k, 1 < k -> k <= Z.sqrt n -> ~ (k | n)) by (intros k Hk Hs; apply (no_divisor_spec _ _ _ k H2); lia).
  intros k Hk Hd. pose proof (Z.sqrt_spec n ltac:(lia)) as Hs.
  destruct (Z.le_gt_cases k (Z.sqrt n)) as [Hle|Hgt]; [now apply (G k); [lia|..]|].
  destruct Hd as [e He]. pose proof (Z.sqrt_nonneg n) as H0. destruct Hs as [_ Hs]. unfold Z.succ in Hs.
  generalize dependent (Z.sqrt n). intros s H2 G Hs Hgt H0.
  assert (E0 : 0 < e) by nia. assert (E1 : e <> 1) by (intros ->; lia).
  apply (G e); [lia | | exists k; lia]. destruct (Z.le_gt_cases e s) as [|Hes]; [assumption|].
  pose proof (Z.mul_le_mono_nonneg (s + 1) e (s + 1) k ltac:(lia) ltac:(lia) ltac:(lia) ltac:(lia)). lia.
Qed.

Lemma prime_factor d : 1 < d -> exists r, Z.prime r /\ (r | d).
Proof.
  intros Hd. assert (H : 0 <= d) by lia. revert Hd. pattern d. apply Zlt_0_ind; [clear d H|exact H].
  intros d IH _ Hd. destruct (prime_dec d) as [P|P].
  - exists d. split; [now apply prime_alt | apply Z.divide_refl].
  - destruct (not_prime_divide d Hd P) as (k & Hk & Dk). destruct (IH k) as (r & Pr & Dr); [lia..|].
    exists r. split; [exact Pr | now transitivity k].
Qed.

(** Exponents that give one are closed under greatest common divisors. *)
Lemma power_gcd b r u v : 0 <= u -> 0 <= v -> b ^ u mod r = 1 -> b ^ v mod r = 1 -> b ^ Z.gcd u v mod r = 1.
Proof.
  intros Hu Hv. revert u Hu. pattern v. apply Zlt_0_ind; [clear v Hv|exact Hv].
  intros v IH Hv u Hu Eu Ev. destruct (Z.eq_dec v 0) as [->|Hn]; [now rewrite Z.gcd_0_r, Z.abs_eq|].
  pose proof (Z.mod_pos_bound u v ltac:(lia)) as Hm. rewrite <- Z.gcd_mod_l, Z.gcd_comm.
  apply IH; [lia | lia | exact Ev|].
  assert (Hq : 0 <= u / v) by (apply Z.div_pos; lia). assert (Hvq : 0 <= v * (u / v)) by now apply Z.mul_nonneg_nonneg.
  rewrite (Z.div_mod u v Hn), Z.pow_add_r, Z.pow_mul_r in Eu by (assumption || lia).
  rewrite <- Zmult_mod_idemp_l, <- Z.mod_pow_l, Ev in Eu.
  assert (R : 1 mod r = 1) by (rewrite <- Ev at 2; rewrite <- Ev at 1; apply Zmod_mod).
  rewrite Z.pow_1_l, R, Z.mul_1_l in Eu by exact Hq. exact Eu.
Qed.

Lemma power_multiple b r u v : 0 <= u -> 0 <= v -> (u | v) -> b ^ u mod r = 1 -> b ^ v mod r = 1.
Proof.
  intros Hu Hv [c ->] E. destruct (Z.eq_dec u 0) as [->|Hn]; [now rewrite Z.mul_0_r in *|].
  rewrite Z.mul_comm, Z.pow_mul_r, <- Z.mod_pow_l, E, Z.pow_1_l by nia.
  rewrite <- E at 2. rewrite <- E at 1. apply Zmod_mod.
Qed.

Lemma mod_of_divisor x n r : (r | n) -> 0 < r -> 1 < n -> x mod n = 1 -> 1 < r -> x mod r = 1.
Proof.
  intros [c ->] Hr Hn Hx H1. rewrite (Z.div_mod x (c * r)), Hx by lia.
  rewrite Z.add_comm, (Z.mul_comm c r), <- Z.mul_assoc, (Z.mul_comm r), Z.mod_add by lia. apply Z.mod_small. lia.
Qed.

(** A prime factor of [n] is one modulo every good prime factor of [n - 1]. *)
Lemma factor_divides n a q r : 1 < n -> power a (n - 1) n = 1 -> factor_ok n a q = true -> Z.prime q ->
  Z.prime r -> (r | n) -> (q | r - 1).
Proof.
  intros Hn Ea Hq Pq Pr Dr. pose proof (Z.prime_ge_2 r Pr) as Hr. pose proof (Z.prime_ge_2 q Pq) as Hq2.
  apply andb_prop in Hq as [Dq%Z.eqb_eq G%Z.eqb_eq]. apply Z.mod_divide in Dq as [c Hc]; [|lia].
  rewrite Hc, Z.div_mul in G by lia. rewrite power_spec in Ea by lia. assert (Hc0 : 0 <= c) by nia. rewrite power_spec in G by exact Hc0.
  apply (mod_of_divisor _ n r Dr) in Ea; [|lia..].
  assert (Hf : a ^ (r - 1) mod r = 1).
  { apply Z.fermat_nz; [exact Pr|]. intros E. rewrite <- Z.mod_pow_l, E, Z.pow_0_l, Z.mod_0_l in Ea by lia. discriminate. }
  destruct (Z.eq_dec ((r - 1) mod q) 0) as [E|E]; [apply Z.mod_divide; lia || exact E|exfalso].
  assert (D : (Z.gcd (n - 1) (r - 1) | c)).
  { apply (Z.gauss _ q); [rewrite Z.mul_comm, <- Hc; apply Z.gcd_divide_l|]. rewrite Z.gcd_comm. apply Z.coprime_prime_l; [exact Pq|].
    intros H. apply E, Z.mod_divide; [lia|]. etransitivity; [exact H | apply Z.gcd_divide_r]. }
  assert (Ec : a ^ c mod r = 1).
  { apply (power_multiple _ _ (Z.gcd (n - 1) (r - 1))); [apply Z.gcd_nonneg | exact Hc0 | exact D|]. apply power_gcd; lia || assumption. }
  assert (R1 : (r | 1)).
  { rewrite <- G. apply Z.gcd_greatest; [|exact Dr]. destruct Dr as [e ->].
    replace (a ^ c mod (e * r) - 1) with ((a ^ c - 1) - (e * ((a ^ c) / (e * r))) * r)
      by (pose proof (Z.div_mod (a ^ c) (e * r)); lia).
    apply Z.divide_sub_r; [|apply Z.divide_factor_r]. exists (a ^ c / r). pose proof (Z.div_mod (a ^ c) r). lia. }
  apply Z.divide_1_r_nonneg in R1; lia.
Qed.

Lemma distinct_notin q qs : forallb (fun r => negb (q =? r)) qs = true -> ~ In q qs.
Proof. rewrite forallb_forall. intros H Hi. specialize (H q Hi). now rewrite Z.eqb_refl in H. Qed.

Lemma prime_divides_product q qs : Z.prime q -> Forall Z.prime qs -> (q | product qs) -> In q qs.
Proof.
  intros Pq. induction 1 as [|r qs Pr H IH]; cbn [product fold_right].
  - intros D. apply Z.divide_1_r_nonneg in D; pose proof (Z.prime_ge_2 q Pq); lia.
  - intros [D|D]%Z.divide_prime_mul; [left; symmetry; now apply Z.divide_prime_prime | right; now apply IH | exact Pq].
Qed.

Lemma product_divides x qs : distinct qs = true -> Forall Z.prime qs -> (forall q, In q qs -> (q | x)) -> (product qs | x).
Proof.
  induction qs as [|q qs IH]; intros Hd Hp Hx; [apply Z.divide_1_l|]. cbn in Hd. apply andb_prop in Hd as [H1 H2].
  inversion Hp as [|? ? Pq Pqs]; subst. cbn [product fold_right]. fold (product qs).
  destruct (IH H2 Pqs (fun q' H => Hx q' (or_intror H))) as [c ->].
  rewrite Z.mul_comm. rewrite (Z.mul_comm c). apply Z.mul_divide_mono_l.
  apply (Z.gauss _ (product qs)); [rewrite Z.mul_comm; apply (Hx q); now left|].
  apply Z.coprime_prime_l; [exact Pq|]. intros D. exact (distinct_notin q qs H1 (prime_divides_product q qs Pq Pqs D)).
Qed.

Lemma pocklington_sound n a qs : Forall Z.prime qs -> pocklington n a qs = true -> Z.prime n.
Proof.
  intros Hp. unfold pocklington. intros ((((H1%Z.ltb_lt & H2%Z.eqb_eq)%andb_prop & H3)%andb_prop & H4)%andb_prop & H5%Z.ltb_lt)%andb_prop.
  rewrite forallb_forall in H3. set (Q := product qs) in *.
  assert (Big : forall d, 1 < d -> (d | n) -> Q < d).
  { intros d Hd Dd. destruct (prime_factor d Hd) as (r & Pr & Dr). pose proof (Z.prime_ge_2 r Pr).
    assert (D : (Q | r - 1)).
    { apply product_divides; [exact H4 | exact Hp|]. intros q Hq. apply (factor_divides n a); auto.
      - now apply (proj1 (Forall_forall _ qs)) with (x := q) in Hp.
      - now transitivity d. }
    apply Z.divide_pos_le in D, Dr; lia. }
  assert (HQ : 0 <= Q). { unfold Q. clear - Hp. induction Hp as [|q qs Pq _ IH]; cbn; [lia|]. pose proof (Z.prime_ge_2 q Pq). fold (product qs). nia. }
  split; [exact H1|]. intros d Hd Dd. pose proof (Big d ltac:(lia) Dd) as B1. destruct Dd as [e He].
  assert (E0 : 0 < e) by nia. assert (E1 : e <> 1) by (intros ->; lia).
  pose proof (Big e ltac:(lia) ltac:(exists d; lia)) as B2. nia.
Qed.

Lemma check_sound lines : forall proved, Forall Z.prime proved -> check proved lines = true ->
  Forall Z.prime (map (fun l => fst (fst l)) lines).
Proof.
  induction lines as [|[[n a] qs] lines IH]; intros proved Hp H; [constructor|]. cbn in H. apply andb_prop in H as [H1 H2].
  assert (Pn : Z.prime n).
  { destruct qs as [|q qs]; [now apply trial_sound|]. apply andb_prop in H1 as [H1 H3]. refine (pocklington_sound n a (q :: qs) _ H3).
    apply Forall_forall. intros x Hx. rewrite forallb_forall in H1. apply H1, existsb_exists in Hx as (y & Hy & ->%Z.eqb_eq).
    now apply (proj1 (Forall_forall _ _) Hp). }
  cbn [map fst]. constructor; [exact Pn|]. apply (IH (n :: proved)); [now constructor | exact H2].
Qed.

(** ** The prime *)

Definition p256 : Z := 2 ^ 256 - 2 ^ 224 + 2 ^ 192 + 2 ^ 96 - 1.

Definition p256_certificate : list (Z * Z * list Z) := [
  (704251, 0, []);
  (78283, 0, []);
  (46076956964474543, 2, [704251; 78283]);
  (3677, 0, []);
  (197, 0, []);
  (66417393611, 2, [3677; 197]);
  (11290956913871, 2, [66417393611]);
  (774023187263532362759620327192479577272145303, 2, [46076956964474543; 11290956913871]);
  (835945042244614951780389953367877943453916927241, 2, [774023187263532362759620327192479577272145303]);
  (p256, 2, [835945042244614951780389953367877943453916927241])].

Lemma certified n lines : check [] lines = true -> fst (fst (last lines (2, 0, []))) = n -> lines <> [] -> Z.prime n.
Proof.
  intros H <- Hn. apply (check_sound lines [] (Forall_nil _)) in H. rewrite Forall_map, Forall_forall in H. apply (H (last lines (2, 0, []))).
  rewrite (app_removelast_last (2, 0, []) Hn) at 2. apply in_or_app. right. now left.
Qed.

Lemma p256_prime : Z.prime p256.
Proof. apply (certified _ p256_certificate); [vm_compute; reflexivity | reflexivity | discriminate]. Qed.
