(* ===== verification/KeyExchange.v ===== *)
(** * From the key exchange to the handshake secrets

    The composition of the conversion of curve points ([mta/ectf.cpp]) with
    the handshake circuit ([ssl/ThreePartyHandshake.cpp]): the verifier and
    the prover start from their points and end with halves of the secrets
    that RFC 8446 derives from the sum of the points. *)

From Stdlib Require Import ZArith Zmod String.
From S2P Require Import Prelude Block128 FieldCode F2128MtA F2128Claims Messaging Util GHash Arrays Sha256 CircuitWires CircuitHkdf CircuitKeys KeyDerive PrimeMtA PrimeShares Ectf NistPrimes.
From Stdlib Require Import List.
Import ListNotations ByteString BigNum MtA ECtF KeyDerivation CircuitSynthesis KeyCircuits.
#[local] Abbreviation length := List.length.
Local Open Scope N_scope.

Lemma p_size n p : N.to_nat (BN_num_bytes p) = n -> (n <= 48)%nat -> p < 2 ^ 521.
Proof.
  intros E Hn. eapply N.lt_le_trans; [apply N.size_gt|]. apply N.pow_le_mono_r; [discriminate|].
  unfold BN_num_bytes, BN_num_bits in E. pose proof (N.div_mod (N.size p + 7) 8). pose proof (N.mod_lt (N.size p + 7) 8). lia.
Qed.

(** C7: the parties start from two points with different x coordinates, of a
    curve whose field has a prime order of 32 or 48 bytes, and from shares of
    the PSK; the values that blind the conversion do not cancel.  The conversion gives each an additive share of the x coordinate
    of the sum of the points, and the handshake circuit, run on these shares,
    leaves them with the halves of the handshake secret of RFC 8446 for this
    x coordinate, of both handshake traffic secrets, of the derived secret and
    of the master secret, and both with the server's finished key and IV.
    Both also keep the same value as their share of the server's handshake
    key: the key under the prover's mask. *)
Theorem handshake_secrets_from_points {ot : F2128_MTA.OTChannel} {ok : F2128_MTA.OTCorrect}
    {inv : Inverse} {invok : InverseOk inv} {curve : CurveField}
    {sc : Sha256Circuit} {sok : Sha256Ok sc} {ma : ModAdder}
    (n : nat) (p : N) {maok : ModAdderOk ma (8 * n) p} curve_id V P tp pA pB h hB mA mB :
  (n = 32 \/ n = 48)%nat -> N.to_nat (BN_num_bytes p) = n ->
  EC_GROUP_get_curve_GFp (Util.get_nid_from_uint16 curve_id) = Some p -> Z.prime (Z.of_N p) ->
  secrets_ok p V -> secrets_ok p P -> tape_of_ok p tp -> ~ collide p V P tp ->
  arr 16 pA -> arr 16 pB -> arr 32 h -> arr 96 mA -> arr 96 mB ->
  exists out_v out_p x oA oB,
  let inA := {| hs_hash := h; hs_key_share := out_p; hs_psk_share := pA |} in
  let inB := {| hs_hash := hB; hs_key_share := out_v; hs_psk_share := pB |} in
  let hs := Schedule.handshake_secret (pA ++ pB) (SHA2.be_bytes n x) in
  let shts := Schedule.derive_secret hs "s hs traffic" h in
  let C := ProduceCombinedCircuit (8 * n) p in
  let size := 8 * N.of_nat n in
    ectf V P curve_id tp = Some (out_v, out_p) /\
    x < p /\ chord p (coord (x_secret V)) (coord (y_secret V)) (coord (x_secret P)) (coord (y_secret P)) x /\
    run_handshake_circuit (with_bob size C 220 (pack_handshake true inB mB)) false inA mA = Some oA /\
    run_handshake_circuit (with_alice size C 220 (pack_handshake false inA mA)) true inB mB = Some oB /\
    dHE_share oA ++ dHE_share oB = hs /\
    CHTS_share oA ++ CHTS_share oB = Schedule.derive_secret hs "c hs traffic" h /\
    SHTS_share oA ++ SHTS_share oB = shts /\
    dHS_share oA ++ dHS_share oB = Schedule.derived hs /\
    MS_share oA ++ MS_share oB = Schedule.master_secret hs /\
    fk_s oA = Schedule.finished_key shts /\ fk_s oB = Schedule.finished_key shts /\
    hs_iv oA = Schedule.traffic_iv shts /\ hs_iv oB = Schedule.traffic_iv shts /\
    hs_server_key_share oA = MaskConstants.xor_bytes (sub 80 16 mA) (Schedule.traffic_key shts) /\
    hs_server_key_share oB = hs_server_key_share oA.
Proof.
  intros Hn Hb Hc Hprime HV HP Ht NC HpA HpB Hh HmA HmB.
  pose proof (p_size n p Hb ltac:(lia)) as Hsmall. pose proof (p_pos p Hprime) as Hp.
  destruct (ectf_succeeds curve_id p V P tp Hc Hprime Hsmall HV HP Ht NC) as (ov & op & E & Av & Ap & Lv & Lp & Hx).
  rewrite Hb in Av, Ap.
  destruct (handshake_secrets_joined n p pA pB h hB mA mB op ov Hn HpA HpB Hh HmA HmB Ap Av Lp Lv) as (oA & oB & H).
  exists ov, op, ((coord ov + coord op) mod p), oA, oB. cbv zeta. split; [exact E|]. split; [apply N.mod_lt; lia|].
  split; [exact Hx|]. rewrite (N.add_comm (coord ov)). exact H.
Qed.

(** ** P-256 *)

Definition nist_field : CurveField := fun nid => if nid =? Util.NID_X9_62_prime256v1 then Some P256 else None.

Definition plain_tape (q : N) : MtaTape :=
  {| of_sender := repeat 2 (entries q);
     of_receiver := {| draw_v := repeat 3 (entries q); draw_t := repeat 1 (entries q); draw_pos := 11; draw_sigma := 5 |} |}.

Lemma plain_tape_ok q : 5 < q -> mta_ok q (plain_tape q).
Proof.
  intros Hq. repeat split; cbn [plain_tape of_sender of_receiver draw_v draw_t draw_sigma]; rewrite ?repeat_length; try reflexivity.
  - apply Forall_forall. intros x Hx%repeat_spec. subst. lia.
  - exact Hq.
Qed.

Definition tape256 : Tape :=
  {| draw_rho := (3, 2); draw_inversion := (plain_tape P256, plain_tape P256);
     draw_lambda := (plain_tape P256, plain_tape P256); draw_gamma := plain_tape P256 |}.

Definition point (x y : N) : Secrets := {| x_secret := SHA2.be_bytes 32 x; y_secret := SHA2.be_bytes 32 y |}.

Lemma handshake_secrets_from_points_witness :
  exists out_v out_p x oA oB,
    @ectf F2128Claims.ideal_ot toy_inverse nist_field (point 1 2) (point 3 1) 23 tape256 = Some (out_v, out_p) /\
    chord P256 1 2 3 1 x /\
    run_handshake_circuit
      (with_bob 256 (ProduceCombinedCircuit (sc := reference_sha) (ma := reference_adder 256) 256 P256) 220
        (pack_handshake true {| hs_hash := []; hs_key_share := out_v; hs_psk_share := repeat 2 16 |} (repeat 5 96)))
      false {| hs_hash := repeat 3 32; hs_key_share := out_p; hs_psk_share := repeat 1 16 |} (repeat 4 96) = Some oA /\
    dHE_share oA ++ dHE_share oB = Schedule.handshake_secret (repeat 1 16 ++ repeat 2 16) (SHA2.be_bytes 32 x).
Proof.
  assert (T : mta_ok P256 (plain_tape P256)) by now apply plain_tape_ok.
  destruct (handshake_secrets_from_points (ot := F2128Claims.ideal_ot) (ok := F2128Claims.ideal_ot_correct)
    (inv := toy_inverse) (invok := toy_inverse_ok) (curve := nist_field) (sc := reference_sha) (ma := reference_adder 256) 32 P256
    (maok := reference_adds 256 P256 eq_refl) 23 (point 1 2) (point 3 1) tape256
    (repeat 1 16) (repeat 2 16) (repeat 3 32) [] (repeat 4 96) (repeat 5 96)
    (or_introl eq_refl) eq_refl eq_refl p256_prime
    ltac:(repeat split; discriminate || reflexivity) ltac:(repeat split; discriminate || reflexivity)
    (conj (conj T T) (conj (conj T T) T)) ltac:(intros [C|C]; vm_compute in C; discriminate)
    (arr_const 16 1 eq_refl) (arr_const 16 2 eq_refl) (arr_const 32 3 eq_refl) (arr_const 96 4 eq_refl) (arr_const 96 5 eq_refl))
    as (ov & op & x & oA & oB & E & _ & Hx & EA & _ & H & _).
  exists ov, op, x, oA, oB. exact (conj E (conj Hx (conj EA H))).
Defined.
