(* ===== verification/BlockMap.v ===== *)
(** * From keystream blocks to counters ([ssl/ThreePartyHandshake.hpp], [SurfBlockMap])

    Both parties number the 16-byte blocks of the captured records and derive
    the AES-CTR input of each block from the number.  The map is shown to be
    total on the captured traffic and free of collisions, so no counter block
    is used twice. *)

From S2P Require Import Prelude Messaging.

Local Open Scope N_scope.

Module SurfBlockMap.

Record RecordDims := { seq : N; ct_len : N }.

(** Byte [i] of the output: the nonce, then the big-endian counter. *)
Definition ctr_block (static_iv : list N) (seq counter : N) : list N :=
  let out := repeat 0 16 in
  let out := fold_left (fun out i => upd (11 - i) (wrap 8 (N.shiftr seq (8 * N.of_nat i))) out)
               (List.seq 0 8) out in
  let out := fold_left (fun out i => upd i (out.[i] ⊕ static_iv.[i]) out) (List.seq 0 12) out in
  let out := upd 12 (wrap 8 (N.shiftr counter 24)) out in
  let out := upd 13 (wrap 8 (N.shiftr counter 16)) out in
  let out := upd 14 (wrap 8 (N.shiftr counter 8)) out in
  upd 15 (wrap 8 counter) out.

Definition record_blocks (r : RecordDims) : N := (ct_len r + 15) / 16.

(** The loop of [resolve]; [acc] stays below [2^64] for any vector that fits
    in memory. *)
Fixpoint resolve_from (recs : list RecordDims) (acc index : N) : option (N * N) :=
  match recs with
  | [] => None
  | r :: recs =>
      let n := record_blocks r in
      if index <? acc + n
      then Some (seq r, wrap 32 (wrap 32 (index - acc) + 2))
      else resolve_from recs (acc + n) index
  end.

Definition resolve (recs : list RecordDims) (index : N) : option (N * N) :=
  resolve_from recs 0 index.

Definition total_blocks (recs : list RecordDims) : N :=
  fold_left (fun n r => n + record_blocks r) recs 0.

(** The C++ types of the fields. *)
Definition dims_ok (r : RecordDims) : Prop := seq r < 2 ^ 64 /\ ct_len r < 2 ^ 32.

End SurfBlockMap.
Import SurfBlockMap.

(** ** Counter blocks *)

Lemma ctr_block_eq iv seq counter :
  ctr_block iv seq counter =
  [0 ⊕ iv.[0]; 0 ⊕ iv.[1]; 0 ⊕ iv.[2]; 0 ⊕ iv.[3];
   wrap 8 (N.shiftr seq 56) ⊕ iv.[4]; wrap 8 (N.shiftr seq 48) ⊕ iv.[5];
   wrap 8 (N.shiftr seq 40) ⊕ iv.[6]; wrap 8 (N.shiftr seq 32) ⊕ iv.[7];
   wrap 8 (N.shiftr seq 24) ⊕ iv.[8]; wrap 8 (N.shiftr seq 16) ⊕ iv.[9];
   wrap 8 (N.shiftr seq 8) ⊕ iv.[10]; wrap 8 (N.shiftr seq 0) ⊕ iv.[11];
   wrap 8 (N.shiftr counter 24); wrap 8 (N.shiftr counter 16);
   wrap 8 (N.shiftr counter 8); wrap 8 counter].
Proof. reflexivity. Qed.

Lemma lxor_inj_r a b c : a ⊕ c = b ⊕ c -> a = b.
Proof.
  intros E. apply (f_equal (fun x => x ⊕ c)) in E.
  now rewrite !N.lxor_assoc, N.lxor_nilpotent, !N.lxor_0_r in E.
Qed.

(** Two numbers with the same bytes below bit [8 n] agree there. *)
Lemma bytes_inj (n : nat) a b :
  (forall k, (k < n)%nat ->
     wrap 8 (N.shiftr a (8 * N.of_nat k)) = wrap 8 (N.shiftr b (8 * N.of_nat k))) ->
  forall i, i < 8 * N.of_nat n -> N.testbit a i = N.testbit b i.
Proof.
  intros H i Hi. pose proof (N.div_mod i 8 ltac:(lia)) as E.
  pose proof (N.mod_lt i 8 ltac:(lia)) as Hr.
  set (q := i / 8) in *. set (r := i mod 8) in *. clearbody q r.
  specialize (H (N.to_nat q)). rewrite N2Nat.id in H.
  assert (Hq : (N.to_nat q < n)%nat) by lia. specialize (H Hq).
  apply (f_equal (fun x => N.testbit x r)) in H. rewrite !wrap_spec, !N.shiftr_spec' in H.
  rewrite (proj2 (N.ltb_lt r 8) Hr), !andb_true_r in H.
  now replace i with (r + 8 * q) by lia.
Qed.

Lemma eq_of_bytes (n : nat) a b :
  a < 2 ^ (8 * N.of_nat n) -> b < 2 ^ (8 * N.of_nat n) ->
  (forall k, (k < n)%nat ->
     wrap 8 (N.shiftr a (8 * N.of_nat k)) = wrap 8 (N.shiftr b (8 * N.of_nat k))) -> a = b.
Proof.
  intros Ha Hb H. apply N.bits_inj. intros i.
  destruct (N.lt_ge_cases i (8 * N.of_nat n)) as [Hi|Hi].
  - now apply (bytes_inj n).
  - now rewrite (testbit_high a _ i Ha Hi), (testbit_high b _ i Hb Hi).
Qed.

Lemma ctr_block_inj iv seq1 c1 seq2 c2 :
  seq1 < 2 ^ 64 -> seq2 < 2 ^ 64 -> c1 < 2 ^ 32 -> c2 < 2 ^ 32 ->
  ctr_block iv seq1 c1 = ctr_block iv seq2 c2 -> seq1 = seq2 /\ c1 = c2.
Proof.
  intros Hs1 Hs2 Hc1 Hc2 E.
  assert (B : forall i, (ctr_block iv seq1 c1).[i] = (ctr_block iv seq2 c2).[i]) by now rewrite E.
  rewrite !ctr_block_eq in B. split.
  - apply (eq_of_bytes 8); [assumption..|]. intros k Hk.
    apply (lxor_inj_r _ _ iv.[11 - k]).
    specialize (B (11 - k)%nat). do 8 (destruct k as [|k]; [exact B|]). lia.
  - apply (eq_of_bytes 4); [assumption..|]. intros k Hk. specialize (B (15 - k)%nat).
    destruct k as [|k]; [now rewrite !N.shiftr_0_r|].
    do 3 (destruct k as [|k]; [exact B|]). lia.
Qed.

(** ** Totality and injectivity of the map *)

Lemma total_blocks_acc recs n :
  fold_left (fun n r => n + record_blocks r) recs n = n + total_blocks recs.
Proof.
  unfold total_blocks. revert n. induction recs as [|r recs IH]; intros n; cbn; [lia|].
  rewrite IH, (IH (record_blocks r)). lia.
Qed.

Lemma total_blocks_cons r recs : total_blocks (r :: recs) = record_blocks r + total_blocks recs.
Proof. unfold total_blocks at 1. cbn. now rewrite total_blocks_acc. Qed.

Lemma resolve_from_some recs acc index :
  acc <= index ->
  (exists sc, resolve_from recs acc index = Some sc) <-> index < acc + total_blocks recs.
Proof.
  revert acc. induction recs as [|r recs IH]; intros acc Hi.
  - split; [intros [sc E]; discriminate | unfold total_blocks; cbn; lia].
  - cbn [resolve_from]. rewrite total_blocks_cons.
    destruct (N.ltb_spec index (acc + record_blocks r)) as [Hl|Hl].
    + split; [intros _; lia | eauto].
    + rewrite IH by lia. lia.
Qed.

Lemma record_blocks_lt r : dims_ok r -> record_blocks r <= 2 ^ 28.
Proof.
  intros [_ H]. unfold record_blocks. apply N.lt_succ_r, N.Div0.div_lt_upper_bound.
  change (2 ^ 32) with 4294967296 in H. change (2 ^ 28) with 268435456. lia.
Qed.

Lemma counter_value r k :
  dims_ok r -> k < record_blocks r -> wrap 32 (wrap 32 k + 2) = k + 2.
Proof.
  intros Hr Hk. apply record_blocks_lt in Hr. change (2 ^ 28) with 268435456 in Hr.
  rewrite !wrap_small; change (2 ^ 32) with 4294967296; try lia.
  rewrite wrap_small; change (2 ^ 32) with 4294967296; lia.
Qed.

(** Where an index falls: the record, and the offset in it. *)
Lemma resolve_from_spec recs acc index s c :
  Forall dims_ok recs -> acc <= index -> resolve_from recs acc index = Some (s, c) ->
  exists before r after,
    recs = before ++ r :: after /\ s = seq r /\
    acc + total_blocks before <= index /\
    c = index - (acc + total_blocks before) + 2 /\
    index - (acc + total_blocks before) < record_blocks r.
Proof.
  revert acc. induction recs as [|r recs IH]; intros acc Hok Hi E; [discriminate|].
  inversion Hok as [|? ? Hr Hrs]; subst. cbn [resolve_from] in E.
  destruct (N.ltb_spec index (acc + record_blocks r)) as [Hl|Hl].
  - apply some_inj in E. apply pair_equal_spec in E as [<- <-].
    exists [], r, recs. rewrite (counter_value r) by (assumption || lia).
    unfold total_blocks; cbn. repeat split; lia.
  - destruct (IH _ Hrs Hl E) as (before & r' & after & -> & -> & H1 & H2 & H3).
    exists (r :: before), r', after. rewrite total_blocks_cons. repeat split; lia.
Qed.

Lemma app_split_eq {A} (x y : list A) a b u v :
  x ++ a :: u = y ++ b :: v -> length x = length y -> x = y /\ a = b.
Proof.
  revert y. induction x as [|h x IH]; intros [|k y] E Hl; try discriminate.
  - now injection E as -> ->.
  - injection E as -> E. injection Hl as Hl. destruct (IH y E Hl) as [-> ->]. auto.
Qed.

(** In a list without repeated sequence numbers, a sequence number fixes the
    position of its record. *)
Lemma nodup_split recs x y a b u v :
  NoDup (map seq recs) -> recs = x ++ a :: u -> recs = y ++ b :: v -> seq a = seq b ->
  x = y /\ a = b.
Proof.
  intros Hn Ex Ey Hs. apply (app_split_eq x y a b u v); [now rewrite <- Ex|].
  assert (P : forall z c w, recs = z ++ c :: w ->
            (length z < length (map seq recs))%nat /\ nth (length z) (map seq recs) 0 = seq c).
  { intros z c w ->. rewrite length_map, length_app, map_app, app_nth2; rewrite length_map; [|lia].
    rewrite Nat.sub_diag. cbn. split; [lia | reflexivity]. }
  destruct (P _ _ _ Ex) as [Lx Nx], (P _ _ _ Ey) as [Ly Ny].
  rewrite NoDup_nth in Hn. apply (Hn (length x) (length y)); [assumption.. | now rewrite Nx, Ny].
Qed.

Lemma resolve_inj recs i j s c :
  Forall dims_ok recs -> NoDup (map seq recs) ->
  resolve recs i = Some (s, c) -> resolve recs j = Some (s, c) -> i = j.
Proof.
  intros Hok Hn Ei Ej. unfold resolve in *.
  apply resolve_from_spec in Ei as (b1 & r1 & a1 & E1 & -> & L1 & C1 & _); [|assumption | lia].
  apply resolve_from_spec in Ej as (b2 & r2 & a2 & E2 & S2 & L2 & C2 & _); [|assumption | lia].
  destruct (nodup_split recs b1 b2 r1 r2 a1 a2 Hn E1 E2 S2) as [-> ->]. lia.
Qed.

Lemma resolve_range recs i s c :
  Forall dims_ok recs -> resolve recs i = Some (s, c) ->
  s < 2 ^ 64 /\ 2 <= c < 2 ^ 31 /\ In s (map seq recs).
Proof.
  intros Hok E. unfold resolve in E.
  apply resolve_from_spec in E as (b & r & a & -> & -> & L & C & H); [|assumption | lia].
  apply Forall_app in Hok as [_ Hok]. inversion Hok as [|? ? Hr _]; subst.
  pose proof (record_blocks_lt r Hr) as Hb. change (2 ^ 28) with 268435456 in Hb.
  change (2 ^ 31) with 2147483648. split; [apply Hr | split; [lia|]].
  rewrite map_app. apply in_or_app. right. now left.
Qed.

(** [resolve] succeeds exactly on the indices below [total_blocks]. *)
Theorem resolve_total (recs : list RecordDims) (index : N) :
  (exists sc, resolve recs index = Some sc) <-> index < total_blocks recs.
Proof. unfold resolve. rewrite resolve_from_some; [now rewrite N.add_0_l | lia]. Qed.

(** When the records have distinct sequence numbers, different block
    indices get different AES-CTR inputs under one IV, and none of them is
    the block [J0] (counter 1) of any record, which masks the tag. *)
Theorem counter_blocks_distinct (recs : list RecordDims) (iv : list N)
    (i j s c s' c' seq0 : N) :
  Forall dims_ok recs -> NoDup (map seq recs) -> seq0 < 2 ^ 64 ->
  resolve recs i = Some (s, c) -> resolve recs j = Some (s', c') ->
  (ctr_block iv s c = ctr_block iv s' c' -> i = j) /\
  ctr_block iv s c <> ctr_block iv seq0 1.
Proof.
  intros Hok Hn H0 Ei Ej.
  destruct (resolve_range recs i s c Hok Ei) as (Hs & [Hc1 Hc2] & _).
  destruct (resolve_range recs j s' c' Hok Ej) as (Hs' & [Hc1' Hc2'] & _).
  change (2 ^ 31) with 2147483648 in *.
  split; intros E; apply ctr_block_inj in E as [-> ->]; try assumption;
    try (change (2 ^ 32) with 4294967296; lia); try lia.
  now apply (resolve_inj recs i j s' c').
Qed.

Lemma counter_blocks_distinct_witness :
  let recs := [{| seq := 0; ct_len := 40 |}; {| seq := 1; ct_len := 17 |}] in
  let iv := repeat 7 12 in
  (ctr_block iv 0 4 = ctr_block iv 1 2 -> 2 = 3) /\ ctr_block iv 0 4 <> ctr_block iv 1 1.
Proof.
  apply (counter_blocks_distinct [{| seq := 0; ct_len := 40 |}; {| seq := 1; ct_len := 17 |}]
           (repeat 7 12) 2 3 0 4 1 2 1).
  - repeat constructor.
  - repeat constructor; cbn; intuition discriminate.
  - reflexivity.
  - reflexivity.
  - reflexivity.
Defined.
