(* ===== verification/KeyShare.v ===== *)
(** * Additive key shares ([nodes/KeyShare.hpp], [nodes/KeyShare.cpp])

    A key share holds one elliptic-curve key pair of the verifier.  From the
    prover's public key it makes the sum of the two public keys, which is what
    the origin server sees.  BoringSSL's key exchange and curve arithmetic are
    the operations of [KeyLib]. *)

From S2P Require Import Prelude Messaging Util.

Import Util.
Local Open Scope N_scope.

(** [bssl::SSLKeyShare::Create] (the key it will draw is the first argument)
    and [EC_GROUP_new_by_curve_name]. *)
Class KeyLib := {
  #[global] kl_share :: SSLKeyShare;
  SSLKeyShare_Create : N -> N -> option key_share;
  EC_GROUP_new_by_curve_name : N -> option ECGroup }.

Module KeyShare.

Definition SSL_CURVE_X25519 : N := 29.
Definition SSL_GROUP_X25519_MLKEM768 : N := 0x11ec.
Definition SSL_GROUP_X25519_KYBER768_DRAFT00 : N := 0x6399.

Section Ops.
Context `{KeyLib}.

Record t := mk {
  additive_share : list N;
  share_public_key : list N;
  share : option key_share;
  out_secret : list N;
  out_other_secret : list N }.

Definition empty : t := mk [] [] None [] [].

(** [get_group_id]: 0 without a share. *)
Definition get_group_id (ks : t) : N :=
  match share ks with Some s => GroupID s | None => 0 end.

Definition get_public_key (ks : t) : list N := share_public_key ks.
Definition get_additive_share (ks : t) : list N := additive_share ks.
Definition get_x_secret (ks : t) : list N := out_secret ks.
Definition get_y_secret (ks : t) : list N := out_other_secret ks.

(** [create_new_public_key]: the object afterwards and the result; the share
    is replaced even when the rest fails. *)
Definition create_new_public_key (draw curve_id : N) (ks : t) : t * bool :=
  if (curve_id =? SSL_CURVE_X25519) || (curve_id =? SSL_GROUP_X25519_MLKEM768)
     || (curve_id =? SSL_GROUP_X25519_KYBER768_DRAFT00)
  then (ks, false)
  else
    let ks := mk (additive_share ks) (share_public_key ks) (SSLKeyShare_Create draw curve_id)
                 (out_secret ks) (out_other_secret ks) in
    match share ks with
    | None => (ks, false)
    | Some s =>
        match generate_public_key s with
        | None => (ks, false)
        | Some (s, pk) =>
            (mk (additive_share ks) pk (Some s) (out_secret ks) (out_other_secret ks), true)
        end
    end.

(** The computation after the public key: the sum of the two keys, framed. *)
Definition add_peer_key (curve_id : N) (peer_key : list N) (ks : t) : option (list N) :=
  match EC_GROUP_new_by_curve_name (get_nid_from_uint16 (get_group_id ks)) with
  | None => None
  | Some group =>
      match peer_key with
      | [] => None
      | b :: _ =>
          if negb (b =? POINT_CONVERSION_UNCOMPRESSED) then None
          else
            match EC_POINT_oct2point peer_key with
            | None => None
            | Some peer_point =>
                match CBBToECPoint (share_public_key ks) with
                | None => None
                | Some (our_curve_id, our_pk) =>
                    if negb (our_curve_id =? curve_id) then None
                    else
                      match EC_POINT_add our_pk peer_point with
                      | None => None
                      | Some result => ECPointToCBB our_curve_id result
                      end
                end
            end
      end
  end.

Definition create_new_share (draw curve_id : N) (peer_key : list N) (ks : t) : t * bool :=
  let '(ks, ok) := create_new_public_key draw curve_id ks in
  if negb ok then (ks, false)
  else
    match add_peer_key curve_id peer_key ks with
    | None => (ks, false)
    | Some bytes =>
        (mk bytes (share_public_key ks) (share ks) (out_secret ks) (out_other_secret ks), true)
    end.

(** [finish]: both coordinates of the shared point. *)
Definition finish (inp : list N) (ks : t) : t * bool :=
  match share ks with
  | None => (ks, false)
  | Some s =>
      match Decap s inp with
      | inl (x, y) => (mk (additive_share ks) (share_public_key ks) (share ks) x y, true)
      | inr _ => (ks, false)
      end
  end.

End Ops.
End KeyShare.

(** ** What a successful share is *)

Section Shares.
Context `{KeyLib}.

Lemma create_new_public_key_ok draw curve_id ks ks' :
  KeyShare.create_new_public_key draw curve_id ks = (ks', true) ->
  curve_id <> KeyShare.SSL_CURVE_X25519 /\
  exists s s' pk, SSLKeyShare_Create draw curve_id = Some s /\
    generate_public_key s = Some (s', pk) /\
    KeyShare.share ks' = Some s' /\ KeyShare.share_public_key ks' = pk.
Proof.
  unfold KeyShare.create_new_public_key. destruct (_ || _ || _) eqn:E; [intros [=]|].
  cbn [KeyShare.share]. destruct (SSLKeyShare_Create draw curve_id) as [s|]; [|intros [=]].
  destruct (generate_public_key s) as [[s' pk]|] eqn:G; [|intros [=]].
  intros [= <-]. split; [|now exists s, s', pk].
  intros ->. discriminate E.
Qed.

(** The bytes a share sends to the prover decode, in the curve that was asked
    for, to the sum of the two public keys. *)
Lemma create_new_share_ok draw curve_id peer_key ks ks' :
  curve_id < 2 ^ 16 ->
  (forall nid group, EC_GROUP_new_by_curve_name nid = Some group -> @ECGroupLaws group) ->
  KeyShare.create_new_share draw curve_id peer_key ks = (ks', true) ->
  exists (group : ECGroup) (our_pk peer result : ec_point),
    CBBToECPoint (KeyShare.share_public_key ks') = Some (curve_id, our_pk) /\
    EC_POINT_oct2point peer_key = Some peer /\
    EC_POINT_add our_pk peer = Some result /\
    CBBToECPoint (KeyShare.additive_share ks') = Some (curve_id, result).
Proof.
  intros Hc Hlaws. unfold KeyShare.create_new_share.
  destruct (KeyShare.create_new_public_key draw curve_id ks) as [ks1 ok] eqn:Ep.
  destruct ok; cbn [negb]; [|intros [=]].
  destruct (KeyShare.add_peer_key curve_id peer_key ks1) as [bytes|] eqn:Ea; [|intros [=]].
  intros [= <-]. cbn [KeyShare.share_public_key KeyShare.additive_share].
  unfold KeyShare.add_peer_key in Ea.
  destruct (EC_GROUP_new_by_curve_name _) as [group|] eqn:Eg; [|discriminate].
  destruct peer_key as [|b r]; [discriminate|].
  destruct (negb (b =? _)); [discriminate|].
  destruct (EC_POINT_oct2point (b :: r)) as [peer|] eqn:Eo; [|discriminate].
  destruct (CBBToECPoint (KeyShare.share_public_key ks1)) as [[cid our]|] eqn:Eu; [|discriminate].
  destruct (N.eqb_spec cid curve_id) as [->|]; cbn [negb] in Ea; [|discriminate].
  destruct (EC_POINT_add our peer) as [result|] eqn:Es; [|discriminate].
  exists group, our, peer, result. split; [exact Eu | split; [exact Eo | split; [exact Es|]]].
  destruct (@point_roundtrip group (Hlaws _ _ Eg) curve_id result Hc) as (msg & E1 & E2).
  rewrite Ea in E1. apply some_inj in E1 as ->. exact E2.
Qed.

End Shares.

(** When [create_new_share] succeeds, the share's public key and its
    additive share are well-formed points of the requested curve, and the
    additive share is the sum of the share's public key and the peer's. *)
Theorem create_new_share_sum (K : KeyLib) (draw curve_id : N) (peer_key : list N) (ks ks' : KeyShare.t) :
  curve_id < 2 ^ 16 ->
  (forall nid group, EC_GROUP_new_by_curve_name nid = Some group -> @ECGroupLaws group) ->
  KeyShare.create_new_share draw curve_id peer_key ks = (ks', true) ->
  exists (group : ECGroup) (our_pk peer result : ec_point),
    CBBToECPoint (KeyShare.share_public_key ks') = Some (curve_id, our_pk) /\
    EC_POINT_oct2point peer_key = Some peer /\
    EC_POINT_add our_pk peer = Some result /\
    CBBToECPoint (KeyShare.additive_share ks') = Some (curve_id, result).
Proof. apply create_new_share_ok. Qed.

(** A key exchange over the toy group: the private key is the share. *)
Definition toy_share : SSLKeyShare := {|
  key_share := N * N;
  GroupID := fst;
  Generate ks := Some (ks, [4; snd ks mod 7]);
  Decap ks peer := match peer with [_; p] => inl ([(snd ks * p) mod 7], [0]) | _ => inr 50 end |}.

Definition toy_lib : KeyLib := {|
  kl_share := toy_share;
  SSLKeyShare_Create draw curve := Some (curve, draw);
  EC_GROUP_new_by_curve_name _ := Some Z7 |}.

Lemma create_new_share_sum_witness :
  let ks' := fst (@KeyShare.create_new_share toy_lib 3 23 [4; 6] (@KeyShare.empty toy_lib)) in
  exists (group : ECGroup) (our_pk peer result : @ec_point group),
    CBBToECPoint (KeyShare.share_public_key ks') = Some (23, our_pk) /\
    EC_POINT_oct2point [4; 6] = Some peer /\
    EC_POINT_add our_pk peer = Some result /\
    CBBToECPoint (KeyShare.additive_share ks') = Some (23, result).
Proof.
  apply (@create_new_share_sum toy_lib 3 23 [4; 6] (@KeyShare.empty toy_lib)).
  - reflexivity.
  - intros nid group E. apply some_inj in E as <-. exact Z7_laws.
  - reflexivity.
Defined.
