(* ===== verification/ServerState.v ===== *)
(** * State, environment and effects of the verifier ([nodes/Server.hpp])

    The fields of class [Server], the operations it performs on the outside
    world (the TLS connection to the prover, the two-party circuits, the key
    exchange), and the monad its methods run in.  Timers and printing are left
    out; byte and round counters are kept.

    The world is an arbitrary function from the actions performed so far to
    the reply to the next one, so every theorem holds for every behaviour of
    the prover, the network and the circuits. *)

From S2P Require Import Prelude Messaging Util KeyShare BlockMap.

Local Open Scope N_scope.

(** ** Enumerations *)

Inductive ServerState :=
  | ACCEPT
  | HANDSHAKE
  | HANDSHAKE_DONE
  | CIRCUIT_PREPROC
  | MASK_COMMIT
  | READING_KS
  | MAKING_KS
  | WRITING_KS
  | PSK_BINDER
  | READING_SKS
  | FINISHING_TPH
  | WRITING_HS_RECV
  | ECTF_WAIT
  | ECTF_DONE
  | KS_WAIT
  | KS_DONE
  | CERT_WAIT
  | CERT_RECV
  | DERIVE_TS
  | GCM_SHARE_DERIVE
  | GCM_SHARE_DONE
  | DERIVE_RES
  | RES_DONE
  | DERIVE_PSK
  | PSK_DONE
  | SHUTDOWN
  | DONE
  | SIZE.

Definition state_code (s : ServerState) : N :=
  match s with
  | ACCEPT => 0
  | HANDSHAKE => 1
  | HANDSHAKE_DONE => 2
  | CIRCUIT_PREPROC => 3
  | MASK_COMMIT => 4
  | READING_KS => 5
  | MAKING_KS => 6
  | WRITING_KS => 7
  | PSK_BINDER => 8
  | READING_SKS => 9
  | FINISHING_TPH => 10
  | WRITING_HS_RECV => 11
  | ECTF_WAIT => 12
  | ECTF_DONE => 13
  | KS_WAIT => 14
  | KS_DONE => 15
  | CERT_WAIT => 16
  | CERT_RECV => 17
  | DERIVE_TS => 18
  | GCM_SHARE_DERIVE => 19
  | GCM_SHARE_DONE => 20
  | DERIVE_RES => 21
  | RES_DONE => 22
  | DERIVE_PSK => 23
  | PSK_DONE => 24
  | SHUTDOWN => 25
  | DONE => 26
  | SIZE => 27
  end.

Definition all_states : list ServerState :=
  [ACCEPT; HANDSHAKE; HANDSHAKE_DONE; CIRCUIT_PREPROC; MASK_COMMIT; READING_KS; MAKING_KS; WRITING_KS; PSK_BINDER; READING_SKS; FINISHING_TPH; WRITING_HS_RECV; ECTF_WAIT; ECTF_DONE; KS_WAIT; KS_DONE; CERT_WAIT; CERT_RECV; DERIVE_TS; GCM_SHARE_DERIVE; GCM_SHARE_DONE; DERIVE_RES; RES_DONE; DERIVE_PSK; PSK_DONE; SHUTDOWN; DONE; SIZE].

(** [static_cast<ServerState>]: a code without enumerator is sent to [SIZE]. *)
Definition state_of_code (c : N) : ServerState :=
  match find (fun s => state_code s =? c) all_states with Some s => s | None => SIZE end.

(** [nodes/Events.hpp]: the rows of the counters. *)
Module Events.
Definition ACCEPT : nat := 0.
Definition HANDSHAKE : nat := 1.
Definition HANDSHAKE_DONE : nat := 2.
Definition READING_KS : nat := 3.
Definition MAKING_KS : nat := 4.
Definition WRITING_KS : nat := 5.
Definition READING_SKS : nat := 6.
Definition FINISHING_TPH : nat := 7.
Definition WRITING_HS_RECV : nat := 8.
Definition ECTF_WAIT : nat := 9.
Definition ECTF_DONE : nat := 10.
Definition KS_WAIT : nat := 11.
Definition KS_DONE : nat := 12.
Definition CIRCUIT_PREPROC : nat := 13.
Definition CERT_WAIT : nat := 14.
Definition CERT_WRITE : nat := 15.
Definition DERIVE_TS_WAIT : nat := 16.
Definition DERIVE_TS : nat := 17.
Definition DERIVE_GCM_SHARES : nat := 18.
Definition DERIVE_RES : nat := 19.
Definition SESSION_TICKET : nat := 20.
Definition DERIVE_PSK : nat := 21.
Definition DERIVE_PSK_WAIT : nat := 22.
Definition PSK_BINDER : nat := 23.
Definition MASK_COMMIT : nat := 24.
Definition GCM_VERIFY : nat := 25.
Definition KS_DERIVE : nat := 26.
Definition AES_ENCRYPT : nat := 27.
Definition GCM_TAG : nat := 28.
Definition KS_CIRCUIT : nat := 29.
Definition KEY_COMMIT : nat := 30.
Definition KEY_RELEASE : nat := 31.
Definition ROTATE_KEY : nat := 32.
Definition SIZE : nat := 33.
End Events.

(** The circuits the server holds pointers to. *)
Inductive CircuitId :=
  | HANDSHAKE_A | HANDSHAKE_B | TRAFFIC | GCM_SHARE | RESUMPTION | PSK_1 | PSK_8 | PSK_0
  | BINDER | GCM_VFY | KS_BLOCK | AES_ENC_C | GCM_TAG_C | ROTATE.

Definition CircuitId_eqb (a b : CircuitId) : bool :=
  match a, b with
  | HANDSHAKE_A, HANDSHAKE_A | HANDSHAKE_B, HANDSHAKE_B | TRAFFIC, TRAFFIC
  | GCM_SHARE, GCM_SHARE | RESUMPTION, RESUMPTION | PSK_1, PSK_1 | PSK_8, PSK_8
  | PSK_0, PSK_0 | BINDER, BINDER | GCM_VFY, GCM_VFY | KS_BLOCK, KS_BLOCK
  | AES_ENC_C, AES_ENC_C | GCM_TAG_C, GCM_TAG_C | ROTATE, ROTATE => true
  | _, _ => false
  end.

(** ** Inputs and outputs of the circuits ([ssl/EmpWrapperAG2PC.hpp])

    The fields the verifier supplies, and those of the outputs it uses. *)

Record HandshakeOut := mkHandshakeOut {
  CHTS_share : list N; SHTS_share : list N; MS_share : list N }.

Record TrafficOut := mkTrafficOut {
  client_key_share : list N; client_iv : list N;
  server_key_share : list N; server_iv : list N;
  CATS_share : list N; SATS_share : list N }.

Record RotateOut := { next_share : list N; rot_key_share : list N; rot_iv : list N }.

Inductive CircuitIn :=
  | InHandshake (i : nat) (key_share psk_share : list N)
  | InTraffic (ms_share : list N)
  | InResumption (ms_share : list N)
  | InPsk (c : CircuitId) (rms_share : list N)
  | InBinder (psk_share : list N)
  | InGCMVfy (key iv tag_share server_tag : list N)
  | InGCMVfyCommit (key iv tag_share server_tag d_k : list N)
  | InKSBatch (key d : list N) (ctr : list (list N))
  | InAESEnc (key : list N) (ctr : list (list N))
  | InGCMTag (key_share iv tag_share : list N)
  | InRotate (secret_share : list N).

Definition CircuitOut (i : CircuitIn) : Type :=
  match i with
  | InHandshake _ _ _ => HandshakeOut
  | InTraffic _ => TrafficOut
  | InResumption _ | InPsk _ _ => list N
  | InBinder _ => unit
  | InGCMVfy _ _ _ _ => bool * bool              (* tag_passed, cheated *)
  | InGCMVfyCommit _ _ _ _ _ => bool * bool * bool (* and key_opened *)
  | InKSBatch _ _ _ => bool                      (* ok *)
  | InAESEnc _ _ => bool * list (list N)         (* ok, ct *)
  | InGCMTag _ _ _ => bool                       (* cheated *)
  | InRotate _ => RotateOut
  end.

(** ** Actions on the world and their replies *)

Inductive Action :=
  | ARead (n : N)                  (** [SSL_read], with [SSL_get_error] and [poll] *)
  | APending                       (** [SSL_pending] *)
  | AWrite (bs : list N)           (** [SSL_write] *)
  | AAccept                        (** [TLSSocket::accept] *)
  | AHandshake                     (** [SSL_accept] *)
  | ABuild (c : CircuitId) (with_commit : bool)
  | APreproc (c : CircuitId)
  | ACounter (c : CircuitId)
  | ARoundCounter (c : CircuitId)
  | AIoFailed (c : CircuitId)
  | AKsRemaining
  | ARun (i : CircuitIn)
  | AEctf (x y : list N) (group_id : N)
  | AMakeGCM (key_share : list N)
  | ADraw (curve_id : N)           (** the randomness of a new key *)
  | AShutdown.                     (** [SSL_shutdown] *)

(** What one [SSL_read] comes to. *)
Inductive ReadReply :=
  | Got (bs : list N)
  | Again (poll_ok : bool)         (** [WANT_READ] or [WANT_WRITE] *)
  | Closed.

Definition Reply (a : Action) : Type :=
  match a with
  | ARead _ => ReadReply
  | APending => N
  | AWrite _ => bool               (* all bytes accepted *)
  | AAccept | AHandshake => bool
  | ABuild _ _ => bool             (* not null *)
  | APreproc _ => unit
  | ACounter _ | ARoundCounter _ | AKsRemaining => N
  | AIoFailed _ => bool
  | ARun i => option (CircuitOut i)
  | AEctf _ _ _ => option (list N * N * N)
  | AMakeGCM _ => option (list N * N)
  | ADraw _ => N
  | AShutdown => unit
  end.

(** The world: the reply to an action after a history, newest first. *)
Class World := reply : list Action -> forall a : Action, Reply a.

(** ** The fields of [Server] *)

Section Fields.
Context `{KeyLib}.

Record Conf := mkConf {
  mode : Surf.Mode;
  true_surf : bool;
  retain_ct : bool;
  should_attest : bool }.

(** [key_shares] ... [psk_skipped]: the handshake. *)
Record Hs := mkHs {
  key_shares : list KeyShare.t;
  active_key_share : nat;
  client_public_key : list N;
  additive_share : list N;
  buffer : list N;
  x_secret : list N;
  transcript : list N;
  server_key_comm : list N;
  version : N;
  cipher_suite : N;
  resumed_handshake : bool;
  is_resumption_run : bool;
  psk_skipped : bool }.

(** Secret shares; of the resumption and PSK outputs only the share is used. *)
Record Keys := mkKeys {
  handshake_key_shares : HandshakeOut;
  traffic_key_shares : TrafficOut;
  client_gcm_powers : list N;
  server_gcm_powers : list N;
  RMS_share : list N;
  PSK_share : list N }.

(** The record layer: commitments, verified and encrypted records. *)
Record Att := mkAtt {
  mask_commitment : list N;
  key_commitment : list N;
  key_committed : bool;
  key_released : bool;
  epoch : N;
  attested_ct : list (N * list N);
  encrypted_ct : list (list N);
  encrypt_aad : list N;
  encrypt_ct_len : N;
  encrypted_seqs : list N;
  verified_seqs : list N }.

(** The object; [circuits] lists the pointers that are not null, [log] the
    actions so far. *)
Record Server := mkServer {
  state : ServerState;
  conf : Conf;
  hs : Hs;
  keys : Keys;
  att : Att;
  circuits : list CircuitId;
  bandwidth : list N;
  rounds : list N;
  log : list Action }.

(** *** Updates *)

Definition set_mode (v : Surf.Mode) (r : Conf) : Conf :=
  mkConf v (true_surf r) (retain_ct r) (should_attest r).
Definition set_true_surf (v : bool) (r : Conf) : Conf :=
  mkConf (mode r) v (retain_ct r) (should_attest r).
Definition set_retain_ct (v : bool) (r : Conf) : Conf :=
  mkConf (mode r) (true_surf r) v (should_attest r).
Definition set_should_attest (v : bool) (r : Conf) : Conf :=
  mkConf (mode r) (true_surf r) (retain_ct r) v.

Definition set_key_shares (v : list KeyShare.t) (r : Hs) : Hs :=
  mkHs v (active_key_share r) (client_public_key r) (additive_share r) (buffer r) (x_secret
    r) (transcript r) (server_key_comm r) (version r) (cipher_suite r) (resumed_handshake r)
    (is_resumption_run r) (psk_skipped r).
Definition set_active_key_share (v : nat) (r : Hs) : Hs :=
  mkHs (key_shares r) v (client_public_key r) (additive_share r) (buffer r) (x_secret r)
    (transcript r) (server_key_comm r) (version r) (cipher_suite r) (resumed_handshake r)
    (is_resumption_run r) (psk_skipped r).
Definition set_client_public_key (v : list N) (r : Hs) : Hs :=
  mkHs (key_shares r) (active_key_share r) v (additive_share r) (buffer r) (x_secret r)
    (transcript r) (server_key_comm r) (version r) (cipher_suite r) (resumed_handshake r)
    (is_resumption_run r) (psk_skipped r).
Definition set_additive_share (v : list N) (r : Hs) : Hs :=
  mkHs (key_shares r) (active_key_share r) (client_public_key r) v (buffer r) (x_secret r)
    (transcript r) (server_key_comm r) (version r) (cipher_suite r) (resumed_handshake r)
    (is_resumption_run r) (psk_skipped r).
Definition set_buffer (v : list N) (r : Hs) : Hs :=
  mkHs (key_shares r) (active_key_share r) (client_public_key r) (additive_share r) v
    (x_secret r) (transcript r) (server_key_comm r) (version r) (cipher_suite r)
    (resumed_handshake r) (is_resumption_run r) (psk_skipped r).
Definition set_x_secret (v : list N) (r : Hs) : Hs :=
  mkHs (key_shares r) (active_key_share r) (client_public_key r) (additive_share r) (buffer
    r) v (transcript r) (server_key_comm r) (version r) (cipher_suite r) (resumed_handshake
    r) (is_resumption_run r) (psk_skipped r).
Definition set_transcript (v : list N) (r : Hs) : Hs :=
  mkHs (key_shares r) (active_key_share r) (client_public_key r) (additive_share r) (buffer
    r) (x_secret r) v (server_key_comm r) (version r) (cipher_suite r) (resumed_handshake r)
    (is_resumption_run r) (psk_skipped r).
Definition set_server_key_comm (v : list N) (r : Hs) : Hs :=
  mkHs (key_shares r) (active_key_share r) (client_public_key r) (additive_share r) (buffer
    r) (x_secret r) (transcript r) v (version r) (cipher_suite r) (resumed_handshake r)
    (is_resumption_run r) (psk_skipped r).
Definition set_version (v : N) (r : Hs) : Hs :=
  mkHs (key_shares r) (active_key_share r) (client_public_key r) (additive_share r) (buffer
    r) (x_secret r) (transcript r) (server_key_comm r) v (cipher_suite r) (resumed_handshake
    r) (is_resumption_run r) (psk_skipped r).
Definition set_cipher_suite (v : N) (r : Hs) : Hs :=
  mkHs (key_shares r) (active_key_share r) (client_public_key r) (additive_share r) (buffer
    r) (x_secret r) (transcript r) (server_key_comm r) (version r) v (resumed_handshake r)
    (is_resumption_run r) (psk_skipped r).
Definition set_resumed_handshake (v : bool) (r : Hs) : Hs :=
  mkHs (key_shares r) (active_key_share r) (client_public_key r) (additive_share r) (buffer
    r) (x_secret r) (transcript r) (server_key_comm r) (version r) (cipher_suite r) v
    (is_resumption_run r) (psk_skipped r).
Definition set_is_resumption_run (v : bool) (r : Hs) : Hs :=
  mkHs (key_shares r) (active_key_share r) (client_public_key r) (additive_share r) (buffer
    r) (x_secret r) (transcript r) (server_key_comm r) (version r) (cipher_suite r)
    (resumed_handshake r) v (psk_skipped r).
Definition set_psk_skipped (v : bool) (r : Hs) : Hs :=
  mkHs (key_shares r) (active_key_share r) (client_public_key r) (additive_share r) (buffer
    r) (x_secret r) (transcript r) (server_key_comm r) (version r) (cipher_suite r)
    (resumed_handshake r) (is_resumption_run r) v.

Definition set_handshake_key_shares (v : HandshakeOut) (r : Keys) : Keys :=
  mkKeys v (traffic_key_shares r) (client_gcm_powers r) (server_gcm_powers r) (RMS_share r)
    (PSK_share r).
Definition set_traffic_key_shares (v : TrafficOut) (r : Keys) : Keys :=
  mkKeys (handshake_key_shares r) v (client_gcm_powers r) (server_gcm_powers r) (RMS_share
    r) (PSK_share r).
Definition set_client_gcm_powers (v : list N) (r : Keys) : Keys :=
  mkKeys (handshake_key_shares r) (traffic_key_shares r) v (server_gcm_powers r) (RMS_share
    r) (PSK_share r).
Definition set_server_gcm_powers (v : list N) (r : Keys) : Keys :=
  mkKeys (handshake_key_shares r) (traffic_key_shares r) (client_gcm_powers r) v (RMS_share
    r) (PSK_share r).
Definition set_RMS_share (v : list N) (r : Keys) : Keys :=
  mkKeys (handshake_key_shares r) (traffic_key_shares r) (client_gcm_powers r)
    (server_gcm_powers r) v (PSK_share r).
Definition set_PSK_share (v : list N) (r : Keys) : Keys :=
  mkKeys (handshake_key_shares r) (traffic_key_shares r) (client_gcm_powers r)
    (server_gcm_powers r) (RMS_share r) v.

Definition set_mask_commitment (v : list N) (r : Att) : Att :=
  mkAtt v (key_commitment r) (key_committed r) (key_released r) (epoch r) (attested_ct r)
    (encrypted_ct r) (encrypt_aad r) (encrypt_ct_len r) (encrypted_seqs r) (verified_seqs
    r).
Definition set_key_commitment (v : list N) (r : Att) : Att :=
  mkAtt (mask_commitment r) v (key_committed r) (key_released r) (epoch r) (attested_ct r)
    (encrypted_ct r) (encrypt_aad r) (encrypt_ct_len r) (encrypted_seqs r) (verified_seqs
    r).
Definition set_key_committed (v : bool) (r : Att) : Att :=
  mkAtt (mask_commitment r) (key_commitment r) v (key_released r) (epoch r) (attested_ct r)
    (encrypted_ct r) (encrypt_aad r) (encrypt_ct_len r) (encrypted_seqs r) (verified_seqs
    r).
Definition set_key_released (v : bool) (r : Att) : Att :=
  mkAtt (mask_commitment r) (key_commitment r) (key_committed r) v (epoch r) (attested_ct r)
    (encrypted_ct r) (encrypt_aad r) (encrypt_ct_len r) (encrypted_seqs r) (verified_seqs
    r).
Definition set_epoch (v : N) (r : Att) : Att :=
  mkAtt (mask_commitment r) (key_commitment r) (key_committed r) (key_released r) v
    (attested_ct r) (encrypted_ct r) (encrypt_aad r) (encrypt_ct_len r) (encrypted_seqs r)
    (verified_seqs r).
Definition set_attested_ct (v : list (N * list N)) (r : Att) : Att :=
  mkAtt (mask_commitment r) (key_commitment r) (key_committed r) (key_released r) (epoch r)
    v (encrypted_ct r) (encrypt_aad r) (encrypt_ct_len r) (encrypted_seqs r) (verified_seqs
    r).
Definition set_encrypted_ct (v : list (list N)) (r : Att) : Att :=
  mkAtt (mask_commitment r) (key_commitment r) (key_committed r) (key_released r) (epoch r)
    (attested_ct r) v (encrypt_aad r) (encrypt_ct_len r) (encrypted_seqs r) (verified_seqs
    r).
Definition set_encrypt_aad (v : list N) (r : Att) : Att :=
  mkAtt (mask_commitment r) (key_commitment r) (key_committed r) (key_released r) (epoch r)
    (attested_ct r) (encrypted_ct r) v (encrypt_ct_len r) (encrypted_seqs r) (verified_seqs
    r).
Definition set_encrypt_ct_len (v : N) (r : Att) : Att :=
  mkAtt (mask_commitment r) (key_commitment r) (key_committed r) (key_released r) (epoch r)
    (attested_ct r) (encrypted_ct r) (encrypt_aad r) v (encrypted_seqs r) (verified_seqs r).
Definition set_encrypted_seqs (v : list N) (r : Att) : Att :=
  mkAtt (mask_commitment r) (key_commitment r) (key_committed r) (key_released r) (epoch r)
    (attested_ct r) (encrypted_ct r) (encrypt_aad r) (encrypt_ct_len r) v (verified_seqs r).
Definition set_verified_seqs (v : list N) (r : Att) : Att :=
  mkAtt (mask_commitment r) (key_commitment r) (key_committed r) (key_released r) (epoch r)
    (attested_ct r) (encrypted_ct r) (encrypt_aad r) (encrypt_ct_len r) (encrypted_seqs r)
    v.

Definition set_state (v : ServerState) (r : Server) : Server :=
  mkServer v (conf r) (hs r) (keys r) (att r) (circuits r) (bandwidth r) (rounds r) (log r).
Definition set_conf (v : Conf) (r : Server) : Server :=
  mkServer (state r) v (hs r) (keys r) (att r) (circuits r) (bandwidth r) (rounds r) (log
    r).
Definition set_hs (v : Hs) (r : Server) : Server :=
  mkServer (state r) (conf r) v (keys r) (att r) (circuits r) (bandwidth r) (rounds r) (log
    r).
Definition set_keys (v : Keys) (r : Server) : Server :=
  mkServer (state r) (conf r) (hs r) v (att r) (circuits r) (bandwidth r) (rounds r) (log
    r).
Definition set_att (v : Att) (r : Server) : Server :=
  mkServer (state r) (conf r) (hs r) (keys r) v (circuits r) (bandwidth r) (rounds r) (log
    r).
Definition set_circuits (v : list CircuitId) (r : Server) : Server :=
  mkServer (state r) (conf r) (hs r) (keys r) (att r) v (bandwidth r) (rounds r) (log r).
Definition set_bandwidth (v : list N) (r : Server) : Server :=
  mkServer (state r) (conf r) (hs r) (keys r) (att r) (circuits r) v (rounds r) (log r).
Definition set_rounds (v : list N) (r : Server) : Server :=
  mkServer (state r) (conf r) (hs r) (keys r) (att r) (circuits r) (bandwidth r) v (log r).
Definition set_log (v : list Action) (r : Server) : Server :=
  mkServer (state r) (conf r) (hs r) (keys r) (att r) (circuits r) (bandwidth r) (rounds r)
    v.

End Fields.

