(* ===== verification/ServerIO.v ===== *)
(** * The monad of the server and its I/O helpers ([nodes/Server.cpp], static functions)

    A method runs on the state and ends in one of five ways: it returns, it
    returns false, the process aborts, a null pointer is used, or it is still
    waiting for the peer when the fuel of a blocking loop is used up. *)

From S2P Require Import Prelude Messaging Util KeyShare BlockMap ServerState.

Import ByteString.
Local Open Scope N_scope.

(** Rounds allowed to each loop that waits for the peer. *)
Class Fuel := fuel : nat.

Inductive Outcome (A : Type) :=
  | Done (a : A)
  | Fail            (** [return false] *)
  | Abort           (** [std::abort] *)
  | NullDeref       (** undefined behaviour: a null pointer is dereferenced *)
  | Waiting.        (** not returned yet *)
Arguments Done {A} a.
Arguments Fail {A}.
Arguments Abort {A}.
Arguments NullDeref {A}.
Arguments Waiting {A}.

Section IO.
Context `{KeyLib} {W : World} {F : Fuel}.

(** ** The monad *)

Definition M (A : Type) : Type := Server -> Server * Outcome A.

Definition ret {A} (a : A) : M A := fun s => (s, Done a).

Definition bind {A B} (m : M A) (k : A -> M B) : M B := fun s =>
  match m s with
  | (s, Done a) => k a s
  | (s, Fail) => (s, Fail)
  | (s, Abort) => (s, Abort)
  | (s, NullDeref) => (s, NullDeref)
  | (s, Waiting) => (s, Waiting)
  end.

Definition fail {A} : M A := fun s => (s, Fail).
Definition abort {A} : M A := fun s => (s, Abort).
Definition null_deref {A} : M A := fun s => (s, NullDeref).
Definition waiting {A} : M A := fun s => (s, Waiting).
Definition gets {A} (f : Server -> A) : M A := fun s => (s, Done (f s)).
Definition modify (f : Server -> Server) : M unit := fun s => (f s, Done tt).

(** [if (!b) return false;] *)
Definition require (b : bool) : M unit := if b then ret tt else fail.

(** One action: its reply, and its place in the log. *)
Definition act (a : Action) : M (Reply a) := fun s =>
  (set_log (a :: log s) s, Done (reply (log s) a)).

(** A call whose result the caller tests. *)
Definition try {A} (m : M A) : M (option A) := fun s =>
  match m s with
  | (s, Done a) => (s, Done (Some a))
  | (s, Fail) => (s, Done None)
  | (s, Abort) => (s, Abort)
  | (s, NullDeref) => (s, NullDeref)
  | (s, Waiting) => (s, Waiting)
  end.

End IO.

Declare Scope server_scope.
Delimit Scope server_scope with server.
Notation "x <- m ;; k" := (bind m (fun x => k))
  (at level 61, m at next level, right associativity) : server_scope.
Notation "' p <- m ;; k" := (bind m (fun x => match x with p => k end))
  (at level 61, p pattern, m at next level, right associativity) : server_scope.
Notation "m ;; k" := (bind m (fun _ => k)) (at level 61, right associativity) : server_scope.
Open Scope server_scope.

Module Server.
Section Helpers.
Context `{KeyLib} {W : World} {F : Fuel}.

(** ** State *)

Definition next_state (s : ServerState) : ServerState :=
  match s with
  | DONE => s
  | READING_SKS => FINISHING_TPH
  | _ => state_of_code (wrap 8 (state_code s + 1))
  end.

Definition goto (st : ServerState) : M unit := modify (set_state st).
Definition advance : M unit := st <- gets state ;; goto (next_state st).

(** [should_stop] *)
Definition should_stop (current stop : ServerState) : bool := state_code stop <=? state_code current.

(** Updates of a group of fields. *)
Definition upd_hs (f : Hs -> Hs) : M unit := modify (fun s => set_hs (f (hs s)) s).
Definition upd_keys (f : Keys -> Keys) : M unit := modify (fun s => set_keys (f (keys s)) s).
Definition upd_att (f : Att -> Att) : M unit := modify (fun s => set_att (f (att s)) s).

(** [TRACK_IF_INTERESTED], [TRACK_ROUNDS_IF_INTERESTED]: 64-bit counters. *)
Definition add_row (row : nat) (amount : N) (data : list N) : list N :=
  upd row (wrap 64 (data.[row] + amount)) data.
Definition track (event : nat) (amount : N) : M unit :=
  modify (fun s => set_bandwidth (add_row event amount (bandwidth s)) s).
Definition track_rounds (event : nat) (amount : N) : M unit :=
  modify (fun s => set_rounds (add_row event amount (rounds s)) s).

(** [ActiveTracker::total] *)
Definition tracker_total (data : list N) : N :=
  fold_left (fun sum v => wrap 64 (sum + v)) data 0.

(** Pointers to circuits. *)
Definition has_circuit (c : CircuitId) (s : Server) : bool :=
  existsb (CircuitId_eqb c) (circuits s).
Definition set_circuit (c : CircuitId) (not_null : bool) : M unit :=
  modify (fun s =>
    let others := filter (fun d => negb (CircuitId_eqb c d)) (circuits s) in
    set_circuits (if not_null then c :: others else others) s).

(** [c->...] on a pointer that must not be null. *)
Definition deref (c : CircuitId) : M unit :=
  ok <- gets (has_circuit c) ;; if ok then ret tt else null_deref.

Definition get_counter (c : CircuitId) : M N := deref c ;; act (ACounter c).
Definition get_round_counter (c : CircuitId) : M N := deref c ;; act (ARoundCounter c).

(** The difference of two 64-bit counters. *)
Definition sub64 (a b : N) : N := wrap 64 (a + (2 ^ 64 - wrap 64 b)).

(** [TRACK...(event, c->get_counter() - old_amount)], both counters. *)
Definition track_circuit (event : nat) (c : CircuitId) (old_amount old_rounds : N) : M unit :=
  n <- get_counter c ;; track event (sub64 n old_amount) ;;
  r <- get_round_counter c ;; track_rounds event (sub64 r old_rounds).

(** A call of [run_..._circuit]; [None] is its [false]. *)
Definition run_circuit (i : CircuitIn) : M (CircuitOut i) :=
  r <- act (ARun i) ;; match r with Some o => ret o | None => fail end.

(** ** Reading *)

(** [acc] over the first bytes of [old]. *)
Definition overlay (acc old : list N) : list N := acc ++ skipn (length acc) old.

(** The loop of [read_exact_blocking]; [store] puts the bytes read so far
    into the caller's buffer. *)
Fixpoint read_loop (n : nat) (store : list N -> Server -> Server) (len : N) (acc : list N) : M (list N) :=
  if size acc <? len then
    match n with
    | O => waiting
    | S n =>
        r <- act (ARead (len - size acc)) ;;
        match r with
        | Got bs => modify (store (acc ++ bs)) ;; read_loop n store len (acc ++ bs)
        | Again true => read_loop n store len acc
        | Again false | Closed => fail
        end
    end
  else ret acc.

Definition read_exact_into (store : list N -> Server -> Server) (len : N) : M (list N) :=
  read_loop fuel store len [].

(** [read_exact_blocking] into a local buffer. *)
Definition read_exact_blocking (len : N) : M (list N) := read_exact_into (fun _ s => s) len.

(** Big-endian values, as the code assembles them. *)
Definition be_value (bs : list N) : N :=
  fold_left (fun seq b => N.lor (N.shiftl seq 8) b) bs 0.
Definition u32_of (bs : list N) : N :=
  N.lor (N.lor (N.lor (N.shiftl bs.[0] 24) (N.shiftl bs.[1] 16)) (N.shiftl bs.[2] 8)) bs.[3].
Definition u16_of (bs : list N) : N := N.lor (N.shiftl bs.[0] 8) bs.[1].

(** [read_single_u64], [read_single_u16] *)
Definition read_single_u64 : M N := bs <- read_exact_blocking 8 ;; ret (be_value bs).
Definition read_single_u16 : M N := bs <- read_exact_blocking 2 ;; ret (u16_of bs).

Definition read_single_header : M N :=
  bs <- read_exact_blocking 1 ;;
  let in_header := bs.[0] in
  require (Messaging.is_valid_header in_header) ;; ret in_header.

(** [if (!read_single_header(socket, h) || h != expected) return false;] *)
Definition expect_header (expected : N) : M unit :=
  h <- read_single_header ;; require (h =? expected).

Definition buffer_size : N := SSL3_RT_MAX_PLAIN_LENGTH.

Definition store_buffer (bs : list N) : M unit :=
  upd_hs (fun r => set_buffer (overlay bs (buffer r)) r).

(** [socket.read(buffer.data(), buffer.size())] of a caller that gives up on
    anything but data: the number of bytes. *)
Definition read_buffer_once : M N :=
  r <- act (ARead buffer_size) ;;
  match r with Got bs => store_buffer bs ;; ret (size bs) | _ => fail end.

(** The loop of [read_keyshare]. *)
Fixpoint read_buffer_loop (n : nat) : M (list N) :=
  match n with
  | O => waiting
  | S n =>
      r <- act (ARead buffer_size) ;;
      match r with
      | Got bs => store_buffer bs ;; ret bs
      | Again true => read_buffer_loop n
      | Again false | Closed => fail
      end
  end.

(** [read_keyshare]: the header; the key bytes go to [client_public_key]. *)
Definition read_keyshare : M N :=
  bs <- read_buffer_loop fuel ;;
  match Messaging.unpack_key_bytes bs with
  | None => fail
  | Some (header, out) => upd_hs (set_client_public_key out) ;; ret header
  end.

(** ** Writing *)

(** [TLSSocket::write] *)
Definition socket_write (bs : list N) : M unit :=
  if (SSL3_RT_MAX_PLAIN_LENGTH <? size bs) || (size bs =? 0) then fail
  else ok <- act (AWrite bs) ;; require ok.

Definition write_single_header (header : N) : M unit := socket_write [header].

(** [handshake_done_impl]: the warning on pending data is printing. *)
Definition handshake_done_impl : M unit :=
  _p <- act APending ;; write_single_header MessageHeaders.DONE_HS.

End Helpers.
End Server.
