(* ===== verification/ServerHandshake.v ===== *)
(** * Connection and handshake handlers of the verifier ([nodes/Server.cpp])

    From [accept] to the derivation of the traffic and resumption secrets:
    every handler of a [ServerState] below [DERIVE_PSK], and the ones that
    acknowledge or close. *)

From S2P Require Import Prelude Messaging Util KeyShare BlockMap ServerState ServerIO.

Import ByteString Server.
Local Open Scope N_scope.

Module Handshake.
Section Handlers.
Context `{KeyLib} {W : World} {F : Fuel}.

(** ** Key shares *)

Definition key_share_at (i : nat) (s : Server) : KeyShare.t := nth i (key_shares (hs s)) KeyShare.empty.

(** [get_additive_share], [get_public_key]: the shares of both curves. *)
Definition get_additive_share (s : Server) : list N :=
  KeyShare.get_additive_share (key_share_at 0 s) ++ KeyShare.get_additive_share (key_share_at 1 s).

Definition get_public_key (s : Server) : list N :=
  KeyShare.get_public_key (key_share_at 0 s) ++ KeyShare.get_public_key (key_share_at 1 s).

Definition get_curve_ids (s : Server) : N * N :=
  (KeyShare.get_group_id (key_share_at 0 s), KeyShare.get_group_id (key_share_at 1 s)).

Definition read_sks_keyshare : M unit :=
  header <- read_keyshare ;;
  require (header =? MessageHeaders.SERVER_KEY_SHARE) ;;
  track_rounds Events.READING_SKS 1 ;;
  pk <- gets (fun s => client_public_key (hs s)) ;;
  track Events.READING_SKS (size pk + 1) ;;
  advance.

Definition read_keyshare_after_handshake : M unit :=
  header <- read_keyshare ;;
  require (header =? MessageHeaders.COLLECT) ;;
  track_rounds Events.READING_KS 1 ;;
  pk <- gets (fun s => client_public_key (hs s)) ;;
  track Events.READING_KS (size pk + 1) ;;
  goto (next_state READING_KS).

(** [key_shares[i].create_new_share(group_id, key)] *)
Definition new_share_at (i : nat) (group_id : N) (key : list N) : M unit :=
  draw <- act (ADraw group_id) ;;
  ks <- gets (key_share_at i) ;;
  let '(ks, ok) := KeyShare.create_new_share draw group_id key ks in
  upd_hs (fun r => set_key_shares (upd i ks (key_shares r)) r) ;;
  require ok.

Definition create_new_share : M unit :=
  other_key_bytes <- gets (fun s => client_public_key (hs s)) ;;
  match CBS_get_u16 other_key_bytes with
  | None => fail
  | Some (group_id, cbs) =>
      match CBS_get_u16_length_prefixed cbs with
      | None => fail
      | Some (key, cbs) =>
          new_share_at 0 group_id key ;;
          if (length cbs =? 0)%nat then advance
          else
            match CBS_get_u16 cbs with
            | None => fail
            | Some (group_id, cbs) =>
                match CBS_get_u16_length_prefixed cbs with
                | None => fail
                | Some (key, cbs) =>
                    new_share_at 1 group_id key ;;
                    require (length cbs =? 0)%nat ;;
                    advance
                end
            end
      end
  end.

Definition send_additive_share : M unit :=
  share <- gets get_additive_share ;;
  upd_hs (set_additive_share share) ;;
  match Messaging.pack_key_bytes MessageHeaders.OK share with
  | None => fail
  | Some bytes =>
      track_rounds Events.WRITING_KS 1 ;;
      track Events.WRITING_KS (size bytes) ;;
      socket_write bytes ;;
      advance
  end.

(** ** Connection *)

Definition accept : M unit := ok <- act AAccept ;; require ok ;; advance.

(** [unpack_key_bytes(header, buffer, client_public_key)], on the whole of
    [buffer], followed by the test of the header. *)
Definition unpack_buffer : M unit :=
  b <- gets (fun s => buffer (hs s)) ;;
  match Messaging.unpack_key_bytes b with
  | None => fail
  | Some (header, out) =>
      upd_hs (set_client_public_key out) ;;
      require (header =? MessageHeaders.COLLECT)
  end.

Definition write_handshake_done : M unit :=
  pending <- act APending ;;
  if negb (pending =? 0) then
    read <- read_buffer_once ;;
    track_rounds Events.HANDSHAKE_DONE 1 ;;
    track Events.HANDSHAKE_DONE read ;;
    handshake_done_impl ;;
    unpack_buffer ;;
    goto MAKING_KS
  else
    handshake_done_impl ;;
    goto CIRCUIT_PREPROC.

Definition do_handshake : M unit :=
  ok <- act AHandshake ;;
  require ok ;;
  pending <- act APending ;;
  if pending =? 0 then goto HANDSHAKE_DONE
  else
    goto READING_KS ;;
    read <- read_buffer_once ;;
    track_rounds Events.HANDSHAKE 1 ;;
    track Events.HANDSHAKE (read + 1) ;;
    write_handshake_done ;;
    unpack_buffer ;;
    goto MAKING_KS.

(** ** Preprocessing *)

(** [c.reset(build(...)); if (c) { c->do_preproc(); ... }] *)
Definition preproc_circuit (c : CircuitId) (with_commit : bool) : M unit :=
  not_null <- act (ABuild c with_commit) ;;
  set_circuit c not_null ;;
  if not_null then
    act (APreproc c) ;;
    n <- act (ACounter c) ;; track Events.CIRCUIT_PREPROC n ;;
    r <- act (ARoundCounter c) ;; track_rounds Events.CIRCUIT_PREPROC r ;;
    failed <- act (AIoFailed c) ;;
    require (negb failed)
  else ret tt.

Definition is_rotate (m : Surf.Mode) : bool := match m with Surf.Rotate => true | _ => false end.

Definition do_preproc (should_preproc : bool) : M unit :=
  if negb should_preproc then goto READING_KS
  else
    preproc_circuit HANDSHAKE_A false ;;
    preproc_circuit TRAFFIC false ;;
    preproc_circuit GCM_SHARE false ;;
    preproc_circuit RESUMPTION false ;;
    preproc_circuit PSK_1 false ;;
    preproc_circuit PSK_8 false ;;
    preproc_circuit PSK_0 false ;;
    preproc_circuit BINDER false ;;
    true_surf <- gets (fun s => true_surf (conf s)) ;;
    preproc_circuit GCM_VFY true_surf ;;
    (if negb true_surf then preproc_circuit KS_BLOCK false else ret tt) ;;
    preproc_circuit AES_ENC_C false ;;
    preproc_circuit GCM_TAG_C false ;;
    mode <- gets (fun s => mode (conf s)) ;;
    (if is_rotate mode then preproc_circuit ROTATE false else ret tt) ;;
    advance.

Definition read_mask_commitments : M unit :=
  true_surf <- gets (fun s => true_surf (conf s)) ;;
  if true_surf then advance
  else
    expect_header MessageHeaders.MASK_COMMITMENTS ;;
    read_exact_into
      (fun bs s => set_att (set_mask_commitment (overlay bs (mask_commitment (att s))) (att s)) s)
      (N.of_nat MaskConstants.kCommitSize) ;;
    track_rounds Events.MASK_COMMIT 1 ;;
    track Events.MASK_COMMIT (1 + N.of_nat MaskConstants.kCommitSize) ;;
    advance.

(** ** Three-party handshake *)

(** [std::find_if] over the two shares. *)
Definition find_share (group_id : N) (s : Server) : option nat :=
  find (fun i => KeyShare.get_group_id (key_share_at i s) =? group_id) [0; 1]%nat.

Definition finish_tph : M unit :=
  pk <- gets (fun s => client_public_key (hs s)) ;;
  require (negb (size pk =? 0)) ;;
  match CBS_get_u16 pk with
  | None => fail
  | Some (group_id, cbs) =>
      match CBS_get_u16_length_prefixed cbs with
      | None => fail
      | Some (key, cbs) =>
          require (length cbs =? 0)%nat ;;
          active <- gets (find_share group_id) ;;
          match active with
          | None => fail
          | Some i =>
              upd_hs (set_active_key_share i) ;;
              ks <- gets (key_share_at i) ;;
              let '(ks, ok) := KeyShare.finish key ks in
              upd_hs (fun r => set_key_shares (upd i ks (key_shares r)) r) ;;
              require ok ;;
              goto WRITING_HS_RECV
          end
      end
  end.

Definition write_hs_recv : M unit :=
  track_rounds Events.WRITING_HS_RECV 1 ;;
  track Events.WRITING_HS_RECV 1 ;;
  pending <- act APending ;;
  if negb (pending =? 0) then abort
  else
    write_single_header MessageHeaders.HS_RECV ;;
    advance.

Definition do_psk_binder : M unit :=
  resumption <- gets (fun s => is_resumption_run (hs s)) ;;
  if negb resumption then advance
  else
    expect_header MessageHeaders.DERIVE_BINDER ;;
    track_rounds Events.PSK_BINDER 1 ;;
    track Events.PSK_BINDER 1 ;;
    psk_share <- gets (fun s => PSK_share (keys s)) ;;
    ok <- gets (has_circuit BINDER) ;; require ok ;;
    old_amount <- get_counter BINDER ;;
    old_rounds <- get_round_counter BINDER ;;
    run_circuit (InBinder psk_share) ;;
    track_circuit Events.PSK_BINDER BINDER old_amount old_rounds ;;
    set_circuit BINDER false ;;
    advance.

Definition do_ectf : M unit :=
  mode <- read_single_header ;;
  require ((mode =? MessageHeaders.HS_MODE_FULL) || (mode =? MessageHeaders.HS_MODE_RESUMED)) ;;
  upd_hs (set_resumed_handshake (mode =? MessageHeaders.HS_MODE_RESUMED)) ;;
  track Events.ECTF_WAIT 1 ;;
  expect_header MessageHeaders.DO_ECTF ;;
  ks <- gets (fun s => key_share_at (active_key_share (hs s)) s) ;;
  worked <- act (AEctf (KeyShare.get_x_secret ks) (KeyShare.get_y_secret ks) (KeyShare.get_group_id ks)) ;;
  match worked with
  | None => fail
  | Some (x, n, r) =>
      upd_hs (set_x_secret x) ;;
      track Events.ECTF_WAIT n ;; track_rounds Events.ECTF_WAIT r ;;
      advance
  end.

Definition finish_ectf : M unit :=
  track_rounds Events.ECTF_DONE 1 ;;
  track Events.ECTF_DONE 1 ;;
  write_single_header MessageHeaders.ECTF_DONE ;;
  advance.

(** ** Key schedule *)

(** [handshake_circuits[i]] *)
Definition handshake_circuit (i : nat) : CircuitId := match i with O => HANDSHAKE_A | _ => HANDSHAKE_B end.

Definition do_ks : M unit :=
  x_secret <- gets (fun s => x_secret (hs s)) ;;
  psk_share <- gets (fun s => if resumed_handshake (hs s) then PSK_share (keys s) else repeat 0 16) ;;
  active <- gets (fun s => active_key_share (hs s)) ;;
  let c := handshake_circuit active in
  old_amount <- get_counter c ;;
  old_rounds <- get_round_counter c ;;
  out <- run_circuit (InHandshake active x_secret psk_share) ;;
  upd_keys (set_handshake_key_shares out) ;;
  track_circuit Events.KS_CIRCUIT c old_amount old_rounds ;;
  set_circuit c false ;;
  advance.

Definition write_ks_done : M unit :=
  track_rounds Events.KS_DONE 1 ;;
  track Events.KS_DONE 1 ;;
  write_single_header MessageHeaders.KS_DONE ;;
  advance.

(** *** Certificates *)

(** The [do ... while] of [read_transcript_data]. *)
Fixpoint transcript_loop (n : nat) : M unit :=
  match n with
  | O => waiting
  | S n =>
      read <- read_buffer_once ;;
      upd_hs (fun r => set_transcript (transcript r ++ firstn (N.to_nat read) (buffer r)) r) ;;
      pending <- act APending ;;
      if negb (pending =? 0) then transcript_loop n else ret tt
  end.

(** [vector::reserve] beyond [max_size] throws, and the function is
    [noexcept]: the process ends. *)
Definition max_size : N := 2 ^ 63 - 1.

Definition read_transcript_data (target_header : N) : M unit :=
  expect_header target_header ;;
  (if target_header =? MessageHeaders.TRANSCRIPT_INIT then
     version <- read_single_u16 ;;
     cipher_suite <- read_single_u16 ;;
     upd_hs (set_version version) ;; upd_hs (set_cipher_suite cipher_suite)
   else ret tt) ;;
  sz <- read_single_u64 ;;
  sz <- (if target_header =? MessageHeaders.CERTIFICATE_CTX_RECV then
           pending <- act APending ;;
           require (pending =? wrap 32 (sz + 32)) ;; ret (wrap 64 (sz + 32))
         else ret sz) ;;
  have <- gets (fun s => size (transcript (hs s))) ;;
  if max_size <? wrap 64 (have + sz) then abort
  else transcript_loop fuel.

Definition do_cert_wait : M unit :=
  resumed <- gets (fun s => resumed_handshake (hs s)) ;;
  if resumed then advance
  else
    read_transcript_data MessageHeaders.CERTIFICATE_CTX_SEND ;;
    t <- gets (fun s => transcript (hs s)) ;;
    require (32 <=? size t) ;;
    upd_hs (set_server_key_comm (skipn (length t - 32) t)) ;;
    track_rounds Events.CERT_WAIT 1 ;;
    track Events.CERT_WAIT (1 + 8 + size t) ;;
    upd_hs (set_transcript (firstn (length t - 32) t)) ;;
    advance.

Definition write_cert_recv : M unit :=
  k <- gets (fun s => handshake_key_shares (keys s)) ;;
  let out_arr := MessageHeaders.CERTIFICATE_CTX_RECV :: CHTS_share k ++ SHTS_share k in
  socket_write out_arr ;;
  track_rounds Events.CERT_WRITE 1 ;;
  track Events.CERT_WRITE (1 + size (SHTS_share k) + size (CHTS_share k)) ;;
  advance.

(** *** Traffic secrets, hash-key shares, resumption *)

Definition derive_ts : M unit :=
  expect_header MessageHeaders.DERIVE_TS ;;
  ms_share <- gets (fun s => MS_share (handshake_key_shares (keys s))) ;;
  old_amount <- get_counter TRAFFIC ;;
  old_rounds <- get_round_counter TRAFFIC ;;
  out <- run_circuit (InTraffic ms_share) ;;
  upd_keys (set_traffic_key_shares out) ;;
  track_circuit Events.DERIVE_TS TRAFFIC old_amount old_rounds ;;
  advance.

(** [make_gcm_share_for]: the powers and the bytes; [None] is its [false]. *)
Definition make_gcm_share (key_share : list N) : M (list N * N) :=
  r <- act (AMakeGCM key_share) ;; match r with Some o => ret o | None => fail end.

(** The second call of [make_gcm_shares] overwrites the bandwidth of the
    first. *)
Definition derive_gcm_shares : M unit :=
  expect_header MessageHeaders.GCM_SHARE_START ;;
  old_rounds <- get_round_counter GCM_SHARE ;;
  t <- gets (fun s => traffic_key_shares (keys s)) ;;
  '(cpowers, _) <- make_gcm_share (client_key_share t) ;;
  upd_keys (set_client_gcm_powers cpowers) ;;
  '(spowers, bandwidth) <- make_gcm_share (server_key_share t) ;;
  upd_keys (set_server_gcm_powers spowers) ;;
  r <- get_round_counter GCM_SHARE ;;
  track_rounds Events.DERIVE_GCM_SHARES (sub64 r old_rounds) ;;
  track Events.DERIVE_GCM_SHARES bandwidth ;;
  advance.

Definition write_completed_derivation : M unit :=
  write_single_header MessageHeaders.GCM_SHARE_DONE ;; advance.

Definition derive_res : M unit :=
  expect_header MessageHeaders.DERIVE_RES ;;
  ms_share <- gets (fun s => MS_share (handshake_key_shares (keys s))) ;;
  old_amount <- get_counter RESUMPTION ;;
  old_rounds <- get_round_counter RESUMPTION ;;
  out <- run_circuit (InResumption ms_share) ;;
  upd_keys (set_RMS_share out) ;;
  track_circuit Events.DERIVE_RES RESUMPTION old_amount old_rounds ;;
  advance.

Definition write_completed_res : M unit :=
  write_single_header MessageHeaders.RES_DONE ;; advance.

Definition write_completed_psk : M unit :=
  skipped <- gets (fun s => psk_skipped (hs s)) ;;
  if skipped then advance
  else write_single_header MessageHeaders.PSK_DONE ;; advance.

Definition shutdown : M unit := act AShutdown ;; goto ServerState.DONE.

End Handlers.
End Handshake.
