(* ===== verification/ServerRecords.v ===== *)
(** * Record-layer handlers of the verifier ([nodes/Server.cpp])

    The requests the prover can make once the traffic keys are shared: commit
    to its key share, have a record's tag verified, derive the keystream of
    verified records, encrypt and tag a record, release the verifier's key
    share, rotate a key; and the two loops that serve them. *)

From S2P Require Import Prelude Block128 Messaging Util KeyShare BlockMap GHash.
From S2P Require Import ServerState ServerIO ServerHandshake.

Import Server Handshake.
Local Open Scope N_scope.

Definition SSL3_RT_HEADER_LENGTH : N := 5.
Definition KS_BATCH_N : nat := 16.
Definition AES_ENC_N : nat := 16.

Module Records.
Section Handlers.
Context `{KeyLib} {W : World} {F : Fuel}.

(** A loop over indices that stops at the first failure. *)
Fixpoint for_each {A} (xs : list A) (body : A -> M unit) : M unit :=
  match xs with
  | [] => ret tt
  | x :: xs => body x ;; for_each xs body
  end.

(** ** Key commitment and release *)

Definition read_key_commitment : M unit :=
  true_surf <- gets (fun s => true_surf (conf s)) ;;
  a <- gets att ;;
  require (negb (negb true_surf || key_committed a || key_released a)) ;;
  read_exact_into
    (fun bs s => set_att (set_key_commitment (overlay bs (key_commitment (att s))) (att s)) s) 32 ;;
  track_rounds Events.KEY_COMMIT 1 ;;
  track Events.KEY_COMMIT (1 + 32) ;;
  upd_att (set_key_committed true).

Definition release_key : M unit :=
  true_surf <- gets (fun s => true_surf (conf s)) ;;
  a <- gets att ;;
  require (negb (negb true_surf || negb (key_committed a) || key_released a)) ;;
  k <- gets (fun s => server_key_share (traffic_key_shares (keys s))) ;;
  track_rounds Events.KEY_RELEASE 1 ;;
  track Events.KEY_RELEASE (1 + size k) ;;
  upd_att (set_key_released true) ;;
  socket_write k.

(** ** Key rotation *)

(** The traffic shares after rotating one direction. *)
Definition rotate_shares (is_client : bool) (o : RotateOut) (t : TrafficOut) : TrafficOut :=
  if is_client
  then mkTrafficOut (rot_key_share o) (rot_iv o) (server_key_share t) (server_iv t)
         (next_share o) (SATS_share t)
  else mkTrafficOut (client_key_share t) (client_iv t) (rot_key_share o) (rot_iv o)
         (CATS_share t) (next_share o).

Definition clear_client_epoch (a : Att) : Att :=
  set_encrypt_ct_len 0 (set_encrypted_ct [] (set_encrypted_seqs [] a)).

Definition clear_server_epoch (a : Att) : Att :=
  set_epoch (wrap 32 (epoch a + 1))
    (set_key_commitment (repeat 0 32)
      (set_key_released false (set_key_committed false (set_verified_seqs [] a)))).

Definition rotate_key_op : M unit :=
  mode <- gets (fun s => mode (conf s)) ;;
  has_rotate <- gets (has_circuit ROTATE) ;;
  has_gcm <- gets (has_circuit GCM_SHARE) ;;
  require (is_rotate mode && has_rotate && has_gcm) ;;
  bs <- read_exact_blocking 1 ;;
  let dir := bs.[0] in
  require (dir <=? 1) ;;
  let is_client := dir =? 0 in
  released <- gets (fun s => key_released (att s)) ;;
  require (negb (negb is_client && negb released)) ;;
  track_rounds Events.ROTATE_KEY 1 ;;
  track Events.ROTATE_KEY (1 + 1) ;;
  old_amount <- get_counter ROTATE ;;
  old_rounds <- get_round_counter ROTATE ;;
  t <- gets (fun s => traffic_key_shares (keys s)) ;;
  out <- run_circuit (InRotate (if is_client then CATS_share t else SATS_share t)) ;;
  track_circuit Events.ROTATE_KEY ROTATE old_amount old_rounds ;;
  upd_keys (set_traffic_key_shares (rotate_shares is_client out t)) ;;
  '(powers, bandwidth) <- make_gcm_share (rot_key_share out) ;;
  upd_keys (if is_client then set_client_gcm_powers powers else set_server_gcm_powers powers) ;;
  track Events.ROTATE_KEY bandwidth ;;
  upd_att (if is_client then clear_client_epoch else clear_server_epoch).

(** ** Verifying a record *)

(** The fields of a [GCM_VERIFY] request. *)
Record VerifyRequest := {
  rq_seq : N; rq_aad : list N; rq_ciphertext : list N; rq_server_tag : list N }.

Definition read_verify_request : M VerifyRequest :=
  seq_buf <- read_exact_blocking 8 ;;
  aad_len_buf <- read_exact_blocking 2 ;;
  let aad_len := u16_of aad_len_buf in
  require (aad_len =? SSL3_RT_HEADER_LENGTH) ;;
  aad <- read_exact_blocking aad_len ;;
  ct_len_buf <- read_exact_blocking 4 ;;
  let ct_len := u32_of ct_len_buf in
  require (negb ((ct_len =? 0) || (SSL3_RT_MAX_PLAIN_LENGTH + 1 <? ct_len))) ;;
  ciphertext <- read_exact_blocking ct_len ;;
  server_tag <- read_exact_blocking 16 ;;
  track_rounds Events.GCM_VERIFY 1 ;;
  track Events.GCM_VERIFY (1 + 8 + 2 + aad_len + 4 + ct_len + 16) ;;
  ret {| rq_seq := be_value seq_buf; rq_aad := aad; rq_ciphertext := ciphertext;
         rq_server_tag := server_tag |}.

(** [input.iv]: the IV exclusive or the sequence number, then the counter 1. *)
Definition verify_iv (server_iv : list N) (seq : N) : list N :=
  let iv := overlay server_iv (repeat 0 16) in
  let iv := fold_left (fun iv i =>
      upd (11 - i) (iv.[11 - i] ⊕ wrap 8 (N.shiftr seq (8 * N.of_nat i))) iv) (List.seq 0 8) iv in
  upd 15 1 iv.

(** The branch of the sealed-capture modes, after the circuit's inputs are
    made. *)
Definition verify_with_commitment (rq : VerifyRequest) (iv tag_share : list N) : M unit :=
  k <- gets (fun s => server_key_share (traffic_key_shares (keys s))) ;;
  d_k <- gets (fun s => key_commitment (att s)) ;;
  '(tag_passed, cheated, key_opened) <-
    run_circuit (InGCMVfyCommit k iv tag_share (rq_server_tag rq) d_k) ;;
  require (negb cheated) ;;
  require key_opened ;;
  mode <- gets (fun s => mode (conf s)) ;;
  if negb tag_passed then
    if is_rotate mode then write_single_header MessageHeaders.TAG_REJECT else fail
  else
    retain <- gets (fun s => retain_ct (conf s)) ;;
    (if retain then
       upd_att (fun a => set_attested_ct (attested_ct a ++ [(rq_seq rq, rq_ciphertext rq)]) a)
     else ret tt) ;;
    upd_att (fun a => set_verified_seqs (verified_seqs a ++ [rq_seq rq]) a) ;;
    if is_rotate mode then write_single_header MessageHeaders.TAG_OK else ret tt.

Definition verify_plain (rq : VerifyRequest) (iv tag_share : list N) : M unit :=
  k <- gets (fun s => server_key_share (traffic_key_shares (keys s))) ;;
  '(tag_passed, cheated) <- run_circuit (InGCMVfy k iv tag_share (rq_server_tag rq)) ;;
  require (negb cheated) ;;
  require tag_passed ;;
  upd_att (fun a => set_verified_seqs (verified_seqs a ++ [rq_seq rq]) a).

Definition verify_gcm_tag : M unit :=
  true_surf <- gets (fun s => true_surf (conf s)) ;;
  a <- gets att ;;
  (if true_surf then require (key_committed a) ;; require (negb (key_released a)) else ret tt) ;;
  rq <- read_verify_request ;;
  powers <- gets (fun s => server_gcm_powers (keys s)) ;;
  match GHash.share powers (rq_aad rq) (rq_ciphertext rq) with
  | None => fail
  | Some tag_share =>
      iv <- gets (fun s => verify_iv (server_iv (traffic_key_shares (keys s))) (rq_seq rq)) ;;
      ok <- gets (has_circuit GCM_VFY) ;;
      require ok ;;
      if true_surf then verify_with_commitment rq iv tag_share
      else verify_plain rq iv tag_share
  end.

(** ** Keystream of verified records *)

Definition read_record_dims : M SurfBlockMap.RecordDims :=
  ent <- read_exact_blocking 12 ;;
  let seq := be_value (firstn 8 ent) in
  let ct_len := u32_of (skipn 8 ent) in
  require (negb ((ct_len =? 0) || (SSL3_RT_MAX_PLAIN_LENGTH + 1 <? ct_len))) ;;
  ret {| SurfBlockMap.seq := seq; SurfBlockMap.ct_len := ct_len |}.

Fixpoint read_records (n : nat) : M (list SurfBlockMap.RecordDims) :=
  match n with
  | O => ret []
  | S n => r <- read_record_dims ;; rs <- read_records n ;; ret (r :: rs)
  end.

Definition seq_verified (verified : list N) (r : SurfBlockMap.RecordDims) : bool :=
  existsb (N.eqb (SurfBlockMap.seq r)) verified.

(** The counter block of lane [j] of a batch; past the last block a counter
    with the top bit set fills the lane. *)
Definition ks_lane (iv : list N) (recs : list SurfBlockMap.RecordDims) (nblocks idx : N) : option (list N) :=
  if idx <? nblocks then
    match SurfBlockMap.resolve recs idx with
    | Some (seq, counter) => Some (SurfBlockMap.ctr_block iv seq counter)
    | None => None
    end
  else
    match SurfBlockMap.resolve recs (nblocks - 1) with
    | Some (seq, _) => Some (SurfBlockMap.ctr_block iv seq (N.lor 0x80000000 (wrap 32 idx)))
    | None => None
    end.

(** The lanes of one batch, or the first failure. *)
Fixpoint collect {A} (xs : list (option A)) : option (list A) :=
  match xs with
  | [] => Some []
  | Some x :: xs => match collect xs with Some ys => Some (x :: ys) | None => None end
  | None :: _ => None
  end.

Definition ks_batch_ctrs (iv : list N) (recs : list SurfBlockMap.RecordDims) (nblocks : N) (batch : nat)
  : option (list (list N)) :=
  collect (map (fun j => ks_lane iv recs nblocks (N.of_nat (batch * KS_BATCH_N + j)))
             (List.seq 0 KS_BATCH_N)).

Definition derive_ks_batch (recs : list SurfBlockMap.RecordDims) (nblocks : N) (batch : nat) : M unit :=
  remaining <- act AKsRemaining ;;
  (if remaining =? 0 then
     act (APreproc KS_BLOCK) ;;
     failed <- act (AIoFailed KS_BLOCK) ;;
     require (negb failed)
   else ret tt) ;;
  t <- gets (fun s => traffic_key_shares (keys s)) ;;
  d <- gets (fun s => mask_commitment (att s)) ;;
  match ks_batch_ctrs (server_iv t) recs nblocks batch with
  | None => fail
  | Some ctr =>
      ok <- run_circuit (InKSBatch (server_key_share t) d ctr) ;;
      require ok
  end.

Definition derive_keystream_blocks : M unit :=
  has <- gets (has_circuit KS_BLOCK) ;;
  require has ;;
  nrec_buf <- read_exact_blocking 4 ;;
  let nrec := u32_of nrec_buf in
  require (negb ((nrec =? 0) || (N.of_nat MaskConstants.kNumMasks <? nrec))) ;;
  recs <- read_records (N.to_nat nrec) ;;
  verified <- gets (fun s => verified_seqs (att s)) ;;
  require (forallb (seq_verified verified) recs) ;;
  let nblocks := SurfBlockMap.total_blocks recs in
  if nblocks =? 0 then ret tt
  else
    let nbatches := ((N.to_nat nblocks + KS_BATCH_N - 1) / KS_BATCH_N)%nat in
    old_amount <- get_counter KS_BLOCK ;;
    old_rounds <- get_round_counter KS_BLOCK ;;
    for_each (List.seq 0 nbatches) (derive_ks_batch recs nblocks) ;;
    track_circuit Events.KS_DERIVE KS_BLOCK old_amount old_rounds.

(** ** Encrypting a record *)

(** The lanes past the last block repeat its counter. *)
Definition enc_lane (iv : list N) (seq nblocks idx : N) : list N :=
  let src := if idx <? nblocks then idx else nblocks - 1 in
  SurfBlockMap.ctr_block iv seq (wrap 32 (wrap 32 src + 2)).

Definition enc_batch_ctrs (iv : list N) (seq nblocks : N) (batch : nat) : list (list N) :=
  map (fun j => enc_lane iv seq nblocks (N.of_nat (batch * AES_ENC_N + j))) (List.seq 0 AES_ENC_N).

(** [encrypted_ct[batch * N + j] = out.ct[j]] *)
Definition store_ct (batch : nat) (ct : list (list N)) (enc : list (list N)) : list (list N) :=
  fold_left (fun enc j => upd (batch * AES_ENC_N + j) (nth j ct []) enc) (List.seq 0 AES_ENC_N) enc.

Definition encrypt_batch (seq nblocks : N) (batch : nat) : M unit :=
  t <- gets (fun s => traffic_key_shares (keys s)) ;;
  '(ok, ct) <- run_circuit
    (InAESEnc (client_key_share t) (enc_batch_ctrs (client_iv t) seq nblocks batch)) ;;
  require ok ;;
  upd_att (fun a => set_encrypted_ct (store_ct batch ct (encrypted_ct a)) a).

Definition encrypt_blocks : M unit :=
  has <- gets (has_circuit AES_ENC_C) ;;
  require has ;;
  seq_buf <- read_exact_blocking 8 ;;
  let seq := be_value seq_buf in
  used <- gets (fun s => encrypted_seqs (att s)) ;;
  require (negb (existsb (N.eqb seq) used)) ;;
  len_buf <- read_exact_blocking 4 ;;
  let pt_len := u32_of len_buf in
  require (negb ((pt_len =? 0) || (SSL3_RT_MAX_PLAIN_LENGTH <? pt_len))) ;;
  let nblocks := (pt_len + 15) / 16 in
  let nbatches := ((N.to_nat nblocks + AES_ENC_N - 1) / AES_ENC_N)%nat in
  track_rounds Events.AES_ENCRYPT 1 ;;
  track Events.AES_ENCRYPT (1 + 8 + 4) ;;
  upd_att (set_encrypted_ct (repeat (repeat 0 16) (nbatches * AES_ENC_N))) ;;
  old_amount <- get_counter AES_ENC_C ;;
  old_rounds <- get_round_counter AES_ENC_C ;;
  for_each (List.seq 0 nbatches) (encrypt_batch seq nblocks) ;;
  upd_att (set_encrypt_ct_len pt_len) ;;
  upd_att (fun a => set_encrypted_seqs (encrypted_seqs a ++ [seq]) a) ;;
  track_circuit Events.AES_ENCRYPT AES_ENC_C old_amount old_rounds.

(** [encrypted_seqs.back()] of an empty vector is undefined. *)
Definition make_gcm_tag : M unit :=
  has <- gets (has_circuit GCM_TAG_C) ;;
  require has ;;
  aad_len_buf <- read_exact_blocking 2 ;;
  let aad_len := u16_of aad_len_buf in
  require (aad_len =? SSL3_RT_HEADER_LENGTH) ;;
  upd_att (set_encrypt_aad (repeat 0 (N.to_nat aad_len))) ;;
  encrypt_aad <- read_exact_into
    (fun bs s => set_att (set_encrypt_aad (overlay bs (encrypt_aad (att s))) (att s)) s) aad_len ;;
  ct_len_buf <- read_exact_blocking 4 ;;
  let ct_len := u32_of ct_len_buf in
  a <- gets att ;;
  require (negb (negb (ct_len =? encrypt_ct_len a) || (length (encrypted_ct a) =? 0)%nat)) ;;
  let ct := tabulate (N.to_nat ct_len) (fun i => (nth (i / 16) (encrypted_ct a) []).[i mod 16]) in
  track_rounds Events.GCM_TAG 1 ;;
  track Events.GCM_TAG (1 + 2 + aad_len + 4) ;;
  t <- gets (fun s => traffic_key_shares (keys s)) ;;
  (if (length (encrypted_seqs a) =? 0)%nat then null_deref else ret tt) ;;
  let iv := SurfBlockMap.ctr_block (client_iv t) (last (encrypted_seqs a) 0) 1 in
  powers <- gets (fun s => client_gcm_powers (keys s)) ;;
  match GHash.share powers encrypt_aad ct with
  | None => fail
  | Some tag_share =>
      old_amount <- get_counter GCM_TAG_C ;;
      old_rounds <- get_round_counter GCM_TAG_C ;;
      cheated <- run_circuit (InGCMTag (client_key_share t) iv tag_share) ;;
      require (negb cheated) ;;
      track_circuit Events.GCM_TAG GCM_TAG_C old_amount old_rounds
  end.

(** ** Serving requests *)

(** The request a header names; [None] for any other header. *)
Definition request_handler (header : N) : option (M unit) :=
  if header =? MessageHeaders.AES_ENC then Some encrypt_blocks
  else if header =? MessageHeaders.GCM_TAG then Some make_gcm_tag
  else if header =? MessageHeaders.GCM_VERIFY then Some verify_gcm_tag
  else if header =? MessageHeaders.KS_DERIVE then Some derive_keystream_blocks
  else if header =? MessageHeaders.KEY_COMMIT then Some read_key_commitment
  else if header =? MessageHeaders.KEY_RELEASE then Some release_key
  else if header =? MessageHeaders.ROTATE_KEY then Some rotate_key_op
  else None.

(** [read_header_draining_encryption]: the first header that is no request. *)
Fixpoint drain_loop (n : nat) : M N :=
  match n with
  | O => waiting
  | S n =>
      out <- read_single_header ;;
      match request_handler out with
      | Some handler => handler ;; drain_loop n
      | None => ret out
      end
  end.

Definition read_header_draining_encryption : M N := drain_loop fuel.

(** [attest]: the same requests, until [STOP]. *)
Fixpoint attest_loop (n : nat) : M unit :=
  match n with
  | O => waiting
  | S n =>
      header <- read_single_header ;;
      if header =? MessageHeaders.STOP then ret tt
      else
        match request_handler header with
        | Some handler => handler ;; attest_loop n
        | None => fail
        end
  end.

Definition attest : M unit := attest_loop fuel.

(** ** The pre-shared key *)

Definition psk_circuit_for (header : N) : CircuitId :=
  if header =? MessageHeaders.DERIVE_PSK_0 then PSK_0
  else if header =? MessageHeaders.DERIVE_PSK_8 then PSK_8 else PSK_1.

Definition derive_psk : M unit :=
  upd_hs (set_psk_skipped false) ;;
  header <- read_header_draining_encryption ;;
  if header =? MessageHeaders.PSK_SKIP then
    upd_hs (set_psk_skipped true) ;; advance
  else
    require ((header =? MessageHeaders.DERIVE_PSK) || (header =? MessageHeaders.DERIVE_PSK_8)
             || (header =? MessageHeaders.DERIVE_PSK_0)) ;;
    let c := psk_circuit_for header in
    has <- gets (has_circuit c) ;;
    require has ;;
    old_amount <- get_counter c ;;
    old_rounds <- get_round_counter c ;;
    rms_share <- gets (fun s => RMS_share (keys s)) ;;
    out <- run_circuit (InPsk c rms_share) ;;
    upd_keys (set_PSK_share out) ;;
    track_circuit Events.DERIVE_PSK c old_amount old_rounds ;;
    advance.

End Handlers.
End Records.
