(* ===== verification/ServerRun.v ===== *)
(** * Sessions of the verifier ([nodes/Server.cpp]: construction, [run], [run_resumption])

    The dispatch on the state, the two drivers and the classification of a
    new connection. *)

From S2P Require Import Prelude Messaging Util KeyShare BlockMap.
From S2P Require Import ServerState ServerIO ServerHandshake ServerRecords.
From Stdlib Require Import Ascii String.
#[local] Abbreviation length := List.length.

Import Server Handshake Records.
Local Open Scope N_scope.

Module Run.
Section Sessions.
Context `{KeyLib} {W : World} {F : Fuel}.

(** ** Construction *)

Definition zero_counters : list N := repeat 0 33.

Definition empty_att : Att := mkAtt (repeat 0 32) (repeat 0 32) false false 0 [] [] [] 0 [] [].

(** The object after a successful construction; the arguments are the values
    of [SURF_TRUE], [SURF_ROTATE] and [SURF_RETAIN].  [None] is the abort on
    contradicting modes. *)
Definition make_server (surf_true surf_rotate surf_retain : option string) : option Server :=
  match Surf.mode_from_env surf_true surf_rotate with
  | None => None
  | Some m =>
      let retain := negb match surf_retain with
                         | Some (String.String c _) => Ascii.eqb c "0"%char
                         | _ => false
                         end in
      Some (mkServer ACCEPT (mkConf m (Surf.is_capture m) retain false)
        (mkHs [KeyShare.empty; KeyShare.empty] 0 [] [] (repeat 0 (N.to_nat buffer_size))
           [] [] (repeat 0 32) 0 0 false false false)
        (mkKeys (mkHandshakeOut [] [] []) (mkTrafficOut [] [] [] [] [] []) [] [] [] [])
        empty_att [] zero_counters zero_counters [])
  end.

Definition set_attestation : M unit := modify (fun s => set_conf (set_should_attest true (conf s)) s).

(** ** One step of a session *)

(** The [switch] of [run] and [run_resumption]. *)
Definition handler (st : ServerState) (should_preproc : bool) : M unit :=
  match st with
  | ACCEPT => accept
  | HANDSHAKE => do_handshake
  | HANDSHAKE_DONE => write_handshake_done
  | CIRCUIT_PREPROC => do_preproc should_preproc
  | MASK_COMMIT => read_mask_commitments
  | READING_KS => read_keyshare_after_handshake
  | MAKING_KS => create_new_share
  | WRITING_KS => send_additive_share
  | PSK_BINDER => do_psk_binder
  | READING_SKS => read_sks_keyshare
  | FINISHING_TPH => finish_tph
  | WRITING_HS_RECV => write_hs_recv
  | ECTF_WAIT => do_ectf
  | ECTF_DONE => finish_ectf
  | KS_WAIT => do_ks
  | KS_DONE => write_ks_done
  | CERT_WAIT => do_cert_wait
  | CERT_RECV => write_cert_recv
  | DERIVE_TS => derive_ts
  | GCM_SHARE_DERIVE => derive_gcm_shares
  | GCM_SHARE_DONE => write_completed_derivation
  | DERIVE_RES => derive_res
  | RES_DONE => write_completed_res
  | DERIVE_PSK => derive_psk
  | PSK_DONE => write_completed_psk
  | SHUTDOWN =>
      should_attest <- gets (fun s => should_attest (conf s)) ;;
      (if should_attest then attest else ret tt) ;;
      shutdown
  | DONE | SIZE => abort
  end.

Definition reset_att (a : Att) : Att :=
  mkAtt (mask_commitment a) (repeat 0 32) false false 0 [] [] (encrypt_aad a) 0 [] [].

Definition reset_per_connection_state : M unit :=
  modify (fun s =>
    set_att (reset_att (att s)) (set_rounds zero_counters (set_bandwidth zero_counters s))).

(** ** [run] *)

Fixpoint run_loop (n : nat) (stop_state : ServerState) (should_preproc : bool) : M unit :=
  st <- gets state ;;
  if should_stop st stop_state then ret tt
  else
    match n with
    | O => waiting
    | S n => handler st should_preproc ;; run_loop n stop_state should_preproc
    end.

(** Every handler moves to a later state, so the loop runs at most once for
    each of the states up to [DONE], where it aborts (see [ServerProgress]). *)
Definition run_fuel : nat := 27.

(** The returned value; [None] when the variable [was_successful] was never
    assigned. *)
Definition run (stop_state : ServerState) (should_preproc already_accepted : bool) : M (option bool) :=
  (if negb already_accepted then goto ACCEPT ;; reset_per_connection_state else ret tt) ;;
  upd_hs (set_is_resumption_run false) ;;
  st <- gets state ;;
  if should_stop st stop_state then ret None
  else
    r <- try (run_loop run_fuel stop_state should_preproc) ;;
    ret (Some (match r with Some _ => true | None => false end)).

(** ** [run_resumption] *)

Definition kResumptionStates : list ServerState :=
  [ACCEPT; HANDSHAKE; HANDSHAKE_DONE; CIRCUIT_PREPROC; MASK_COMMIT; READING_KS; MAKING_KS;
   WRITING_KS; PSK_BINDER; READING_SKS; FINISHING_TPH; WRITING_HS_RECV; ECTF_WAIT; ECTF_DONE;
   KS_WAIT; KS_DONE; CERT_WAIT; CERT_RECV; DERIVE_TS; GCM_SHARE_DERIVE; GCM_SHARE_DONE;
   DERIVE_RES; RES_DONE; DERIVE_PSK; PSK_DONE; SHUTDOWN].

Definition kPreambleStates : nat := 3.

Fixpoint resumption_loop (states : list ServerState) (stop_state : ServerState) (should_preproc : bool)
  : M unit :=
  match states with
  | [] => ret tt
  | s :: states =>
      if should_stop s stop_state then ret tt
      else
        goto s ;;
        handler s should_preproc ;;
        resumption_loop states stop_state should_preproc
  end.

Definition reset_circuits : M unit := modify (fun s =>
  set_circuits [] s).

Definition run_resumption (stop_state : ServerState) (should_preproc already_accepted : bool) : M bool :=
  (if negb already_accepted then reset_per_connection_state else ret tt) ;;
  reset_circuits ;;
  upd_hs (set_is_resumption_run true) ;;
  let start_index := if already_accepted then kPreambleStates else 0%nat in
  r <- try (resumption_loop (skipn start_index kResumptionStates) stop_state should_preproc) ;;
  ret (match r with Some _ => true | None => false end).

(** ** Classifying a connection *)

Inductive SessionKind := Idle | Full | Resumed.

Definition state_eqb (a b : ServerState) : bool := state_code a =? state_code b.

Definition accept_and_read_mode : M SessionKind :=
  reset_per_connection_state ;;
  goto ACCEPT ;;
  r <- try (
    accept ;;
    do_handshake ;;
    st <- gets state ;;
    require (state_eqb st HANDSHAKE_DONE) ;;
    write_handshake_done ;;
    mode <- read_single_header ;;
    require ((mode =? MessageHeaders.RUN_FULL) || (mode =? MessageHeaders.RUN_RESUMED)) ;;
    ret mode) ;;
  ret (match r with
       | None => Idle
       | Some mode => if mode =? MessageHeaders.RUN_RESUMED then Resumed else Full
       end).

End Sessions.
End Run.
