(* ===== verification/ServerLogic.v ===== *)
(** * Reasoning about the server's methods

    Two program logics.  [respects R m]: whatever the outcome, the state after
    [m] is related to the state before by the preorder [R].  [hoare P m Q]:
    from a state in [P], a return leads to a state in [Q].  The handlers that
    leave the record layer alone are treated once for all relations. *)

From S2P Require Import Prelude Messaging Util KeyShare BlockMap.
From S2P Require Import ServerState ServerIO ServerHandshake ServerRecords ServerRun.
From Stdlib Require Import RelationClasses.

Import Server Handshake Records Run.
Local Open Scope N_scope.

Create HintDb server.

Lemma bind_done `{KeyLib} {A B} (m : M A) (k : A -> M B) s s' a :
  m s = (s', Done a) -> bind m k s = k a s'.
Proof. intros E. unfold bind. now rewrite E. Qed.

Section Respects.
Context `{KeyLib} {W : World} {F : Fuel}.

Definition respects (R : Server -> Server -> Prop) {A} (m : M A) : Prop := forall s, R s (fst (m s)).

Section Rules.
Context {R : Server -> Server -> Prop} {pre : PreOrder R}.

Lemma respects_ret {A} (a : A) : respects R (ret a).
Proof. intros s. reflexivity. Qed.

Lemma respects_fail {A} : respects R (fail (A := A)).
Proof. intros s. reflexivity. Qed.

Lemma respects_abort {A} : respects R (abort (A := A)).
Proof. intros s. reflexivity. Qed.

Lemma respects_null {A} : respects R (null_deref (A := A)).
Proof. intros s. reflexivity. Qed.

Lemma respects_waiting {A} : respects R (waiting (A := A)).
Proof. intros s. reflexivity. Qed.

Lemma respects_gets {A} (f : Server -> A) : respects R (gets f).
Proof. intros s. reflexivity. Qed.

Lemma respects_require b : respects R (require b).
Proof. intros s. destruct b; reflexivity. Qed.

Lemma respects_modify f : (forall s, R s (f s)) -> respects R (modify f).
Proof. intros Hf s. apply Hf. Qed.

Lemma respects_bind {A B} (m : M A) (k : A -> M B) :
  respects R m -> (forall a, respects R (k a)) -> respects R (bind m k).
Proof.
  intros Hm Hk s. specialize (Hm s). unfold bind.
  destruct (m s) as [s' [a| | | |]]; cbn [fst] in *; try exact Hm.
  transitivity s'; [exact Hm | apply Hk].
Qed.

Lemma respects_try {A} (m : M A) : respects R m -> respects R (try m).
Proof.
  intros Hm s. specialize (Hm s). unfold try.
  destruct (m s) as [s' [a| | | |]]; exact Hm.
Qed.

Lemma respects_for_each {A} (xs : list A) body :
  (forall x, respects R (body x)) -> respects R (for_each xs body).
Proof.
  intros Hb. induction xs as [|x xs IH]; [apply respects_ret|].
  apply respects_bind; [apply Hb | intros _; exact IH].
Qed.

End Rules.

(** The actions that are not a batch of record encryption or of keystream
    derivation. *)
Definition quiet (a : Action) : Prop :=
  match a with ARun (InKSBatch _ _ _) | ARun (InAESEnc _ _) => False | _ => True end.

(** Relations that do not look at quiet actions and at the counters. *)
Class Calm (R : Server -> Server -> Prop) : Prop := {
  #[global] calm_pre :: PreOrder R;
  calm_log : forall s a, quiet a -> R s (set_log (a :: log s) s);
  calm_bandwidth : forall s v, R s (set_bandwidth v s);
  calm_rounds : forall s v, R s (set_rounds v s) }.

(** Relations that do not look at what the handshake stores. *)
Class Blind (R : Server -> Server -> Prop) : Prop := {
  #[global] blind_calm :: Calm R;
  blind_hs : forall s v, R s (set_hs v s);
  blind_keys : forall s v, R s (set_keys v s);
  blind_circuits : forall s v, R s (set_circuits v s);
  blind_mask : forall s v, R s (set_att (set_mask_commitment v (att s)) s) }.

(** Relations that do not look at the state of the handshake, either. *)
Class Insensitive (R : Server -> Server -> Prop) : Prop := {
  #[global] ins_blind :: Blind R;
  ins_state : forall s v, R s (set_state v s) }.

Section Leaves.
Context {R : Server -> Server -> Prop} {calm : Calm R}.

Lemma calm_act a : quiet a -> respects R (act a).
Proof. intros Hq s. now apply calm_log. Qed.

Lemma calm_track e n : respects R (track e n).
Proof. intros s. apply calm_bandwidth. Qed.

Lemma calm_track_rounds e n : respects R (track_rounds e n).
Proof. intros s. apply calm_rounds. Qed.

Lemma calm_run_circuit i : quiet (ARun i) -> respects R (run_circuit i).
Proof.
  intros Hq. unfold run_circuit. apply respects_bind; [now apply calm_act|].
  intros [o|]; [apply respects_ret | apply respects_fail].
Qed.

End Leaves.

Section BlindLeaves.
Context {R : Server -> Server -> Prop} {blind : Blind R}.

Lemma blind_modify_hs f : respects R (upd_hs f).
Proof. intros s. apply blind_hs. Qed.

Lemma blind_modify_keys f : respects R (upd_keys f).
Proof. intros s. apply blind_keys. Qed.

Lemma blind_set_circuit c b : respects R (set_circuit c b).
Proof. intros s. apply blind_circuits. Qed.

End BlindLeaves.

Lemma ins_goto {R : Server -> Server -> Prop} {ins : Insensitive R} st : respects R (goto st).
Proof. intros s. apply ins_state. Qed.
End Respects.

#[export] Hint Resolve respects_ret respects_fail respects_abort respects_null respects_waiting
  respects_gets respects_require respects_modify respects_try respects_for_each : server.

(** Follows the syntax of a method; leaves the updates and actions. *)
Ltac srv_step :=
  lazymatch goal with
  | |- respects _ (bind _ _) => apply respects_bind; [|intros ?]
  | |- respects _ (ret _) => apply respects_ret
  | |- respects _ fail => apply respects_fail
  | |- respects _ abort => apply respects_abort
  | |- respects _ null_deref => apply respects_null
  | |- respects _ waiting => apply respects_waiting
  | |- respects _ (gets _) => apply respects_gets
  | |- respects _ (require _) => apply respects_require
  | |- respects _ (try _) => apply respects_try
  | |- respects _ (for_each _ _) => apply respects_for_each; intros ?
  | |- respects _ (if ?b then _ else _) => destruct b
  | |- respects _ (match request_handler _ with _ => _ end) => fail
  | |- respects _ (match ?x with _ => _ end) => destruct x
  | |- respects _ (let _ := _ in _) => cbv zeta
  | |- respects _ (act _) => apply calm_act; exact I
  | |- respects _ (run_circuit _) => apply calm_run_circuit; exact I
  | |- respects _ (upd_hs _) => apply blind_modify_hs
  | |- respects _ (upd_keys _) => apply blind_modify_keys
  | |- respects _ (goto _) => apply ins_goto
  | |- respects _ (track _ _) => apply calm_track
  | |- respects _ (track_rounds _ _) => apply calm_track_rounds
  | |- respects _ (set_circuit _ _) => apply blind_set_circuit
  end.
Ltac srv := repeat srv_step; eauto with server typeclass_instances.

(** ** Triples *)

Section Triples.
Context `{KeyLib} {W : World} {F : Fuel}.

(** A return leads to [Q], any other outcome to [E]. *)
Definition hoare {A} (P : Server -> Prop) (m : M A) (Q : A -> Server -> Prop) (E : Server -> Prop) : Prop :=
  forall s, P s -> match m s with (s', Done a) => Q a s' | (s', _) => E s' end.

Lemma hoare_bind {A B} P (m : M A) (k : A -> M B) R Q E :
  hoare P m R E -> (forall a, hoare (R a) (k a) Q E) -> hoare P (bind m k) Q E.
Proof.
  intros Hm Hk s Hs. specialize (Hm s Hs). unfold bind.
  destruct (m s) as [s' [a| | | |]]; try exact Hm. now apply Hk.
Qed.

Lemma hoare_pre {A} (P P' : Server -> Prop) (m : M A) Q E :
  hoare P' m Q E -> (forall s, P s -> P' s) -> hoare P m Q E.
Proof. intros Hm Hp s Hs. now apply Hm, Hp. Qed.

Lemma hoare_ret {A} (P : Server -> Prop) (a : A) (Q : A -> Server -> Prop) E :
  (forall s, P s -> Q a s) -> hoare P (ret a) Q E.
Proof. intros Hq s Hs. now apply Hq. Qed.

Lemma hoare_fail {A} (P : Server -> Prop) (Q : A -> Server -> Prop) (E : Server -> Prop) :
  (forall s, P s -> E s) -> hoare P fail Q E.
Proof. intros Hq s Hs. now apply Hq. Qed.

Lemma hoare_require P b (Q : unit -> Server -> Prop) (E : Server -> Prop) :
  (b = true -> forall s, P s -> Q tt s) -> (forall s, P s -> E s) -> hoare P (require b) Q E.
Proof. intros Hq He s Hs. destruct b; [now apply Hq | now apply He]. Qed.

Lemma hoare_gets {A} P (f : Server -> A) E :
  hoare P (gets f) (fun a s => P s /\ f s = a) E.
Proof. intros s Hs. now split. Qed.

Lemma hoare_modify (P : Server -> Prop) f (Q : unit -> Server -> Prop) E :
  (forall s, P s -> Q tt (f s)) -> hoare P (modify f) Q E.
Proof. intros Hq s Hs. now apply Hq. Qed.

(** A method that respects a relation keeps the assertions closed under it. *)
Lemma hoare_respects {A} (R : Server -> Server -> Prop) (m : M A) (P : Server -> Prop) :
  respects R m -> (forall s s', P s -> R s s' -> P s') -> hoare P m (fun _ => P) P.
Proof.
  intros Hm Hp s Hs. specialize (Hm s). specialize (Hp s (fst (m s)) Hs Hm).
  destruct (m s) as [s' []]; exact Hp.
Qed.

Lemma hoare_for_each {A} (P : Server -> Prop) (xs : list A) body :
  (forall x, In x xs -> hoare P (body x) (fun _ => P) P) -> hoare P (for_each xs body) (fun _ => P) P.
Proof.
  induction xs as [|x xs IH]; intros Hb; cbn [for_each].
  - now apply hoare_ret.
  - apply (hoare_bind _ _ _ (fun _ => P)); [apply Hb; now left|].
    intros _. apply IH. intros y Hy. apply Hb. now right.
Qed.

(** *** Steps, for proofs that follow a method from its first statement *)

Lemma hoare_weaken {A} P (m : M A) (Q Q' : A -> Server -> Prop) (E E' : Server -> Prop) :
  hoare P m Q E -> (forall a s, Q a s -> Q' a s) -> (forall s, E s -> E' s) -> hoare P m Q' E'.
Proof.
  intros Hm Hq He s Hs. specialize (Hm s Hs).
  destruct (m s) as [s' []]; (now apply Hq) || now apply He.
Qed.

Lemma step_respects {A B} (R : Server -> Server -> Prop) P (m : M A) (k : A -> M B) Q (E : Server -> Prop) :
  respects R m -> (forall s s', P s -> R s s' -> P s') -> (forall s, P s -> E s) ->
  (forall a, hoare P (k a) Q E) -> hoare P (bind m k) Q E.
Proof.
  intros Hm Hp He Hk. apply (hoare_bind _ _ _ (fun _ => P)); [|exact Hk].
  apply (hoare_weaken _ _ (fun _ => P) _ P); auto. now apply (hoare_respects R).
Qed.

Lemma step_require {B} P b (k : M B) Q (E : Server -> Prop) :
  (forall s, P s -> E s) -> (b = true -> hoare P k Q E) ->
  hoare P (bind (require b) (fun _ => k)) Q E.
Proof. intros He Hk s Hs. destruct b; [now apply Hk | now apply He]. Qed.

Lemma step_gets {A B} P (f : Server -> A) (k : A -> M B) Q E v :
  (forall s, P s -> f s = v) -> hoare P (k v) Q E -> hoare P (bind (gets f) k) Q E.
Proof. intros Hf Hk s Hs. unfold bind, gets. rewrite (Hf s Hs). now apply Hk. Qed.

Lemma step_get {A B} P (f : Server -> A) (k : A -> M B) Q E :
  (forall a, hoare P (k a) Q E) -> hoare P (bind (gets f) k) Q E.
Proof. intros Hk s Hs. unfold bind, gets. now apply Hk. Qed.

End Triples.

Section CalmMethods.
Context `{KeyLib} {W : World} {F : Fuel}.
Context {R : Server -> Server -> Prop} {calm : Calm R}.

Lemma calm_deref c : respects R (deref c).
Proof. unfold deref. srv. Qed.
#[local] Hint Resolve calm_deref : server.

Lemma calm_get_counter c : respects R (get_counter c).
Proof. unfold get_counter. srv. Qed.
#[local] Hint Resolve calm_get_counter : server.

Lemma calm_get_round_counter c : respects R (get_round_counter c).
Proof. unfold get_round_counter. srv. Qed.
#[local] Hint Resolve calm_get_round_counter : server.

Lemma calm_track_circuit e c a r : respects R (track_circuit e c a r).
Proof. unfold track_circuit. srv. Qed.
#[local] Hint Resolve calm_track_circuit : server.

Lemma calm_read_loop n store len : forall acc,
  (forall bs s, R s (store bs s)) -> respects R (read_loop n store len acc).
Proof.
  induction n as [|n IH]; intros acc Hs; cbn [read_loop]; srv; apply respects_modify; intros s; apply Hs.
Qed.
#[local] Hint Resolve calm_read_loop : server.

Lemma calm_read_exact_into store len :
  (forall bs s, R s (store bs s)) -> respects R (read_exact_into store len).
Proof. apply calm_read_loop. Qed.
#[local] Hint Resolve calm_read_exact_into : server.

Lemma calm_read_exact len : respects R (read_exact_blocking len).
Proof. apply calm_read_exact_into. intros bs s. reflexivity. Qed.
#[local] Hint Resolve calm_read_exact : server.

Lemma calm_read_single_header : respects R read_single_header.
Proof. unfold read_single_header. srv. Qed.
#[local] Hint Resolve calm_read_single_header : server.

Lemma calm_read_single_u16 : respects R read_single_u16.
Proof. unfold read_single_u16. srv. Qed.
#[local] Hint Resolve calm_read_single_u16 : server.

Lemma calm_read_single_u64 : respects R read_single_u64.
Proof. unfold read_single_u64. srv. Qed.
#[local] Hint Resolve calm_read_single_u64 : server.

Lemma calm_expect_header h : respects R (expect_header h).
Proof. unfold expect_header. srv. Qed.
#[local] Hint Resolve calm_expect_header : server.

Lemma calm_socket_write bs : respects R (socket_write bs).
Proof. unfold socket_write. srv. Qed.
#[local] Hint Resolve calm_socket_write : server.

Lemma calm_write_single_header h : respects R (write_single_header h).
Proof. apply calm_socket_write. Qed.
#[local] Hint Resolve calm_write_single_header : server.

Lemma calm_make_gcm_share k : respects R (make_gcm_share k).
Proof. unfold make_gcm_share. srv. Qed.
#[local] Hint Resolve calm_make_gcm_share : server.

Lemma calm_read_records n : respects R (read_records n).
Proof.
  induction n as [|n IH]; cbn [read_records]; unfold read_record_dims; srv.
Qed.
#[local] Hint Resolve calm_read_records : server.

Lemma calm_read_verify_request : respects R read_verify_request.
Proof. unfold read_verify_request. srv. Qed.
#[local] Hint Resolve calm_read_verify_request : server.

End CalmMethods.

#[export] Hint Resolve calm_deref calm_get_counter calm_get_round_counter calm_track_circuit
  calm_read_exact calm_read_single_header calm_read_single_u16 calm_read_single_u64
  calm_expect_header calm_socket_write calm_write_single_header calm_make_gcm_share
  calm_read_records calm_read_verify_request : server.

Section BlindMethods.
Context `{KeyLib} {W : World} {F : Fuel}.
Context {R : Server -> Server -> Prop} {blind : Blind R}.

Lemma blind_read_buffer_once : respects R read_buffer_once.
Proof. unfold read_buffer_once, store_buffer. srv. Qed.
#[local] Hint Resolve blind_read_buffer_once : server.

Lemma blind_read_keyshare : respects R read_keyshare.
Proof.
  unfold read_keyshare. apply respects_bind; [|intros bs; srv].
  generalize (fuel (Fuel := F)). intros n. induction n as [|n IH]; cbn [read_buffer_loop]; srv.
  unfold store_buffer. srv.
Qed.
#[local] Hint Resolve blind_read_keyshare : server.

Lemma blind_transcript_loop n : respects R (transcript_loop n).
Proof. induction n as [|n IH]; cbn [transcript_loop]; srv. Qed.
#[local] Hint Resolve blind_transcript_loop : server.

Lemma blind_preproc_circuit c b : respects R (preproc_circuit c b).
Proof. unfold preproc_circuit. srv. Qed.
#[local] Hint Resolve blind_preproc_circuit : server.

Lemma blind_new_share_at i g k : respects R (new_share_at i g k).
Proof. unfold new_share_at. srv. Qed.
#[local] Hint Resolve blind_new_share_at : server.

(** What is left to show for a relation: the seven requests. *)
Class Requests : Prop := {
  rq_encrypt : respects R encrypt_blocks;
  rq_tag : respects R make_gcm_tag;
  rq_verify : respects R verify_gcm_tag;
  rq_keystream : respects R derive_keystream_blocks;
  rq_commit : respects R read_key_commitment;
  rq_release : respects R release_key;
  rq_rotate : respects R rotate_key_op }.

Context {rqs : Requests}.

Lemma blind_request h m : request_handler h = Some m -> respects R m.
Proof.
  unfold request_handler. destruct rqs.
  repeat (destruct (_ =? _); [intros E; apply some_inj in E as <-; assumption|]). intros E; discriminate E.
Qed.

Lemma blind_drain_loop n : respects R (drain_loop n).
Proof.
  induction n as [|n IH]; cbn [drain_loop]; srv.
  destruct (request_handler _) as [m|] eqn:E; srv. exact (blind_request _ _ E).
Qed.
#[local] Hint Resolve blind_drain_loop : server.

Lemma blind_attest_loop n : respects R (attest_loop n).
Proof.
  induction n as [|n IH]; cbn [attest_loop]; srv.
  destruct (request_handler _) as [m|] eqn:E; srv. exact (blind_request _ _ E).
Qed.
#[local] Hint Resolve blind_attest_loop : server.

End BlindMethods.

#[export] Hint Resolve blind_read_buffer_once blind_read_keyshare blind_transcript_loop blind_preproc_circuit blind_new_share_at
  blind_drain_loop blind_attest_loop : server.

Section Insensitivity.
Context `{KeyLib} {W : World} {F : Fuel}.
Context {R : Server -> Server -> Prop} {ins : Insensitive R}.

Lemma ins_advance : respects R advance.
Proof. unfold advance. srv. Qed.
#[local] Hint Resolve ins_advance : server.

Lemma ins_write_handshake_done : respects R write_handshake_done.
Proof. unfold write_handshake_done, handshake_done_impl, unpack_buffer. srv. Qed.
#[local] Hint Resolve ins_write_handshake_done : server.

Lemma ins_do_handshake : respects R do_handshake.
Proof. unfold do_handshake, unpack_buffer. srv. Qed.
#[local] Hint Resolve ins_do_handshake : server.

Lemma ins_read_mask_commitments : respects R read_mask_commitments.
Proof.
  unfold read_mask_commitments. srv. apply calm_read_exact_into. intros bs s. apply blind_mask.
Qed.
#[local] Hint Resolve ins_read_mask_commitments : server.

(** Every handler outside the record layer. *)
Lemma ins_handler st p :
  match st with
  | DERIVE_PSK | SHUTDOWN => True
  | _ => respects R (handler st p)
  end.
Proof.
  destruct st; try exact I; cbn [handler];
    unfold accept, do_preproc, read_keyshare_after_handshake, create_new_share,
      send_additive_share, do_psk_binder, read_sks_keyshare, finish_tph, write_hs_recv, do_ectf,
      finish_ectf, do_ks, write_ks_done, do_cert_wait, read_transcript_data, write_cert_recv,
      derive_ts, derive_gcm_shares, write_completed_derivation, derive_res, write_completed_res,
      write_completed_psk; srv.
Qed.

Context {rqs : Requests (R := R)}.

Lemma ins_derive_psk : respects R derive_psk.
Proof. unfold derive_psk, read_header_draining_encryption. srv. Qed.
#[local] Hint Resolve ins_derive_psk : server.

Lemma ins_any_handler st p : respects R (handler st p).
Proof.
  pose proof (ins_handler st p) as Hh. destruct st; try exact Hh; cbn [handler].
  - exact ins_derive_psk.
  - unfold attest, shutdown. srv.
Qed.
#[local] Hint Resolve ins_any_handler : server.

Lemma ins_run_loop n stop p : respects R (run_loop n stop p).
Proof. induction n as [|n IH]; cbn [run_loop]; srv. Qed.
#[local] Hint Resolve ins_run_loop : server.

Lemma ins_resumption_loop states stop p : respects R (resumption_loop states stop p).
Proof. induction states as [|s states IH]; cbn [resumption_loop]; srv. Qed.
#[local] Hint Resolve ins_resumption_loop : server.

(** Whole sessions, for relations that also survive the reset. *)
Lemma ins_run stop p acc :
  (forall s, R s (set_att (reset_att (att s)) s)) -> respects R (run stop p acc).
Proof.
  intros Hr. unfold run. srv; try apply ins_run_loop.
  intros s. unfold reset_per_connection_state, modify. cbn [fst].
  transitivity (set_att (reset_att (att s)) s); [apply Hr|].
  transitivity (set_bandwidth zero_counters (set_att (reset_att (att s)) s)); [apply calm_bandwidth|].
  exact (calm_rounds (set_bandwidth zero_counters (set_att (reset_att (att s)) s)) zero_counters).
Qed.

End Insensitivity.
#[export] Hint Resolve ins_advance : server.
