(* ===== verification/ServerTrace.v ===== *)
(** * What the record layer hands to the circuits

    The runs of the encryption and keystream circuits that a request adds to
    the log: their counters, and the records they belong to. *)

From S2P Require Import Prelude Block128 FieldCode Messaging Util KeyShare BlockMap GHash.
From S2P Require Import ServerState ServerIO ServerHandshake ServerRecords ServerRun ServerLogic ServerSafety.
From Stdlib Require Import RelationClasses.

Import Server Handshake Records Run.
Local Open Scope N_scope.

(** ** Bytes from the wire *)

(** The contract of [SSL_read]: between 1 and the requested number of bytes. *)
Class WorldOk (W : World) : Prop :=
  read_reply : forall l n bs, reply l (ARead n) = Got bs ->
    1 <= size bs <= n /\ Forall (fun b => b < 256) bs.

(** The runs of the two circuits in a log, newest first. *)
Definition aes_runs (l : list Action) : list (list N * list (list N)) :=
  flat_map (fun a => match a with ARun (InAESEnc k ctr) => [(k, ctr)] | _ => [] end) l.

Definition ks_runs (l : list Action) : list (list N * list (list N)) :=
  flat_map (fun a => match a with ARun (InKSBatch k _ ctr) => [(k, ctr)] | _ => [] end) l.

Lemma quiet_runs a : quiet a -> aes_runs [a] = [] /\ ks_runs [a] = [].
Proof. destruct a; try easy. destruct i; easy. Qed.

Lemma lor_lt a b w : a < 2 ^ w -> b < 2 ^ w -> N.lor a b < 2 ^ w.
Proof.
  intros Ha Hb. apply lt_pow2_bits. intros i Hi.
  now rewrite N.lor_spec, (testbit_high a w), (testbit_high b w).
Qed.

Lemma be_value_acc bs : forall acc w,
  Forall (fun b => b < 256) bs -> acc < 2 ^ w ->
  fold_left (fun seq b => N.lor (N.shiftl seq 8) b) bs acc < 2 ^ (w + 8 * size bs).
Proof.
  unfold size. induction bs as [|b bs IH]; intros acc w Hb Ha; cbn [fold_left length].
  - now rewrite N.mul_0_r, N.add_0_r.
  - inversion Hb as [|? ? Hx Hr]; subst.
    replace (w + 8 * N.of_nat (S (length bs))) with (w + 8 + 8 * N.of_nat (length bs)) by lia.
    apply IH; [assumption|]. apply lor_lt; [now apply shiftl_lt|].
    apply (pow2_weaken _ 8); [exact Hx | lia].
Qed.

Lemma be_value_lt bs n :
  Forall (fun b => b < 256) bs -> size bs = n -> be_value bs < 2 ^ (8 * n).
Proof. intros Hb <-. exact (be_value_acc bs 0 0 Hb eq_refl). Qed.

Lemma u32_of_lt bs : Forall (fun b => b < 256) bs -> u32_of bs < 2 ^ 32.
Proof.
  intros Hb. unfold u32_of.
  assert (B : forall i, bs.[i] < 2 ^ 8) by (intros i; now apply (bytes_nth bs i)).
  repeat apply lor_lt; try (apply (pow2_weaken _ 8); [apply B | lia]);
    eapply pow2_weaken; try (apply shiftl_lt, B); lia.
Qed.

Section Traces.
Context `{KeyLib} {W : World} {F : Fuel} {wok : WorldOk W}.

(** A read returns exactly what was asked for. *)
Lemma read_loop_spec (R : Server -> Server -> Prop) {calm : Calm R} n store len : forall acc s,
  (forall bs s, R s (store bs s)) -> size acc <= len -> Forall (fun b => b < 256) acc ->
  match read_loop n store len acc s with
  | (s', Done bs) => R s s' /\ size bs = len /\ Forall (fun b => b < 256) bs
  | (s', _) => R s s'
  end.
Proof.
  intros acc s Hs. revert acc s. induction n as [|n IH]; intros acc s Hl Hb; cbn [read_loop].
  - destruct (N.ltb_spec (size acc) len); cbn; [reflexivity|].
    split; [reflexivity | split; [lia | assumption]].
  - destruct (N.ltb_spec (size acc) len) as [Hlt|]; cbn [ret].
    2: { split; [reflexivity | split; [lia | assumption]]. }
    unfold bind at 1, act. set (s1 := set_log _ s).
    assert (R1 : R s s1) by (apply calm_log; exact I).
    destruct (reply (log s) (ARead (len - size acc))) as [bs|[]|] eqn:E; try exact R1.
    + destruct (read_reply _ _ _ E) as [Hn Hbs]. unfold bind, modify.
      specialize (IH (acc ++ bs) (store (acc ++ bs) s1)).
      assert (Hsz : size (acc ++ bs) = size acc + size bs) by (unfold size; rewrite length_app; lia).
      assert (R2 : R s (store (acc ++ bs) s1)) by (transitivity s1; auto).
      specialize (IH ltac:(lia) ltac:(now apply Forall_app)).
      destruct (read_loop n store len (acc ++ bs) (store (acc ++ bs) s1)) as [s' []];
        try (transitivity (store (acc ++ bs) s1); assumption).
      destruct IH as (R3 & ?). split; [|assumption]. now transitivity (store (acc ++ bs) s1).
    + specialize (IH acc s1 Hl Hb). destruct (read_loop n store len acc s1) as [s' []];
        try (now transitivity s1). destruct IH as (R3 & ?). split; [|assumption]. now transitivity s1.
Qed.

Lemma hoare_read_exact (P : Server -> Prop) (R : Server -> Server -> Prop) {calm : Calm R} len :
  (forall s s', P s -> R s s' -> P s') ->
  hoare P (read_exact_blocking len)
    (fun bs s => P s /\ size bs = len /\ Forall (fun b => b < 256) bs) P.
Proof.
  intros Hp s Hs. unfold read_exact_blocking, read_exact_into.
  pose proof (read_loop_spec R fuel (fun _ s => s) len [] s (fun _ s => reflexivity s)) as Hr.
  specialize (Hr ltac:(unfold size; cbn; lia) ltac:(constructor)).
  destruct (read_loop fuel _ len [] s) as [s' []]; try (now apply (Hp s)).
  destruct Hr as (Hr & ?). split; [now apply (Hp s) | assumption].
Qed.

(** ** Encryption *)

(** Since [s0] only the circuits' inputs [rs] (newest first) were used, and
    keys and recorded sequence numbers are unchanged. *)
Definition EncFrom (s0 : Server) (rs : list (list N * list (list N))) (s : Server) : Prop :=
  keys s = keys s0 /\ encrypted_seqs (att s) = encrypted_seqs (att s0) /\
  exists new, log s = new ++ log s0 /\ aes_runs new = rs.

Definition QuietRel (s s' : Server) : Prop := EncFrom s [] s'.

Lemma aes_runs_app l l' : aes_runs (l ++ l') = aes_runs l ++ aes_runs l'.
Proof. apply flat_map_app. Qed.

Lemma EncFrom_quiet s0 rs s s' : EncFrom s0 rs s -> QuietRel s s' -> EncFrom s0 rs s'.
Proof.
  intros (K & E & new & L & R) (K' & E' & new' & L' & R').
  split; [congruence | split; [congruence|]]. exists (new' ++ new).
  rewrite L', L, app_assoc, aes_runs_app, R', R. now split.
Qed.

#[global] Instance QuietRel_calm : Calm QuietRel.
Proof.
  split.
  - split.
    + intros s. split; [reflexivity | split; [reflexivity|]]. now exists [].
    + intros s1 s2 s3. apply EncFrom_quiet.
  - intros s a Hq. split; [reflexivity | split; [reflexivity|]]. exists [a].
    now destruct (quiet_runs a Hq).
  - intros s v. split; [reflexivity | split; [reflexivity|]]. now exists [].
  - intros s v. split; [reflexivity | split; [reflexivity|]]. now exists [].
Qed.

Lemma hoare_quiet {A} s0 rs (m : M A) :
  respects QuietRel m -> hoare (EncFrom s0 rs) m (fun _ => EncFrom s0 rs) (EncFrom s0 rs).
Proof. intros Hm. apply (hoare_respects _ _ _ Hm). intros s s'. apply EncFrom_quiet. Qed.

(** The inputs of batch [b] of a record. *)
Definition enc_input (s0 : Server) (seq nblocks : N) (b : nat) : list N * list (list N) :=
  let t := traffic_key_shares (keys s0) in
  (client_key_share t, enc_batch_ctrs (client_iv t) seq nblocks b).

Lemma hoare_encrypt_batch s0 rs seq nblocks b :
  hoare (EncFrom s0 rs) (encrypt_batch seq nblocks b)
    (fun _ => EncFrom s0 (enc_input s0 seq nblocks b :: rs))
    (EncFrom s0 (enc_input s0 seq nblocks b :: rs)).
Proof.
  intros s Hs. unfold encrypt_batch, run_circuit, bind, gets, act.
  set (i := InAESEnc _ _). set (s1 := set_log _ s).
  assert (H1 : EncFrom s0 (enc_input s0 seq nblocks b :: rs) s1).
  { destruct Hs as (K & E & new & L & R). split; [exact K | split; [exact E|]].
    exists (ARun i :: new). split; [exact (f_equal (cons (ARun i)) L)|].
    subst i. unfold enc_input. rewrite <- K, <- R. reflexivity. }
  destruct (reply (log s) (ARun i)) as [[ok ct]|]; [|exact H1].
  destruct ok; exact H1.
Qed.

Lemma hoare_encrypt_batches s0 seq nblocks n : forall k rs,
  hoare (EncFrom s0 rs) (for_each (List.seq k n) (encrypt_batch seq nblocks))
    (fun _ => EncFrom s0 (rev (map (enc_input s0 seq nblocks) (List.seq k n)) ++ rs))
    (fun s => exists m, (m <= n)%nat /\
       EncFrom s0 (rev (map (enc_input s0 seq nblocks) (List.seq k m)) ++ rs) s).
Proof.
  induction n as [|n IH]; intros k rs; cbn [List.seq for_each].
  - now apply hoare_ret.
  - intros s Hs. pose proof (hoare_encrypt_batch s0 rs seq nblocks k s Hs) as Hb. unfold bind.
    destruct (encrypt_batch seq nblocks k s) as [s' o].
    assert (E1 : forall s, EncFrom s0 (enc_input s0 seq nblocks k :: rs) s ->
              exists m, (m <= S n)%nat /\
                EncFrom s0 (rev (map (enc_input s0 seq nblocks) (List.seq k m)) ++ rs) s)
      by (intros x Hx; exists 1%nat; split; [lia | exact Hx]).
    destruct o; try now apply E1. specialize (IH (S k) _ s' Hb). cbn [map rev].
    rewrite <- app_assoc. cbn [app].
    destruct (for_each _ _ s') as [s'' []]; try exact IH;
      destruct IH as (m & Hm & Hx); exists (S m); (split; [lia|]); cbn [List.seq map rev];
      rewrite <- app_assoc; exact Hx.
Qed.

Definition nbatches (n : nat) (nblocks : N) : nat := ((N.to_nat nblocks + n - 1) / n)%nat.

(** What a call of [encrypt_blocks] may have done: nothing, or the first
    batches of one record with a fresh sequence number. *)
Definition EncryptTrace (s0 s : Server) (seq nblocks : N) (m : nat) : Prop :=
  seq < 2 ^ 64 /\ ~ In seq (encrypted_seqs (att s0)) /\ 1 <= nblocks <= 1024 /\
  (m <= nbatches AES_ENC_N nblocks)%nat /\ keys s = keys s0 /\
  exists new, log s = new ++ log s0 /\
    aes_runs new = rev (map (enc_input s0 seq nblocks) (List.seq 0 m)).

Lemma step_read {B} (R : Server -> Server -> Prop) {calm : Calm R} P len (k : list N -> M B) Q E :
  (forall s s', P s -> R s s' -> P s') -> (forall s, P s -> E s) ->
  (forall bs, size bs = len -> Forall (fun b => b < 256) bs -> hoare P (k bs) Q E) ->
  hoare P (bind (read_exact_blocking len) k) Q E.
Proof.
  intros Hp He Hk.
  apply (hoare_bind _ _ _ (fun bs s => P s /\ size bs = len /\ Forall (fun b => b < 256) bs)).
  - apply (hoare_weaken _ _ (fun bs s => P s /\ size bs = len /\ Forall (fun b => b < 256) bs) _ P);
      auto. now apply (hoare_read_exact P R).
  - intros bs s (Hs & H1 & H2). now apply Hk.
Qed.

(** The outcome of [encrypt_blocks]. *)
Definition encrypt_done (s0 s : Server) : Prop :=
  exists seq nblocks, EncryptTrace s0 s seq nblocks (nbatches AES_ENC_N nblocks) /\
    encrypted_seqs (att s) = encrypted_seqs (att s0) ++ [seq].

Definition encrypt_stopped (s0 s : Server) : Prop :=
  EncFrom s0 [] s \/
  (exists seq nblocks m, EncryptTrace s0 s seq nblocks m /\
     encrypted_seqs (att s) = encrypted_seqs (att s0)) \/ encrypt_done s0 s.

Lemma blocks_of_len len : 1 <= len <= 16384 -> 1 <= (len + 15) / 16 <= 1024.
Proof.
  intros Hl. split.
  - apply N.div_le_lower_bound; lia.
  - apply N.lt_succ_r, N.Div0.div_lt_upper_bound; lia.
Qed.

Lemma existsb_eqb_false x l : negb (existsb (N.eqb x) l) = true -> ~ In x l.
Proof.
  intros Hn Hin. apply negb_true_iff in Hn. assert (T : existsb (N.eqb x) l = true).
  { apply existsb_exists. exists x. split; [exact Hin | apply N.eqb_refl]. }
  congruence.
Qed.

(** After the batches: the record is entered and the counters updated. *)
Lemma encrypt_finish s0 seq nblocks pt_len a r :
  seq < 2 ^ 64 -> ~ In seq (encrypted_seqs (att s0)) -> 1 <= nblocks <= 1024 ->
  hoare (EncFrom s0 (rev (map (enc_input s0 seq nblocks) (List.seq 0 (nbatches AES_ENC_N nblocks)))))
    (upd_att (set_encrypt_ct_len pt_len) ;;
     upd_att (fun a => set_encrypted_seqs (encrypted_seqs a ++ [seq]) a) ;;
     track_circuit Events.AES_ENCRYPT AES_ENC_C a r)
    (fun _ => encrypt_done s0) (encrypt_stopped s0).
Proof.
  intros Hs Hf Hn s (K & E & new & L & R). unfold bind, upd_att, modify.
  set (s1 := set_att _ (set_att _ s)).
  assert (D : encrypt_done s0 s1).
  { exists seq, nblocks. split; [|cbn; now rewrite E].
    repeat split; try assumption; try lia. exists new. now split. }
  assert (Q : forall s', QuietRel s1 s' -> encrypt_done s0 s').
  { intros s' (K' & E' & new' & L' & R'). destruct D as (q & n & T & Ed). exists q, n.
    split; [|congruence]. destruct T as (? & ? & ? & ? & Kx & nx & Lx & Rx).
    repeat split; try assumption; try lia; [congruence|]. exists (new' ++ nx).
    rewrite L', Lx, app_assoc, aes_runs_app, R'. now split. }
  pose proof (calm_track_circuit (R := QuietRel) Events.AES_ENCRYPT AES_ENC_C a r s1) as Ht.
  destruct (track_circuit _ _ _ _ s1) as [s' []]; cbn [fst] in Ht; try (right; right; now apply Q).
  now apply Q.
Qed.

Lemma encrypt_blocks_spec s0 :
  hoare (EncFrom s0 []) encrypt_blocks (fun _ => encrypt_done s0) (encrypt_stopped s0).
Proof.
  assert (stop : forall s, EncFrom s0 [] s -> encrypt_stopped s0 s) by (intros s Hs; now left).
  assert (tr : forall s s', EncFrom s0 [] s -> QuietRel s s' -> EncFrom s0 [] s')
    by (intros s s'; apply EncFrom_quiet).
  unfold encrypt_blocks. apply step_get. intros has. apply step_require; [exact stop|]. intros _.
  apply (step_read QuietRel); [exact tr | exact stop|]. intros seq_buf Hsz Hby.
  pose proof (be_value_lt _ _ Hby Hsz) as Hseq. cbv zeta.
  apply (step_gets _ _ _ _ _ (encrypted_seqs (att s0))); [intros s Hs; apply Hs|].
  apply step_require; [exact stop|]. intros Hfresh%existsb_eqb_false.
  apply (step_read QuietRel); [exact tr | exact stop|]. intros len_buf _ _. cbv zeta.
  apply step_require; [exact stop|]. intros Hlen.
  apply negb_true_iff, orb_false_iff in Hlen as [Hl1 Hl2].
  apply N.eqb_neq in Hl1. apply N.ltb_ge in Hl2. unfold SSL3_RT_MAX_PLAIN_LENGTH in Hl2.
  pose proof (blocks_of_len (u32_of len_buf) ltac:(lia)) as Hnb.
  set (nblocks := (u32_of len_buf + 15) / 16) in *.
  do 3 (apply (step_respects QuietRel); [srv | exact tr | exact stop | intros []]).
  { intros s. split; [reflexivity | split; [reflexivity|]]. now exists []. }
  do 2 (apply (step_respects QuietRel); [srv | exact tr | exact stop | intros ?]).
  change ((N.to_nat nblocks + AES_ENC_N - 1) / AES_ENC_N)%nat with (nbatches AES_ENC_N nblocks).
  apply (hoare_bind _ _ _ (fun _ => EncFrom s0 (rev (map (enc_input s0 (be_value seq_buf) nblocks)
    (List.seq 0 (nbatches AES_ENC_N nblocks)))))); [|intros []; now apply encrypt_finish].
  eapply hoare_weaken; [apply (hoare_encrypt_batches s0 (be_value seq_buf) nblocks)|..].
  - intros [] s Hs. now rewrite app_nil_r in Hs.
  - intros s (m & Hm & Hs). rewrite app_nil_r in Hs. right. left.
    destruct Hs as (K & E & new & L & R). exists (be_value seq_buf), nblocks, m.
    split; [|exact E]. repeat split; try assumption; try lia. exists new. now split.
Qed.

Lemma encrypt_blocks_outcome s0 :
  match encrypt_blocks s0 with
  | (s', Done _) => encrypt_done s0 s'
  | (s', _) => encrypt_stopped s0 s'
  end.
Proof.
  apply (encrypt_blocks_spec s0 s0). split; [reflexivity | split; [reflexivity|]]. now exists [].
Qed.

(** ** Keystream *)

(** A batch of lanes: the verifier's key share, and counters of verified
    records only, none of them the counter of a tag mask. *)
Definition ks_good (s0 : Server) (r : list N * list (list N)) : Prop :=
  let t := traffic_key_shares (keys s0) in
  fst r = server_key_share t /\ length (snd r) = KS_BATCH_N /\
  Forall (fun blk => exists seq c, In seq (verified_seqs (att s0)) /\ 2 <= c < 2 ^ 32 /\
                       blk = SurfBlockMap.ctr_block (server_iv t) seq c) (snd r).

Definition KsFrom (s0 s : Server) : Prop :=
  keys s = keys s0 /\ att s = att s0 /\
  exists new, log s = new ++ log s0 /\ Forall (ks_good s0) (ks_runs new).

(** Since the first state nothing of interest happened. *)
Definition KsQuiet (s s' : Server) : Prop :=
  keys s' = keys s /\ att s' = att s /\ exists new, log s' = new ++ log s /\ ks_runs new = [].

Lemma ks_runs_app l l' : ks_runs (l ++ l') = ks_runs l ++ ks_runs l'.
Proof. apply flat_map_app. Qed.

#[global] Instance KsQuiet_calm : Calm KsQuiet.
Proof.
  split.
  - split.
    + intros s. split; [reflexivity | split; [reflexivity|]]. now exists [].
    + intros s1 s2 s3 (K & E & n & L & R) (K' & E' & n' & L' & R').
      split; [congruence | split; [congruence|]]. exists (n' ++ n).
      now rewrite L', L, app_assoc, ks_runs_app, R', R.
  - intros s a Hq. split; [reflexivity | split; [reflexivity|]]. exists [a].
    now destruct (quiet_runs a Hq).
  - intros s v. split; [reflexivity | split; [reflexivity|]]. now exists [].
  - intros s v. split; [reflexivity | split; [reflexivity|]]. now exists [].
Qed.

Lemma KsFrom_quiet s0 s s' : KsFrom s0 s -> KsQuiet s s' -> KsFrom s0 s'.
Proof.
  intros (K & E & n & L & R) (K' & E' & n' & L' & R').
  split; [congruence | split; [congruence|]]. exists (n' ++ n).
  rewrite L', L, app_assoc, ks_runs_app, R'. now split.
Qed.

Lemma collect_spec {A} (xs : list (option A)) ys :
  collect xs = Some ys -> length ys = length xs /\ forall y, In y ys -> In (Some y) xs.
Proof.
  revert ys. induction xs as [|[x|] xs IH]; intros ys E; cbn in E; try discriminate.
  - apply some_inj in E as <-. now split.
  - destruct (collect xs) as [zs|]; [|discriminate]. apply some_inj in E as <-.
    destruct (IH zs eq_refl) as [Hl Hi]. split; [cbn; lia|].
    intros y [->|Hy]; [now left | right; now apply Hi].
Qed.

Lemma lane_counter idx : 2 <= N.lor 0x80000000 (wrap 32 idx) < 2 ^ 32.
Proof.
  split.
  - destruct (N.lt_ge_cases (N.lor 0x80000000 (wrap 32 idx)) (2 ^ 31)) as [Hl|Hl].
    + assert (T : N.testbit (N.lor 0x80000000 (wrap 32 idx)) 31 = true)
        by (rewrite N.lor_spec; reflexivity).
      rewrite (testbit_high _ 31) in T; [discriminate | exact Hl | lia].
    + change (2 ^ 31) with 2147483648 in Hl. lia.
  - apply lor_lt; [reflexivity | apply wrap_lt].
Qed.

(** Every lane belongs to one of the records. *)
Lemma ks_lane_spec iv recs nblocks idx blk :
  Forall SurfBlockMap.dims_ok recs -> ks_lane iv recs nblocks idx = Some blk ->
  exists seq c, In seq (map SurfBlockMap.seq recs) /\ 2 <= c < 2 ^ 32 /\
    blk = SurfBlockMap.ctr_block iv seq c.
Proof.
  intros Hok. unfold ks_lane. destruct (idx <? nblocks).
  - destruct (SurfBlockMap.resolve recs idx) as [[q c]|] eqn:E; [|discriminate].
    intros Hs. apply some_inj in Hs as <-. destruct (resolve_range recs idx q c Hok E) as (_ & Hc & Hi).
    exists q, c. split; [exact Hi | split; [|reflexivity]].
    change (2 ^ 31) with 2147483648 in Hc. change (2 ^ 32) with 4294967296. lia.
  - destruct (SurfBlockMap.resolve recs (nblocks - 1)) as [[q c]|] eqn:E; [|discriminate].
    intros Hs. apply some_inj in Hs as <-. destruct (resolve_range recs _ q c Hok E) as (_ & _ & Hi).
    exists q, (N.lor 0x80000000 (wrap 32 idx)). split; [exact Hi | split; [apply lane_counter|reflexivity]].
Qed.

Lemma verified_seqs_in recs v :
  forallb (seq_verified v) recs = true -> forall q, In q (map SurfBlockMap.seq recs) -> In q v.
Proof.
  intros Hf q Hq. apply in_map_iff in Hq as (r & <- & Hr). rewrite forallb_forall in Hf.
  specialize (Hf r Hr). apply existsb_exists in Hf as (x & Hx & E). now apply N.eqb_eq in E as ->.
Qed.

Lemma hoare_ks_batch s0 recs nblocks b :
  Forall SurfBlockMap.dims_ok recs -> forallb (seq_verified (verified_seqs (att s0))) recs = true ->
  hoare (KsFrom s0) (derive_ks_batch recs nblocks b) (fun _ => KsFrom s0) (KsFrom s0).
Proof.
  intros Hok Hv. unfold derive_ks_batch.
  do 2 (apply (step_respects KsQuiet); [srv | apply KsFrom_quiet | auto | intros ?]).
  apply (step_gets _ _ _ _ _ (traffic_key_shares (keys s0))); [intros s (K & _); now rewrite K|].
  apply step_get. intros d.
  destruct (ks_batch_ctrs (server_iv (traffic_key_shares (keys s0))) recs nblocks b) as [ctr|] eqn:Ec;
    [|now apply hoare_fail].
  intros s (K & E & new & L & R). unfold run_circuit, bind, act. set (i := InKSBatch _ _ _).
  assert (H1 : KsFrom s0 (set_log (ARun i :: log s) s)).
  { split; [exact K | split; [exact E|]]. exists (ARun i :: new).
    split; [exact (f_equal (cons (ARun i)) L)|]. constructor; [|exact R].
    unfold ks_batch_ctrs in Ec. apply collect_spec in Ec as [Hl Hi]. split; [reflexivity|].
    split; [rewrite <- (length_seq KS_BATCH_N 0), <- (length_map
             (fun j => ks_lane (server_iv (traffic_key_shares (keys s0))) recs nblocks
                         (N.of_nat (b * KS_BATCH_N + j)))); exact Hl|].
    apply Forall_forall. intros blk Hblk. specialize (Hi blk Hblk).
    apply in_map_iff in Hi as (j & Ej & _).
    destruct (ks_lane_spec _ _ _ _ _ Hok Ej) as (q & c & Hq & Hc & ->).
    exists q, c. split; [now apply (verified_seqs_in recs) | now split]. }
  destruct (reply (log s) (ARun i)) as [[]|]; exact H1.
Qed.

Lemma step_records {B} s0 n (k : list SurfBlockMap.RecordDims -> M B) Q : forall E,
  (forall s, KsFrom s0 s -> E s) ->
  (forall recs, Forall SurfBlockMap.dims_ok recs -> hoare (KsFrom s0) (k recs) Q E) ->
  hoare (KsFrom s0) (bind (read_records n) k) Q E.
Proof.
  intros E He Hk.
  apply (hoare_bind _ _ _ (fun recs s => KsFrom s0 s /\ Forall SurfBlockMap.dims_ok recs)).
  2: { intros recs s [Hs Hok]. now apply Hk. }
  clear Hk. induction n as [|n IH]; cbn [read_records].
  - apply hoare_ret. intros s Hs. now split.
  - apply (hoare_bind _ _ _ (fun r s => KsFrom s0 s /\ SurfBlockMap.dims_ok r)).
    + unfold read_record_dims.
      apply (step_read KsQuiet); [apply KsFrom_quiet | exact He|]. intros ent Hsz Hby. cbv zeta.
      apply step_require; [exact He|]. intros _. apply hoare_ret. intros s Hs.
      split; [exact Hs|]. split; cbn [SurfBlockMap.seq SurfBlockMap.ct_len].
      * apply (be_value_lt (firstn 8 ent) 8).
        -- rewrite <- (firstn_skipn 8 ent) in Hby. now apply Forall_app in Hby.
        -- unfold size in *. rewrite length_firstn. lia.
      * apply u32_of_lt. rewrite <- (firstn_skipn 8 ent) in Hby. now apply Forall_app in Hby.
    + intros r. apply (hoare_bind _ _ _ (fun rs s => (KsFrom s0 s /\ Forall SurfBlockMap.dims_ok rs) /\
                                           SurfBlockMap.dims_ok r)).
      * intros s [Hs Hr]. specialize (IH s Hs). destruct (read_records n s) as [s' []]; auto.
      * intros rs. apply hoare_ret. intros s [[Hs Hrs] Hr]. split; [exact Hs | now constructor].
Qed.

Lemma derive_keystream_spec s0 :
  hoare (KsFrom s0) derive_keystream_blocks (fun _ => KsFrom s0) (KsFrom s0).
Proof.
  unfold derive_keystream_blocks. apply step_get. intros has.
  apply step_require; [auto|]. intros _.
  apply (step_read KsQuiet); [apply KsFrom_quiet | auto|]. intros nrec_buf _ _. cbv zeta.
  apply step_require; [auto|]. intros _.
  apply step_records; [auto|]. intros recs Hok.
  apply (step_gets _ _ _ _ _ (verified_seqs (att s0))); [intros s (_ & E & _); now rewrite E|].
  apply step_require; [auto|]. intros Hv.
  destruct (SurfBlockMap.total_blocks recs =? 0); [now apply hoare_ret|].
  do 2 (apply (step_respects KsQuiet); [srv | apply KsFrom_quiet | auto | intros ?]).
  apply (hoare_bind _ _ _ (fun _ => KsFrom s0)).
  - apply hoare_for_each. intros b _. now apply hoare_ks_batch.
  - intros _. apply (hoare_respects KsQuiet); [srv | apply KsFrom_quiet].
Qed.

(** ** Sequence numbers over a session *)

Definition SeqRel : Conf -> Att -> Att -> Prop := fun _ a a' =>
  NoDup (encrypted_seqs a) -> NoDup (encrypted_seqs a').

#[global] Instance SeqRel_pre c : PreOrder (SeqRel c).
Proof. split; unfold SeqRel; auto. Qed.

#[global] Instance SeqRel_ins : Insensitive (AttRel SeqRel).
Proof. apply AttRel_insensitive; [exact _ | intros c a v Ha; exact Ha]. Qed.

Lemma NoDup_snoc {A} (x : A) l : NoDup l -> ~ In x l -> NoDup (l ++ [x]).
Proof.
  intros Hn Hx. rewrite <- (rev_involutive (l ++ [x])). apply NoDup_rev. rewrite rev_app_distr. cbn.
  constructor; [now rewrite <- in_rev | now apply NoDup_rev].
Qed.

Lemma encrypt_seqs s0 :
  let s := fst (encrypt_blocks s0) in
  encrypted_seqs (att s) = encrypted_seqs (att s0) \/
  exists q, ~ In q (encrypted_seqs (att s0)) /\ encrypted_seqs (att s) = encrypted_seqs (att s0) ++ [q].
Proof.
  pose proof (encrypt_blocks_outcome s0) as O.
  assert (D : forall s, encrypt_done s0 s -> exists q, ~ In q (encrypted_seqs (att s0)) /\
              encrypted_seqs (att s) = encrypted_seqs (att s0) ++ [q]).
  { intros s (q & n & (_ & Hf & _) & E). now exists q. }
  assert (S : forall s, encrypt_stopped s0 s -> encrypted_seqs (att s) = encrypted_seqs (att s0) \/
     exists q, ~ In q (encrypted_seqs (att s0)) /\ encrypted_seqs (att s) = encrypted_seqs (att s0) ++ [q]).
  { intros s [(_ & E & _)|[(q & n & m & _ & E)|Hd]]; auto. }
  cbn zeta. destruct (encrypt_blocks s0) as [s' []]; cbn [fst]; auto.
Qed.

#[global] Instance seq_requests : Requests (R := AttRel SeqRel).
Proof.
  split.
  - intros s. split; [apply seal_requests|]. intros Hn.
    destruct (encrypt_seqs s) as [-> | (q & Hq & ->)]; [exact Hn | now apply NoDup_snoc].
  - apply rel_make_gcm_tag; try exact _; intros c a v Ha; exact Ha.
  - unfold verify_gcm_tag, verify_with_commitment, verify_plain. srv; apply AttRel_upd; intros c x Hx; exact Hx.
  - apply rel_derive_keystream; try exact _; intros c a v Ha; exact Ha.
  - unfold read_key_commitment. srv; [|apply AttRel_upd; intros c x Hx; exact Hx].
    apply calm_read_exact_into. intros bs s. split; [reflexivity|]. intros Ha. exact Ha.
  - unfold release_key. srv. apply AttRel_upd. intros c x Hx. exact Hx.
  - unfold rotate_key_op. srv. apply AttRel_upd. intros c x Hx.
    destruct (_ =? 0); [constructor | exact Hx].
Qed.

End Traces.
