(* ===== verification/ServerProgress.v ===== *)
(** * Progress of a session

    Every handler that returns leaves the server in a later state, so the
    loop of [run] ends. *)

From S2P Require Import Prelude Messaging Util KeyShare BlockMap.
From S2P Require Import ServerState ServerIO ServerHandshake ServerRecords ServerRun ServerLogic.
From Stdlib Require Import RelationClasses Sorted.

Import Server Handshake Records Run.
Local Open Scope N_scope.

Section Progress.
Context `{KeyLib} {W : World} {F : Fuel}.

Definition KeepState (s s' : Server) : Prop := state s' = state s.

#[global] Instance KeepState_blind : Blind KeepState.
Proof.
  split; [split|..]; try reflexivity.
  split; [easy|]. intros a b c E1 E2. unfold KeepState in *. congruence.
Qed.

Lemma keep_upd_att f : respects KeepState (upd_att f).
Proof. intros s. reflexivity. Qed.

Lemma keep_act a : respects KeepState (act a).
Proof. intros s. reflexivity. Qed.

Lemma keep_run_circuit i : respects KeepState (run_circuit i).
Proof.
  unfold run_circuit. apply respects_bind; [apply keep_act | intros [o|]];
    [apply respects_ret | apply respects_fail].
Qed.

Lemma keep_read_into store len :
  (forall bs s, state (store bs s) = state s) -> respects KeepState (read_exact_into store len).
Proof. intros Hs. apply calm_read_exact_into. intros bs s. apply Hs. Qed.

#[local] Hint Resolve keep_upd_att keep_run_circuit : server.

#[global] Instance keep_requests : Requests (R := KeepState).
Proof.
  split; unfold encrypt_blocks, encrypt_batch, make_gcm_tag, verify_gcm_tag, verify_with_commitment,
    verify_plain, derive_keystream_blocks, derive_ks_batch, read_key_commitment, release_key,
    rotate_key_op; srv; now apply keep_read_into.
Qed.

(** ** Each handler moves on *)

(** From a state at [st], a return leads past [st]. *)
Definition moves (st : ServerState) (m : M unit) : Prop :=
  hoare (fun s => state s = st) m (fun _ s => state_code st < state_code (state s)) (fun _ => True).

Lemma moves_goto st st' : state_code st < state_code st' -> moves st (goto st').
Proof. intros Hl s _. exact Hl. Qed.

Lemma moves_advance st : state_code st < state_code (next_state st) -> moves st advance.
Proof. intros Hl s <-. exact Hl. Qed.

Lemma moves_bind {A} st (m : M A) (k : A -> M unit) :
  respects KeepState m -> (forall a, moves st (k a)) -> moves st (bind m k).
Proof.
  intros Hm Hk. apply (step_respects KeepState); auto.
  intros s s' E E'. unfold KeepState in E'. congruence.
Qed.

Lemma moves_fail st : moves st fail.
Proof. now intros s _. Qed.

Lemma moves_abort st : moves st abort.
Proof. now intros s _. Qed.

(** [do_handshake] and [write_handshake_done] pass through other states. *)
Lemma moves_bind_any {A} st (m : M A) (k : A -> M unit) :
  (forall a, hoare (fun _ => True) (k a) (fun _ s => state_code st < state_code (state s)) (fun _ => True)) ->
  moves st (bind m k).
Proof.
  intros Hk. apply (hoare_bind _ _ _ (fun _ _ => True)); [|exact Hk].
  intros s _. now destruct (m s) as [s' []].
Qed.

Lemma any_bind {A} st (m : M A) (k : A -> M unit) :
  (forall a, hoare (fun _ => True) (k a) (fun _ s => state_code st < state_code (state s)) (fun _ => True)) ->
  hoare (fun _ => True) (bind m k) (fun _ s => state_code st < state_code (state s)) (fun _ => True).
Proof.
  intros Hk. apply (hoare_bind _ _ _ (fun _ _ => True)); [|exact Hk].
  intros s _. now destruct (m s) as [s' []].
Qed.

Lemma any_goto st st' : state_code st < state_code st' ->
  hoare (fun _ => True) (goto st') (fun _ s => state_code st < state_code (state s)) (fun _ => True).
Proof. intros Hl s _. exact Hl. Qed.

Ltac move_step :=
  lazymatch goal with
  | |- moves _ (bind _ _) => apply moves_bind; [srv | intros ?]
  | |- moves _ fail => apply moves_fail
  | |- moves _ abort => apply moves_abort
  | |- moves _ advance => apply moves_advance; reflexivity
  | |- moves _ (goto _) => apply moves_goto; reflexivity
  | |- moves _ (if ?b then _ else _) => destruct b
  | |- moves _ (match ?x with _ => _ end) => destruct x
  end.

Lemma moves_write_handshake_done : moves HANDSHAKE_DONE write_handshake_done.
Proof.
  unfold write_handshake_done, handshake_done_impl, unpack_buffer. repeat move_step.
Qed.

Lemma moves_do_handshake : moves HANDSHAKE do_handshake.
Proof.
  unfold do_handshake, unpack_buffer. do 4 move_step.
  - repeat move_step.
  - apply moves_bind_any. intros []. repeat (apply any_bind; intros ?). now apply any_goto.
Qed.

Lemma handler_moves st p : st <> DONE -> st <> SIZE -> moves st (handler st p).
Proof.
  intros Hd Hs. destruct st; try congruence; cbn [handler];
    try exact moves_do_handshake; try exact moves_write_handshake_done;
    unfold accept, do_preproc, read_mask_commitments, read_keyshare_after_handshake, create_new_share,
      send_additive_share, do_psk_binder, read_sks_keyshare, finish_tph, write_hs_recv, do_ectf,
      finish_ectf, do_ks, write_ks_done, do_cert_wait, read_transcript_data, write_cert_recv,
      derive_ts, derive_gcm_shares, write_completed_derivation, derive_res, write_completed_res,
      derive_psk, read_header_draining_encryption, write_completed_psk, attest, shutdown;
    repeat move_step; now apply keep_read_into.
Qed.

(** ** The loop of [run] *)

Lemma state_code_le st : state_code st <= 27.
Proof. destruct st; cbn; lia. Qed.

Lemma last_states st : 27 - state_code st <= 1 -> st = DONE \/ st = SIZE.
Proof. destruct st; cbn; intros Hl; auto; lia. Qed.

Lemma run_loop_eq n stop p s :
  run_loop n stop p s =
  if should_stop (state s) stop then (s, Done tt)
  else match n with
       | O => (s, Waiting)
       | S n => bind (handler (state s) p) (fun _ => run_loop n stop p) s
       end.
Proof.
  destruct n; cbn [run_loop]; unfold bind at 1, gets; now destruct (should_stop (state s) stop).
Qed.

(** The loop as the source has it, with no bound on its rounds: it stops, or a
    handler ends in something other than success and this is the result of
    [run], or a handler succeeds and the loop goes on.  The list holds the
    state of each round.  Running out of rounds is not a result. *)
Inductive Loops (stop : ServerState) (p : bool) : list ServerState -> Server -> Server * Outcome unit -> Prop :=
  | loops_stop s : should_stop (state s) stop = true -> Loops stop p [] s (s, Done tt)
  | loops_end s s' o : should_stop (state s) stop = false -> handler (state s) p s = (s', o) -> o <> Done tt ->
      Loops stop p [state s] s (s', o)
  | loops_round s s' r visited : should_stop (state s) stop = false -> handler (state s) p s = (s', Done tt) ->
      Loops stop p visited s' r -> Loops stop p (state s :: visited) s r.

(** A successful round leads to a later state. *)
Lemma round_moves p s s' : handler (state s) p s = (s', Done tt) -> state_code (state s) < state_code (state s').
Proof.
  intros Eh. destruct (N.leb_spec 26 (state_code (state s))) as [H26|H26].
  - destruct (last_states (state s)) as [E|E]; [lia|..]; rewrite E in Eh; discriminate.
  - assert (Mv : moves (state s) (handler (state s) p)).
    { apply handler_moves; intros E; rewrite E in *; cbn in *; lia. }
    specialize (Mv s eq_refl). now rewrite Eh in Mv.
Qed.

(** The states of the rounds come in increasing order. *)
Lemma loops_increase stop p visited s r : Loops stop p visited s r ->
  Forall (fun st => state_code (state s) <= state_code st) visited /\
  StronglySorted (fun x y => state_code x < state_code y) visited.
Proof.
  induction 1 as [s _|s s' o _ _ _|s s' r visited _ Eh _ [IHf IHs]].
  - now split; constructor.
  - split; repeat constructor. reflexivity.
  - apply round_moves in Eh. split; constructor; try reflexivity; try assumption;
      eapply Forall_impl; [|exact IHf| |exact IHf]; cbn beta; intros; lia.
Qed.

Lemma loops_length stop p visited s r : Loops stop p visited s r ->
  N.of_nat (length visited) + state_code (state s) <= 27.
Proof.
  induction 1 as [s _|s s' o Es _ _|s s' r visited Es Eh _ IH].
  - apply state_code_le.
  - apply N.leb_gt in Es. pose proof (state_code_le stop). cbn [length]. lia.
  - apply round_moves in Eh. cbn [length]. lia.
Qed.

Lemma loops_exist stop p : forall n s, 27 - state_code (state s) <= N.of_nat n ->
  exists visited r, Loops stop p visited s r.
Proof.
  induction n as [|n IH]; intros s Hn; destruct (should_stop (state s) stop) eqn:Es;
    try (do 2 eexists; now apply loops_stop).
  - apply N.leb_gt in Es. pose proof (state_code_le stop). lia.
  - destruct (handler (state s) p s) as [s' o] eqn:Eh. destruct o as [[]| | | |];
      try (do 2 eexists; eapply loops_end; [exact Es | exact Eh | discriminate]).
    pose proof (round_moves p s s' Eh). destruct (IH s') as (visited & r & L); [lia|].
    do 2 eexists. eapply loops_round; [exact Es | exact Eh | exact L].
Qed.

(** The function on enough rounds computes the relation. *)
Lemma loops_run stop p visited s r : Loops stop p visited s r ->
  forall n, (length visited <= n)%nat -> run_loop n stop p s = r.
Proof.
  induction 1 as [s Es|s s' o Es Eh Ho|s s' r visited Es Eh _ IH]; intros n Hn; rewrite run_loop_eq, Es.
  - reflexivity.
  - destruct n as [|n]; cbn [length] in Hn; [lia|]. unfold bind. rewrite Eh. destruct o as [[]| | | |]; congruence.
  - destruct n as [|n]; cbn [length] in Hn; [lia|]. unfold bind. rewrite Eh. apply IH. lia.
Qed.

(** A run that stopped is not changed by more rounds, and may be cut at an
    earlier state. *)
Lemma run_loop_more stop p m : forall n s r, run_loop n stop p s = (r, Done tt) -> run_loop (n + m) stop p s = (r, Done tt).
Proof.
  induction n as [|n IH]; intros s r; rewrite !run_loop_eq; destruct (should_stop (state s) stop); auto; [discriminate|].
  cbn [Nat.add]. unfold bind. destruct (handler (state s) p s) as [s' []]; auto; discriminate.
Qed.

Lemma run_loop_cut first stop p m : state_code first <= state_code stop -> forall n s s1 r,
  run_loop n first p s = (s1, Done tt) -> run_loop m stop p s1 = (r, Done tt) -> run_loop (n + m) stop p s = (r, Done tt).
Proof.
  intros Hle. induction n as [|n IH]; intros s s1 r; rewrite (run_loop_eq _ first).
  - destruct (should_stop (state s) first); [|discriminate]. intros [= <-]. auto.
  - destruct (should_stop (state s) first) eqn:E1.
    + intros [= <-] Hr. rewrite Nat.add_comm. now apply run_loop_more.
    + unfold bind. destruct (handler (state s) p s) as [s' o] eqn:Eh. destruct o as [[]| | | |]; try discriminate. intros H1 H2.
      rewrite run_loop_eq. replace (should_stop (state s) stop) with false.
      * cbn [Nat.add]. unfold bind. rewrite Eh. now apply (IH s' s1).
      * symmetry. apply N.leb_gt in E1. apply N.leb_gt. lia.
Qed.

Lemma run_loop_stops stop p n s s' :
  run_loop n stop p s = (s', Done tt) -> should_stop (state s') stop = true.
Proof.
  revert s. induction n as [|n IH]; intros s; rewrite run_loop_eq;
    destruct (should_stop (state s) stop) eqn:E.
  - intros [= <-]. exact E.
  - intros [=].
  - intros [= <-]. exact E.
  - unfold bind. destruct (handler (state s) p s) as [s1 []]; intros Hr; try discriminate Hr. exact (IH s1 Hr).
Qed.

End Progress.

(** C31: The loop of [run] ends, from every state and whatever the prover does,
    with at most one round for each state: it has a result in the semantics
    that does not bound the rounds ([Loops]: the end of the last handler, or
    the stop state), the states of its rounds come in strictly increasing
    order, so none comes twice, there are at most as many as states left, and
    the function gives that result on every number of rounds from [run_fuel],
    so that it never stops for want of rounds. *)
Theorem run_loop_terminates (K : KeyLib) (W : World) (F : Fuel) stop p (s : Server) :
  exists visited r,
    Loops stop p visited s r /\
    StronglySorted (fun x y => state_code x < state_code y) visited /\
    N.of_nat (length visited) + state_code (state s) <= 27 /\
    forall n, (run_fuel <= n)%nat -> run_loop n stop p s = r.
Proof.
  destruct (loops_exist stop p run_fuel s) as (visited & r & L); [unfold run_fuel; lia|].
  pose proof (loops_length _ _ _ _ _ L). exists visited, r.
  repeat split; [exact L | apply (loops_increase _ _ _ _ _ L) | assumption |].
  intros n Hn. apply (loops_run _ _ _ _ _ L). unfold run_fuel in Hn. lia.
Qed.

(** C33: Every handler of a state before [DONE] that returns moves the server to
    a state with a larger number. *)
Theorem handlers_progress (K : KeyLib) (W : World) (F : Fuel) (s s' : Server) p :
  state s <> DONE -> state s <> SIZE -> handler (state s) p s = (s', Done tt) ->
  state_code (state s) < state_code (state s').
Proof.
  intros Hd Hs E. pose proof (handler_moves (state s) p Hd Hs s eq_refl) as M. now rewrite E in M.
Qed.
