(* ===== verification/ServerVerify.v ===== *)
(** * Verified records

    What it takes for a record to be entered as verified, and the safety of
    the tag computation. *)

From S2P Require Import Prelude Block128 FieldCode Messaging Util KeyShare BlockMap GHash.
From S2P Require Import ServerState ServerIO ServerHandshake ServerRecords ServerRun ServerLogic.
From S2P Require Import ServerSafety ServerTrace.
From Stdlib Require Import RelationClasses.

Import Server Handshake Records Run.
Local Open Scope N_scope.

(** ** The initial counter *)

(** The IV built in [verify_gcm_tag] is the block [J0] of the record. *)
Lemma verify_iv_j0 iv seq :
  length iv = 12%nat -> verify_iv iv seq = SurfBlockMap.ctr_block iv seq 1.
Proof.
  intros Hl. do 12 (destruct iv as [|? iv]; [discriminate|]). destruct iv; [|discriminate].
  rewrite ctr_block_eq. unfold verify_iv. cbn -[N.shiftr wrap N.mul N.lxor].
  repeat (f_equal; try (now rewrite N.lxor_0_l); try apply N.lxor_comm).
Qed.

Section Verify.
Context `{KeyLib} {W : World} {F : Fuel} {wok : WorldOk W}.

(** ** Requests *)

(** Nothing but the log and the counters has changed. *)
Definition SameAtt (s s' : Server) : Prop :=
  conf s' = conf s /\ keys s' = keys s /\ att s' = att s /\ circuits s' = circuits s /\
  exists new, log s' = new ++ log s.

#[global] Instance SameAtt_calm : Calm SameAtt.
Proof.
  split; [split|..].
  - intros s. repeat (split; [reflexivity|]). now exists [].
  - intros s1 s2 s3 (C & K & A & X & n & L) (C' & K' & A' & X' & n' & L').
    repeat (split; [congruence|]). exists (n' ++ n). now rewrite L', L, app_assoc.
  - intros s a _. repeat (split; [reflexivity|]). now exists [a].
  - intros s v. repeat (split; [reflexivity|]). now exists [].
  - intros s v. repeat (split; [reflexivity|]). now exists [].
Qed.

Lemma SameAtt_trans s1 s2 s3 : SameAtt s1 s2 -> SameAtt s2 s3 -> SameAtt s1 s3.
Proof. apply SameAtt_calm. Qed.

(** The bounds a request has passed. *)
Definition request_ok (rq : VerifyRequest) : Prop :=
  rq_seq rq < 2 ^ 64 /\ size (rq_aad rq) = 5 /\ 1 <= size (rq_ciphertext rq) <= 16385 /\
  size (rq_server_tag rq) = 16 /\
  Forall (fun b => b < 256) (rq_aad rq) /\ Forall (fun b => b < 256) (rq_ciphertext rq).

Lemma hoare_request s0 :
  hoare (SameAtt s0) read_verify_request (fun rq s => SameAtt s0 s /\ request_ok rq) (SameAtt s0).
Proof.
  assert (tr : forall s s', SameAtt s0 s -> SameAtt s s' -> SameAtt s0 s') by (apply SameAtt_trans).
  unfold read_verify_request.
  apply (step_read SameAtt); [exact tr | auto|]. intros seq_buf Hs1 Hb1.
  apply (step_read SameAtt); [exact tr | auto|]. intros aad_len_buf Hs2 Hb2. cbv zeta.
  apply step_require; [auto|]. intros Ha%N.eqb_eq. rewrite Ha.
  apply (step_read SameAtt); [exact tr | auto|]. intros aad Hs3 Hb3.
  apply (step_read SameAtt); [exact tr | auto|]. intros ct_len_buf Hs4 Hb4. cbv zeta.
  apply step_require; [auto|]. intros Hlen. apply negb_true_iff, orb_false_iff in Hlen as [H1 H2].
  apply N.eqb_neq in H1. apply N.ltb_ge in H2. unfold SSL3_RT_MAX_PLAIN_LENGTH in H2.
  apply (step_read SameAtt); [exact tr | auto|]. intros ct Hs5 Hb5.
  apply (step_read SameAtt); [exact tr | auto|]. intros tag Hs6 Hb6.
  do 2 (apply (step_respects SameAtt); [srv | exact tr | auto | intros []]).
  apply hoare_ret. intros s Hs. split; [exact Hs|].
  repeat split; cbn [rq_seq rq_aad rq_ciphertext rq_server_tag]; try assumption; try lia.
  apply (be_value_lt seq_buf 8 Hb1 Hs1).
Qed.

(** A record of this size needs at most 1027 of the 1088 powers. *)
Lemma request_fits rq :
  request_ok rq -> (block_count (rq_aad rq) (rq_ciphertext rq) <= 1027)%nat.
Proof.
  intros (_ & Ha & Hc & _). unfold size in *. unfold block_count.
  assert (A : ((length (rq_aad rq) + 15) / 16 = 1)%nat).
  { replace (length (rq_aad rq)) with 5%nat by lia. reflexivity. }
  assert (C : ((length (rq_ciphertext rq) + 15) / 16 <= 1025)%nat).
  { apply Nat.Div0.div_le_upper_bound. lia. }
  lia.
Qed.

Lemma request_share powers rq :
  request_ok rq -> exists ts, GHash.share powers (rq_aad rq) (rq_ciphertext rq) = Some ts.
Proof.
  intros Hrq. pose proof (request_fits rq Hrq) as Hf. destruct Hrq as (_ & _ & _ & _ & Ba & Bc).
  rewrite share_eq by assumption. rewrite (proj2 (Nat.ltb_ge _ _)); [eauto|].
  unfold GHash.kMaxPowers. lia.
Qed.

(** ** The verdict of the circuit *)

(** The input of the verification circuit for a request. *)
Definition verify_input (s0 : Server) (rq : VerifyRequest) (tag_share : list N) : CircuitIn :=
  let t := traffic_key_shares (keys s0) in
  let iv := verify_iv (server_iv t) (rq_seq rq) in
  if true_surf (conf s0)
  then InGCMVfyCommit (server_key_share t) iv tag_share (rq_server_tag rq) (key_commitment (att s0))
  else InGCMVfy (server_key_share t) iv tag_share (rq_server_tag rq).

(** The circuit found the tag right, no cheating and, where a commitment is
    checked, that the prover's key share opens it. *)
Definition accepts (i : CircuitIn) : option (CircuitOut i) -> bool :=
  match i as i return option (CircuitOut i) -> bool with
  | InGCMVfy _ _ _ _ => fun o => match o with Some (true, false) => true | _ => false end
  | InGCMVfyCommit _ _ _ _ _ => fun o => match o with Some (true, false, true) => true | _ => false end
  | _ => fun _ => false
  end.

(** Between [s0] and [s] the circuit was run on [i] and accepted. *)
Definition ran_ok (s0 s : Server) (i : CircuitIn) : Prop :=
  exists newer older, log s = newer ++ ARun i :: older ++ log s0 /\
    accepts i (reply (older ++ log s0) (ARun i)) = true.

(** The record layer once the record of a request is entered. *)
Definition entered (c : Conf) (a : Att) (rq : VerifyRequest) : Att :=
  set_verified_seqs (verified_seqs a ++ [rq_seq rq])
    (if true_surf c && retain_ct c
     then set_attested_ct (attested_ct a ++ [(rq_seq rq, rq_ciphertext rq)]) a else a).

Definition verified (s0 s : Server) : Prop :=
  conf s = conf s0 /\ keys s = keys s0 /\
  exists rq tag_share, request_ok rq /\
    GHash.share (server_gcm_powers (keys s0)) (rq_aad rq) (rq_ciphertext rq) = Some tag_share /\
    ran_ok s0 s (verify_input s0 rq tag_share) /\ att s = entered (conf s0) (att s0) rq.

(** The end of a verification: the record is entered, or nothing changed. *)
Definition verify_stopped (s0 s : Server) : Prop := SameAtt s0 s \/ verified s0 s.
Definition verify_done (s0 s : Server) : Prop :=
  verified s0 s \/ (is_rotate (mode (conf s0)) = true /\ SameAtt s0 s).

Lemma verified_calm s0 s s' : verified s0 s -> SameAtt s s' -> verified s0 s'.
Proof.
  intros (C & K & rq & ts & Hr & Hs & (nw & od & L & A) & E) (C' & K' & E' & _ & n & L').
  split; [congruence | split; [congruence|]]. exists rq, ts. repeat (split; [assumption|]).
  split; [|congruence]. exists (n ++ nw), od. split; [|exact A]. now rewrite L', L, app_assoc.
Qed.

(** One run of the verification circuit. *)
Lemma run_verify s0 s i :
  SameAtt s0 s ->
  match run_circuit i s with
  | (s', Done o) => SameAtt s0 s' /\ (accepts i (Some o) = true -> ran_ok s0 s' i)
  | (s', _) => SameAtt s0 s'
  end.
Proof.
  intros (C & K & A & X & n & L). unfold run_circuit, bind, act.
  assert (S1 : SameAtt s0 (set_log (ARun i :: log s) s)).
  { repeat (split; [assumption|]). exists (ARun i :: n). exact (f_equal (cons (ARun i)) L). }
  destruct (reply (log s) (ARun i)) as [o|] eqn:E; [|exact S1]. split; [exact S1|].
  intros Ha. exists [], n. rewrite <- L, E. now split.
Qed.

Lemma verify_plain_spec s0 rq ts :
  true_surf (conf s0) = false -> request_ok rq ->
  GHash.share (server_gcm_powers (keys s0)) (rq_aad rq) (rq_ciphertext rq) = Some ts ->
  hoare (SameAtt s0) (verify_plain rq (verify_iv (server_iv (traffic_key_shares (keys s0))) (rq_seq rq)) ts)
    (fun _ => verify_done s0) (verify_stopped s0).
Proof.
  intros Ht Hrq Hts s Hs. unfold verify_plain, bind, gets.
  pose proof (run_verify s0 s (verify_input s0 rq ts) Hs) as Hr.
  assert (K : keys s = keys s0) by apply Hs. rewrite K.
  unfold verify_input in Hr. rewrite Ht in Hr.
  destruct (run_circuit _ s) as [s1 [[[] []]| | | |]]; try (left; apply Hr); try (now left).
  destruct Hr as [Hs1 Ho]. left. specialize (Ho eq_refl).
  unfold upd_att, modify, require, ret. cbn. destruct Hs1 as (C & K1 & A & _).
  split; [exact C | split; [exact K1|]]. exists rq, ts. repeat (split; [assumption|]).
  unfold verify_input, entered. rewrite Ht. split; [exact Ho | cbn; now rewrite A].
Qed.

(** Entering a record, and the reply in the rotation mode. *)
Lemma enter_spec s0 rq ts s1 :
  true_surf (conf s0) = true -> request_ok rq ->
  GHash.share (server_gcm_powers (keys s0)) (rq_aad rq) (rq_ciphertext rq) = Some ts ->
  SameAtt s0 s1 -> ran_ok s0 s1 (verify_input s0 rq ts) ->
  match
    (retain <- gets (fun s => retain_ct (conf s)) ;;
     (if retain
      then upd_att (fun a => set_attested_ct (attested_ct a ++ [(rq_seq rq, rq_ciphertext rq)]) a)
      else ret tt) ;;
     upd_att (fun a => set_verified_seqs (verified_seqs a ++ [rq_seq rq]) a) ;;
     (if is_rotate (mode (conf s0)) then write_single_header MessageHeaders.TAG_OK else ret tt)) s1
  with
  | (s', Done _) => verify_done s0 s'
  | (s', _) => verify_stopped s0 s'
  end.
Proof.
  intros Ht Hrq Hts (C & K & A & _) Ho. unfold bind at 1, gets. rewrite C.
  set (s2 := set_att (entered (conf s0) (att s0) rq) s1).
  assert (V : verified s0 s2).
  { split; [exact C | split; [exact K|]]. exists rq, ts. repeat (split; [assumption|]). reflexivity. }
  assert (E : forall k : M unit,
    ((if retain_ct (conf s0)
      then upd_att (fun a => set_attested_ct (attested_ct a ++ [(rq_seq rq, rq_ciphertext rq)]) a)
      else ret tt) ;;
     upd_att (fun a => set_verified_seqs (verified_seqs a ++ [rq_seq rq]) a) ;; k) s1 = k s2).
  { intros k. subst s2. unfold entered. rewrite Ht. unfold bind, upd_att, modify, ret.
    destruct (retain_ct (conf s0)); cbn; now rewrite A. }
  rewrite E. destruct (is_rotate _); [|now left].
  pose proof (verified_calm _ _ _ V (calm_write_single_header MessageHeaders.TAG_OK s2)) as V3.
  destruct (write_single_header _ s2) as [s3 []]; try (right; exact V3). now left.
Qed.

Lemma verify_commit_spec s0 rq ts :
  true_surf (conf s0) = true -> request_ok rq ->
  GHash.share (server_gcm_powers (keys s0)) (rq_aad rq) (rq_ciphertext rq) = Some ts ->
  hoare (SameAtt s0)
    (verify_with_commitment rq (verify_iv (server_iv (traffic_key_shares (keys s0))) (rq_seq rq)) ts)
    (fun _ => verify_done s0) (verify_stopped s0).
Proof.
  intros Ht Hrq Hts s Hs. unfold verify_with_commitment. unfold bind at 1 2, gets at 1 2.
  pose proof (run_verify s0 s (verify_input s0 rq ts) Hs) as Hr.
  destruct Hs as (C & K & A & Hs'). rewrite K, A. unfold verify_input in Hr. rewrite Ht in Hr.
  unfold bind at 1.
  destruct (run_circuit _ s) as [s1 [[[tp ch] ko]| | | |]]; try (left; exact Hr).
  destruct Hr as [Hs1 Ho]. unfold require, bind at 1.
  destruct ch; [now left|]. cbn [negb ret]. unfold bind at 1. destruct ko; [|now left].
  cbn [ret]. unfold bind at 1, gets at 1.
  assert (C1 : conf s1 = conf s0) by apply Hs1. rewrite C1.
  assert (W1 : forall h s s', SameAtt s s' -> SameAtt s (fst (write_single_header h s'))).
  { intros h x y Hx. eapply SameAtt_trans; [exact Hx|]. apply calm_write_single_header. }
  destruct tp; cbn [negb].
  - apply (enter_spec s0 rq ts s1); try assumption. unfold verify_input. rewrite Ht. now apply Ho.
  - destruct (is_rotate (mode (conf s0))) eqn:Er; [|now left].
    specialize (W1 MessageHeaders.TAG_REJECT s0 s1 Hs1).
    destruct (write_single_header _ s1) as [s2 []]; try (left; exact W1). right. now split.
Qed.

Lemma verify_gcm_tag_spec s0 :
  match verify_gcm_tag s0 with
  | (s', Done _) => verify_done s0 s'
  | (s', _) => verify_stopped s0 s'
  end.
Proof.
  assert (S0 : SameAtt s0 s0) by reflexivity.
  assert (Stop : forall s, SameAtt s0 s -> verify_stopped s0 s) by (intros s Hs; now left).
  revert S0. generalize s0 at 2 3 as s. change (hoare (SameAtt s0) verify_gcm_tag (fun _ => verify_done s0) (verify_stopped s0)).
  unfold verify_gcm_tag.
  apply (step_gets _ _ _ _ _ (true_surf (conf s0))); [intros s (-> & _); reflexivity|].
  apply step_get. intros a.
  apply (step_respects SameAtt); [srv | apply SameAtt_trans | exact Stop | intros _].
  apply (hoare_bind _ _ _ (fun rq s => SameAtt s0 s /\ request_ok rq)).
  { eapply hoare_weaken; [apply hoare_request | auto | exact Stop]. }
  intros rq. intros s [Hs Hrq]. revert s Hs.
  match goal with |- forall s, SameAtt s0 s -> match ?m s with _ => _ end =>
    change (hoare (SameAtt s0) m (fun _ => verify_done s0) (verify_stopped s0)) end.
  apply (step_gets _ _ _ _ _ (server_gcm_powers (keys s0))); [intros s (_ & -> & _); reflexivity|].
  destruct (GHash.share _ _ _) as [ts|] eqn:Hts; [|now apply hoare_fail].
  apply (step_gets _ _ _ _ _ (verify_iv (server_iv (traffic_key_shares (keys s0))) (rq_seq rq)));
    [intros s (_ & -> & _); reflexivity|].
  apply step_get. intros ok. apply step_require; [exact Stop|]. intros _.
  destruct (true_surf (conf s0)) eqn:Et; [now apply verify_commit_spec | now apply verify_plain_spec].
Qed.

End Verify.
