(* ===== verification/ServerTag.v ===== *)
(** * No request uses a null pointer

    The requests of the record layer dereference circuits after testing them,
    and [make_gcm_tag] takes the last element of [encrypted_seqs] and indexes
    [encrypted_ct].  An invariant on the fields the encryption fills makes
    both safe, as long as no request has failed. *)

From S2P Require Import Prelude Block128 FieldCode Messaging Util KeyShare BlockMap GHash.
From S2P Require Import ServerState ServerIO ServerHandshake ServerRecords ServerRun ServerLogic.
From S2P Require Import ServerSafety ServerTrace.
From Stdlib Require Import RelationClasses.

Import Server Handshake Records Run.
Local Open Scope N_scope.

(** ** Triples that exclude a null pointer *)

Definition safe `{KeyLib} {A} (P : Server -> Prop) (m : M A) (Q : A -> Server -> Prop) : Prop :=
  forall s, P s ->
    match m s with (s', Done a) => Q a s' | (_, NullDeref) => False | _ => True end.

(** Methods that keep an assertion. *)
Abbreviation plain P m := (safe P%function m (fun _ => P%function)).

Section Null.
Context `{KeyLib} {W : World} {F : Fuel}.

Lemma safe_bind {A B} P (m : M A) (k : A -> M B) R Q :
  safe P m R -> (forall a, safe (R a) (k a) Q) -> safe P (bind m k) Q.
Proof.
  intros Hm Hk s Hs. specialize (Hm s Hs). unfold bind.
  destruct (m s) as [s' [a| | | |]]; try exact Hm. now apply Hk.
Qed.

Lemma safe_post {A} P (m : M A) (Q Q' : A -> Server -> Prop) :
  safe P m Q -> (forall a s, Q a s -> Q' a s) -> safe P m Q'.
Proof.
  intros Hm Hq s Hs. specialize (Hm s Hs). destruct (m s) as [s' []]; try exact Hm. now apply Hq.
Qed.

Lemma safe_fail {A} P (Q : A -> Server -> Prop) : safe P fail Q.
Proof. now intros s _. Qed.

Lemma safe_waiting {A} P (Q : A -> Server -> Prop) : safe P waiting Q.
Proof. now intros s _. Qed.

Lemma safe_ret {A} (P : Server -> Prop) (a : A) (Q : A -> Server -> Prop) :
  (forall s, P s -> Q a s) -> safe P (ret a) Q.
Proof. intros Hq s Hs. now apply Hq. Qed.

Lemma safe_modify (P : Server -> Prop) f (Q : unit -> Server -> Prop) :
  (forall s, P s -> Q tt (f s)) -> safe P (modify f) Q.
Proof. intros Hq s Hs. now apply Hq. Qed.

Lemma plain_step {A B} P (m : M A) (k : A -> M B) Q :
  plain P m -> (forall a, safe P (k a) Q) -> safe P (bind m k) Q.
Proof. intros Hm Hk. exact (safe_bind _ _ _ (fun _ => P) _ Hm Hk). Qed.

Lemma plain_gets {A} P (f : Server -> A) : plain P (gets f).
Proof. intros s Hs. exact Hs. Qed.

Lemma plain_require P b : plain P (require b).
Proof. intros s Hs. now destruct b. Qed.

Lemma guard_step {B} (P : Server -> Prop) b (k : M B) Q :
  (b = true -> safe P k Q) -> safe P (bind (require b) (fun _ => k)) Q.
Proof. intros Hk s Hs. destruct b; [now apply Hk | exact I]. Qed.

(** [if (!c) return false;] *)
Lemma has_step {B} (P : Server -> Prop) c (k : M B) Q :
  safe (fun s => P s /\ has_circuit c s = true) k Q ->
  safe P (ok <- gets (has_circuit c) ;; require ok ;; k) Q.
Proof.
  intros Hk s Hs. unfold bind, gets, require. destruct (has_circuit c s) eqn:E; [|exact I].
  now apply Hk.
Qed.

Lemma safe_if {A} P (b : bool) (m n : M A) Q : safe P m Q -> safe P n Q -> safe P (if b then m else n) Q.
Proof. now destruct b. Qed.

(** ** The assertions: the record-layer fields and the circuits *)

Definition about (P : Att -> list CircuitId -> Prop) (s : Server) : Prop := P (att s) (circuits s).

Section About.
Variable P : Att -> list CircuitId -> Prop.

Lemma plain_act a : plain (about P) (act a).
Proof. intros s Hs. exact Hs. Qed.

Lemma plain_track e n : plain (about P) (track e n).
Proof. intros s Hs. exact Hs. Qed.

Lemma plain_track_rounds e n : plain (about P) (track_rounds e n).
Proof. intros s Hs. exact Hs. Qed.

Lemma plain_upd_keys f : plain (about P) (upd_keys f).
Proof. intros s Hs. exact Hs. Qed.

Lemma plain_run_circuit i : plain (about P) (run_circuit i).
Proof.
  apply plain_step; [apply plain_act | intros [o|]]; [now apply safe_ret | apply safe_fail].
Qed.

Lemma plain_read_loop n store len : forall acc,
  (forall bs s, about P s -> about P (store bs s)) -> plain (about P) (read_loop n store len acc).
Proof.
  induction n as [|n IH]; intros acc Hs; cbn [read_loop]; apply safe_if;
    try apply safe_waiting; try (now apply safe_ret).
  apply plain_step; [apply plain_act | intros [bs|[]|]]; try apply safe_fail.
  - apply (safe_bind _ _ _ (fun _ => about P)); [apply safe_modify; auto | intros _; now apply IH].
  - now apply IH.
Qed.

Lemma plain_read_into store len :
  (forall bs s, about P s -> about P (store bs s)) -> plain (about P) (read_exact_into store len).
Proof. apply plain_read_loop. Qed.

Lemma plain_read len : plain (about P) (read_exact_blocking len).
Proof. now apply plain_read_into. Qed.

Lemma plain_write bs : plain (about P) (socket_write bs).
Proof.
  apply safe_if; [apply safe_fail|]. apply plain_step; [apply plain_act | intros ok; apply plain_require].
Qed.

Lemma plain_make_gcm_share k : plain (about P) (make_gcm_share k).
Proof. apply plain_step; [apply plain_act | intros [o|]]; [now apply safe_ret | apply safe_fail]. Qed.

Lemma plain_for_each {A} (xs : list A) body :
  (forall x, plain (about P) (body x)) -> plain (about P) (for_each xs body).
Proof.
  intros Hb. induction xs as [|x xs IH]; [now apply safe_ret|].
  apply plain_step; [apply Hb | intros _; exact IH].
Qed.

Lemma plain_header : plain (about P) read_single_header.
Proof.
  apply plain_step; [apply plain_read | intros bs]. cbv zeta.
  apply plain_step; [apply plain_require | intros _; now apply safe_ret].
Qed.

Lemma plain_records n : plain (about P) (read_records n).
Proof.
  induction n as [|n IH]; cbn [read_records]; [now apply safe_ret|].
  apply plain_step; [|intros r; apply plain_step; [exact IH | intros rs; now apply safe_ret]].
  unfold read_record_dims. apply plain_step; [apply plain_read | intros ent]. cbv zeta.
  apply plain_step; [apply plain_require | intros _; now apply safe_ret].
Qed.

End About.

(** Assertions under which the circuit [c] exists. *)
Section Held.
Variables (P : Att -> list CircuitId -> Prop) (c : CircuitId).
Hypothesis held : forall a cs, P a cs -> existsb (CircuitId_eqb c) cs = true.

Lemma plain_deref : plain (about P) (deref c).
Proof.
  intros s Hs. unfold deref, bind, gets, has_circuit. now rewrite (held _ _ Hs).
Qed.

Lemma plain_counter : plain (about P) (get_counter c).
Proof. apply plain_step; [apply plain_deref | intros _; apply plain_act]. Qed.

Lemma plain_round_counter : plain (about P) (get_round_counter c).
Proof. apply plain_step; [apply plain_deref | intros _; apply plain_act]. Qed.

Lemma plain_track_circuit e a r : plain (about P) (track_circuit e c a r).
Proof.
  apply plain_step; [apply plain_counter | intros n]. apply plain_step; [apply plain_track | intros _].
  apply plain_step; [apply plain_round_counter | intros q]. apply plain_track_rounds.
Qed.

End Held.

(** ** The invariant *)

Definition tag_ready (a : Att) : Prop :=
  encrypted_ct a = [] \/
  (encrypted_seqs a <> [] /\ encrypt_ct_len a <= 16 * size (encrypted_ct a)).

Definition Ready : Server -> Prop := about (fun a _ => tag_ready a).
Definition ReadyWith (c : CircuitId) : Server -> Prop :=
  about (fun a cs => tag_ready a /\ existsb (CircuitId_eqb c) cs = true).

End Null.

#[export] Hint Resolve plain_gets plain_require plain_act plain_track plain_track_rounds plain_upd_keys
  plain_run_circuit plain_read plain_write plain_make_gcm_share plain_header plain_records
  safe_fail safe_waiting : server.

(** Follows a method whose statements keep the assertion. *)
Ltac pl_step :=
  lazymatch goal with
  | |- safe (about _) (bind _ _) _ => apply plain_step; [|intros ?]
  | |- safe _ (let _ := _ in _) _ => cbv zeta
  | |- safe _ (if _ then _ else _) _ => apply safe_if
  | |- safe _ (match ?x with _ => _ end) _ => destruct x
  end.
Ltac pl := repeat pl_step; eauto with server.

Section Requests.
Context `{KeyLib} {W : World} {F : Fuel}.

Lemma plain_upd_att P f :
  (forall a cs, P a cs -> P (f a) cs) -> plain (about P) (upd_att f).
Proof. intros Hf s Hs. apply (Hf _ _ Hs). Qed.

Lemma safe_pre {A} (P P' : Server -> Prop) (m : M A) Q :
  safe P' m Q -> (forall s, P s -> P' s) -> safe P m Q.
Proof. intros Hm Hp s Hs. now apply Hm, Hp. Qed.

Lemma ready_with {A} c (m : M A) :
  safe (ReadyWith c) m (fun _ => ReadyWith c) ->
  safe (fun s => Ready s /\ has_circuit c s = true) m (fun _ => Ready).
Proof.
  intros Hm. eapply safe_pre; [eapply safe_post; [exact Hm|] | auto]. now intros _ s [Hs _].
Qed.

Lemma ready_commit : plain Ready read_key_commitment.
Proof.
  unfold read_key_commitment, Ready. pl.
  - now apply plain_read_into.
  - now apply plain_upd_att.
Qed.

Lemma ready_release : plain Ready release_key.
Proof. unfold release_key, Ready. pl. now apply plain_upd_att. Qed.

Lemma ready_verify : plain Ready verify_gcm_tag.
Proof.
  unfold verify_gcm_tag, verify_with_commitment, verify_plain, read_verify_request,
    write_single_header, Ready. pl; try (now apply safe_ret); now apply plain_upd_att.
Qed.

Lemma ready_keystream : plain Ready derive_keystream_blocks.
Proof.
  unfold derive_keystream_blocks. apply has_step, ready_with.
  assert (held : forall a cs, tag_ready a /\ existsb (CircuitId_eqb KS_BLOCK) cs = true ->
                   existsb (CircuitId_eqb KS_BLOCK) cs = true) by (now intros a cs []).
  unfold ReadyWith. pl; try (now apply safe_ret).
  - now apply plain_counter.
  - now apply plain_round_counter.
  - apply plain_for_each. intros b. unfold derive_ks_batch. pl; try (now apply safe_ret).
  - now apply plain_track_circuit.
Qed.

Lemma tag_ready_rotate b a :
  tag_ready a -> tag_ready ((if b : bool then clear_client_epoch else clear_server_epoch) a).
Proof. intros Ha. destruct b; [now left | exact Ha]. Qed.

Lemma ready_rotate : plain Ready rotate_key_op.
Proof.
  unfold rotate_key_op. apply plain_step; [intros s Hs; exact Hs | intros m].
  intros s Hs. unfold bind at 1 2, gets. destruct (has_circuit ROTATE s) eqn:Er.
  2: { unfold bind, require. now rewrite andb_false_r. }
  generalize (has_circuit GCM_SHARE s). intros g.
  assert (Hr : ReadyWith ROTATE s) by (now split). clear Hs Er. revert s Hr.
  match goal with |- forall s, _ -> match ?f s with _ => _ end =>
    change (safe (ReadyWith ROTATE) f (fun _ => Ready)) end.
  apply (safe_post _ _ (fun _ => ReadyWith ROTATE)); [|intros _ s Hs; exact (proj1 Hs)].
  assert (held : forall a cs, tag_ready a /\ existsb (CircuitId_eqb ROTATE) cs = true ->
                   existsb (CircuitId_eqb ROTATE) cs = true) by (now intros a cs []).
  unfold ReadyWith. pl; try (now apply plain_counter); try (now apply plain_round_counter);
    try (now apply plain_track_circuit).
  apply plain_upd_att. intros x cs [Hx Hc]. split; [|exact Hc].
  exact (tag_ready_rotate (_ =? 0) x Hx).
Qed.

(** ** Tags *)

(** The fields [make_gcm_tag] reads do not change until it uses them. *)
Lemma ready_tag : plain Ready make_gcm_tag.
Proof.
  assert (held : forall a cs, tag_ready a /\ existsb (CircuitId_eqb GCM_TAG_C) cs = true ->
                   existsb (CircuitId_eqb GCM_TAG_C) cs = true) by (now intros a cs []).
  unfold make_gcm_tag. apply has_step, ready_with. unfold ReadyWith.
  pl_step; [eauto with server|]. cbv zeta. pl_step; [eauto with server|].
  pl_step; [now apply plain_upd_att|]. pl_step; [now apply plain_read_into|].
  pl_step; [eauto with server|]. cbv zeta.
  intros s Hs. unfold bind at 1, gets at 1. unfold bind at 1, require.
  destruct (negb _) eqn:En; [|exact I]. cbn [ret].
  apply negb_true_iff, orb_false_iff in En as [_ Hn]. apply Nat.eqb_neq in Hn.
  assert (Hq : encrypted_seqs (att s) <> []).
  { destruct Hs as [[E|[Hq _]] _]; [now rewrite E in Hn | exact Hq]. }
  replace (length (encrypted_seqs (att s)) =? 0)%nat with false
    by (symmetry; apply Nat.eqb_neq; now destruct (encrypted_seqs (att s))).
  clear Hn Hq. generalize (att s). intros x. revert s Hs.
  match goal with |- forall s, _ -> match ?f s with _ => _ end =>
    change (plain (about (fun a cs => tag_ready a /\ existsb (CircuitId_eqb GCM_TAG_C) cs = true)) f) end.
  pl; try (now apply safe_ret); try (now apply plain_counter); try (now apply plain_round_counter);
    now apply plain_track_circuit.
Qed.

(** ** Encryption *)

(** While the batches run. *)
Definition filled (n : nat) (a : Att) (cs : list CircuitId) : Prop :=
  length (encrypted_ct a) = n /\ existsb (CircuitId_eqb AES_ENC_C) cs = true.

Lemma length_store_ct b ct enc : length (store_ct b ct enc) = length enc.
Proof. apply length_fold_left. intros. apply length_upd. Qed.

Lemma filled_batch n seq nb b : plain (about (filled n)) (encrypt_batch seq nb b).
Proof.
  unfold encrypt_batch. pl. apply plain_upd_att. intros x cs [Hl Hc].
  split; [|exact Hc]. exact (eq_trans (length_store_ct _ _ _) Hl).
Qed.

(** The batches hold the record. *)
Lemma batches_hold len :
  len <= 16 * N.of_nat (nbatches AES_ENC_N ((len + 15) / 16) * AES_ENC_N).
Proof.
  unfold nbatches, AES_ENC_N.
  pose proof (N.Div0.div_mod (len + 15) 16) as E1. pose proof (N.mod_lt (len + 15) 16 ltac:(lia)) as L1.
  set (nb := (len + 15) / 16) in *.
  pose proof (Nat.Div0.div_mod (N.to_nat nb + 16 - 1) 16) as E2.
  pose proof (Nat.mod_upper_bound (N.to_nat nb + 16 - 1) 16 ltac:(lia)) as L2. lia.
Qed.

Lemma ready_encrypt : plain Ready encrypt_blocks.
Proof.
  assert (held : forall n a cs, filled n a cs -> existsb (CircuitId_eqb AES_ENC_C) cs = true)
    by (now intros n a cs []).
  unfold encrypt_blocks. apply has_step, ready_with. unfold ReadyWith.
  do 2 (pl_step; [eauto with server|]; cbv zeta). pl_step; [eauto with server|].
  pl_step; [eauto with server|]. cbv zeta. do 3 (pl_step; [eauto with server|]).
  set (n := (nbatches AES_ENC_N ((u32_of a2 + 15) / 16) * AES_ENC_N)%nat).
  apply (safe_bind _ _ _ (fun _ => about (filled n))).
  { apply safe_modify. intros s [_ Hc]. split; [apply repeat_length | exact Hc]. }
  intros _. do 2 (pl_step; [now apply (plain_counter _ _ (held n)) || now apply (plain_round_counter _ _ (held n))|]).
  pl_step; [apply plain_for_each; intros b; apply filled_batch|].
  apply (safe_bind _ _ _ (fun _ => about (fun a cs => filled n a cs /\ encrypt_ct_len a = u32_of a2))).
  { apply safe_modify. intros s Hs. now split. }
  intros _. apply (safe_bind _ _ _ (fun _ => ReadyWith AES_ENC_C)).
  - apply safe_modify. intros s [[Hl Hc] He]. split; [|exact Hc]. right. cbn in *. split.
    + now destruct (encrypted_seqs (att s)).
    + rewrite He. unfold size. rewrite Hl. apply batches_hold.
  - intros _. apply plain_track_circuit. now intros x cs [].
Qed.

(** ** The two loops *)

Lemma ready_request h m : request_handler h = Some m -> plain Ready m.
Proof.
  unfold request_handler.
  repeat (destruct (_ =? _); [intros E; apply some_inj in E as <-;
    solve [apply ready_encrypt | apply ready_tag | apply ready_verify | apply ready_keystream
          | apply ready_commit | apply ready_release | apply ready_rotate]|]).
  intros E; discriminate E.
Qed.

Lemma ready_attest n : plain Ready (attest_loop n).
Proof.
  induction n as [|n IH]; cbn [attest_loop]; [apply safe_waiting|].
  apply plain_step; [apply plain_header | intros h]. apply safe_if; [now apply safe_ret|].
  destruct (request_handler h) as [m|] eqn:E; [|apply safe_fail].
  apply plain_step; [now apply (ready_request h) | intros _; exact IH].
Qed.

Lemma ready_drain n : plain Ready (drain_loop n).
Proof.
  induction n as [|n IH]; cbn [drain_loop]; [apply safe_waiting|].
  apply plain_step; [apply plain_header | intros h].
  destruct (request_handler h) as [m|] eqn:E; [|now apply safe_ret].
  apply plain_step; [now apply (ready_request h) | intros _; exact IH].
Qed.

End Requests.
