(* ===== verification/ServerWorld.v ===== *)
(** * A concrete world

    A prover that sends a fixed stream of bytes, with circuits that succeed;
    and the fields of a server that has finished the handshake.  The examples
    of the theorems on the server run in it. *)

From S2P Require Import Prelude Block128 Messaging Util KeyShare BlockMap GHash.
From S2P Require Import ServerState ServerIO ServerHandshake ServerRecords ServerRun ServerTrace.

Import Server Handshake Records Run.
Local Open Scope N_scope.

(** Bytes asked for so far. *)
Definition asked (l : list Action) : N :=
  fold_right (fun a n => match a with ARead k => k + n | _ => n end) 0 l.

(** Each read takes what is left, up to its size. *)
Definition stream_read (input : list N) (l : list Action) (n : N) : ReadReply :=
  let left := skipn (N.to_nat (N.min (asked l) (size input))) input in
  match firstn (N.to_nat (N.min n (size left))) left with
  | [] => Closed
  | bs => Got bs
  end.

Definition toy_traffic : TrafficOut :=
  mkTrafficOut (repeat 1 16) (repeat 2 12) (repeat 3 16) (repeat 4 12) (repeat 5 32) (repeat 6 32).

Definition toy_circuit (i : CircuitIn) : CircuitOut i :=
  match i as i return CircuitOut i with
  | InHandshake _ _ _ => mkHandshakeOut (repeat 7 32) (repeat 8 32) (repeat 9 32)
  | InTraffic _ => toy_traffic
  | InResumption _ => repeat 10 32
  | InPsk _ _ => repeat 11 32
  | InBinder _ => tt
  | InGCMVfy _ _ _ _ => (true, false)
  | InGCMVfyCommit _ _ _ _ _ => (true, false, true)
  | InKSBatch _ _ _ => true
  | InAESEnc _ ctr => (true, ctr)
  | InGCMTag _ _ _ => false
  | InRotate _ => {| next_share := repeat 12 32; rot_key_share := repeat 13 16; rot_iv := repeat 14 12 |}
  end.

Definition stream_world (input : list N) : World := fun l a =>
  match a as a return Reply a with
  | ARead n => stream_read input l n
  | APending => 0
  | AWrite _ | AAccept | AHandshake | ABuild _ _ => true
  | APreproc _ | AShutdown => tt
  | ACounter _ | ARoundCounter _ | ADraw _ => 1
  | AKsRemaining => 1
  | AIoFailed _ => false
  | ARun i => Some (toy_circuit i)
  | AEctf x _ _ => Some (x, 1, 1)
  | AMakeGCM _ => Some (repeat 1 64, 1)
  end.

Lemma stream_ok input : Forall (fun b => b < 256) input -> WorldOk (stream_world input).
Proof.
  intros Hb l n bs E. cbn in E. unfold stream_read in E.
  set (rest := skipn _ input) in E.
  destruct (firstn (N.to_nat (N.min n (size rest))) rest) as [|b r] eqn:Ef; [discriminate|].
  assert (bs = b :: r) as -> by congruence. rewrite <- Ef. split.
  - pose proof (length_firstn (N.to_nat (N.min n (size rest))) rest) as L.
    assert (length (firstn (N.to_nat (N.min n (size rest))) rest) <> 0%nat) by (rewrite Ef; discriminate).
    unfold size in *. lia.
  - assert (Hr : Forall (fun b => b < 256) rest).
    { subst rest. rewrite <- (firstn_skipn (N.to_nat (N.min (asked l) (size input))) input) in Hb.
      now apply Forall_app in Hb. }
    rewrite <- (firstn_skipn (N.to_nat (N.min n (size rest))) rest) in Hr. now apply Forall_app in Hr.
Qed.

(** ** A server after the handshake *)

Definition toy_fuel : Fuel := 64%nat.

Definition all_circuits : list CircuitId :=
  [HANDSHAKE_A; TRAFFIC; GCM_SHARE; RESUMPTION; PSK_1; PSK_8; PSK_0; BINDER; GCM_VFY; KS_BLOCK;
   AES_ENC_C; GCM_TAG_C; ROTATE].

Definition ready_server (m : Surf.Mode) (st : ServerState) (a : Att) : @Server toy_lib :=
  mkServer st (mkConf m (Surf.is_capture m) true true)
    (mkHs [@KeyShare.empty toy_lib; @KeyShare.empty toy_lib] 0 [] [] (repeat 0 64)
       [] [] (repeat 0 32) 0 0 false false false)
    (mkKeys (mkHandshakeOut [] [] []) toy_traffic (repeat 1 64) (repeat 1 64) [] [])
    a all_circuits zero_counters zero_counters [].

(** ** Messages of the prover *)

Definition be_bytes (n : nat) (v : N) : list N :=
  map (fun i => wrap 8 (N.shiftr v (8 * N.of_nat i))) (rev (List.seq 0 n)).

Definition msg_commit : list N := MessageHeaders.KEY_COMMIT :: repeat 17 32.
Definition msg_release : list N := [MessageHeaders.KEY_RELEASE].
Definition msg_rotate (dir : N) : list N := [MessageHeaders.ROTATE_KEY; dir].
Definition msg_stop : list N := [MessageHeaders.STOP].

Definition msg_verify (seq : N) (ct : list N) : list N :=
  MessageHeaders.GCM_VERIFY :: be_bytes 8 seq ++ be_bytes 2 5 ++ repeat 23 5 ++
  be_bytes 4 (size ct) ++ ct ++ repeat 9 16.

Definition msg_encrypt (seq len : N) : list N :=
  MessageHeaders.AES_ENC :: be_bytes 8 seq ++ be_bytes 4 len.

Definition msg_tag (len : N) : list N :=
  MessageHeaders.GCM_TAG :: be_bytes 2 5 ++ repeat 23 5 ++ be_bytes 4 len.

Definition msg_keystream (recs : list (N * N)) : list N :=
  MessageHeaders.KS_DERIVE :: be_bytes 4 (size recs) ++
  flat_map (fun r => be_bytes 8 (fst r) ++ be_bytes 4 (snd r)) recs.

(** A sealed capture: commit, two records, release, rotation, another record. *)
Definition capture_session : list N :=
  msg_commit ++ msg_verify 0 [1; 2; 3] ++ msg_verify 1 [4] ++ msg_release ++ msg_rotate 1 ++
  msg_commit ++ msg_verify 0 [5] ++ msg_stop.

Example capture_session_runs :
  let r := @attest toy_lib (stream_world capture_session) toy_fuel
             (ready_server Surf.Rotate SHUTDOWN (empty_att)) in
  snd r = Done tt /\ attested_ct (att (fst r)) = [(0, [1; 2; 3]); (1, [4]); (0, [5])] /\
  verified_seqs (att (fst r)) = [0] /\ epoch (att (fst r)) = 1 /\ key_released (att (fst r)) = false.
Proof. vm_compute. repeat split. Qed.

(** A masked session: records verified, their keystream derived, a request
    encrypted and tagged. *)
Example masked_session_runs :
  let r := @attest toy_lib
             (stream_world (msg_verify 0 [1; 2; 3] ++ msg_keystream [(0, 3)] ++ msg_encrypt 0 17 ++
                            msg_tag 17 ++ msg_stop)) toy_fuel
             (ready_server Surf.Masked SHUTDOWN empty_att) in
  snd r = Done tt /\ verified_seqs (att (fst r)) = [0] /\ encrypted_seqs (att (fst r)) = [0] /\
  encrypt_ct_len (att (fst r)) = 17.
Proof. vm_compute. repeat split. Qed.
