(* ===== verification/ServerClaims.v ===== *)
(** * The guarantees of the verifier

    The theorems on the record layer, for every behaviour of the prover, the
    network and the circuits, each with an example in a concrete world. *)

From S2P Require Import Prelude Block128 FieldCode Messaging Util KeyShare BlockMap GHash.
From S2P Require Import ServerState ServerIO ServerHandshake ServerRecords ServerRun ServerLogic.
From S2P Require Import ServerSafety ServerTrace ServerProgress ServerVerify ServerTag ServerWorld.
From Stdlib Require Import RelationClasses.

Import Server Handshake Records Run.
Local Open Scope N_scope.

(** ** Sealed capture *)

Section Sessions.
Context `{KeyLib} {W : World} {F : Fuel}.

(** A session of either kind keeps a relation that survives the reset. *)
Lemma sessions_respect P
  (ins : Insensitive (AttRel P)) (rqs : Requests (R := AttRel P)) :
  (forall c a, P c a (reset_att a)) ->
  forall stop p acc,
    respects (AttRel P) (run stop p acc) /\ respects (AttRel P) (run_resumption stop p acc).
Proof.
  intros Hr stop p acc. split; [apply ins_run; intros s; split; [reflexivity | apply Hr]|].
  unfold run_resumption. apply respects_bind.
  - destruct acc; cbn [negb]; [apply respects_ret|].
    intros s. split; [reflexivity | apply Hr].
  - intros _. apply respects_bind; [apply respects_modify; intros s; apply blind_circuits|].
    intros _. srv. apply ins_resumption_loop.
Qed.

End Sessions.

(** C18: In every session, full or resumed and however it ends, the key share is
    marked as released only in a sealed-capture mode and only with the
    prover's commitment on file. *)
Theorem released_implies_committed (K : KeyLib) (W : World) (F : Fuel) (s : Server) stop p acc :
  release_ok (conf s) (att s) ->
  release_ok (conf (fst (run stop p acc s))) (att (fst (run stop p acc s))) /\
  release_ok (conf (fst (run_resumption stop p acc s))) (att (fst (run_resumption stop p acc s))).
Proof.
  intros Hs.
  destruct (sessions_respect ReleaseRel release_insensitive release_requests
              (fun c a _ => fun E => False_ind _ (diff_false_true E)) stop p acc) as [R1 R2].
  destruct (R1 s) as [E1 P1]. destruct (R2 s) as [E2 P2]. rewrite E1, E2. split; auto.
Qed.

Lemma released_implies_committed_witness :
  let s := ready_server Surf.Rotate SHUTDOWN empty_att in
  let r := @run toy_lib (stream_world capture_session) toy_fuel ServerState.DONE true true s in
  release_ok (conf (fst r)) (att (fst r)).
Proof.
  apply (@released_implies_committed toy_lib (stream_world capture_session) toy_fuel
           (ready_server Surf.Rotate SHUTDOWN empty_att) ServerState.DONE true true).
  intros E. discriminate E.
Defined.

(** [release_key] in full: outside a sealed-capture mode, without a
    commitment or a second time it returns false and sends nothing; otherwise
    it writes the verifier's share of the server key, once, and marks it as
    released before the write, so that a failed write releases it, too. *)
Theorem release_key_behaviour (K : KeyLib) (W : World) (F : Fuel) (s : Server) :
  let k := server_key_share (traffic_key_shares (keys s)) in
  if true_surf (conf s) && key_committed (att s) && negb (key_released (att s)) then
    att (fst (release_key s)) = set_key_released true (att s) /\
    (1 <= size k <= SSL3_RT_MAX_PLAIN_LENGTH ->
     log (fst (release_key s)) = AWrite k :: log s /\
     snd (release_key s) = if reply (log s) (AWrite k) then Done tt else Fail)
  else release_key s = (s, Fail).
Proof.
  cbn zeta. rewrite release_key_eq.
  destruct (true_surf (conf s) && key_committed (att s) && negb (key_released (att s))); [|reflexivity].
  cbv zeta. set (k := server_key_share _). unfold socket_write. split.
  - destruct (_ || _); [reflexivity|]. unfold bind, act. now destruct (reply _ _).
  - intros Hk. rewrite (proj2 (N.ltb_ge _ _)) by apply Hk. rewrite (proj2 (N.eqb_neq _ _)) by lia.
    unfold bind, act, require. cbn [orb log set_log set_att set_bandwidth set_rounds].
    destruct (reply (log s) (AWrite k)); now split.
Qed.

Lemma release_key_behaviour_witness :
  let s := ready_server Surf.True' SHUTDOWN (set_key_committed true empty_att) in
  log (fst (@release_key toy_lib (stream_world []) s)) = [AWrite (repeat 3 16)].
Proof.
  destruct (@release_key_behaviour toy_lib (stream_world []) toy_fuel
    (ready_server Surf.True' SHUTDOWN (set_key_committed true empty_att))) as [_ Hw].
  apply Hw. split; vm_compute; discriminate.
Defined.

(** C17: After the release of the key share in a sealed-capture mode, whatever
    requests follow, [attest] adds nothing to the verified or retained
    records and does not take the release back, unless the key-rotation
    circuit is run. *)
Theorem sealed_after_release (K : KeyLib) (W : World) (F : Fuel) (s : Server) n :
  true_surf (conf s) = true -> key_released (att s) = true ->
  let s' := fst (attest_loop n s) in
  exists new, log s' = new ++ log s /\
    ((exists x, In (ARun (InRotate x)) new) \/
     (key_released (att s') = true /\ attested_ct (att s') = attested_ct (att s) /\
      verified_seqs (att s') = verified_seqs (att s))).
Proof.
  intros Ht Hr. pose proof (blind_attest_loop (R := SealRel) n s) as [_ (new & L & S)].
  exists new. split; [exact L | exact (S Ht Hr)].
Qed.

Lemma sealed_after_release_witness :
  let s := ready_server Surf.True' SHUTDOWN
             (set_key_released true (set_key_committed true empty_att)) in
  let s' := fst (@attest_loop toy_lib (stream_world (msg_encrypt 0 17 ++ msg_verify 0 [1] ++ msg_stop)) toy_fuel 5 s) in
  exists new, log s' = new ++ log s /\
    ((exists x, In (ARun (InRotate x)) new) \/
     (key_released (att s') = true /\ attested_ct (att s') = attested_ct (att s) /\
      verified_seqs (att s') = verified_seqs (att s))).
Proof.
  apply (@sealed_after_release toy_lib
    (stream_world (msg_encrypt 0 17 ++ msg_verify 0 [1] ++ msg_stop)) toy_fuel
    (ready_server Surf.True' SHUTDOWN (set_key_released true (set_key_committed true empty_att))) 5);
    reflexivity.
Defined.

(** ** Verified records *)

(** What is handed to the circuit for the record of a request. *)
Definition record_input `{KeyLib} (s : Server) (rq : VerifyRequest) (tag_share : list N) : CircuitIn :=
  let t := traffic_key_shares (keys s) in
  let j0 := SurfBlockMap.ctr_block (server_iv t) (rq_seq rq) 1 in
  if true_surf (conf s)
  then InGCMVfyCommit (server_key_share t) j0 tag_share (rq_server_tag rq) (key_commitment (att s))
  else InGCMVfy (server_key_share t) j0 tag_share (rq_server_tag rq).

(** A record of the stated size was entered because the circuit, run on this
    server's shares, the block [J0] of the record and the GHASH share of its
    header and ciphertext, found its tag right. *)
Definition record_entered `{KeyLib} (W : World) (s s' : Server) : Prop :=
  exists rq tag_share newer older,
    request_ok rq /\
    GHash.share (server_gcm_powers (keys s)) (rq_aad rq) (rq_ciphertext rq) = Some tag_share /\
    log s' = newer ++ ARun (record_input s rq tag_share) :: older ++ log s /\
    accepts (record_input s rq tag_share)
      (reply (older ++ log s) (ARun (record_input s rq tag_share))) = true /\
    att s' = entered (conf s) (att s) rq.

Lemma verified_entered `{KeyLib} (W : World) s s' :
  length (server_iv (traffic_key_shares (keys s))) = 12%nat -> verified s s' -> record_entered W s s'.
Proof.
  intros Hiv (_ & _ & rq & ts & Hrq & Hts & (nw & od & L & A) & E).
  exists rq, ts, nw, od.
  assert (I : verify_input s rq ts = record_input s rq ts)
    by (unfold verify_input, record_input; now rewrite verify_iv_j0).
  rewrite <- I. exact (conj Hrq (conj Hts (conj L (conj A E)))).
Qed.

(** C16: A call of [verify_gcm_tag] leaves the record layer as it was, or enters
    one record for which the verification circuit reported a right tag, no
    cheating and, in the sealed-capture modes, an opened key commitment; the
    ciphertext is retained only in those modes and only when retention is on.
    A return of true outside the rotation mode means that a record was
    entered. *)
Theorem verify_gcm_tag_sound (K : KeyLib) (W : World) (F : Fuel) (ok : WorldOk W) (s : Server) :
  length (server_iv (traffic_key_shares (keys s))) = 12%nat ->
  let (s', o) := verify_gcm_tag s in
  (att s' = att s \/ record_entered W s s') /\
  (o = Done tt -> is_rotate (mode (conf s)) = false -> record_entered W s s').
Proof.
  intros Hiv. pose proof (verify_gcm_tag_spec s) as V.
  assert (S : forall s', verify_stopped s s' -> att s' = att s \/ record_entered W s s').
  { intros s' [Hs|Hs]; [left; apply Hs | right; now apply verified_entered]. }
  destruct (verify_gcm_tag s) as [s' []]; try (split; [now apply S | discriminate]).
  destruct V as [V|[Hr V]].
  - split; [right|intros _ _]; now apply verified_entered.
  - split; [left; apply V | intros _ Hn; congruence].
Qed.

Definition verify_input_bytes : list N := skipn 1 (msg_verify 3 [1; 2; 3]).

Lemma verify_gcm_tag_sound_witness :
  let s := ready_server Surf.True' SHUTDOWN (set_key_committed true empty_att) in
  record_entered (stream_world verify_input_bytes) s
    (fst (@verify_gcm_tag toy_lib (stream_world verify_input_bytes) toy_fuel s)).
Proof.
  cbn zeta.
  pose proof (@verify_gcm_tag_sound toy_lib (stream_world verify_input_bytes) toy_fuel
    (stream_ok verify_input_bytes ltac:(repeat constructor))
    (ready_server Surf.True' SHUTDOWN (set_key_committed true empty_att)) eq_refl) as T.
  destruct (verify_gcm_tag _) as [s' o] eqn:E. destruct T as [_ T]. apply T; [|reflexivity].
  transitivity (snd (@verify_gcm_tag toy_lib (stream_world verify_input_bytes) toy_fuel
    (ready_server Surf.True' SHUTDOWN (set_key_committed true empty_att)))).
  - now rewrite E.
  - vm_compute. reflexivity.
Defined.

(** C32: Every verification request that passes the size checks fits the table
    of powers: it needs at most 1027 of the 1088 shares, so the GHASH share
    is always computed. *)
Theorem verify_request_fits (K : KeyLib) (W : World) (F : Fuel) (ok : WorldOk W) (s s' : Server)
    (rq : VerifyRequest) (powers : list N) :
  read_verify_request s = (s', Done rq) ->
  (block_count (rq_aad rq) (rq_ciphertext rq) <= 1027)%nat /\
  exists tag_share, GHash.share powers (rq_aad rq) (rq_ciphertext rq) = Some tag_share.
Proof.
  intros E. pose proof (hoare_request s s) as R. rewrite E in R.
  destruct R as [_ Hrq]; [reflexivity|]. split; [now apply request_fits | now apply request_share].
Qed.

Lemma verify_request_fits_witness :
  exists tag_share, GHash.share (repeat 1 64) (repeat 23 5) [1; 2; 3] = Some tag_share.
Proof.
  set (s := ready_server Surf.Masked SHUTDOWN empty_att).
  set (r := @read_verify_request toy_lib (stream_world verify_input_bytes) toy_fuel s).
  apply (@verify_request_fits toy_lib (stream_world verify_input_bytes) toy_fuel
    (stream_ok verify_input_bytes ltac:(repeat constructor)) s (fst r)
    {| rq_seq := 3; rq_aad := repeat 23 5; rq_ciphertext := [1; 2; 3]; rq_server_tag := repeat 9 16 |}
    (repeat 1 64)).
  vm_compute. reflexivity.
Defined.

(** ** Encryption *)

Section Counters.
Context `{KeyLib}.

(** Every lane of the batches of a record is one of its counter blocks. *)
Lemma enc_lane_counter iv seq nblocks idx :
  1 <= nblocks <= 1024 ->
  enc_lane iv seq nblocks idx = SurfBlockMap.ctr_block iv seq (N.min idx (nblocks - 1) + 2).
Proof.
  intros Hn. unfold enc_lane. f_equal.
  assert (E : (if idx <? nblocks then idx else nblocks - 1) = N.min idx (nblocks - 1))
    by (destruct (N.ltb_spec idx nblocks); lia).
  rewrite E, (wrap_small 32 (N.min _ _)), wrap_small; change (2 ^ 32) with 4294967296; lia.
Qed.

Lemma enc_input_blocks s seq nblocks bs r blk :
  1 <= nblocks <= 1024 -> In r (map (enc_input s seq nblocks) bs) -> In blk (snd r) ->
  fst r = client_key_share (traffic_key_shares (keys s)) /\
  exists c, 2 <= c < 2 ^ 32 /\
    blk = SurfBlockMap.ctr_block (client_iv (traffic_key_shares (keys s))) seq c.
Proof.
  intros Hn Hr Hb. apply in_map_iff in Hr as (b & <- & _). split; [reflexivity|].
  unfold enc_input, enc_batch_ctrs in Hb. cbn [snd] in Hb.
  apply in_map_iff in Hb as (j & <- & _). rewrite enc_lane_counter by assumption.
  eexists. split; [|reflexivity]. change (2 ^ 32) with 4294967296. lia.
Qed.

End Counters.

Section Encryption.
Context `{KeyLib} {W : World} {F : Fuel} {wok : WorldOk W}.

(** The counter blocks encrypted between two states: under the client key
    share, and for sequence numbers that were not on file. *)
Definition fresh_runs (s s' : Server) : Prop :=
  exists new, log s' = new ++ log s /\
    forall k ctrs blk, In (k, ctrs) (aes_runs new) -> In blk ctrs ->
      k = client_key_share (traffic_key_shares (keys s)) /\
      exists seq c, seq < 2 ^ 64 /\ ~ In seq (encrypted_seqs (att s)) /\ 2 <= c < 2 ^ 32 /\
        blk = SurfBlockMap.ctr_block (client_iv (traffic_key_shares (keys s))) seq c.

Lemma trace_fresh s s' seq nblocks m : EncryptTrace s s' seq nblocks m -> fresh_runs s s'.
Proof.
  intros (Hs & Hf & Hn & _ & _ & new & L & R). exists new. split; [exact L|].
  intros k ctrs blk Hr Hb. rewrite R, <- in_rev in Hr.
  destruct (enc_input_blocks s seq nblocks (List.seq 0 m) (k, ctrs) blk Hn Hr Hb) as (E & c & Hc & Eb).
  split; [exact E|]. now exists seq, c.
Qed.

Lemma encrypt_fresh s : fresh_runs s (fst (encrypt_blocks s)).
Proof.
  pose proof (encrypt_blocks_outcome s) as O.
  assert (Q : forall s', encrypt_stopped s s' -> fresh_runs s s').
  { intros s' [(_ & _ & new & L & R)|[(q & n & m & Ht & _)|(q & n & Ht & _)]];
      [|exact (trace_fresh _ _ _ _ _ Ht)..].
    exists new. split; [exact L|]. now rewrite R. }
  destruct (encrypt_blocks s) as [s' []]; apply Q; try exact O. right. right. exact O.
Qed.

End Encryption.

(** C19: However a call of [encrypt_blocks] ends, no counter block it hands to
    the encryption circuit is a block, of any counter, of a record encrypted
    earlier in the epoch, nor the block that masks the tag of any record. *)
Theorem encrypt_blocks_never_reuses (K : KeyLib) (W : World) (F : Fuel) (ok : WorldOk W) (s : Server) :
  exists new, log (fst (encrypt_blocks s)) = new ++ log s /\
    forall k ctrs blk, In (k, ctrs) (aes_runs new) -> In blk ctrs ->
      k = client_key_share (traffic_key_shares (keys s)) /\
      (forall old c, In old (encrypted_seqs (att s)) -> old < 2 ^ 64 -> c < 2 ^ 32 ->
         blk <> SurfBlockMap.ctr_block (client_iv (traffic_key_shares (keys s))) old c) /\
      (forall any, any < 2 ^ 64 ->
         blk <> SurfBlockMap.ctr_block (client_iv (traffic_key_shares (keys s))) any 1).
Proof.
  destruct (encrypt_fresh s) as (new & L & R). exists new. split; [exact L|].
  intros k ctrs blk Hr Hb. destruct (R k ctrs blk Hr Hb) as (E & seq & c & Hs & Hf & Hc & ->).
  split; [exact E | split].
  - intros old c' Ho Hl Hc' Eb. apply ctr_block_inj in Eb as [-> _]; [contradiction|..]; (assumption || lia).
  - intros any Ha Eb. apply ctr_block_inj in Eb as [_ E1]; try assumption; try lia.
Qed.

Lemma encrypt_blocks_never_reuses_witness :
  let input := skipn 1 (msg_encrypt 5 40) in
  let s := ready_server Surf.Masked SHUTDOWN (set_encrypted_seqs [2; 3] empty_att) in
  exists new, log (fst (@encrypt_blocks toy_lib (stream_world input) toy_fuel s)) = new ++ log s /\
    forall k ctrs blk, In (k, ctrs) (aes_runs new) -> In blk ctrs ->
      k = repeat 1 16 /\
      (forall old c, In old [2; 3] -> old < 2 ^ 64 -> c < 2 ^ 32 ->
         blk <> SurfBlockMap.ctr_block (repeat 2 12) old c) /\
      (forall any, any < 2 ^ 64 -> blk <> SurfBlockMap.ctr_block (repeat 2 12) any 1).
Proof.
  apply (@encrypt_blocks_never_reuses toy_lib (stream_world (skipn 1 (msg_encrypt 5 40))) toy_fuel
    (stream_ok (skipn 1 (msg_encrypt 5 40)) ltac:(repeat constructor))
    (ready_server Surf.Masked SHUTDOWN (set_encrypted_seqs [2; 3] empty_att))).
Defined.

(** The counter blocks of one batch of a record with [nblocks] blocks: lane
    [j] of batch [b] is block [16 b + j], or the last one. *)
Definition record_batch (iv : list N) (seq nblocks : N) (b : nat) : list (list N) :=
  tabulate AES_ENC_N (fun j =>
    SurfBlockMap.ctr_block iv seq (N.min (N.of_nat (b * AES_ENC_N + j)) (nblocks - 1) + 2)).

(** When [encrypt_blocks] returns true, it has run the encryption circuit on
    the counters 2, 3, ... of one record of 1 to 1024 blocks, in order, with
    the last counter repeated in the spare lanes, has recorded the record's
    sequence number, which was not on file, and has changed no key. *)
Theorem encrypt_blocks_counters (K : KeyLib) (W : World) (F : Fuel) (ok : WorldOk W) (s s' : Server) :
  encrypt_blocks s = (s', Done tt) ->
  let t := traffic_key_shares (keys s) in
  exists new seq nblocks, log s' = new ++ log s /\ 1 <= nblocks <= 1024 /\
    ~ In seq (encrypted_seqs (att s)) /\
    encrypted_seqs (att s') = encrypted_seqs (att s) ++ [seq] /\ keys s' = keys s /\
    rev (aes_runs new) =
      tabulate (nbatches AES_ENC_N nblocks)
        (fun b => (client_key_share t, record_batch (client_iv t) seq nblocks b)).
Proof.
  intros E. pose proof (encrypt_blocks_outcome s) as O. rewrite E in O. cbn zeta.
  destruct O as (seq & nblocks & (Hs & Hf & Hn & _ & Hk & new & L & R) & Eq).
  exists new, seq, nblocks. repeat (split; [assumption|]). rewrite R, rev_involutive.
  unfold tabulate. apply map_ext. intros b. unfold enc_input, enc_batch_ctrs, record_batch, tabulate.
  f_equal. apply map_ext. intros j. now apply enc_lane_counter.
Qed.

Lemma encrypt_blocks_counters_witness :
  let input := skipn 1 (msg_encrypt 5 300) in
  let s := ready_server Surf.Masked SHUTDOWN empty_att in
  let s' := fst (@encrypt_blocks toy_lib (stream_world input) toy_fuel s) in
  exists new seq nblocks, log s' = new ++ log s /\ 1 <= nblocks <= 1024 /\
    ~ In seq [] /\ encrypted_seqs (att s') = [] ++ [seq] /\ keys s' = keys s /\
    rev (aes_runs new) =
      tabulate (nbatches AES_ENC_N nblocks)
        (fun b => (repeat 1 16, record_batch (repeat 2 12) seq nblocks b)).
Proof.
  apply (@encrypt_blocks_counters toy_lib (stream_world (skipn 1 (msg_encrypt 5 300))) toy_fuel
    (stream_ok (skipn 1 (msg_encrypt 5 300)) ltac:(repeat constructor)) (ready_server Surf.Masked SHUTDOWN empty_att)).
  vm_compute. reflexivity.
Defined.

(** No sequence number is recorded twice as encrypted: sessions, full or
    resumed and however they end, keep the list free of duplicates. *)
Theorem encrypted_seqs_distinct (K : KeyLib) (W : World) (F : Fuel) (ok : WorldOk W) (s : Server) stop p acc :
  NoDup (encrypted_seqs (att s)) ->
  NoDup (encrypted_seqs (att (fst (run stop p acc s)))) /\
  NoDup (encrypted_seqs (att (fst (run_resumption stop p acc s)))).
Proof.
  intros Hs.
  destruct (sessions_respect SeqRel SeqRel_ins seq_requests
              (fun c a _ => NoDup_nil N) stop p acc) as [R1 R2].
  destruct (R1 s) as [_ P1]. destruct (R2 s) as [_ P2]. split; auto.
Qed.

Lemma encrypted_seqs_distinct_witness :
  let input := msg_encrypt 0 17 ++ msg_encrypt 1 17 ++ msg_encrypt 0 17 ++ msg_stop in
  let s := ready_server Surf.Masked SHUTDOWN empty_att in
  NoDup (encrypted_seqs (att (fst (@run toy_lib (stream_world input) toy_fuel ServerState.DONE true true s)))).
Proof.
  apply (@encrypted_seqs_distinct toy_lib
    (stream_world (msg_encrypt 0 17 ++ msg_encrypt 1 17 ++ msg_encrypt 0 17 ++ msg_stop)) toy_fuel
    (stream_ok ((msg_encrypt 0 17 ++ msg_encrypt 1 17 ++ msg_encrypt 0 17 ++ msg_stop)) ltac:(repeat constructor)) (ready_server Surf.Masked SHUTDOWN empty_att)
    ServerState.DONE true true).
  constructor.
Defined.

(** ** Keystream *)

(** C20: [derive_keystream_blocks], however it ends, runs the keystream circuit
    only with the verifier's share of the server key, sixteen lanes at a time,
    on counter blocks of records it has verified, and never on the block that
    masks a tag; it changes neither keys nor the record layer. *)
Theorem keystream_only_verified (K : KeyLib) (W : World) (F : Fuel) (ok : WorldOk W) (s : Server) :
  let s' := fst (derive_keystream_blocks s) in
  let t := traffic_key_shares (keys s) in
  keys s' = keys s /\ att s' = att s /\
  exists new, log s' = new ++ log s /\
    forall k ctrs, In (k, ctrs) (ks_runs new) ->
      k = server_key_share t /\ length ctrs = KS_BATCH_N /\
      forall blk, In blk ctrs -> exists seq c, In seq (verified_seqs (att s)) /\ 2 <= c < 2 ^ 32 /\
        blk = SurfBlockMap.ctr_block (server_iv t) seq c.
Proof.
  cbn zeta. assert (KF : KsFrom s (fst (derive_keystream_blocks s))).
  { pose proof (derive_keystream_spec s s) as D.
    destruct (derive_keystream_blocks s) as [s' []]; apply D;
      (split; [reflexivity | split; [reflexivity|]]); exists []; split; reflexivity || constructor. }
  destruct KF as (Ek & Ea & new & L & R). repeat (split; [assumption|]).
  exists new. split; [exact L|]. intros k ctrs Hin. rewrite Forall_forall in R.
  destruct (R _ Hin) as (E & Hl & Hf). repeat (split; [assumption|]).
  rewrite Forall_forall in Hf. exact Hf.
Qed.

Lemma keystream_only_verified_witness :
  let s := ready_server Surf.Masked SHUTDOWN (set_verified_seqs [4; 5] empty_att) in
  att (fst (@derive_keystream_blocks toy_lib (stream_world (skipn 1 (msg_keystream [(5, 40)]))) toy_fuel s))
  = att s.
Proof.
  apply (@keystream_only_verified toy_lib (stream_world (skipn 1 (msg_keystream [(5, 40)]))) toy_fuel
    (stream_ok (skipn 1 (msg_keystream [(5, 40)])) ltac:(repeat constructor))
    (ready_server Surf.Masked SHUTDOWN (set_verified_seqs [4; 5] empty_att))).
Defined.

(** ** Rotation *)

Section Rotation.
Context `{KeyLib} {W : World} {F : Fuel}.
Variable s0 : Server.

(** The record layer and the keys are the given ones, and the rotation
    circuit was run on [x] since [s0], with the result [out]. *)
Definition at_keys (a : Att) (k : Keys) (x : list N) (out : RotateOut) (s : Server) : Prop :=
  att s = a /\ keys s = k /\
  exists newer older, log s = newer ++ ARun (InRotate x) :: older ++ log s0 /\
    reply (older ++ log s0) (ARun (InRotate x)) = Some out.

Lemma at_keys_calm a k x o s s' : at_keys a k x o s -> SameAtt s s' -> at_keys a k x o s'.
Proof.
  intros (A & K & nw & od & L & R) (_ & K' & A' & _ & n & L').
  split; [congruence | split; [congruence|]]. exists (n ++ nw), od.
  split; [now rewrite L', L, app_assoc | exact R].
Qed.

(** What a rotation that returns true has done. *)
Definition rotated (s : Server) : Prop :=
  is_rotate (mode (conf s0)) = true /\
  exists is_client out powers,
    let t := traffic_key_shares (keys s0) in
    (is_client = false -> key_released (att s0) = true) /\
    at_keys ((if is_client then clear_client_epoch else clear_server_epoch) (att s0))
      ((if is_client then set_client_gcm_powers powers else set_server_gcm_powers powers)
         (set_traffic_key_shares (rotate_shares is_client out t) (keys s0)))
      (if is_client then CATS_share t else SATS_share t) out s.

(** From the run of the rotation circuit on. *)
Lemma rotate_rest (is_client : bool) old_amount old_rounds :
  is_rotate (mode (conf s0)) = true -> (is_client = false -> key_released (att s0) = true) ->
  let t := traffic_key_shares (keys s0) in
  hoare (SameAtt s0)
    (out <- run_circuit (InRotate (if is_client then CATS_share t else SATS_share t)) ;;
     track_circuit Events.ROTATE_KEY ROTATE old_amount old_rounds ;;
     upd_keys (set_traffic_key_shares (rotate_shares is_client out t)) ;;
     '(powers, bandwidth) <- make_gcm_share (rot_key_share out) ;;
     upd_keys (if is_client then set_client_gcm_powers powers else set_server_gcm_powers powers) ;;
     track Events.ROTATE_KEY bandwidth ;;
     upd_att (if is_client then clear_client_epoch else clear_server_epoch))
    (fun _ => rotated) (fun s => att s = att s0).
Proof.
  intros Hm Hr t. set (x := if is_client then CATS_share t else SATS_share t).
  assert (stop : forall k o s, at_keys (att s0) k x o s -> att s = att s0) by (now intros k o s []).
  apply (hoare_bind _ _ _ (fun out => at_keys (att s0) (keys s0) x out)).
  { intros s (C & K & A & _ & n & L). unfold run_circuit, bind, act.
    destruct (reply (log s) (ARun (InRotate x))) as [out|] eqn:E; [|exact A].
    repeat (split; [assumption|]). exists [], n. rewrite <- L. split; [reflexivity | exact E]. }
  intros out.
  apply (step_respects SameAtt); [srv | apply at_keys_calm | apply stop | intros []].
  set (k1 := set_traffic_key_shares (rotate_shares is_client out t) (keys s0)).
  apply (hoare_bind _ _ _ (fun _ => at_keys (att s0) k1 x out)).
  { apply hoare_modify. intros s (A & K & N). split; [exact A | split; [|exact N]].
    subst k1. cbn. now rewrite K. }
  intros []. apply (step_respects SameAtt); [srv | apply at_keys_calm | apply stop | intros [powers bw]].
  set (f := if is_client then set_client_gcm_powers powers else set_server_gcm_powers powers).
  apply (hoare_bind _ _ _ (fun _ => at_keys (att s0) (f k1) x out)).
  { apply hoare_modify. intros s (A & K & N). split; [exact A | split; [|exact N]]. cbn. now rewrite K. }
  intros []. apply (step_respects SameAtt); [srv | apply at_keys_calm | apply stop | intros []].
  apply hoare_modify. intros s (A & K & N). split; [exact Hm|]. exists is_client, out, powers.
  split; [exact Hr|]. split; [cbn; now rewrite A | split; [exact K | exact N]].
Qed.

Lemma rotate_spec :
  hoare (SameAtt s0) rotate_key_op (fun _ => rotated) (fun s => att s = att s0).
Proof.
  assert (stop : forall s, SameAtt s0 s -> att s = att s0) by (now intros s (_ & _ & A & _)).
  unfold rotate_key_op.
  apply (step_gets _ _ _ _ _ (mode (conf s0))); [now intros s (-> & _)|].
  apply step_get. intros hr. apply step_get. intros hg.
  apply step_require; [exact stop|]. intros Hm. apply andb_prop in Hm as [Hm _].
  apply andb_prop in Hm as [Hm _].
  apply (step_respects SameAtt); [srv | apply SameAtt_trans | exact stop | intros bs]. cbv zeta.
  apply step_require; [exact stop|]. intros _.
  apply (step_gets _ _ _ _ _ (key_released (att s0))); [now intros s (_ & _ & -> & _)|].
  apply step_require; [exact stop|]. intros Hr.
  do 4 (apply (step_respects SameAtt); [srv | apply SameAtt_trans | exact stop | intros ?]).
  apply (step_gets _ _ _ _ _ (traffic_key_shares (keys s0))); [now intros s (_ & -> & _)|].
  apply rotate_rest; [exact Hm|]. intros E. rewrite E in Hr. now destruct (key_released (att s0)).
Qed.

End Rotation.

(** [rotate_key_op] returns true only in the rotation mode and, for the
    server's key, only after the release of the current share; it has then
    run the rotation circuit on the traffic secret of that direction,
    replaced the key, IV, secret and powers of that direction alone, and
    started a new epoch: the records of the direction are forgotten and, for
    the server's key, commitment and release with them.  A call that does not
    return true leaves the record layer as it was. *)
Theorem rotate_key_op_behaviour (K : KeyLib) (W : World) (F : Fuel) (s : Server) :
  match rotate_key_op s with
  | (s', Done _) => rotated s s'
  | (s', _) => att s' = att s
  end.
Proof. apply (rotate_spec s s). reflexivity. Qed.

(** ** Sessions are separate *)

Section Reset.
Context `{KeyLib} {W : World} {F : Fuel}.

(** The record layer without the mask commitment. *)
Definition records_of (a : Att) : Att := set_mask_commitment [] a.

#[global] Instance keeps_records_ins : Insensitive (AttRel (Keeps records_of)).
Proof. apply AttRel_insensitive; [exact _ | reflexivity]. Qed.

Lemma classify_keeps : respects (AttRel (Keeps records_of))
  (try (accept ;; do_handshake ;; st <- gets state ;; require (state_eqb st HANDSHAKE_DONE) ;;
        write_handshake_done ;; mode <- read_single_header ;;
        require ((mode =? MessageHeaders.RUN_FULL) || (mode =? MessageHeaders.RUN_RESUMED)) ;; ret mode)).
Proof.
  unfold accept. srv. apply ins_do_handshake. apply ins_write_handshake_done.
Qed.

Lemma accept_mode_keeps s :
  records_of (att (fst (accept_and_read_mode s))) = records_of (reset_att (att s)).
Proof.
  unfold accept_and_read_mode. unfold bind at 1, reset_per_connection_state, modify.
  unfold bind at 1, goto, modify. set (s1 := set_state _ _).
  unfold bind at 1. destruct (classify_keeps s1) as [_ E].
  set (m := try _) in *. change (att s1) with (reset_att (att s)) in E.
  unfold Keeps in E. destruct (m s1) as [s2 []]; cbn [fst] in E; exact E.
Qed.

End Reset.

(** Whatever the new connection does, [accept_and_read_mode] leaves a server
    with no trace of earlier record layers: nothing committed, released,
    verified, retained or encrypted, and epoch 0. *)
Theorem accept_and_read_mode_resets (K : KeyLib) (W : World) (F : Fuel) (s : Server) :
  let a := att (fst (accept_and_read_mode s)) in
  key_committed a = false /\ key_released a = false /\ key_commitment a = repeat 0 32 /\ epoch a = 0 /\
  attested_ct a = [] /\ verified_seqs a = [] /\ encrypted_seqs a = [] /\ encrypted_ct a = [] /\
  encrypt_ct_len a = 0.
Proof.
  cbn zeta. pose proof (accept_mode_keeps s) as E. unfold records_of in E.
  destruct (att (fst (accept_and_read_mode s))). cbn in *. injection E as -> -> -> -> -> -> _ -> -> ->.
  repeat split.
Qed.

(** ** Null pointers *)

(** From a record layer in which recorded ciphertext has a sequence number
    and covers its length, such as the one after a reset, the request loops
    of [attest] and [derive_psk] never use a null pointer, take the last
    element of an empty list or index past the recorded ciphertext, and a
    return leaves such a record layer. *)
Theorem requests_never_null (K : KeyLib) (W : World) (F : Fuel) (s : Server) :
  tag_ready (att s) ->
  (snd (attest s) <> NullDeref /\ snd (read_header_draining_encryption s) <> NullDeref) /\
  (snd (attest s) = Done tt -> tag_ready (att (fst (attest s)))) /\
  (encrypted_ct (att s) <> [] -> forall i, (i < N.to_nat (encrypt_ct_len (att s)))%nat ->
     (i / 16 < length (encrypted_ct (att s)))%nat).
Proof.
  intros Hs. pose proof (ready_attest fuel s Hs) as A. pose proof (ready_drain fuel s Hs) as D.
  unfold attest, read_header_draining_encryption.
  split; [split|split].
  - intros E. destruct (attest_loop fuel s) as [s' o]. cbn in E. now rewrite E in A.
  - intros E. destruct (drain_loop fuel s) as [s' o]. cbn in E. now rewrite E in D.
  - intros E. destruct (attest_loop fuel s) as [s' o]. cbn in E. now rewrite E in A.
  - intros Hn i Hi. destruct Hs as [E|[_ Hl]]; [contradiction|].
    apply Nat.Div0.div_lt_upper_bound. unfold size in Hl. lia.
Qed.

Lemma requests_never_null_witness :
  snd (@attest toy_lib (stream_world (msg_encrypt 0 17 ++ msg_tag 17 ++ msg_stop)) toy_fuel
         (ready_server Surf.Masked SHUTDOWN empty_att)) <> NullDeref.
Proof.
  apply (@requests_never_null toy_lib (stream_world (msg_encrypt 0 17 ++ msg_tag 17 ++ msg_stop)) toy_fuel
    (ready_server Surf.Masked SHUTDOWN empty_att)).
  now left.
Defined.

(** ** Progress *)

Lemma handlers_progress_witness :
  let s := ready_server Surf.Masked MASK_COMMIT empty_att in
  let w := stream_world (MessageHeaders.MASK_COMMITMENTS :: repeat 1 32) in
  state_code MASK_COMMIT < state_code (state (fst (@handler toy_lib w toy_fuel MASK_COMMIT true s))).
Proof.
  intros s w.
  apply (@handlers_progress toy_lib w toy_fuel s (fst (@handler toy_lib w toy_fuel MASK_COMMIT true s)) true);
    [discriminate | discriminate | vm_compute; reflexivity].
Defined.
