(* ===== verification/ServerLimits.v ===== *)
(** * Limits of the verifier

    Behaviours of [nodes/Server.cpp] that its comments or its interface do not
    lead one to expect: each is proved of the model as it follows the code. *)

From S2P Require Import Prelude Block128 FieldCode Messaging Util KeyShare BlockMap GHash.
From S2P Require Import ServerState ServerIO ServerHandshake ServerRecords ServerRun ServerLogic.
From S2P Require Import ServerSafety ServerTrace ServerProgress ServerWorld.
From Stdlib Require Import RelationClasses.

Import Server Handshake Records Run.
Local Open Scope N_scope.

(** ** The second handshake circuit *)

Section NoB.
Context `{KeyLib} {W : World} {F : Fuel}.

(** The pointer [handshake_circuits[1]] stays null. *)
Definition StaysNull (s s' : Server) : Prop :=
  has_circuit HANDSHAKE_B s = false -> has_circuit HANDSHAKE_B s' = false.

#[local] Instance StaysNull_calm : Calm StaysNull.
Proof. split; unfold StaysNull; auto. split; unfold StaysNull; auto. Qed.

Lemma filter_absent (f g : CircuitId -> bool) l :
  existsb f l = false -> existsb f (filter g l) = false.
Proof.
  induction l as [|x l IH]; cbn; [auto|]. intros E. apply orb_false_iff in E as [E1 E2].
  destruct (g x); cbn; rewrite ?E1; auto.
Qed.

Lemma null_set_circuit c b : CircuitId_eqb HANDSHAKE_B c = false -> respects StaysNull (set_circuit c b).
Proof.
  intros Hc s Hs. unfold set_circuit, modify, has_circuit in *. cbn [fst circuits set_circuits].
  destruct b; cbn [existsb]; rewrite ?Hc; now apply filter_absent.
Qed.

Lemma null_preproc c b : CircuitId_eqb HANDSHAKE_B c = false -> respects StaysNull (preproc_circuit c b).
Proof. intros Hc. unfold preproc_circuit. srv. now apply null_set_circuit. Qed.

Lemma null_state st : respects StaysNull (goto st).
Proof. intros s Hs. exact Hs. Qed.

Lemma null_do_preproc p : respects StaysNull (do_preproc p).
Proof.
  unfold do_preproc, advance. destruct p; cbn [negb]; [|apply null_state].
  repeat (apply respects_bind; [try now apply null_preproc|intros ?]);
    try apply respects_gets; try apply null_state.
  - destruct (negb _); [now apply null_preproc | apply respects_ret].
  - destruct (is_rotate _); [now apply null_preproc | apply respects_ret].
Qed.

End NoB.

(** [do_preproc] never builds the handshake circuit of the second key
    share: on a server that does not hold it, a session that settles on that
    share dereferences a null pointer in [do_ks]. *)
Theorem second_share_null_deref (K : KeyLib) (W : World) (F : Fuel) (s s' : Server) p :
  has_circuit HANDSHAKE_B s = false ->
  circuits s' = circuits (fst (do_preproc p s)) -> active_key_share (hs s') = 1%nat ->
  snd (do_ks s') = NullDeref.
Proof.
  intros Hs Hc Ha. pose proof (null_do_preproc p s Hs) as Hn.
  unfold do_ks, get_counter, deref, bind, gets. rewrite Ha. cbn [handshake_circuit].
  unfold has_circuit in *. now rewrite Hc, Hn.
Qed.

(** A server after preprocessing, with the second share chosen. *)
Definition second_share_server : @Server toy_lib :=
  let s := ready_server Surf.Masked KS_WAIT empty_att in
  set_circuits [GCM_TAG_C; AES_ENC_C; KS_BLOCK; GCM_VFY; BINDER; PSK_0; PSK_8; PSK_1; RESUMPTION;
                GCM_SHARE; TRAFFIC; HANDSHAKE_A]
    (set_hs (set_active_key_share 1 (hs s)) s).

Lemma second_share_null_deref_witness :
  snd (@do_ks toy_lib (stream_world []) second_share_server) = NullDeref.
Proof.
  apply (@second_share_null_deref toy_lib (stream_world []) toy_fuel
    (set_circuits [] (ready_server Surf.Masked CIRCUIT_PREPROC empty_att)) second_share_server true);
    vm_compute; reflexivity.
Defined.

(** ** The announced size of the certificate context *)

Section Announced.
Context `{KeyLib} {W : World} {F : Fuel}.

(** A read that is answered at once. *)
Lemma read_at_once n len bs s :
  fuel = S n -> 0 < len -> size bs = len -> reply (log s) (ARead len) = Got bs ->
  read_exact_blocking len s = (set_log (ARead len :: log s) s, Done bs).
Proof.
  intros Hf Hl Hs E. unfold read_exact_blocking, read_exact_into. rewrite Hf. cbn [read_loop].
  change (size []) with 0. rewrite (proj2 (N.ltb_lt _ _) Hl), N.sub_0_r.
  unfold bind, act, modify. rewrite E. cbn [app].
  assert (Stop : (size bs <? len) = false) by (apply N.ltb_ge; lia).
  destruct n; cbn [read_loop]; now rewrite Stop.
Qed.

End Announced.

(** The size that the prover announces for the certificate context is not
    checked: when it and the transcript so far add up to more than a vector
    can hold, the reservation throws in a [noexcept] function and the process
    ends. *)
Theorem cert_wait_aborts (K : KeyLib) (W : World) (F : Fuel) (s : Server) (bs : list N) n :
  fuel = S n -> resumed_handshake (hs s) = false ->
  reply (log s) (ARead 1) = Got [MessageHeaders.CERTIFICATE_CTX_SEND] ->
  reply (ARead 1 :: log s) (ARead 8) = Got bs -> size bs = 8 ->
  max_size < wrap 64 (size (transcript (hs s)) + be_value bs) ->
  snd (do_cert_wait s) = Abort.
Proof.
  intros Hf Hr H1 H8 Hb Hm.
  unfold do_cert_wait. rewrite (bind_done _ _ _ _ _ (eq_refl (gets _ s))). rewrite Hr.
  set (s1 := set_log (ARead 1 :: log s) s). set (s2 := set_log (ARead 8 :: log s1) s1).
  assert (E1 : expect_header MessageHeaders.CERTIFICATE_CTX_SEND s = (s1, Done tt)).
  { unfold expect_header, read_single_header, bind.
    now rewrite (read_at_once n 1 [MessageHeaders.CERTIFICATE_CTX_SEND]). }
  assert (E8 : read_single_u64 s1 = (s2, Done (be_value bs))).
  { unfold read_single_u64, bind. now rewrite (read_at_once n 8 bs). }
  assert (E : read_transcript_data MessageHeaders.CERTIFICATE_CTX_SEND s = (s2, Abort)).
  { unfold read_transcript_data. rewrite (bind_done _ _ _ _ _ E1).
    rewrite (bind_done _ _ _ _ _ (eq_refl (ret tt s1))), (bind_done _ _ _ _ _ E8).
    rewrite (bind_done _ _ _ _ _ (eq_refl (ret (be_value bs) s2))).
    rewrite (bind_done _ _ _ _ _ (eq_refl (gets _ s2))).
    change (hs s2) with (hs s). now rewrite (proj2 (N.ltb_lt _ _) Hm). }
  unfold bind at 1. now rewrite E.
Qed.

Lemma cert_wait_aborts_witness :
  snd (@do_cert_wait toy_lib (stream_world (MessageHeaders.CERTIFICATE_CTX_SEND :: repeat 255 8)) toy_fuel
         (ready_server Surf.Masked CERT_WAIT empty_att)) = Abort.
Proof.
  apply (@cert_wait_aborts toy_lib (stream_world (MessageHeaders.CERTIFICATE_CTX_SEND :: repeat 255 8))
    toy_fuel (ready_server Surf.Masked CERT_WAIT empty_att) (repeat 255 8) 63); vm_compute; reflexivity.
Defined.

(** ** The value of a run that has nothing to do *)

(** [run] returns the value of a variable that was never assigned exactly
    when no state is left before the stop state: on a new connection when
    told to stop at [ACCEPT], on an accepted one when the server is already
    there. *)
Theorem run_indeterminate (K : KeyLib) (W : World) (F : Fuel) (s : Server) stop p acc :
  snd (run stop p acc s) = Done None <->
  state_code stop <= (if acc then state_code (state s) else state_code ACCEPT).
Proof.
  assert (E : exists s1, state s1 = (if acc then state s else ACCEPT) /\
    run stop p acc s =
      (if should_stop (state s1) stop then ret None
       else r <- try (run_loop run_fuel stop p) ;;
            ret (Some (match r with Some _ => true | None => false end))) s1).
  { destruct acc; eexists; (split; [|reflexivity]); reflexivity. }
  destruct E as (s1 & Es & ->). unfold should_stop.
  replace (state_code (state s1)) with (if acc then state_code (state s) else state_code ACCEPT)
    by (rewrite Es; now destruct acc).
  destruct (N.leb_spec (state_code stop) (if acc then state_code (state s) else state_code ACCEPT)) as [Hl|Hl].
  - now split.
  - split; [|lia]. unfold bind, try, ret. destruct (run_loop _ _ _ s1) as [s2 []]; cbn; discriminate.
Qed.

(** ** Key bytes that arrive with the handshake *)

Lemma unpack_length bs header out :
  Messaging.unpack_key_bytes bs = Some (header, out) -> size out = size bs - 1.
Proof.
  unfold Messaging.unpack_key_bytes, Messaging.header_size.
  destruct (_ || _ || _) eqn:Eg; [discriminate|]. destruct bs as [|b bs]; [discriminate|].
  cbn [ByteString.CBS_get_u8]. destruct (Messaging.is_valid_header b); [|discriminate].
  unfold ByteString.CBS_get_bytes. destruct (_ <=? _)%nat eqn:El; [|discriminate]. intros E. apply some_inj, (f_equal snd) in E. cbn [snd] in E. rewrite <- E.
  apply Nat.leb_le in El. unfold size in *. rewrite length_firstn. cbn [length] in *. lia.
Qed.

Section Pending.
Context `{KeyLib} {W : World} {F : Fuel} {wok : WorldOk W}.

Definition SameBuffer (s s' : Server) : Prop := size (buffer (hs s')) = size (buffer (hs s)).

#[local] Instance SameBuffer_calm : Calm SameBuffer.
Proof.
  split; try reflexivity. split; [easy|]. intros a b c E1 E2. unfold SameBuffer in *. congruence.
Qed.

Definition full_buffer (s : Server) : Prop := size (buffer (hs s)) = buffer_size.

Lemma full_calm s s' : full_buffer s -> SameBuffer s s' -> full_buffer s'.
Proof. unfold full_buffer, SameBuffer. congruence. Qed.

Lemma full_read_once :
  hoare full_buffer read_buffer_once (fun _ => full_buffer) (fun _ => True).
Proof.
  intros s Hs. unfold read_buffer_once, bind, act.
  destruct (reply (log s) (ARead buffer_size)) as [bs|[]|] eqn:E; try exact I.
  destruct (read_reply _ _ _ E) as [Hn _].
  unfold store_buffer, upd_hs, modify, full_buffer, overlay, size in *. cbn in *.
  rewrite length_app, length_skipn. lia.
Qed.

Lemma full_unpack :
  hoare full_buffer unpack_buffer
    (fun _ s => size (client_public_key (hs s)) = buffer_size - 1) (fun _ => True).
Proof.
  unfold unpack_buffer. intros s Hs. unfold bind at 1, gets.
  destruct (Messaging.unpack_key_bytes (buffer (hs s))) as [[h out]|] eqn:E; [|exact I].
  apply unpack_length in E. unfold full_buffer in Hs. rewrite Hs in E.
  unfold bind, upd_hs, modify, require. destruct (h =? _); [exact E | exact I].
Qed.

(** The branch of [write_handshake_done] for key bytes that are waiting. *)
Lemma pending_branch :
  hoare full_buffer
    (read <- read_buffer_once ;; track_rounds Events.HANDSHAKE_DONE 1 ;; track Events.HANDSHAKE_DONE read ;;
     handshake_done_impl ;; unpack_buffer ;; goto MAKING_KS)
    (fun _ s => size (client_public_key (hs s)) = buffer_size - 1) (fun _ => True).
Proof.
  apply (hoare_bind _ _ _ (fun _ => full_buffer)); [apply full_read_once | intros n].
  do 2 (apply (step_respects SameBuffer); [srv | apply full_calm | easy | intros []]).
  apply (step_respects SameBuffer); [unfold handshake_done_impl; srv | apply full_calm | easy | intros []].
  eapply hoare_bind; [apply full_unpack|]. intros []. apply hoare_modify. auto.
Qed.

End Pending.

(** When the prover's key bytes are already waiting after the handshake,
    [write_handshake_done] decodes the whole 16384-byte buffer instead of the
    bytes it read: the key bytes it stores always have 16383 bytes, whatever
    the prover sent. *)
Theorem pending_key_is_whole_buffer (K : KeyLib) (W : World) (F : Fuel) (ok : WorldOk W) (s s' : Server) :
  size (buffer (hs s)) = buffer_size -> reply (log s) APending <> 0 ->
  write_handshake_done s = (s', Done tt) -> size (client_public_key (hs s')) = 16383.
Proof.
  intros Hb Hp. unfold write_handshake_done. rewrite (bind_done _ _ _ _ _ (eq_refl (act APending s))).
  cbn [Reply] in *. apply N.eqb_neq in Hp. rewrite Hp. cbn [negb]. intros E.
  pose proof (pending_branch (set_log (APending :: log s) s) Hb) as P.
  change (buffer_size - 1) with 16383 in P. now rewrite E in P.
Qed.

(** The stream world, with bytes waiting whenever it is asked. *)
Definition waiting_world (input : list N) : World := fun l a =>
  match a as a return Reply a with
  | APending => 1
  | a => stream_world input l a
  end.

Definition waiting_server : @Server toy_lib :=
  let s := ready_server Surf.Masked HANDSHAKE_DONE empty_att in
  set_hs (set_buffer (repeat 0 (N.to_nat buffer_size)) (hs s)) s.

Lemma pending_key_is_whole_buffer_witness :
  size (client_public_key (hs (fst (@write_handshake_done toy_lib
    (waiting_world [MessageHeaders.COLLECT; 1; 2; 3]) waiting_server)))) = 16383.
Proof.
  set (w := waiting_world [MessageHeaders.COLLECT; 1; 2; 3]).
  apply (@pending_key_is_whole_buffer toy_lib w toy_fuel
    (stream_ok [MessageHeaders.COLLECT; 1; 2; 3] ltac:(repeat constructor))
    waiting_server (fst (@write_handshake_done toy_lib w waiting_server))).
  - vm_compute. reflexivity.
  - discriminate.
  - rewrite (surjective_pairing (write_handshake_done waiting_server)) at 1.
    apply (f_equal (pair _)). vm_compute. reflexivity.
Defined.
