(* ===== verification/Prover.v ===== *)
(** * The prover's encrypted requests ([ssl/ThreePartyHandshake.cpp])

    [encrypt_request] and the two circuit calls it makes, on an arbitrary
    connection to the verifier and arbitrary circuits. *)

From S2P Require Import Prelude Block128 FieldCode Messaging BlockMap GHash ServerIO ServerRecords.

Import ByteString.
Local Open Scope N_scope.

Module Prover.

(** ** Effects *)

Inductive Action :=
  | SslWrite (bs : list N)           (** [SSL_write] to the verifier *)
  | EncryptBatch (input : list N)    (** [aes_enc_circuit->encrypt_batch] *)
  | MakeTag (input : list N)         (** [gcm_tag_circuit->make_tag] *)
  | Random.                          (** [generate_random_bytes<16>] *)

Definition Reply (a : Action) : Type :=
  match a with
  | SslWrite _ => bool
  | EncryptBatch _ | MakeTag _ => option (list N)
  | Random => list N
  end.

(** The reply to an action after a history, newest first. *)
Class World := reply : list Action -> forall a : Action, Reply a.

(** A call: the history after it, and the result; [None] is its [false]. *)
Definition P (A : Type) : Type := list Action -> list Action * option A.

Definition ret {A} (a : A) : P A := fun l => (l, Some a).
Definition fail {A} : P A := fun l => (l, None).
Definition bind {A B} (m : P A) (k : A -> P B) : P B := fun l =>
  match m l with (l, Some a) => k a l | (l, None) => (l, None) end.
Definition require (b : bool) : P unit := if b then ret tt else fail.

Section Calls.
Context {W : World}.

Definition act (a : Action) : P (Reply a) := fun l => (a :: l, Some (reply l a)).

(** A circuit call whose [false] ends the caller. *)
Definition from_option {A} (o : option A) : P A := match o with Some a => ret a | None => fail end.

End Calls.
End Prover.

Declare Scope prover_scope.
Notation "x <- m ;; k" := (Prover.bind m (fun x => k))
  (at level 61, m at next level, right associativity) : prover_scope.
Notation "' p <- m ;; k" := (Prover.bind m (fun x => match x with p => k end))
  (at level 61, p pattern, m at next level, right associativity) : prover_scope.
Notation "m ;; k" := (Prover.bind m (fun _ => k)) (at level 61, right associativity) : prover_scope.

Module EncryptRequest.
Import Prover.
Open Scope prover_scope.

Definition AES_ENC_N : nat := 16.
Definition SSL3_RT_APPLICATION_DATA : N := 23.

(** The fields of the connection that the call uses.  The prover keeps the
    12-byte IV at offset 4 of [client_iv]. *)
Record SSL := {
  verifier : bool; aes_enc_circuit : bool; gcm_tag_circuit : bool;  (* not null *)
  write_sequence : N;
  client_key_share : list N;
  client_iv : list N;
  cgcm_share : list N }.

Definition slice (bs : list N) (off : nat) : list N := firstn 16 (skipn off bs).

(** [ok_byte != 0x00 && ok_byte != 0xFF] *)
Definition repeated_bit (b : N) : bool := (b =? 0) || (b =? 255).

Section Calls.
Context {W : World}.

(** ** The circuits *)

Definition run_aes_enc_batch_circuit (circuit : bool) (key : list N) (ctr pt : list (list N))
  : P (bool * list (list N)) :=
  require circuit ;;
  let input := key ++ concat ctr ++ concat pt in
  r <- act (EncryptBatch input) ;;
  output <- from_option r ;;
  let ct := tabulate AES_ENC_N (fun i => slice output (i * 16)) in
  let ok_byte := output.[16 * AES_ENC_N] in
  require (repeated_bit ok_byte) ;;
  ret (negb (ok_byte =? 0), ct).

Definition run_gcm_tag_circuit (circuit : bool) (key_share iv tag_share mask : list N)
  : P (bool * list N) :=
  require circuit ;;
  r <- act (MakeTag (key_share ++ iv ++ tag_share ++ mask)) ;;
  output <- from_option r ;;
  require (repeated_bit output.[0]) ;;
  ret (output.[0] =? 0, skipn 1 output).

(** ** Encryption of a record *)

(** [RETURN_FALSE_IF_SSL_FAILED(SSL_write(...), size)] *)
Definition ssl_write (bs : list N) : P unit := ok <- act (SslWrite bs) ;; require ok.

(** [CBB_add_u64], [CBB_add_u32] *)
Definition be_bytes (n : nat) (v : N) : list N :=
  tabulate n (fun i => wrap 8 (N.shiftr v (8 * N.of_nat (n - 1 - i)))).

Definition aes_enc_message (seq pt_len : N) : list N :=
  MessageHeaders.AES_ENC :: be_bytes 8 seq ++ be_bytes 4 (wrap 32 pt_len).

(** The plaintext, the inner content type, and zeros to the end of the last
    batch. *)
Definition inner_of (plaintext : list N) (inner_type : N) (nbatches : nat) : list N :=
  upd (length plaintext) inner_type
    (Server.overlay plaintext (repeat 0 (nbatches * AES_ENC_N * 16))).

(** The lanes past the last block reuse its counter. *)
Definition lane_ctr (ssl : SSL) (nblocks idx : nat) : list N :=
  let src := if (idx <? nblocks)%nat then idx else (nblocks - 1)%nat in
  SurfBlockMap.ctr_block (skipn 4 (client_iv ssl)) (write_sequence ssl)
    (wrap 32 (wrap 32 (N.of_nat src) + 2)).

Definition encrypt_one_batch (ssl : SSL) (inner : list N) (nblocks batch : nat) : P (list (list N)) :=
  let idx j := (batch * AES_ENC_N + j)%nat in
  '(ok, ct) <- run_aes_enc_batch_circuit (aes_enc_circuit ssl) (client_key_share ssl)
    (tabulate AES_ENC_N (fun j => lane_ctr ssl nblocks (idx j)))
    (tabulate AES_ENC_N (fun j => slice inner (idx j * 16))) ;;
  require ok ;;
  ret ct.

(** The loop over the batches: the blocks in the order of their copies into
    [ct]. *)
Fixpoint encrypt_batches (ssl : SSL) (inner : list N) (nblocks : nat) (batches : list nat)
  : P (list (list N)) :=
  match batches with
  | [] => ret []
  | b :: batches =>
      ct <- encrypt_one_batch ssl inner nblocks b ;;
      rest <- encrypt_batches ssl inner nblocks batches ;;
      ret (ct ++ rest)
  end.

Definition record_header (record_len : N) : list N :=
  [SSL3_RT_APPLICATION_DATA; 3; 3; wrap 8 (N.shiftr record_len 8); wrap 8 (N.land record_len 0xff)].

Definition gcm_tag_message (aad : list N) (pt_len : N) : list N :=
  MessageHeaders.GCM_TAG :: be_bytes 2 (size aad) ++ aad ++ be_bytes 4 (wrap 32 pt_len).

Definition num_blocks (pt_len : N) : nat := N.to_nat ((pt_len + 15) / 16).
Definition num_batches (pt_len : N) : nat := ((num_blocks pt_len + AES_ENC_N - 1) / AES_ENC_N)%nat.

Definition encrypt_request (ssl : SSL) (plaintext : list N) (inner_type : N) : P (list N) :=
  require (verifier ssl && aes_enc_circuit ssl && gcm_tag_circuit ssl) ;;
  let pt_len := wrap 64 (size plaintext + 1) in
  require (negb ((pt_len =? 0) || (SSL3_RT_MAX_PLAIN_LENGTH <? pt_len))) ;;
  let nblocks := num_blocks pt_len in
  let nbatches := num_batches pt_len in
  require (nbatches <=? 4)%nat ;;
  let inner := inner_of plaintext inner_type nbatches in
  let seq := write_sequence ssl in
  ssl_write (aes_enc_message seq pt_len) ;;
  blocks <- encrypt_batches ssl inner nblocks (List.seq 0 nbatches) ;;
  let ct := firstn (N.to_nat pt_len) (concat blocks) in
  let aad := record_header (pt_len + 16) in
  ssl_write (gcm_tag_message aad pt_len) ;;
  let iv := SurfBlockMap.ctr_block (skipn 4 (client_iv ssl)) seq 1 in
  tag_share <- from_option (GHash.share (cgcm_share ssl) aad ct) ;;
  mask <- act Random ;;
  '(cheated, out) <- run_gcm_tag_circuit (gcm_tag_circuit ssl) (client_key_share ssl) iv tag_share mask ;;
  require (negb cheated) ;;
  let tag := tabulate 16 (fun i => out.[i] ⊕ mask.[i]) in
  ret (aad ++ ct ++ tag).

End Calls.
End EncryptRequest.
