(* ===== verification/ProverProofs.v ===== *)
(** * The prover's request is a GCM record

    With circuits that compute what their descriptions say, [encrypt_request]
    returns the TLS record that AES-GCM under the joint key gives, and the
    verifier derives the same counters from the message it is sent. *)

From S2P Require Import Prelude Block128 GF128 FieldCode Messaging BlockMap GHash ServerIO ServerRecords ServerTrace.
From S2P Require Import Prover.

Import Prover EncryptRequest.
Local Open Scope N_scope.

(** ** Slices *)

Lemma slice_app pre rest k : slice (pre ++ rest) (length pre + k) = slice rest k.
Proof.
  unfold slice. f_equal. rewrite skipn_app, skipn_all2 by lia.
  now replace (length pre + k - length pre)%nat with k by lia.
Qed.

Lemma concat_flat (bs : list (list N)) : concat bs = flat_map (fun x => x) bs.
Proof. now rewrite flat_map_concat_map, map_id. Qed.

Lemma length_concat16 (bs : list (list N)) :
  Forall (fun b => length b = 16%nat) bs -> length (concat bs) = (length bs * 16)%nat.
Proof.
  intros Hb. rewrite concat_flat. apply length_flat_map_const. now apply Forall_forall.
Qed.

Lemma nth_concat16 (bs : list (list N)) i r :
  Forall (fun b => length b = 16%nat) bs -> (r < 16)%nat -> (i < length bs)%nat ->
  (concat bs).[i * 16 + r] = (nth i bs []).[r].
Proof.
  intros Hb Hr Hi. rewrite concat_flat.
  apply (nth_flat_map (fun x => x) 16 bs i r [] 0); auto. now apply Forall_forall.
Qed.

Lemma slice_concat (bs : list (list N)) i :
  Forall (fun b => length b = 16%nat) bs -> (i < length bs)%nat ->
  slice (concat bs) (i * 16) = nth i bs [].
Proof.
  intros Hb Hi. apply chunk_eq.
  - rewrite Forall_forall in Hb. apply Hb, nth_In, Hi.
  - intros r Hr. now apply nth_concat16.
  - rewrite length_concat16 by assumption. lia.
Qed.

Lemma slice_concat_app (bs : list (list N)) rest i :
  Forall (fun b => length b = 16%nat) bs -> (i < length bs)%nat ->
  slice (concat bs ++ rest) (i * 16) = nth i bs [].
Proof.
  intros Hb Hi. rewrite <- (slice_concat bs i Hb Hi). unfold slice.
  rewrite skipn_app, firstn_app.
  rewrite (proj2 (Nat.sub_0_le 16 _)), firstn_O, app_nil_r; [reflexivity|].
  rewrite length_skipn, length_concat16 by assumption. lia.
Qed.

Lemma Forall_tabulate {A} (Q : A -> Prop) n f : (forall i, (i < n)%nat -> Q (f i)) -> Forall Q (tabulate n f).
Proof.
  intros Hf. apply Forall_forall. intros x Hx. unfold tabulate in Hx.
  apply in_map_iff in Hx as (i & <- & Hi). apply in_seq in Hi. apply Hf. lia.
Qed.

Lemma length_ctr_block iv seq c : length (SurfBlockMap.ctr_block iv seq c) = 16%nat.
Proof. now rewrite ctr_block_eq. Qed.

Lemma length_xor_bytes a b : length (MaskConstants.xor_bytes a b) = 16%nat.
Proof. apply length_tabulate. Qed.

(** ** Sums of blocks *)

Lemma be_fold_lxor (c : list N) : forall a b x y,
  length a = length c -> length b = length c ->
  (forall i, (i < length c)%nat -> c.[i] = a.[i] ⊕ b.[i]) ->
  fold_left (fun acc v => wrap 8 v ⊕ N.shiftl acc 8) c (x ⊕ y) =
  fold_left (fun acc v => wrap 8 v ⊕ N.shiftl acc 8) a x ⊕
  fold_left (fun acc v => wrap 8 v ⊕ N.shiftl acc 8) b y.
Proof.
  induction c as [|v c IH]; intros [|v1 a] [|v2 b] x y La Lb Hi; try discriminate; [reflexivity|].
  cbn [fold_left]. specialize (Hi 0%nat ltac:(cbn; lia)) as H0. cbn in H0. subst v.
  rewrite <- IH; [|now injection La|now injection Lb|].
  - f_equal. rewrite (linear_lxor (f := wrap 8)), N.shiftl_lxor. apply N.bits_inj. intros k.
    rewrite !N.lxor_spec. now destruct (N.testbit (wrap 8 v1) k), (N.testbit (wrap 8 v2) k),
      (N.testbit (N.shiftl x 8) k), (N.testbit (N.shiftl y 8) k).
  - intros i Hl. apply (Hi (S i)). cbn. lia.
Qed.

Lemma be_int_lxor a b c :
  length a = length c -> length b = length c ->
  (forall i, (i < length c)%nat -> c.[i] = a.[i] ⊕ b.[i]) ->
  NIST.be_int c = NIST.be_int a ⊕ NIST.be_int b.
Proof. intros La Lb Hi. exact (be_fold_lxor c a b 0 0 La Lb Hi). Qed.

Lemma length_share powers aad ct s :
  Forall (fun b => b < 256) aad -> Forall (fun b => b < 256) ct ->
  GHash.share powers aad ct = Some s -> length s = 16%nat.
Proof.
  intros Ha Hc. rewrite share_eq by assumption. destruct (_ <? _)%nat; [discriminate|].
  intros E. apply some_inj in E as <-. apply length_bitrev.
Qed.

(** The batches hold the plaintext. *)
Lemma batches_cover len : (N.to_nat len <= num_blocks len * 16)%nat /\
  (num_blocks len <= num_batches len * AES_ENC_N)%nat.
Proof.
  unfold num_batches, num_blocks, AES_ENC_N.
  pose proof (N.Div0.div_mod (len + 15) 16) as E1. pose proof (N.mod_lt (len + 15) 16 ltac:(lia)) as L1.
  set (nb := (len + 15) / 16) in *.
  pose proof (Nat.Div0.div_mod (N.to_nat nb + 16 - 1) 16) as E2.
  pose proof (Nat.mod_upper_bound (N.to_nat nb + 16 - 1) 16 ltac:(lia)) as L2. lia.
Qed.

(** ** Ideal circuits *)

Section Ideal.
Context {W : World}.

(** The block cipher, the verifier's shares of the key and of the tag, and the
    cipher under the joint key. *)
Variable cipher : list N -> list N -> list N.
Variables key_v tau_v : list N.
Variable aes : list N -> list N.
Hypothesis aes_length : forall b, length (aes b) = 16%nat.

(** The key that the circuits join from the two shares. *)
Definition joint_key (key_p : list N) : list N := MaskConstants.xor_bytes key_p key_v.

(** The encryption circuit when the counters of the parties agree. *)
Definition ideal_enc (input : list N) : list N :=
  concat (tabulate AES_ENC_N (fun j =>
    MaskConstants.xor_bytes (cipher (joint_key (slice input 0)) (slice input (16 + j * 16))) (slice input (16 + (AES_ENC_N + j) * 16))))
  ++ [255].

(** The tag circuit when the IVs agree: the masked tag. *)
Definition ideal_tag (input : list N) : list N :=
  255 :: tabulate 16 (fun i =>
    (cipher (joint_key (slice input 0)) (slice input 16)).[i] ⊕ ((slice input 32).[i] ⊕ tau_v.[i]) ⊕ (slice input 48).[i]).

Class IdealWorld : Prop := {
  ideal_write : forall l bs, reply l (SslWrite bs) = true;
  ideal_batch : forall l input, reply l (EncryptBatch input) = Some (ideal_enc input);
  ideal_make_tag : forall l input, reply l (MakeTag input) = Some (ideal_tag input);
  ideal_random : forall l, length (reply l Random) = 16%nat }.

Context {ideal : IdealWorld}.

(** The key share leads the packed input. *)
Lemma packed_key key rest : length key = 16%nat -> slice (key ++ rest) 0 = key.
Proof.
  intros Lk. unfold slice. cbn [skipn]. rewrite firstn_app, Lk, firstn_O, app_nil_r.
  apply firstn_all2. rewrite Lk. apply le_n.
Qed.

Section Batch.
Variables (key : list N) (ctr pt : list (list N)).
Hypothesis key_length : length key = 16%nat.
Hypothesis key_joint : cipher (joint_key key) = aes.
Hypothesis ctr_length : length ctr = AES_ENC_N.
Hypothesis pt_length : length pt = AES_ENC_N.
Hypothesis ctr_blocks : Forall (fun b => length b = 16%nat) ctr.
Hypothesis pt_blocks : Forall (fun b => length b = 16%nat) pt.

(** The circuit's view of the packed input. *)
Lemma packed_ctr j : (j < AES_ENC_N)%nat ->
  slice (key ++ concat ctr ++ concat pt) (16 + j * 16) = nth j ctr [].
Proof.
  intros Hj. rewrite <- key_length at 1. rewrite slice_app.
  apply slice_concat_app; [assumption | lia].
Qed.

Lemma packed_pt j : (j < AES_ENC_N)%nat ->
  slice (key ++ concat ctr ++ concat pt) (16 + (AES_ENC_N + j) * 16) = nth j pt [].
Proof.
  intros Hj. rewrite <- key_length at 1. rewrite slice_app.
  replace ((AES_ENC_N + j) * 16)%nat with (length (concat ctr) + j * 16)%nat
    by (rewrite length_concat16 by assumption; lia).
  rewrite slice_app. apply slice_concat; [assumption | lia].
Qed.

Lemma run_batch_ideal l :
  run_aes_enc_batch_circuit true key ctr pt l =
  (EncryptBatch (key ++ concat ctr ++ concat pt) :: l,
   Some (true, tabulate AES_ENC_N (fun j => MaskConstants.xor_bytes (aes (nth j ctr [])) (nth j pt [])))).
Proof.
  unfold run_aes_enc_batch_circuit, bind, require, ret, act. cbv zeta.
  rewrite ideal_batch. unfold from_option, ret.
  set (blocks := tabulate AES_ENC_N (fun j => MaskConstants.xor_bytes (aes (nth j ctr [])) (nth j pt []))).
  assert (E : ideal_enc (key ++ concat ctr ++ concat pt) = concat blocks ++ [255]).
  { unfold ideal_enc. do 2 f_equal. unfold tabulate at 1, blocks, tabulate. apply map_ext_in.
    intros j Hj. apply in_seq in Hj. rewrite packed_key, key_joint, packed_ctr, packed_pt by first [exact key_length | lia]. reflexivity. }
  rewrite E. reflexivity.
Qed.

End Batch.

(** ** The batches of a record *)

Section Record.
Variables (ssl : SSL) (plaintext : list N) (inner_type : N).
Hypothesis circuits_ok : verifier ssl && aes_enc_circuit ssl && gcm_tag_circuit ssl = true.
Hypothesis key_length : length (client_key_share ssl) = 16%nat.
Hypothesis key_joint : cipher (joint_key (client_key_share ssl)) = aes.

(** Block [idx] of the output, padding included. *)
Definition out_block (inner : list N) (nblocks idx : nat) : list N :=
  MaskConstants.xor_bytes (aes (lane_ctr ssl nblocks idx)) (slice inner (idx * 16)).

Lemma length_slice bs off : (off + 16 <= length bs)%nat -> length (slice bs off) = 16%nat.
Proof. intros Hl. unfold slice. rewrite length_firstn, length_skipn. lia. Qed.

Lemma one_batch_ideal inner nblocks b l :
  ((b + 1) * AES_ENC_N * 16 <= length inner)%nat ->
  exists l', encrypt_one_batch ssl inner nblocks b l =
    (l', Some (tabulate AES_ENC_N (fun j => out_block inner nblocks (b * AES_ENC_N + j)))).
Proof.
  intros Hl. unfold encrypt_one_batch.
  destruct (aes_enc_circuit ssl) eqn:Ec; [|now rewrite andb_false_r in circuits_ok].
  unfold bind. rewrite run_batch_ideal.
  - eexists. reflexivity.
  - exact key_length.
  - exact key_joint.
  - apply length_tabulate.
  - apply length_tabulate.
  - apply Forall_tabulate. intros. apply length_ctr_block.
  - apply Forall_tabulate. intros j Hj. apply length_slice. unfold AES_ENC_N in *. lia.
Qed.

Lemma batches_ideal inner nblocks n : forall k l,
  ((k + n) * AES_ENC_N * 16 <= length inner)%nat ->
  exists l', encrypt_batches ssl inner nblocks (List.seq k n) l =
    (l', Some (tabulate (n * AES_ENC_N) (fun i => out_block inner nblocks (k * AES_ENC_N + i)))).
Proof.
  induction n as [|n IH]; intros k l Hl; cbn [List.seq encrypt_batches].
  - now exists l.
  - destruct (one_batch_ideal inner nblocks k l) as [l1 E1]; [unfold AES_ENC_N in *; lia|].
    destruct (IH (S k) l1) as [l2 E2]; [lia|].
    exists l2. unfold bind. rewrite E1, E2. unfold ret. do 2 f_equal.
    change (S n * AES_ENC_N)%nat with (AES_ENC_N + n * AES_ENC_N)%nat.
    rewrite <- (tabulate_app AES_ENC_N (n * AES_ENC_N)). f_equal. unfold tabulate. apply map_ext.
    intros i. f_equal. lia.
Qed.

(** *** The plaintext in the batches *)

Definition inner_plaintext : list N := plaintext ++ [inner_type].
Definition pt_len : N := size inner_plaintext.

Lemma length_inner nbatches :
  (length plaintext < nbatches * AES_ENC_N * 16)%nat ->
  length (inner_of plaintext inner_type nbatches) = (nbatches * AES_ENC_N * 16)%nat.
Proof.
  clear ssl circuits_ok key_length key_joint. intros Hl. unfold inner_of, Server.overlay. rewrite length_upd, length_app, length_skipn, repeat_length. lia.
Qed.

Lemma nth_inner nbatches i :
  (length plaintext < nbatches * AES_ENC_N * 16)%nat ->
  (inner_of plaintext inner_type nbatches).[i] = inner_plaintext.[i].
Proof.
  clear ssl circuits_ok key_length key_joint. intros Hl. unfold inner_of, Server.overlay, inner_plaintext. rewrite nth_upd.
  rewrite length_app, length_skipn, repeat_length.
  destruct (Nat.eqb_spec (length plaintext) i) as [<-|Hn]; cbn [andb].
  - rewrite (proj2 (Nat.ltb_lt _ _)) by lia. rewrite app_nth2, Nat.sub_diag by lia. reflexivity.
  - destruct (Nat.lt_ge_cases i (length plaintext)) as [Hi|Hi].
    + now rewrite !app_nth1.
    + rewrite !app_nth2 by lia. rewrite nth_skipn, nth_repeat.
      symmetry. apply nth_overflow. cbn. lia.
Qed.

(** *** The ciphertext *)

Definition static_iv : list N := skipn 4 (client_iv ssl).

(** Counter mode from the counter 2, as GCM encrypts. *)
Definition gcm_ctr (pt : list N) : list N :=
  tabulate (length pt) (fun i =>
    (aes (SurfBlockMap.ctr_block static_iv (write_sequence ssl) (N.of_nat (i / 16) + 2))).[i mod 16]
    ⊕ pt.[i]).

Lemma lane_ctr_real nblocks idx :
  (idx < nblocks)%nat -> (nblocks <= 1024)%nat ->
  lane_ctr ssl nblocks idx = SurfBlockMap.ctr_block static_iv (write_sequence ssl) (N.of_nat idx + 2).
Proof.
  intros Hi Hn. unfold lane_ctr. rewrite (proj2 (Nat.ltb_lt _ _) Hi). fold static_iv. f_equal.
  rewrite (wrap_small 32 (N.of_nat idx)), wrap_small; change (2 ^ 32) with 4294967296; lia.
Qed.

Hypothesis aes_bytes : forall b i, (aes b).[i] < 256.
Hypothesis plain_bytes : Forall (fun b => b < 256) inner_plaintext.

Lemma out_block_nth nbatches nblocks idx r :
  (length plaintext < nbatches * AES_ENC_N * 16)%nat -> (idx < nbatches * AES_ENC_N)%nat -> (r < 16)%nat ->
  (out_block (inner_of plaintext inner_type nbatches) nblocks idx).[r] =
  (aes (lane_ctr ssl nblocks idx)).[r] ⊕ inner_plaintext.[idx * 16 + r].
Proof.
  intros Hl Hi Hr. unfold out_block, MaskConstants.xor_bytes. rewrite nth_tabulate by assumption.
  unfold slice. rewrite nth_firstn, nth_skipn, (proj2 (Nat.ltb_lt _ _) Hr), nth_inner by assumption.
  apply wrap_small. apply (lxor_lt _ _ 8); [apply aes_bytes|].
  now apply (bytes_nth inner_plaintext).
Qed.

Lemma ciphertext_is_gcm nblocks nbatches :
  nblocks = num_blocks pt_len -> nbatches = num_batches pt_len -> (nblocks <= 1024)%nat ->
  firstn (N.to_nat pt_len)
    (concat (tabulate (nbatches * AES_ENC_N)
       (fun i => out_block (inner_of plaintext inner_type nbatches) nblocks i))) =
  gcm_ctr inner_plaintext.
Proof.
  intros En Eb Hn. destruct (batches_cover pt_len) as [C1 C2]. rewrite <- En in C1, C2. rewrite <- Eb in C2.
  assert (Lp : N.to_nat pt_len = length inner_plaintext) by (unfold pt_len, size; lia).
  assert (Lq : length inner_plaintext = S (length plaintext)) by (unfold inner_plaintext; rewrite length_app; cbn; lia).
  set (bs := tabulate _ _).
  assert (Fb : Forall (fun b => length b = 16%nat) bs)
    by (apply Forall_tabulate; intros; apply length_xor_bytes).
  assert (Lb : length bs = (nbatches * AES_ENC_N)%nat) by apply length_tabulate.
  apply (nth_ext _ _ 0 0).
  - unfold gcm_ctr. rewrite length_tabulate, length_firstn, length_concat16, Lb by assumption. lia.
  - rewrite length_firstn, length_concat16, Lb by assumption. intros i Hi.
    rewrite nth_firstn, (proj2 (Nat.ltb_lt _ _)) by lia.
    unfold gcm_ctr. rewrite nth_tabulate by lia.
    pose proof (Nat.Div0.div_mod i 16) as Ed. pose proof (Nat.mod_upper_bound i 16 ltac:(lia)) as Hm.
    rewrite Ed at 1. rewrite (Nat.mul_comm 16). rewrite nth_concat16 by (assumption || lia).
    unfold bs. rewrite nth_tabulate, out_block_nth by lia.
    rewrite lane_ctr_real by lia. do 2 f_equal. lia.
Qed.

Lemma gcm_ctr_bytes : Forall (fun b => b < 256) (gcm_ctr inner_plaintext).
Proof.
  apply Forall_tabulate. intros i _. apply (lxor_lt _ _ 8); [apply aes_bytes|].
  now apply (bytes_nth inner_plaintext).
Qed.

Lemma header_bytes n : Forall (fun b => b < 256) (record_header n).
Proof. repeat constructor; apply wrap_lt. Qed.

(** *** The tag *)

Definition J0 : list N := SurfBlockMap.ctr_block static_iv (write_sequence ssl) 1.

Definition tag_bytes (tag_share : list N) : list N :=
  tabulate 16 (fun i => (aes J0).[i] ⊕ (tag_share.[i] ⊕ tau_v.[i])).

Lemma run_tag_ideal tag_share mask l :
  length tag_share = 16%nat -> length mask = 16%nat ->
  exists l', (run_gcm_tag_circuit true (client_key_share ssl) J0 tag_share mask l) =
    (l', Some (false, tabulate 16 (fun i => (aes J0).[i] ⊕ (tag_share.[i] ⊕ tau_v.[i]) ⊕ mask.[i]))).
Proof.
  intros Lt Lm. unfold run_gcm_tag_circuit, bind, require, ret, act. rewrite ideal_make_tag.
  set (input := client_key_share ssl ++ J0 ++ tag_share ++ mask).
  assert (Lj : length J0 = 16%nat) by apply length_ctr_block.
  assert (S1 : slice input 16 = J0).
  { replace 16%nat with (length (client_key_share ssl) + 0)%nat by lia. unfold input. rewrite slice_app.
    unfold slice. cbn [skipn]. rewrite firstn_app, Lj, firstn_O, app_nil_r. apply firstn_all2. lia. }
  assert (S2 : slice input 32 = tag_share).
  { replace 32%nat with (length (client_key_share ssl) + (length J0 + 0))%nat by lia. unfold input.
    rewrite !slice_app. unfold slice. cbn [skipn]. rewrite firstn_app, Lt, firstn_O, app_nil_r.
    apply firstn_all2. lia. }
  assert (S3 : slice input 48 = mask).
  { replace 48%nat with (length (client_key_share ssl) + (length J0 + (length tag_share + 0)))%nat by lia.
    unfold input. rewrite !slice_app. unfold slice. cbn [skipn]. apply firstn_all2. lia. }
  assert (S0 : slice input 0 = client_key_share ssl) by (now apply packed_key).
  eexists. unfold from_option, ret, ideal_tag. rewrite S0, key_joint, S1, S2, S3. reflexivity.
Qed.

Lemma tag_is_gcm H powers_v tag_share aad ct :
  H < 2 ^ 128 -> Forall (fun b => b < 256) aad -> Forall (fun b => b < 256) ct ->
  power_shares (rev128 H) (cgcm_share ssl) powers_v -> (block_count aad ct <= GHash.kMaxPowers)%nat ->
  GHash.share (cgcm_share ssl) aad ct = Some tag_share -> GHash.share powers_v aad ct = Some tau_v ->
  NIST.be_int (tag_bytes tag_share) = NIST.be_int (aes J0) ⊕ NIST.gcm_ghash H aad ct.
Proof.
  intros HH Ha Hc Hp Hn Sp Sv.
  destruct (share_ghash H _ _ aad ct HH Ha Hc Hp Hn) as (sp & sv & E1 & E2 & <-).
  rewrite Sp in E1. rewrite Sv in E2. apply some_inj in E1 as <-. apply some_inj in E2 as <-.
  pose proof (length_share _ _ _ _ Ha Hc Sp) as Lp. pose proof (length_share _ _ _ _ Ha Hc Sv) as Lv.
  set (sum := tabulate 16 (fun i => tag_share.[i] ⊕ tau_v.[i])).
  rewrite <- (be_int_lxor tag_share tau_v sum).
  - apply be_int_lxor; unfold tag_bytes; rewrite ?length_tabulate; auto.
    intros i Hi. unfold sum. now rewrite !nth_tabulate.
  - unfold sum. now rewrite length_tabulate.
  - unfold sum. now rewrite length_tabulate.
  - unfold sum. rewrite length_tabulate. intros i Hi. now rewrite nth_tabulate.
Qed.

(** *** The call *)

Hypothesis short : (length plaintext < 1024)%nat.

Lemma pt_len_eq : wrap 64 (size plaintext + 1) = pt_len.
Proof.
  assert (E : size plaintext + 1 = pt_len)
    by (unfold pt_len, inner_plaintext, size; rewrite length_app; cbn; lia).
  rewrite E. apply wrap_small. rewrite <- E. unfold size. change (2 ^ 64) with 18446744073709551616. lia.
Qed.

Lemma pt_len_range : 1 <= pt_len <= 1024.
Proof. unfold pt_len, inner_plaintext, size. rewrite length_app. cbn. lia. Qed.

Lemma few_batches : (num_blocks pt_len <= 64)%nat /\ (num_batches pt_len <= 4)%nat.
Proof.
  pose proof pt_len_range as Hr.
  assert (Hb : (num_blocks pt_len <= 64)%nat).
  { unfold num_blocks. assert ((pt_len + 15) / 16 <= 64); [|lia].
    apply N.lt_succ_r, N.Div0.div_lt_upper_bound. lia. }
  split; [exact Hb|]. unfold num_batches, AES_ENC_N.
  apply Nat.lt_succ_r, Nat.Div0.div_lt_upper_bound. lia.
Qed.

Lemma few_powers : (block_count (record_header (pt_len + 16)) (gcm_ctr inner_plaintext) <= GHash.kMaxPowers)%nat.
Proof.
  unfold block_count, gcm_ctr. rewrite length_tabulate. cbn [length record_header].
  pose proof pt_len_range as Hr. unfold pt_len, size in Hr.
  assert ((length inner_plaintext + 15) / 16 <= 64)%nat as Hc
    by (apply Nat.lt_succ_r, Nat.Div0.div_lt_upper_bound; lia).
  change ((5 + 15) / 16)%nat with 1%nat. unfold GHash.kMaxPowers. lia.
Qed.

Lemma encrypt_request_ideal H powers_v l :
  H < 2 ^ 128 -> power_shares (rev128 H) (cgcm_share ssl) powers_v ->
  exists tag_share, GHash.share (cgcm_share ssl) (record_header (pt_len + 16)) (gcm_ctr inner_plaintext) = Some tag_share /\
    snd (encrypt_request ssl plaintext inner_type l) =
    Some (record_header (pt_len + 16) ++ gcm_ctr inner_plaintext ++ tag_bytes tag_share).
Proof.
  intros HH Hp. pose proof pt_len_range as Hr. destruct few_batches as [Hb64 Hb4].
  set (aad := record_header (pt_len + 16)). set (ct := gcm_ctr inner_plaintext).
  destruct (share_ghash H _ _ aad ct HH (header_bytes _) gcm_ctr_bytes Hp few_powers) as (ts & _ & Ets & _ & _).
  exists ts. split; [exact Ets|].
  unfold encrypt_request. unfold bind at 1. rewrite circuits_ok. cbn [require ret].
  unfold bind at 1. rewrite pt_len_eq. cbv zeta.
  rewrite (proj2 (N.eqb_neq pt_len 0)), (proj2 (N.ltb_ge SSL3_RT_MAX_PLAIN_LENGTH pt_len)) by (unfold SSL3_RT_MAX_PLAIN_LENGTH; lia).
  cbn [orb negb require ret]. unfold bind at 1. rewrite (proj2 (Nat.leb_le _ _) Hb4). cbn [require ret].
  unfold bind at 1, ssl_write at 1, bind at 1, act at 1. rewrite ideal_write. cbn [require ret].
  destruct (batches_cover pt_len) as [C1 C2].
  assert (Ll : (length plaintext < num_batches pt_len * AES_ENC_N * 16)%nat).
  { assert (N.to_nat pt_len = S (length plaintext))
      by (unfold pt_len, inner_plaintext, size; rewrite length_app; cbn; lia). lia. }
  unfold bind at 1. destruct (batches_ideal (inner_of plaintext inner_type (num_batches pt_len))
    (num_blocks pt_len) (num_batches pt_len) 0 (SslWrite (aes_enc_message (write_sequence ssl) pt_len) :: l))
    as [l1 E1]; [rewrite length_inner by assumption; lia|].
  rewrite E1. cbn [Nat.mul Nat.add].
  rewrite (ciphertext_is_gcm (num_blocks pt_len) (num_batches pt_len)) by (reflexivity || lia).
  fold aad ct. unfold bind at 1, ssl_write, bind at 1, act at 1. rewrite ideal_write. cbn [require ret].
  unfold bind at 1. rewrite Ets. cbn [from_option ret]. unfold bind at 1, act at 1.
  set (mask := reply _ Random).
  destruct (gcm_tag_circuit ssl) eqn:Eg; [|now rewrite andb_false_r in circuits_ok].
  assert (Lts : length ts = 16%nat) by exact (length_share _ _ _ _ (header_bytes _) gcm_ctr_bytes Ets).
  match goal with |- snd (bind _ _ ?l2) = _ =>
    destruct (run_tag_ideal ts mask l2 Lts (ideal_random _)) as [l3 E3] end.
  unfold bind at 1. fold static_iv J0. rewrite E3. cbn [require negb ret]. unfold bind, ret. cbn [snd].
  do 3 f_equal. unfold tag_bytes. apply map_ext_in. intros i Hi. apply in_seq in Hi.
  rewrite nth_tabulate by lia. now rewrite N.lxor_assoc, N.lxor_nilpotent, N.lxor_0_r.
Qed.

End Record.
End Ideal.

(** ** Big-endian numbers, written and read *)

Lemma be_bytes_snoc n v : be_bytes (S n) v = be_bytes n (N.shiftr v 8) ++ [wrap 8 v].
Proof.
  unfold be_bytes, tabulate. rewrite seq_S, map_app. cbn [map Nat.add]. f_equal.
  - apply map_ext_in. intros i Hi. apply in_seq in Hi. rewrite N.shiftr_shiftr. do 2 f_equal. lia.
  - rewrite Nat.sub_succ, Nat.sub_0_r, Nat.sub_diag. now rewrite N.shiftr_0_r.
Qed.

Lemma be_value_bytes n : forall v, Server.be_value (be_bytes n v) = wrap (8 * N.of_nat n) v.
Proof.
  induction n as [|n IH]; intros v.
  - unfold wrap. cbn. now rewrite N.land_0_r.
  - unfold Server.be_value in *. rewrite be_bytes_snoc, fold_left_app, IH. cbn [fold_left].
    apply N.bits_inj. intros i. rewrite N.lor_spec, !wrap_spec.
    destruct (N.ltb_spec i 8) as [Hi|Hi].
    + rewrite N.shiftl_spec_low, andb_true_r by assumption. cbn [orb].
      rewrite (proj2 (N.ltb_lt _ _)) by lia. now rewrite andb_true_r.
    + rewrite N.shiftl_spec_high', wrap_spec, N.shiftr_spec', andb_false_r, orb_false_r by assumption.
      rewrite N.sub_add by assumption. f_equal.
      destruct (N.ltb_spec (i - 8) (8 * N.of_nat n)), (N.ltb_spec i (8 * N.of_nat (S n))); lia || reflexivity.
Qed.

Lemma u32_of_be b0 b1 b2 b3 : Server.u32_of [b0; b1; b2; b3] = Server.be_value [b0; b1; b2; b3].
Proof.
  unfold Server.u32_of, Server.be_value. cbn [nth fold_left].
  now rewrite N.shiftl_0_l, N.lor_0_l, !N.shiftl_lor, !N.shiftl_shiftl.
Qed.

Lemma u16_of_be b0 b1 : Server.u16_of [b0; b1] = Server.be_value [b0; b1].
Proof. unfold Server.u16_of, Server.be_value. cbn [nth fold_left]. now rewrite N.shiftl_0_l, N.lor_0_l. Qed.

Lemma length_be_bytes n v : length (be_bytes n v) = n.
Proof. apply length_tabulate. Qed.

Lemma u64_roundtrip v : v < 2 ^ 64 -> Server.be_value (be_bytes 8 v) = v.
Proof. intros Hv. rewrite be_value_bytes. now apply wrap_small. Qed.

Lemma u32_roundtrip v : v < 2 ^ 32 -> Server.u32_of (be_bytes 4 v) = v.
Proof.
  intros Hv. transitivity (Server.be_value (be_bytes 4 v)); [apply u32_of_be|].
  rewrite be_value_bytes. now apply wrap_small.
Qed.

Lemma u16_roundtrip v : v < 2 ^ 16 -> Server.u16_of (be_bytes 2 v) = v.
Proof.
  intros Hv. transitivity (Server.be_value (be_bytes 2 v)); [apply u16_of_be|].
  rewrite be_value_bytes. now apply wrap_small.
Qed.
