(* ===== verification/EmpChannel.v ===== *)
(** * The channel of the two-party protocols ([ssl/EmpWrapper.inl])

    Every two-party protocol runs over an [EmpWrapper]: sends are collected in
    a buffer ([ssl/SSLBuffer.inl]) and leave as one frame, with its length in
    front, when the caller flushes; receives are served from the last frame.
    The counters of bytes and rounds are a parameter ([ssl/CounterType.inl]).

    The wire is a list of bytes that are still to come and the list of the
    messages written.  [None] is a failed assertion, which a release build
    turns into a read outside the buffer.  The branches for [NoBuffer] are left
    out: the constructor calls [resize], which that class does not have. *)

From S2P Require Import Prelude Messaging ServerIO Prover ProverProofs.
From Stdlib Require Import List.
Import ListNotations.
#[local] Abbreviation length := List.length.
Local Open Scope N_scope.

Module EmpWrapper.

(** ** Counters *)

Class Counter (C : Type) := {
  zero_counter : C;
  track_write : N -> C -> C;
  track_read : N -> C -> C;
  track_round : C -> C;
  get_read : C -> N;
  get_write : C -> N;
  get_rounds : C -> N;
  reset_read : C -> C;
  reset_write : C -> C;
  reset_rounds : C -> C }.

Record RWCounter := mkRWCounter { read_counter : N; write_counter : N; round_counter : N }.

Definition rw_counter : Counter RWCounter := {|
  zero_counter := mkRWCounter 0 0 0;
  track_write n c := mkRWCounter (read_counter c) (wrap 64 (write_counter c + n)) (round_counter c);
  track_read n c := mkRWCounter (wrap 64 (read_counter c + n)) (write_counter c) (round_counter c);
  track_round c := mkRWCounter (read_counter c) (write_counter c) (wrap 64 (round_counter c + 1));
  get_read := read_counter;
  get_write := write_counter;
  get_rounds := round_counter;
  reset_read c := mkRWCounter 0 (write_counter c) (round_counter c);
  reset_write c := mkRWCounter (read_counter c) 0 (round_counter c);
  reset_rounds c := mkRWCounter (read_counter c) (write_counter c) 0 |}.

Definition no_counter : Counter unit := {|
  zero_counter := tt;
  track_write _ c := c; track_read _ c := c; track_round c := c;
  get_read _ := 0; get_write _ := 0; get_rounds _ := 0;
  reset_read c := c; reset_write c := c; reset_rounds c := c |}.

#[export] Existing Instances rw_counter no_counter.

(** ** Buffers *)

(** [SSLBufferPolicy]; the template parameters are arguments. *)
Record Buffer := mkBuffer { buffer : list N; lower_head : N; upper_head : N }.

Definition empty_buffer : Buffer := mkBuffer [] 0 0.

(** The size is an [unsigned]. *)
Definition buffer_data (data : list N) (nbyte : N) (b : Buffer) : Buffer :=
  mkBuffer (buffer b ++ firstn (N.to_nat (wrap 32 nbyte)) data) (lower_head b) (upper_head b).

Definition clear (b : Buffer) : Buffer := mkBuffer [] 0 0.

Definition should_send (hold_flush : bool) (flush_size : N) (b : Buffer) : bool :=
  negb hold_flush && (flush_size <=? size (buffer b)).

Definition zeros (n : N) : list N := repeat 0 (N.to_nat n).

Definition resize (nbyte : N) (b : Buffer) : Buffer :=
  let b := if nbyte <=? size (buffer b) then clear b else b in
  mkBuffer (buffer b ++ zeros (nbyte - size (buffer b))) (lower_head b) (upper_head b).

Definition add_read (nbyte : N) (b : Buffer) : Buffer :=
  mkBuffer (buffer b) (lower_head b) (wrap 64 (upper_head b + nbyte)).

Definition read_bytes_size (b : Buffer) : N := wrap 64 (2 ^ 64 + upper_head b - lower_head b).

Definition read_bytes (nbyte : N) (b : Buffer) : option (list N * Buffer) :=
  if (nbyte <=? read_bytes_size b) && (lower_head b + nbyte <=? size (buffer b)) then
    let data := firstn (N.to_nat nbyte) (skipn (N.to_nat (lower_head b)) (buffer b)) in
    let lower := wrap 64 (lower_head b + nbyte) in
    Some (data, if lower =? upper_head b then mkBuffer (buffer b) 0 0 else mkBuffer (buffer b) lower (upper_head b))
  else None.

(** ** The wrapper *)

(** The wire: whether a write succeeds, given the ones before, and how many
    bytes of the current record are left, given what is still to come. *)
Class Wire := { accepts : list (list N) -> list N -> bool; SSL_pending : list N -> N }.

Section Ops.
Context {C : Type} {CC : Counter C} {W : Wire} (prepend_header hold_flush : bool) (flush_size : N).

Record t := mk {
  write_buffer : Buffer;
  read_buffer : Buffer;
  counter_w : C;
  io_failed : bool;
  written : list (list N);
  coming : list N }.

Definition set_write_buffer (b : Buffer) (w : t) : t := mk b (read_buffer w) (counter_w w) (io_failed w) (written w) (coming w).
Definition set_read_buffer (b : Buffer) (w : t) : t := mk (write_buffer w) b (counter_w w) (io_failed w) (written w) (coming w).
Definition count (f : C -> C) (w : t) : t := mk (write_buffer w) (read_buffer w) (f (counter_w w)) (io_failed w) (written w) (coming w).

Definition mark_io_failed (w : t) : t := mk (write_buffer w) (read_buffer w) (counter_w w) true (written w) (coming w).

(** [sizeof(uint64_t)] bytes for the header. *)
Definition header_bytes : N := if prepend_header then 8 else 0.

Definition init (input : list N) : t :=
  mk (resize header_bytes empty_buffer) (resize header_bytes empty_buffer) zero_counter false [] input.

Definition has_io_failed (w : t) : bool := io_failed w.
Definition reset_bandwidth (w : t) : t := count reset_write (count reset_read w).
Definition get_bandwidth (w : t) : N := wrap 64 (get_read (counter_w w) + get_write (counter_w w)).

(** [process_data] with [SSL_write], and with [SSL_read] into the buffer at
    an offset. *)
Definition put (bs : list N) (w : t) : t :=
  if io_failed w then w
  else if accepts (written w) bs then mk (write_buffer w) (read_buffer w) (counter_w w) false (written w ++ [bs]) (coming w)
  else mark_io_failed w.

Definition take (n : N) (w : t) : t * list N :=
  let bs := firstn (N.to_nat n) (coming w) in
  (mk (write_buffer w) (read_buffer w) (counter_w w) (io_failed w || negb (size bs =? n)) (written w) (skipn (N.to_nat n) (coming w)), bs).

Definition fill (offset n : N) (w : t) : t :=
  let '(w, bs) := take n w in
  let b := read_buffer w in
  let content := firstn (N.to_nat offset) (buffer b) ++ bs ++ skipn (N.to_nat offset + length bs) (buffer b) in
  count (track_read n) (set_read_buffer (add_read n (mkBuffer content (lower_head b) (upper_head b))) w).

Definition flush (w : t) : t :=
  let n := size (buffer (write_buffer w)) in
  if (n =? 0) || (prepend_header && (n =? 8)) then w
  else
    let w :=
      if prepend_header then
        let b := write_buffer w in
        count (track_write 8)
          (set_write_buffer (mkBuffer (EncryptRequest.be_bytes 8 n ++ skipn 8 (buffer b)) (lower_head b) (upper_head b)) w)
      else w in
    let w := count track_round (put (buffer (write_buffer w)) w) in
    set_write_buffer ((if prepend_header then resize 8 else clear) (write_buffer w)) w.

Definition send_data_internal (data : list N) (w : t) : t :=
  let w := set_write_buffer (buffer_data data (size data) (write_buffer w)) w in
  let w := if should_send hold_flush flush_size (write_buffer w) then flush w else w in
  count (track_write (size data)) w.

(** The number of bytes of the next frame. *)
Definition next_frame (to_read : N) (w : t) : t * N :=
  if prepend_header then
    let '(w, header) := take 8 w in
    if io_failed w then (w, 0)
    else
      let w := count (track_read 8) w in
      let total := Server.be_value header in
      (w, if total <? 8 then 0 else total - 8)
  else (w, to_read).

Definition recv_data_internal (nbyte : N) (w : t) : t * option (list N) :=
  if io_failed w then (w, Some (zeros nbyte))
  else
    let nr_read_bytes := read_bytes_size (read_buffer w) in
    if nbyte <=? nr_read_bytes then
      match read_bytes nbyte (read_buffer w) with
      | None => (w, None)
      | Some (data, b) => (set_read_buffer b w, Some data)
      end
    else
      let to_read := nbyte - nr_read_bytes in
      match read_bytes nr_read_bytes (read_buffer w) with
      | None => (w, None)
      | Some (front, b) =>
          let '(w, header_size) := next_frame to_read (set_read_buffer b w) in
          if io_failed w then (w, Some (front ++ zeros to_read))
          else if 2 ^ 30 <? header_size then (mark_io_failed w, Some (front ++ zeros to_read))
          else
            let w := fill 0 header_size (set_read_buffer (resize header_size (read_buffer w)) w) in
            let w :=
              if negb prepend_header && negb (io_failed w) then
                let bytes := SSL_pending (coming w) in
                if 0 <? bytes then fill header_size bytes (set_read_buffer (resize (bytes + header_size) (read_buffer w)) w) else w
              else w in
            match read_bytes to_read (read_buffer w) with
            | None => (w, None)
            | Some (back, b) => (set_read_buffer b w, Some (front ++ back))
            end
      end.

End Ops.
End EmpWrapper.
Import EmpWrapper.

(** ** Buffers *)

(** The heads are in order and inside the buffer. *)
Definition buffer_ok (b : Buffer) : Prop := lower_head b <= upper_head b /\ upper_head b <= size (buffer b) /\ size (buffer b) < 2 ^ 64.

(** The bytes that have not been read. *)
Definition unread (b : Buffer) : list N :=
  firstn (N.to_nat (upper_head b - lower_head b)) (skipn (N.to_nat (lower_head b)) (buffer b)).

Lemma unread_size b : buffer_ok b -> read_bytes_size b = size (unread b).
Proof.
  intros (H1 & H2 & H3). unfold read_bytes_size, unread, size in *. rewrite length_firstn, length_skipn.
  replace (2 ^ 64 + upper_head b - lower_head b) with (upper_head b - lower_head b + 1 * 2 ^ 64) by lia.
  unfold wrap. rewrite N.land_ones, N.Div0.mod_add, N.mod_small by lia. lia.
Qed.

(** A read inside the unread bytes takes them from the front. *)
Lemma read_bytes_ok n b : buffer_ok b -> n <= size (unread b) ->
  exists b', read_bytes n b = Some (firstn (N.to_nat n) (unread b), b') /\ buffer_ok b' /\ unread b' = skipn (N.to_nat n) (unread b).
Proof.
  intros Ok Hn. pose proof (unread_size b Ok) as Hs. destruct Ok as (H1 & H2 & H3).
  assert (Hl : size (unread b) = upper_head b - lower_head b) by (unfold unread, size in *; rewrite length_firstn, length_skipn; lia).
  unfold read_bytes. rewrite Hs, (proj2 (N.leb_le _ _) Hn), (proj2 (N.leb_le _ _)) by lia. cbn [andb].
  rewrite wrap_small by lia.
  assert (Ef : firstn (N.to_nat n) (skipn (N.to_nat (lower_head b)) (buffer b)) = firstn (N.to_nat n) (unread b)).
  { unfold unread. rewrite firstn_firstn. f_equal. lia. }
  rewrite Ef. destruct (N.eqb_spec (lower_head b + n) (upper_head b)) as [E|E]; eexists; (split; [reflexivity|]); split.
  - unfold buffer_ok. cbn. lia.
  - symmetry. apply skipn_all2. unfold size in Hl. lia.
  - unfold buffer_ok. cbn. lia.
  - unfold unread. cbn [upper_head lower_head buffer]. rewrite skipn_firstn_comm, skipn_skipn. f_equal; [lia|]. f_equal. lia.
Qed.

Lemma read_bytes_over n b : buffer_ok b -> size (unread b) < n -> read_bytes n b = None.
Proof.
  intros Ok Hn. unfold read_bytes. rewrite (unread_size b Ok), (proj2 (N.leb_gt _ _)) by exact Hn. reflexivity.
Qed.

Lemma nat_size {A} (l : list A) : N.to_nat (size l) = length l.
Proof. apply Nat2N.id. Qed.

Lemma size_zeros n : size (zeros n) = n.
Proof. unfold size, zeros. rewrite repeat_length. apply N2Nat.id. Qed.

Lemma size_app {A} (a b : list A) : size (a ++ b) = size a + size b.
Proof. unfold size. rewrite length_app. lia. Qed.

(** After [resize] of a buffer that has been read: the new size, heads at 0. *)
Lemma resize_read n b : buffer_ok b -> unread b = [] -> upper_head b = 0 ->
  size (buffer (resize n b)) = n /\ lower_head (resize n b) = 0 /\ upper_head (resize n b) = 0.
Proof.
  intros (H1 & _) _ Hu. assert (Hl : lower_head b = 0) by lia. unfold resize. destruct (N.leb_spec n (size (buffer b))) as [H|H]; cbn.
  - rewrite N.sub_0_r, size_zeros. auto.
  - rewrite size_app, size_zeros. split; [lia | auto].
Qed.

(** Reading everything resets the heads. *)
Lemma read_all n b : buffer_ok b -> n = size (unread b) -> forall d b', read_bytes n b = Some (d, b') ->
  d = unread b /\ buffer_ok b' /\ unread b' = [] /\ upper_head b' = 0.
Proof.
  intros Ok -> d b' E. assert (Hl : size (unread b) = upper_head b - lower_head b).
  { destruct Ok as (? & ? & ?). unfold unread, size in *; rewrite length_firstn, length_skipn; lia. }
  destruct (read_bytes_ok _ b Ok (N.le_refl _)) as (b2 & E2 & Ok2 & U2). rewrite E in E2. injection E2 as -> ->.
  unfold size at 1. rewrite Nat2N.id, firstn_all. split; [reflexivity|]. split; [exact Ok2|].
  rewrite U2. unfold size. rewrite Nat2N.id, skipn_all. split; [reflexivity|].
  unfold read_bytes in E. destruct Ok as (H1 & H2 & H3). rewrite wrap_small in E by lia. rewrite Hl in E.
  replace (lower_head b + (upper_head b - lower_head b)) with (upper_head b) in E by lia. rewrite N.eqb_refl in E.
  destruct (_ && _) in E; [|discriminate]. injection E as _ <-. reflexivity.
Qed.

(** ** Counting *)

Lemma wrap_add_l k a b : wrap k (wrap k a + b) = wrap k (a + b).
Proof. rewrite !wrap_mod. apply N.Div0.add_mod_idemp_l. Qed.

Lemma wrap_idem k a : wrap k (wrap k a) = wrap k a.
Proof. rewrite !wrap_mod. apply N.Div0.mod_mod. Qed.

(** ** Receiving *)

Section Channel.
Context {W : Wire} (hold_flush : bool) (flush_size : N).

#[local] Abbreviation wrapper := (t (C := RWCounter)).

(** A frame: the length, header included, and the payload. *)
Definition frame (payload : list N) : list N := EncryptRequest.be_bytes 8 (8 + size payload) ++ payload.

Lemma take_exact bs rest (w : wrapper) : coming w = bs ++ rest -> io_failed w = false ->
  take (size bs) w = (mk (write_buffer w) (read_buffer w) (counter_w w) false (written w) rest, bs).
Proof.
  intros E Hf. unfold take. now rewrite E, nat_size, firstn_exact, skipn_exact, N.eqb_refl, Hf.
Qed.

(** The wrapper can go on: nothing failed and the buffer is in order. *)
Definition alive (w : wrapper) : Prop := io_failed w = false /\ buffer_ok (read_buffer w) /\ (unread (read_buffer w) = [] -> upper_head (read_buffer w) = 0).

(** A receive of bytes that are there. *)
Lemma recv_buffered prepend n (w : wrapper) : alive w -> n <= size (unread (read_buffer w)) ->
  exists b, recv_data_internal prepend n w = (set_read_buffer b w, Some (firstn (N.to_nat n) (unread (read_buffer w)))) /\
    buffer_ok b /\ unread b = skipn (N.to_nat n) (unread (read_buffer w)) /\ (unread b = [] -> upper_head b = 0).
Proof.
  intros (Hf & Ok & Hz) Hn. unfold recv_data_internal. rewrite Hf, (unread_size _ Ok), (proj2 (N.leb_le _ _) Hn).
  destruct (read_bytes_ok n _ Ok Hn) as (b & E & Okb & U). rewrite E. exists b. split; [reflexivity|]. split; [exact Okb|]. split; [exact U|].
  intros Hb. rewrite U in Hb. assert (n = size (unread (read_buffer w))) as ->.
  { apply (f_equal (@length N)) in Hb. rewrite length_skipn in Hb. cbn in Hb. unfold size in *. lia. }
  now destruct (read_all _ _ Ok eq_refl _ _ E) as (_ & _ & _ & ?).
Qed.

(** The buffer after a frame has come in. *)
Lemma fill_frame p rest (w : wrapper) : io_failed w = false -> buffer_ok (read_buffer w) -> unread (read_buffer w) = [] -> upper_head (read_buffer w) = 0 ->
  coming w = p ++ rest -> size p < 2 ^ 64 ->
  fill 0 (size p) (set_read_buffer (resize (size p) (read_buffer w)) w) =
    mk (write_buffer w) (mkBuffer p 0 (size p)) (track_read (size p) (counter_w w)) false (written w) rest.
Proof.
  intros Hf Ok Hu Hz Hc Hs. destruct (resize_read (size p) _ Ok Hu Hz) as (E1 & E2 & E3). unfold fill.
  rewrite (take_exact p rest) by assumption. cbn [read_buffer set_read_buffer N.to_nat firstn app Nat.add counter_w written write_buffer].
  apply Nat2N.inj in E1. rewrite E2, E3, skipn_all2 by lia. rewrite app_nil_r. unfold add_read, count, set_read_buffer. cbn. rewrite wrap_small by exact Hs. reflexivity.
Qed.

(** A receive that needs the next frame: what is left is served from it. *)
Lemma recv_loaded n p rest (w : wrapper) : alive w -> coming w = frame p ++ rest -> size p <= 2 ^ 30 -> size (unread (read_buffer w)) < n ->
  let w1 b := mk (write_buffer w) b (track_read (size p) (track_read 8 (counter_w w))) false (written w) rest in
  recv_data_internal true n w =
    match read_bytes (n - size (unread (read_buffer w))) (mkBuffer p 0 (size p)) with
    | None => (w1 (mkBuffer p 0 (size p)), None)
    | Some (back, b) => (w1 b, Some (unread (read_buffer w) ++ back))
    end.
Proof.
  intros (Hf & Ok & Hz) Hc Hp Hn w1. set (u := unread (read_buffer w)) in *. unfold recv_data_internal.
  rewrite Hf, (unread_size _ Ok). fold u. rewrite (proj2 (N.leb_gt _ _) Hn).
  destruct (read_bytes_ok (size u) _ Ok (N.le_refl _)) as (b0 & E0 & _).
  destruct (read_all _ _ Ok eq_refl _ _ E0) as (Ed & Okb & Ub & Zb). rewrite Ed in E0. fold u in E0. rewrite E0.
  assert (L8 : 8 = size (EncryptRequest.be_bytes 8 (8 + size p))) by (unfold size; now rewrite length_be_bytes).
  unfold frame in Hc. rewrite <- app_assoc in Hc.
  pose proof (take_exact (EncryptRequest.be_bytes 8 (8 + size p)) (p ++ rest) (set_read_buffer b0 w) Hc Hf) as Et. rewrite <- L8 in Et.
  unfold next_frame. rewrite Et. cbn [io_failed]. rewrite u64_roundtrip by lia. rewrite (proj2 (N.ltb_ge _ 8)) by lia.
  replace (8 + size p - 8) with (size p) by lia. cbn [io_failed count]. rewrite (proj2 (N.ltb_ge (2 ^ 30) _)) by lia. cbn [negb andb].
  cbn [set_read_buffer read_buffer write_buffer counter_w written].
  match goal with |- context [fill 0 (size p) (set_read_buffer _ ?v)] => pose proof (fill_frame p rest v eq_refl Okb Ub Zb eq_refl ltac:(lia)) as Ef end.
  cbn [set_read_buffer read_buffer write_buffer counter_w written io_failed coming] in Ef. rewrite Ef. reflexivity.
Qed.

Lemma loaded_ok p : size p <= 2 ^ 30 -> buffer_ok (mkBuffer p 0 (size p)) /\ unread (mkBuffer p 0 (size p)) = p.
Proof.
  intros Hp. split; [unfold buffer_ok; cbn [lower_head upper_head buffer]; lia|].
  unfold unread. cbn [upper_head lower_head buffer]. rewrite N.sub_0_r, nat_size. apply firstn_all.
Qed.

(** A receive that needs the next frame and no more. *)
Lemma recv_frame n p rest (w : wrapper) : alive w -> coming w = frame p ++ rest -> size p <= 2 ^ 30 ->
  size (unread (read_buffer w)) < n -> n <= size (unread (read_buffer w)) + size p ->
  exists b, recv_data_internal true n w =
      (mk (write_buffer w) b (track_read (size p) (track_read 8 (counter_w w))) false (written w) rest,
       Some (firstn (N.to_nat n) (unread (read_buffer w) ++ p))) /\
    buffer_ok b /\ unread b = skipn (N.to_nat n) (unread (read_buffer w) ++ p) /\ (unread b = [] -> upper_head b = 0).
Proof.
  intros Al Hc Hp Hn Hm. rewrite (recv_loaded n p rest w Al Hc Hp Hn). set (u := unread (read_buffer w)) in *.
  destruct (loaded_ok p Hp) as [Okb Up]. set (b := mkBuffer p 0 (size p)) in *.
  destruct (read_bytes_ok (n - size u) b Okb ltac:(rewrite Up; lia)) as (b' & E' & Ok' & U'). rewrite E'.
  assert (firstn (N.to_nat n) (u ++ p) = u ++ firstn (N.to_nat (n - size u)) p /\ skipn (N.to_nat n) (u ++ p) = skipn (N.to_nat (n - size u)) p) as [-> ->].
  { rewrite firstn_app, skipn_app, (firstn_all2 u), (skipn_all2 u) by (unfold size in *; lia).
    cbn [app]. replace (N.to_nat n - length u)%nat with (N.to_nat (n - size u)) by (unfold size; lia). auto. }
  rewrite Up in U' |- *. exists b'. split; [reflexivity|]. split; [exact Ok'|]. split; [exact U'|].
  intros Hb. rewrite U' in Hb. assert (Hn' : n - size u = size (unread b)).
  { rewrite Up. apply (f_equal (@length N)) in Hb. rewrite length_skipn in Hb. cbn in Hb. unfold size in *. lia. }
  now destruct (read_all _ _ Okb Hn' _ _ E') as (_ & _ & _ & ?).
Qed.

(** ** Sending *)

Inductive op := Send (data : list N) | Flush.

Definition step (w : wrapper) (o : op) : wrapper :=
  match o with
  | Send data => send_data_internal true hold_flush flush_size data w
  | Flush => flush true w
  end.

Definition sends (ops : list op) : list (list N) := flat_map (fun o => match o with Send d => [d] | Flush => [] end) ops.

(** [groups] have left, a frame each; [pending] are in the buffer, behind room
    for the header; the counters have seen them all, but for [owed] bytes. *)
Record Sent (owed : N) (groups : list (list (list N))) (pending : list (list N)) (w : wrapper) : Prop := {
  sent_ok : io_failed w = false;
  sent_frames : written w = map (fun g => frame (concat g)) groups;
  sent_buffer : exists h, length h = 8%nat /\ buffer (write_buffer w) = h ++ concat pending;
  sent_groups : Forall (fun g => concat g <> []) groups;
  sent_bytes : wrap 64 (write_counter (counter_w w) + owed) = wrap 64 (size (concat (written w)) + size (concat pending));
  sent_bounded : write_counter (counter_w w) < 2 ^ 64;
  sent_rounds : round_counter (counter_w w) = wrap 64 (size (written w)) }.

Context (writes : forall before bs, accepts before bs = true).

Lemma size_frame p : size (frame p) = 8 + size p.
Proof. unfold frame. rewrite size_app. unfold size at 1. now rewrite length_be_bytes. Qed.

Lemma flush_sent owed groups pending w : Sent owed groups pending w ->
  exists groups' pending', Sent owed groups' pending' (flush true w) /\ concat groups' ++ pending' = concat groups ++ pending /\ concat pending' = [].
Proof.
  intros [Hf Hw (h & Lh & Hb) Hg Hc Hd Hr]. unfold flush. assert (Sh : size h = 8) by (unfold size; now rewrite Lh). rewrite Hb, size_app, Sh.
  destruct (concat pending) as [|x r] eqn:E.
  - exists groups, pending. split; [|auto]. split; try assumption; [exists h; now rewrite E | now rewrite E].
  - set (p := x :: r) in *. assert (Hp : 0 < size p) by (unfold size, p; cbn [length]; lia).
    rewrite (proj2 (N.eqb_neq _ 0)), (proj2 (N.eqb_neq _ 8)) by lia. cbn [orb andb].
    exists (groups ++ [pending]), []. split; [|split; [rewrite concat_app; cbn; now rewrite !app_nil_r | reflexivity]].
    unfold put, count, set_write_buffer. cbn [io_failed write_buffer buffer written]. rewrite Hf, writes, skipn_exact by exact Lh.
    change (EncryptRequest.be_bytes 8 (8 + size p) ++ p) with (frame p).
    split; cbn [io_failed written write_buffer counter_w track_round track_write rw_counter write_counter round_counter].
    + reflexivity.
    + rewrite Hw, map_app. cbn [map]. now rewrite E.
    + exists (zeros 8). split; [reflexivity|]. unfold resize. cbn [buffer].
      rewrite (proj2 (N.leb_le _ _)) by (rewrite size_frame; lia). reflexivity.
    + apply Forall_app. split; [exact Hg|]. constructor; [now rewrite E | constructor].
    + rewrite concat_app, size_app. cbn [concat]. rewrite app_nil_r, size_frame, wrap_add_l.
      transitivity (wrap 64 (wrap 64 (write_counter (counter_w w) + owed) + 8)); [rewrite wrap_add_l; f_equal; lia|].
      rewrite Hc, wrap_add_l. f_equal. change (size (@nil N)) with 0. lia.
    + apply wrap_lt.
    + rewrite Hr, wrap_add_l, size_app. reflexivity.
Qed.

Lemma send_sent groups pending data w : size data < 2 ^ 32 -> Sent 0 groups pending w ->
  exists groups' pending', Sent 0 groups' pending' (step w (Send data)) /\ concat groups' ++ pending' = (concat groups ++ pending) ++ [data].
Proof.
  intros Hs [Hf Hw (h & Lh & Hb) Hg Hc Hd Hr]. unfold step, send_data_internal, buffer_data. rewrite wrap_small, nat_size, firstn_all by exact Hs.
  set (w1 := set_write_buffer _ w).
  assert (S1 : Sent (size data) groups (pending ++ [data]) w1).
  { split; try assumption.
    - exists h. split; [exact Lh|]. unfold w1. cbn. rewrite Hb, concat_app. cbn. now rewrite app_nil_r, app_assoc.
    - rewrite N.add_0_r in Hc. cbn [counter_w w1 set_write_buffer written]. rewrite concat_app, size_app. cbn [concat]. rewrite app_nil_r, N.add_assoc.
      rewrite <- (wrap_add_l 64 (write_counter _)), <- (wrap_add_l 64 (_ + size (concat pending))). now rewrite Hc. }
  assert (K : forall g q v, Sent (size data) g q v -> Sent 0 g q (count (track_write (size data)) v)).
  { intros g q v [A1 A2 A3 A4 A5 A6 A7]. split; try assumption; cbn; [rewrite N.add_0_r, <- A5; apply wrap_idem | apply wrap_lt]. }
  destruct (should_send hold_flush flush_size (write_buffer w1)).
  - destruct (flush_sent _ _ _ _ S1) as (g & q & H1 & H2 & _). exists g, q. split; [now apply K|]. now rewrite H2, app_assoc.
  - exists groups, (pending ++ [data]). split; [now apply K | apply app_assoc].
Qed.

Lemma steps_sent ops : forall groups pending w, Forall (fun d => size d < 2 ^ 32) (sends ops) -> Sent 0 groups pending w ->
  exists groups' pending', Sent 0 groups' pending' (fold_left step ops w) /\ concat groups' ++ pending' = (concat groups ++ pending) ++ sends ops.
Proof.
  induction ops as [|[d|] ops IH]; intros groups pending w Hs S; cbn [fold_left sends flat_map] in *.
  - exists groups, pending. now rewrite app_nil_r.
  - apply Forall_cons_iff in Hs as [Hd Hs]. destruct (send_sent _ _ d w Hd S) as (g & q & S1 & E1).
    destruct (IH g q _ Hs S1) as (g' & q' & S2 & E2). exists g', q'. split; [exact S2|]. now rewrite E2, E1, <- app_assoc.
  - destruct (flush_sent _ _ _ w S) as (g & q & S1 & E1 & _). destruct (IH g q _ Hs S1) as (g' & q' & S2 & E2). exists g', q'.
    split; [exact S2|]. cbn [app]. now rewrite E2, E1.
Qed.

(** ** Receiving what was sent *)

Fixpoint recv_all (ns : list N) (w : wrapper) : t * option (list (list N)) :=
  match ns with
  | [] => (w, Some [])
  | n :: ns =>
      match recv_data_internal true n w with
      | (w, None) => (w, None)
      | (w, Some d) => match recv_all ns w with (w, Some ds) => (w, Some (d :: ds)) | (w, None) => (w, None) end
      end
  end.

Definition wire (groups : list (list (list N))) : list N := concat (map (fun g => frame (concat g)) groups).

(** What is left of the current group is in the buffer, or its frame has not
    been read yet; what was counted and what is to come are [total] bytes. *)
Definition waiting (total : N) (rest : list (list N)) (groups : list (list (list N))) (w : wrapper) : Prop :=
  alive w /\ (read_counter (counter_w w) < 2 ^ 64 /\ wrap 64 (read_counter (counter_w w) + size (coming w)) = wrap 64 total) /\
  (unread (read_buffer w) = concat rest /\ coming w = wire groups \/
   unread (read_buffer w) = [] /\ coming w = frame (concat rest) ++ wire groups /\ concat rest <> [] /\ size (concat rest) <= 2 ^ 30).

Lemma recv_next total d rest groups w : waiting total (d :: rest) groups w ->
  exists w', recv_data_internal true (size d) w = (w', Some d) /\ waiting total rest groups w'.
Proof.
  intros (Al & Ct & H). cbn [concat] in H. assert (F1 : firstn (N.to_nat (size d)) (d ++ concat rest) = d) by (rewrite nat_size; now apply firstn_exact).
  assert (F2 : skipn (N.to_nat (size d)) (d ++ concat rest) = concat rest) by (rewrite nat_size; now apply skipn_exact).
  destruct (N.le_gt_cases (size d) (size (unread (read_buffer w)))) as [Hd|Hd].
  - destruct (recv_buffered true (size d) w Al Hd) as (b & E & Ok & U & Z). rewrite E. eexists. destruct H as [[H1 H2]|(H1 & H2 & H3 & H4)].
    + rewrite H1, F1. split; [reflexivity|]. rewrite H1, F2 in U. split; [split; [apply Al | now split]|]. split; [exact Ct|]. left. now split.
    + rewrite H1 in Hd, U |- *. assert (d = []) as -> by (destruct d; [reflexivity | unfold size in Hd; cbn [length] in Hd; lia]).
      split; [reflexivity|]. split; [split; [apply Al | now split]|]. split; [exact Ct|]. right. cbn [app] in *. repeat split; assumption.
  - destruct H as [[H1 H2]|(H1 & H2 & H3 & H4)]; [rewrite H1, size_app in Hd; lia|]. rewrite H1 in Hd.
    destruct (recv_frame (size d) (d ++ concat rest) (wire groups) w Al H2 H4) as (b & E & Ok & U & Z);
      [now rewrite H1 | rewrite size_app; lia|].
    rewrite H1 in E, U. cbn [app] in E, U. rewrite F1 in E. rewrite F2 in U. rewrite E.
    eexists. split; [reflexivity|]. split; [split; [reflexivity | now split]|]. split; [|left; now split].
    split; [apply wrap_lt|]. destruct Ct as [_ Ct]. rewrite H2, size_app, size_frame in Ct. cbn [counter_w coming track_read rw_counter read_counter]. rewrite <- Ct, !wrap_add_l.
    rewrite <- N.add_assoc, (wrap_add_l 64 _ (size (d ++ concat rest) + size (wire groups))). f_equal. lia.
Qed.

Lemma recv_group total rest : forall groups w, waiting total rest groups w ->
  exists w', recv_all (map size rest) w = (w', Some rest) /\ waiting total [] groups w'.
Proof.
  induction rest as [|d rest IH]; intros groups w H; cbn [map recv_all]; [now exists w|].
  destruct (recv_next total d rest groups w H) as (w1 & E1 & H1). destruct (IH groups w1 H1) as (w2 & E2 & H2). exists w2. now rewrite E1, E2.
Qed.

Lemma recv_all_app xs ys w w1 w2 a b : recv_all xs w = (w1, Some a) -> recv_all ys w1 = (w2, Some b) -> recv_all (xs ++ ys) w = (w2, Some (a ++ b)).
Proof.
  revert w a. induction xs as [|x xs IH]; intros w a Hx Hy; cbn [recv_all app] in *; [injection Hx as -> <-; exact Hy|].
  destruct (recv_data_internal true x w) as [w' [d|]]; [|discriminate].
  destruct (recv_all xs w') as [w'' [ds|]] eqn:E; [|discriminate]. injection Hx as -> <-. now rewrite (IH _ _ E Hy).
Qed.

Lemma recv_groups total groups : forall w, waiting total [] groups w -> Forall (fun g => size (concat g) <= 2 ^ 30 /\ concat g <> []) groups ->
  exists w', recv_all (map size (concat groups)) w = (w', Some (concat groups)) /\ waiting total [] [] w'.
Proof.
  induction groups as [|g groups IH]; intros w H Hg; cbn [concat map recv_all]; [now exists w|].
  apply Forall_cons_iff in Hg as [[Hg Hn] Hgs].
  assert (H' : waiting total g groups w).
  { destruct H as (Al & Ct & [[H1 H2]|(H1 & H2 & H3 & _)]); [|now destruct H3]. split; [exact Al|]. split; [exact Ct|]. right. repeat split; assumption. }
  destruct (recv_group total g groups w H') as (w1 & E1 & H1). destruct (IH w1 H1 Hgs) as (w2 & E2 & H2).
  exists w2. split; [|exact H2]. rewrite map_app. exact (recv_all_app _ _ _ _ _ _ _ E1 E2).
Qed.

End Channel.

(** C24: the channel under the two-party protocols.  Whatever a party sends
    and whenever it flushes, with any flush size, a peer that receives in the
    same sizes gets the same blocks in the same order; nothing fails and
    nothing stays on the wire.  Both parties count the same bytes, which are
    those on the wire with the headers, and the sender counts one round for
    each message.  A block must be shorter than 4 GiB and a frame at most 1 GiB. *)
Theorem emp_channel_delivers {W : Wire} (hold_flush : bool) (flush_size : N) (ops : list op) :
  let sender := fold_left (step hold_flush flush_size) (ops ++ [Flush]) (init true []) in
  (forall before bs, accepts before bs = true) -> Forall (fun d => size d < 2 ^ 32) (sends ops) ->
  Forall (fun m => size m <= 8 + 2 ^ 30) (written sender) ->
  exists receiver,
    recv_all (map size (sends ops)) (init true (concat (written sender))) = (receiver, Some (sends ops)) /\
    has_io_failed sender = false /\ has_io_failed receiver = false /\ coming receiver = [] /\
    get_write (counter_w sender) = wrap 64 (size (concat (written sender))) /\
    get_read (counter_w receiver) = get_write (counter_w sender) /\
    get_rounds (counter_w sender) = wrap 64 (size (written sender)).
Proof.
  intros sender Hw Hs Hm. assert (S0 : Sent 0 [] [] (init true [])).
  { split; try reflexivity; [exists (zeros 8); now split | constructor]. }
  destruct (steps_sent hold_flush flush_size Hw ops [] [] _ Hs S0) as (g1 & q1 & S1 & E1).
  destruct (flush_sent Hw _ _ _ _ S1) as (g & q & S2 & E2 & Eq). cbn [app concat] in E1. rewrite E1 in E2.
  assert (Es : sender = flush true (fold_left (step hold_flush flush_size) ops (init true []))) by (unfold sender; now rewrite fold_left_app).
  rewrite <- Es in S2. destruct S2 as [Hf Hwr _ Hg Hc Hd Hr]. rewrite Eq in Hc. change (size (@nil N)) with 0 in Hc. rewrite !N.add_0_r, wrap_small in Hc by exact Hd.
  assert (W0 : waiting (size (concat (written sender))) [] g (init true (concat (written sender)))).
  { split; [repeat split; discriminate|]. split; [split; reflexivity|]. left. split; [reflexivity|]. now rewrite Hwr. }
  assert (Hgs : Forall (fun g => size (concat g) <= 2 ^ 30 /\ concat g <> []) g).
  { rewrite Hwr, Forall_map in Hm. apply Forall_and; [|exact Hg]. eapply Forall_impl; [|exact Hm]. intros x H. cbv beta in H. rewrite size_frame in H. lia. }
  destruct (recv_groups _ g _ W0 Hgs) as (w1 & R1 & W1).
  assert (W1' : waiting (size (concat (written sender))) q [] w1).
  { destruct W1 as (Al & Ct & [[H1 H2]|(_ & _ & H3 & _)]); [|now destruct H3]. split; [exact Al|]. split; [exact Ct|]. left. now rewrite Eq. }
  destruct (recv_group _ q [] w1 W1') as (w2 & R2 & (Al & [Cd Ct] & [[H1 H2]|(_ & _ & H3 & _)])); [|now destruct H3].
  exists w2. pose proof (recv_all_app _ _ _ _ _ _ _ R1 R2) as R. rewrite <- map_app, E2 in R. change (wire []) with (@nil N) in H2.
  rewrite H2 in Ct. change (size (@nil N)) with 0 in Ct. rewrite N.add_0_r, wrap_small in Ct by exact Cd.
  split; [exact R|]. split; [exact Hf|]. split; [apply Al|]. split; [exact H2|]. split; [exact Hc|]. split; [|exact Hr].
  exact (eq_trans Ct (eq_sym Hc)).
Qed.

Definition open_wire : Wire := {| accepts := fun _ _ => true; SSL_pending := fun _ => 0 |}.
Definition example_ops : list op := [Send [1; 2]; Send [3]; Flush; Send []; Send [4; 5; 6]].
Definition example_sender : t (C := RWCounter) := fold_left (step (W := open_wire) true 16384) (example_ops ++ [Flush]) (init true []).

Lemma emp_channel_delivers_witness : exists receiver,
  recv_all (W := open_wire) (map size (sends example_ops)) (init true (concat (written example_sender))) = (receiver, Some (sends example_ops)) /\
  get_read (counter_w receiver) = get_write (counter_w example_sender).
Proof.
  destruct (@emp_channel_delivers open_wire true 16384 example_ops) as (r & E & _ & _ & _ & _ & E2 & _).
  - reflexivity.
  - repeat constructor.
  - apply Forall_forall. intros m Hm. apply N.leb_le. revert m Hm. apply forallb_forall. vm_compute. reflexivity.
  - exists r. exact (conj E E2).
Defined.

(** A receive that needs more than the rest of the current frame and the next
    one runs past the buffer, although the bytes it asks for may follow on the
    wire. *)
Theorem recv_spanning_frames {W : Wire} (n : N) (p rest : list N) (w : t (C := RWCounter)) :
  alive w -> coming w = frame p ++ rest -> size p <= 2 ^ 30 -> size (unread (read_buffer w)) + size p < n ->
  snd (recv_data_internal true n w) = None.
Proof.
  intros Al Hc Hp Hn. rewrite (recv_loaded n p rest w Al Hc Hp) by lia. destruct (loaded_ok p Hp) as [Ok U].
  now rewrite read_bytes_over by (exact Ok || rewrite U; lia).
Qed.

Lemma recv_spanning_frames_witness :
  snd (recv_data_internal (W := open_wire) (C := RWCounter) true 2 (init true (frame [1] ++ frame [2]))) = None.
Proof.
  apply (@recv_spanning_frames open_wire 2 [1] (frame [2])); [repeat split; discriminate | reflexivity | discriminate | reflexivity].
Defined.

Lemma put_failed {C : Type} {W : Wire} bs (w : t (C := C)) : io_failed w = true -> put bs w = w.
Proof. intros Hf. unfold put. now rewrite Hf. Qed.

(** A failure of the wire is never forgotten, and from then on a receive
    gives zeros without touching the wire. *)
Theorem io_failure_latched {C : Type} {CC : Counter C} {W : Wire} (prepend hold_flush : bool) (flush_size n : N) (data : list N) (w : t (C := C)) :
  io_failed w = true ->
  recv_data_internal prepend n w = (w, Some (zeros n)) /\
  io_failed (send_data_internal prepend hold_flush flush_size data w) = true /\ written (send_data_internal prepend hold_flush flush_size data w) = written w.
Proof.
  intros Hf. unfold recv_data_internal. rewrite Hf. split; [reflexivity|]. unfold send_data_internal.
  set (w1 := set_write_buffer _ w). assert (F1 : io_failed w1 = true) by exact Hf. assert (W1 : written w1 = written w) by reflexivity.
  clearbody w1. assert (K : io_failed (flush prepend w1) = true /\ written (flush prepend w1) = written w).
  { unfold flush. destruct (_ || _); [now split|]. destruct prepend; rewrite put_failed by exact F1; now split. }
  destruct (should_send _ _ _); [exact K | now split].
Qed.

Lemma io_failure_latched_witness :
  fst (recv_data_internal (W := open_wire) (C := RWCounter) true 2 (mark_io_failed (init true [1; 2]))) = mark_io_failed (init true [1; 2]).
Proof.
  destruct (@io_failure_latched RWCounter rw_counter open_wire true true 1 2 [] (mark_io_failed (init true [1; 2])) eq_refl) as [E _].
  now rewrite E.
Defined.
