(* ===== verification/Handoff.v ===== *)
(** * Hand-over between rounds ([ssl/Roundhandoff.hpp])

    The files by which a full round leaves the session ticket and the parties'
    shares of the PSK to a round that resumes the session.  Files are byte
    strings by path; which calls of the C library succeed, and how many bytes a
    call moves, is up to the class [IO], whose contract is [IOOk].  The
    serialisation of a session is BoringSSL's and is the class [SessionLib]. *)

From S2P Require Import Prelude.
From stdpp Require Import gmap fin_maps list strings.
Local Open Scope nat_scope.

Module RoundHandoff.

Record Disk := { files : gmap string (list N); calls : nat; handles : nat }.

(** What call number [k] does: whether a file opens or closes, how many of [n]
    bytes are written or read, and whether a read failed. *)
Class IO := {
  opens : nat -> bool;
  writes : nat -> nat -> nat;
  closes : nat -> bool;
  reads : nat -> nat -> nat;
  read_error : nat -> bool
}.

Section Files.
Context {io : IO}.

Definition call (d : Disk) : Disk := {| files := files d; calls := S (calls d); handles := handles d |}.

Definition opened (d : Disk) : Disk := {| files := files d; calls := S (calls d); handles := S (handles d) |}.

Definition closed (d : Disk) : Disk := {| files := files d; calls := S (calls d); handles := pred (handles d) |}.

Definition put (path : string) (bytes : list N) (d : Disk) : Disk :=
  {| files := <[path := bytes]> (files d); calls := calls d; handles := handles d |}.

(** A file that is opened for writing is empty; a short write leaves it open,
    since the second operand of the conjunction is not evaluated. *)
Definition write_file (path : string) (data : list N) (d : Disk) : bool * Disk :=
  if negb (opens (calls d)) then (false, call d) else
  let d := put path [] (opened d) in
  let written := Nat.min (writes (calls d) (length data)) (length data) in
  let d := call (put path (take written data) d) in
  if negb (written =? length data) then (false, d)
  else (closes (calls d), closed d).

(** The loop of [read_file]: the bytes read, the state, and whether there was
    an error; [None] is out of fuel. *)
Fixpoint read_chunks (fuel : nat) (rest out : list N) (d : Disk) : option (list N * bool * Disk) :=
  match fuel with
  | O => None
  | S fuel =>
      let want := Nat.min 4096 (length rest) in
      let n := Nat.min (reads (calls d) want) want in
      if n =? 0 then Some (out, read_error (calls d), call d)
      else read_chunks fuel (drop n rest) (out ++ take n rest) (call d)
  end.

Definition read_file (path : string) (out : list N) (d : Disk) : option (bool * list N * Disk) :=
  match files d !! path with
  | Some content =>
      if negb (opens (calls d)) then Some (false, out, call d) else
      match read_chunks (S (length content)) content [] (opened d) with
      | Some (bytes, err, d) => Some (negb err, bytes, closed d)
      | None => None
      end
  | None => Some (false, out, call d)
  end.

Definition kShareSize : nat := 16.

Definition session_path (dir : string) : string := (dir +:+ "/session.bin")%string.

Definition prover_share_path (dir : string) : string := (dir +:+ "/prover_psk.bin")%string.

Definition verifier_share_path (dir : string) : string := (dir +:+ "/verifier_psk.bin")%string.

Definition save_share (path : string) (share : list N) (d : Disk) : bool * Disk := write_file path share d.

(** The result, the caller's array and the state. *)
Definition load_share (path : string) (out : list N) (d : Disk) : option (bool * list N * Disk) :=
  match read_file path [] d with
  | None => None
  | Some (false, _, d) => Some (false, out, d)
  | Some (true, bytes, d) =>
      if negb (length bytes =? kShareSize) then Some (false, out, d) else Some (true, bytes, d)
  end.

(** [SSL_SESSION], its serialisation and the field that SURF adds to it. *)
Class SessionLib := {
  Session : Type;
  to_bytes : Session -> option (list N);
  from_bytes : list N -> option Session;
  set_psk_share : list N -> Session -> Session
}.

(** NOT RESUMABLE *)
Definition kNotResumable : list N := [78; 79; 84; 32; 82; 69; 83; 85; 77; 65; 66; 76; 69]%N.

Context {sl : SessionLib}.

Definition save_session (dir : string) (session : option Session) (d : Disk) : bool * Disk :=
  match session with
  | None => (false, d)
  | Some s =>
      match to_bytes s with
      | None => (false, d)
      | Some data => if decide (data = kNotResumable) then (false, d) else write_file (session_path dir) data d
      end
  end.

Definition load_session (dir : string) (d : Disk) : option (option Session * Disk) :=
  match read_file (session_path dir) [] d with
  | None => None
  | Some (ok, bytes, d) => if negb ok || (length bytes =? 0) then Some (None, d) else Some (from_bytes bytes, d)
  end.

Definition save_prover (dir : string) (session : option Session) (psk_share : list N) (d : Disk) : bool * Disk :=
  let (ok, d) := save_session dir session d in
  if ok then save_share (prover_share_path dir) psk_share d else (false, d).

(** The session, the caller's share and the state. *)
Definition load_prover (dir : string) (out_psk_share : list N) (d : Disk) : option (option Session * list N * Disk) :=
  match load_share (prover_share_path dir) out_psk_share d with
  | None => None
  | Some (false, out, d) => Some (None, out, d)
  | Some (true, out, d) =>
      match load_session dir d with
      | None => None
      | Some (None, d) => Some (None, out, d)
      | Some (Some s, d) => Some (Some (set_psk_share out s), out, d)
      end
  end.

End Files.
End RoundHandoff.
Import RoundHandoff.

(** ** One file *)

(** A read that gives nothing although there are bytes left is an error. *)
Class IOOk (io : IO) : Prop := empty_read_fails k n : 0 < n -> reads k n = 0 -> read_error k = true.

Section OneFile.
Context {io : IO}.

(** Every round that is not the last consumes a byte. *)
Lemma read_chunks_ends fuel : forall rest out d, length rest < fuel -> read_chunks fuel rest out d <> None.
Proof.
  induction fuel as [|fuel IH]; intros rest out d Hf; [lia|]. cbn [read_chunks].
  destruct (Nat.eqb_spec (Nat.min (reads (calls d) (Nat.min 4096 (length rest))) (Nat.min 4096 (length rest))) 0); [discriminate|].
  apply IH. rewrite length_drop. lia.
Qed.

Lemma read_chunks_all {ok : IOOk io} fuel : forall rest out d bytes d',
  read_chunks fuel rest out d = Some (bytes, false, d') -> bytes = out ++ rest.
Proof.
  induction fuel as [|fuel IH]; intros rest out d bytes d'; [discriminate|]. cbn [read_chunks].
  set (want := Nat.min 4096 (length rest)).
  destruct (Nat.eqb_spec (Nat.min (reads (calls d) want) want) 0) as [E|E].
  - intros [= <- He _]. destruct rest as [|b rest]; [now rewrite app_nil_r|].
    assert (Hw : 0 < want) by (unfold want; cbn; lia).
    rewrite (empty_read_fails _ want) in He; [discriminate | exact Hw | lia].
  - intros H%IH. now rewrite <- app_assoc, take_drop in H.
Qed.

Lemma read_chunks_handles fuel : forall rest out d bytes e d',
  read_chunks fuel rest out d = Some (bytes, e, d') -> handles d' = handles d /\ files d' = files d.
Proof.
  induction fuel as [|fuel IH]; intros rest out d bytes e d'; [discriminate|]. cbn [read_chunks].
  destruct (_ =? 0); [now intros [= <- <- <-] | now intros H%IH].
Qed.

Lemma read_file_ends path out d : read_file path out d <> None.
Proof.
  unfold read_file. destruct (files d !! path) as [content|]; [|discriminate]. destruct (negb _); [discriminate|].
  pose proof (read_chunks_ends (S (length content)) content [] (opened d) (Nat.lt_succ_diag_r _)) as H.
  now destruct (read_chunks _ _ _ _) as [[[? ?] ?]|].
Qed.

(** A read reports success only with the whole file, and never leaves it open. *)
Lemma read_file_spec {ok : IOOk io} path out d b bytes d' : read_file path out d = Some (b, bytes, d') ->
  files d' = files d /\ handles d' = handles d /\ (b = true -> files d !! path = Some bytes).
Proof.
  unfold read_file. destruct (files d !! path) as [content|]; [|now intros [= <- <- <-]].
  destruct (negb _); [now intros [= <- <- <-]|].
  destruct (read_chunks _ _ _ _) as [[[bs e] d1]|] eqn:E; [|discriminate]. intros [= <- <- <-].
  destruct (read_chunks_handles _ _ _ _ _ _ _ E) as [Hh Hf].
  cbn [closed opened files handles] in *. repeat split; [exact Hf | now rewrite Hh|].
  destruct e; [discriminate|]. intros _. apply read_chunks_all in E. now rewrite E.
Qed.

Lemma write_file_true path data d d' : write_file path data d = (true, d') -> files d' = <[path := data]> (files d).
Proof.
  unfold write_file. destruct (negb _); [discriminate|]. cbv zeta.
  destruct (Nat.eqb_spec (Nat.min (writes (calls (put path [] (opened d))) (length data)) (length data)) (length data)) as [E|E];
    cbn [negb]; [|discriminate].
  intros [= _ <-]. cbn in *. rewrite E, firstn_all, insert_insert_eq. reflexivity.
Qed.

(** A short write leaves the file open. *)
Theorem short_write_stays_open path data d :
  opens (calls d) = true -> writes (S (calls d)) (length data) < length data ->
  exists d', write_file path data d = (false, d') /\ handles d' = S (handles d).
Proof.
  intros Ho Hw. unfold write_file. rewrite Ho. cbn.
  rewrite (proj2 (Nat.eqb_neq _ _)) by lia. cbn. eexists. now split.
Qed.

End OneFile.

(** ** The hand-over *)

Lemma paths_differ dir : session_path dir <> prover_share_path dir.
Proof. unfold session_path, prover_share_path. intros H%(inj (String.append dir)). discriminate. Qed.

Section HandOver.
Context {io : IO} {ok : IOOk io} {sl : SessionLib}.

Lemma save_prover_files dir s share d d' : save_prover dir (Some s) share d = (true, d') ->
  exists data, to_bytes s = Some data /\ data <> kNotResumable /\
    files d' = <[prover_share_path dir := share]> (<[session_path dir := data]> (files d)).
Proof.
  unfold save_prover, save_session. destruct (to_bytes s) as [data|]; [|discriminate]. case_decide as Hr; [discriminate|].
  destruct (write_file (session_path dir) data d) as [[] d1] eqn:E1; [|discriminate]. intros E2.
  exists data. apply write_file_true in E1. apply write_file_true in E2. rewrite E1 in E2. now repeat split.
Qed.

(** The next round gets what the last one left: whatever the calls of the C
    library do in between, a load after a successful save ends, and if it gives
    a session, it is the one that the saved bytes stand for, with the share that
    was saved; the caller's array holds that share; and no file stays open. *)
Theorem handoff_faithful dir s share out d d1 :
  length share = kShareSize ->
  save_prover dir (Some s) share d = (true, d1) ->
  exists r out' d2, load_prover dir out d1 = Some (r, out', d2) /\ (out' = out \/ out' = share) /\ handles d2 = handles d1 /\
    forall s', r = Some s' ->
      out' = share /\ exists data s0, to_bytes s = Some data /\ data <> kNotResumable /\ from_bytes data = Some s0 /\ s' = set_psk_share share s0.
Proof.
  intros Ls Hs. destruct (save_prover_files _ _ _ _ _ Hs) as (data & Ed & Hr & Ef).
  unfold load_prover, load_share.
  destruct (read_file (prover_share_path dir) [] d1) as [[[b bs] d2]|] eqn:E; [|now apply read_file_ends in E].
  destruct (read_file_spec _ _ _ _ _ _ E) as (F2 & H2 & Hb).
  destruct b; [|do 3 eexists; repeat split; [now left | exact H2 | discriminate..]].
  specialize (Hb eq_refl). rewrite Ef, lookup_insert_eq in Hb. injection Hb as <-.
  rewrite Ls. cbn [Nat.eqb negb kShareSize]. unfold load_session.
  destruct (read_file (session_path dir) [] d2) as [[[b bs] d3]|] eqn:E3; [|now apply read_file_ends in E3].
  destruct (read_file_spec _ _ _ _ _ _ E3) as (_ & H3 & Hb3). rewrite H2 in H3.
  destruct (negb b || (length bs =? 0)) eqn:En.
  { do 3 eexists. repeat split; [now right | exact H3 | discriminate..]. }
  destruct b; [|discriminate]. specialize (Hb3 eq_refl). rewrite F2, Ef, lookup_insert_ne, lookup_insert_eq in Hb3
    by (intros H; now apply (paths_differ dir)). injection Hb3 as <-.
  destruct (from_bytes data) as [s0|] eqn:E0; do 3 eexists; repeat split; try (now right); try exact H3; try discriminate.
  injection H as <-. now exists data, s0.
Qed.

End HandOver.

(** ** When all calls succeed *)

Class Working (io : IO) : Prop := {
  all_open k : opens k = true;
  all_written k n : writes k n = n;
  all_close k : closes k = true;
  all_read k n : reads k n = n;
  no_error k : read_error k = false
}.

Section Working.
Context {io : IO} {wk : Working io}.

#[export] Instance working_ok : IOOk io.
Proof. intros k n Hn H. rewrite all_read in H. lia. Qed.

Lemma working_write path data d :
  exists d', write_file path data d = (true, d') /\ files d' = <[path := data]> (files d) /\ handles d' = handles d.
Proof.
  destruct (write_file path data d) as [b d'] eqn:E. assert (b = true /\ handles d' = handles d) as [-> Hh].
  { revert E. unfold write_file. rewrite all_open, all_written, Nat.min_id, Nat.eqb_refl, all_close. now intros [= <- <-]. }
  exists d'. repeat split; [now apply write_file_true in E | exact Hh].
Qed.

Lemma working_read path content d : files d !! path = Some content ->
  exists d', read_file path [] d = Some (true, content, d') /\ files d' = files d /\ handles d' = handles d.
Proof.
  intros Hc. destruct (read_file path [] d) as [[[b bs] d']|] eqn:E; [|now apply read_file_ends in E].
  destruct (read_file_spec _ _ _ _ _ _ E) as (Hf & Hh & Hb). exists d'.
  assert (b = true) as ->.
  { revert E. unfold read_file. rewrite Hc, all_open. cbn [negb].
    enough (H : forall fuel rest out d r e d2, read_chunks fuel rest out d = Some (r, e, d2) -> e = false).
    { destruct (read_chunks _ _ _ _) as [[[? e] ?]|] eqn:Er; [|discriminate]. apply H in Er as ->. now intros [= <- _ _]. }
    induction fuel as [|fuel IH]; intros rest out d0 r e d2; [discriminate|]. cbn [read_chunks].
    destruct (_ =? 0); [rewrite no_error; now intros [= _ <- _] | apply IH]. }
  specialize (Hb eq_refl). rewrite Hc in Hb. now injection Hb as ->.
Qed.

(** With a working disk the prover's state survives the hand-over: a session
    that can be resumed is saved, and loading gives the session that its bytes
    stand for with the share put back, which the serialisation drops. *)
Theorem handoff_roundtrip {sl : SessionLib} dir s s0 data share out d :
  to_bytes s = Some data -> data <> kNotResumable -> data <> [] -> from_bytes data = Some s0 -> length share = kShareSize ->
  exists d1 d2, save_prover dir (Some s) share d = (true, d1) /\
    load_prover dir out d1 = Some (Some (set_psk_share share s0), share, d2) /\ handles d2 = handles d.
Proof.
  intros Ed Hr Hne E0 Ls. unfold save_prover, save_session, save_share. rewrite Ed, decide_False by exact Hr.
  destruct (working_write (session_path dir) data d) as (da & -> & Fa & Ha).
  destruct (working_write (prover_share_path dir) share da) as (d1 & -> & F1 & H1).
  unfold load_prover, load_share, load_session.
  destruct (working_read (prover_share_path dir) share d1) as (d2 & E2 & F2 & H2); [now rewrite F1, lookup_insert_eq|].
  destruct (working_read (session_path dir) data d2) as (d3 & E3 & F3 & H3).
  { rewrite F2, F1, lookup_insert_ne, Fa by (intros H; now apply (paths_differ dir)). apply lookup_insert_eq. }
  exists d1, d3. split; [reflexivity|]. rewrite E2, Ls. cbn [Nat.eqb negb kShareSize]. rewrite E3. cbn [negb orb].
  rewrite (proj2 (Nat.eqb_neq _ _)) by now destruct data. rewrite E0. split; [reflexivity | congruence].
Qed.

End Working.

Definition perfect : IO :=
  {| opens := fun _ => true; writes := fun _ n => n; closes := fun _ => true; reads := fun _ n => n; read_error := fun _ => false |}.

Lemma perfect_works : Working perfect.
Proof. now constructor. Qed.

(** Sessions as a ticket and a share, of which only the ticket is serialised. *)
Definition ticket_only : SessionLib :=
  {| Session := list N * list N; to_bytes := fun s => Some (fst s); from_bytes := fun b => Some (b, []);
     set_psk_share := fun share s => (fst s, share) |}.

Lemma handoff_roundtrip_witness :
  exists d1 d2, save_prover (io := perfect) (sl := ticket_only) "run" (Some ([1; 2; 3]%N, [])) (repeat 5%N 16) {| files := ∅; calls := 0; handles := 0 |} = (true, d1) /\
    load_prover (io := perfect) (sl := ticket_only) "run" [] d1 = Some (Some ([1; 2; 3]%N, repeat 5%N 16), repeat 5%N 16, d2) /\ handles d2 = 0.
Proof.
  now apply (handoff_roundtrip (wk := perfect_works) (sl := ticket_only) "run" ([1; 2; 3]%N, []) ([1; 2; 3]%N, []) [1; 2; 3]%N).
Defined.
