(* ===== verification/ProverClaims.v ===== *)
(** * The guarantees of the prover's requests *)

From S2P Require Import Prelude Block128 GF128 FieldCode Messaging BlockMap GHash ServerIO ServerRecords ServerTrace.
From S2P Require Import Prover ProverProofs.

Import Prover EncryptRequest.
Local Open Scope N_scope.

(** ** The record *)

(** C3: For a request of up to 1023 bytes, with encryption and tag circuits
    that compute the block cipher under the exclusive or of the two parties' key
    shares (and the sum of the tag shares), and with shares of the powers of the
    hash key on both sides, [encrypt_request]
    returns the TLS 1.3 record: the header, the counter-mode encryption of the
    plaintext and its inner content type from the counter 2, and a tag that is
    GHASH of header and ciphertext plus the encryption of [J0]. *)
Theorem encrypt_request_is_gcm (W : World) (cipher : list N -> list N -> list N) (key_v tau_v powers_v : list N)
    (ssl : SSL) (plaintext : list N) (inner_type H : N) (l : list Action) :
  let aes := cipher (MaskConstants.xor_bytes (client_key_share ssl) key_v) in
  (forall k b, length (cipher k b) = 16%nat) -> (forall k b i, (cipher k b).[i] < 256) ->
  IdealWorld cipher key_v tau_v ->
  verifier ssl && aes_enc_circuit ssl && gcm_tag_circuit ssl = true ->
  length (client_key_share ssl) = 16%nat ->
  (length plaintext < 1024)%nat -> Forall (fun b => b < 256) (plaintext ++ [inner_type]) ->
  H < 2 ^ 128 -> power_shares (rev128 H) (cgcm_share ssl) powers_v ->
  let pt := plaintext ++ [inner_type] in
  let aad := record_header (size pt + 16) in
  let ct := gcm_ctr aes ssl pt in
  GHash.share powers_v aad ct = Some tau_v ->
  exists tag, snd (encrypt_request ssl plaintext inner_type l) = Some (aad ++ ct ++ tag) /\
    length tag = 16%nat /\
    NIST.be_int tag = NIST.be_int (aes (SurfBlockMap.ctr_block (skipn 4 (client_iv ssl)) (write_sequence ssl) 1))
                      ⊕ NIST.gcm_ghash H aad ct.
Proof.
  intros aes La Ba Hi Hc Hk Hs Hb HH Hp pt aad ct Sv.
  destruct (encrypt_request_ideal cipher key_v tau_v aes ssl plaintext inner_type Hc Hk eq_refl (Ba _) Hb Hs H powers_v l HH Hp)
    as (ts & Sp & E).
  exists (tag_bytes tau_v aes ssl ts). split; [exact E|]. split; [apply length_tabulate|].
  apply (tag_is_gcm tau_v aes (La _) ssl H powers_v); try assumption.
  - apply header_bytes.
  - apply gcm_ctr_bytes; [exact (Ba _) | assumption].
  - now apply few_powers.
Qed.

(** *** An ideal world *)

Definition toy_keyed (k b : list N) : list N := tabulate 16 (fun i => wrap 8 (b.[i] ⊕ k.[i] ⊕ N.of_nat (90 + i))).
Definition toy_share : list N := repeat 8 16.

Definition ideal_prover_world (tau_v : list N) : World := fun _ a =>
  match a as a return Reply a with
  | SslWrite _ => true
  | EncryptBatch input => Some (ideal_enc toy_keyed toy_share input)
  | MakeTag input => Some (ideal_tag toy_keyed toy_share tau_v input)
  | Random => repeat 77 16
  end.

Lemma ideal_prover_ok tau_v : @IdealWorld (ideal_prover_world tau_v) toy_keyed toy_share tau_v.
Proof. now split. Qed.

Lemma toy_keyed_bytes k b i : (toy_keyed k b).[i] < 256.
Proof.
  apply bytes_nth. apply Forall_tabulate. intros j _. apply (wrap_lt 8).
Qed.

Definition toy_ssl : SSL := {|
  verifier := true; aes_enc_circuit := true; gcm_tag_circuit := true; write_sequence := 3;
  client_key_share := repeat 1 16; client_iv := repeat 0 4 ++ repeat 2 12;
  cgcm_share := powers_of_blocks (repeat 1 GHash.kMaxPowers) |}.

(** The cipher under the joint key. *)
Definition toy_aes : list N -> list N := toy_keyed (MaskConstants.xor_bytes (client_key_share toy_ssl) toy_share).

Definition toy_tau : list N :=
  match GHash.share (powers_of_blocks (repeat 0 GHash.kMaxPowers)) (record_header 20)
          (gcm_ctr toy_aes toy_ssl [71; 69; 84; 23]) with Some s => s | None => [] end.

Lemma encrypt_request_is_gcm_witness :
  exists tag,
    snd (@encrypt_request (ideal_prover_world toy_tau) toy_ssl [71; 69; 84] 23 []) =
      Some (record_header 20 ++ gcm_ctr toy_aes toy_ssl [71; 69; 84; 23] ++ tag) /\
    length tag = 16%nat /\
    NIST.be_int tag = NIST.be_int (toy_aes (SurfBlockMap.ctr_block (skipn 4 (client_iv toy_ssl)) 3 1))
      ⊕ NIST.gcm_ghash (2 ^ 127) (record_header 20) (gcm_ctr toy_aes toy_ssl [71; 69; 84; 23]).
Proof.
  apply (@encrypt_request_is_gcm (ideal_prover_world toy_tau) toy_keyed toy_share toy_tau
    (powers_of_blocks (repeat 0 GHash.kMaxPowers)) toy_ssl [71; 69; 84] 23 (2 ^ 127) []).
  - intros k b. apply length_tabulate.
  - exact toy_keyed_bytes.
  - apply ideal_prover_ok.
  - reflexivity.
  - reflexivity.
  - apply Nat.ltb_lt. reflexivity.
  - repeat constructor.
  - reflexivity.
  - exact ones_power_shares.
  - vm_compute. reflexivity.
Defined.

(** ** Agreement with the verifier *)

(** From the announcement of a request the verifier reads the prover's
    sequence number and length, and in every batch it computes the same
    sixteen counter blocks as the prover, padding lanes included: the
    equality test in the circuit cannot fail between honest parties. *)
Theorem parties_agree_on_counters (ssl : SSL) (verifier_iv : list N) (len : N) (b : nat) :
  skipn 4 (client_iv ssl) = verifier_iv -> write_sequence ssl < 2 ^ 64 -> 1 <= len <= 1024 ->
  let seq := write_sequence ssl in
  let nblocks := (len + 15) / 16 in
  aes_enc_message seq len = MessageHeaders.AES_ENC :: be_bytes 8 seq ++ be_bytes 4 len /\
  Server.be_value (be_bytes 8 seq) = seq /\ Server.u32_of (be_bytes 4 len) = len /\
  num_batches len = nbatches ServerRecords.AES_ENC_N nblocks /\
  tabulate AES_ENC_N (fun j => lane_ctr ssl (num_blocks len) (b * AES_ENC_N + j)) =
    Records.enc_batch_ctrs verifier_iv seq nblocks b.
Proof.
  intros Hiv Hs Hl seq nblocks.
  assert (W : wrap 32 len = len) by (apply wrap_small; change (2 ^ 32) with 4294967296; lia).
  split; [unfold aes_enc_message; now rewrite W|].
  split; [rewrite be_value_bytes; now apply wrap_small|].
  split.
  - transitivity (Server.be_value (be_bytes 4 len)); [apply u32_of_be|].
    now rewrite be_value_bytes.
  - split; [reflexivity|]. unfold Records.enc_batch_ctrs, tabulate. apply map_ext. intros j.
    unfold lane_ctr, Records.enc_lane. rewrite Hiv.
    assert (E : num_blocks len = N.to_nat nblocks) by reflexivity. rewrite E.
    change ServerRecords.AES_ENC_N with AES_ENC_N.
    destruct (Nat.ltb_spec (b * AES_ENC_N + j) (N.to_nat nblocks)),
      (N.ltb_spec (N.of_nat (b * AES_ENC_N + j)) nblocks); try lia; [reflexivity|].
    now replace (N.of_nat (N.to_nat nblocks - 1)) with (nblocks - 1) by lia.
Qed.

Lemma parties_agree_on_counters_witness :
  tabulate AES_ENC_N (fun j => lane_ctr toy_ssl (num_blocks 300) (1 * AES_ENC_N + j)) =
    Records.enc_batch_ctrs (repeat 2 12) 3 19 1.
Proof.
  apply (parties_agree_on_counters toy_ssl (repeat 2 12) 300 1); [reflexivity | reflexivity | lia].
Defined.

(** ** What the padding lanes show *)

(** The verifier's [encrypted_ct] after the batches whose public outputs are
    [blocks]. *)
Definition verifier_view (blocks : list (list N)) (n : nat) : list (list N) :=
  fold_left (fun enc b => Records.store_ct b (firstn AES_ENC_N (skipn (b * AES_ENC_N) blocks)) enc)
    (List.seq 0 n) (repeat (repeat 0 16) (n * AES_ENC_N)).

Lemma view_nth blocks n : forall m k enc,
  (m <= n)%nat -> length enc = (n * AES_ENC_N)%nat -> (k < m * AES_ENC_N)%nat ->
  nth k (fold_left (fun enc b => Records.store_ct b (firstn AES_ENC_N (skipn (b * AES_ENC_N) blocks)) enc)
           (List.seq 0 m) enc) [] = nth k blocks [].
Proof.
  induction m as [|m IH]; intros k enc Hm Hl Hk; [lia|].
  rewrite seq_S, fold_left_app. cbn [fold_left Nat.add]. unfold Records.store_ct at 1.
  assert (Len : length (fold_left (fun enc b => Records.store_ct b
             (firstn AES_ENC_N (skipn (b * AES_ENC_N) blocks)) enc) (List.seq 0 m) enc) = (n * AES_ENC_N)%nat).
  { rewrite length_fold_left; [exact Hl|]. intros x o. apply length_fold_left. intros. apply length_upd. }
  change ServerRecords.AES_ENC_N with AES_ENC_N. rewrite nth_fold_upd by (rewrite Len; unfold AES_ENC_N in *; lia).
  destruct (Nat.leb_spec (m * AES_ENC_N) k) as [H1|H1]; cbn [andb].
  - rewrite (proj2 (Nat.ltb_lt _ _)) by (cbn in Hk; unfold AES_ENC_N in *; lia).
    rewrite nth_firstn, (proj2 (Nat.ltb_lt _ _)) by (unfold AES_ENC_N in *; lia).
    rewrite nth_skipn. f_equal. lia.
  - apply IH; [lia | exact Hl | exact H1].
Qed.

(** The comment in [encrypt_request] says that the blocks of the padding
    lanes are discarded, but the verifier stores them.  Whenever a request
    does not fill its last batch, two blocks the verifier holds differ by the
    last block of the plaintext: it learns up to sixteen bytes of the request
    in the clear. *)
Theorem padding_lane_reveals_plaintext (W : World) (cipher : list N -> list N -> list N)
    (key_v tau_v : list N) (ssl : SSL) (plaintext : list N) (inner_type : N) (l : list Action) :
  (forall k b i, (cipher k b).[i] < 256) -> IdealWorld cipher key_v tau_v ->
  verifier ssl && aes_enc_circuit ssl && gcm_tag_circuit ssl = true ->
  length (client_key_share ssl) = 16%nat ->
  (length plaintext < 1024)%nat -> Forall (fun b => b < 256) (plaintext ++ [inner_type]) ->
  let pt := plaintext ++ [inner_type] in
  let nblocks := num_blocks (size pt) in
  let n := num_batches (size pt) in
  (nblocks < n * AES_ENC_N)%nat ->
  exists blocks,
    snd (encrypt_batches ssl (inner_of plaintext inner_type n) nblocks (List.seq 0 n) l) = Some blocks /\
    let seen := verifier_view blocks n in
    MaskConstants.xor_bytes (nth (nblocks - 1) seen []) (nth nblocks seen []) =
    tabulate 16 (fun r => pt.[(nblocks - 1) * 16 + r]).
Proof.
  intros Ba Hi Hc Hk Hs Hb pt nblocks n Hn.
  assert (Lp : length pt = S (length plaintext)) by (unfold pt; rewrite length_app; cbn; lia).
  destruct (batches_cover (size pt)) as [C1 C2]. fold nblocks n in C1, C2.
  assert (Ls : N.to_nat (size pt) = length pt) by (unfold size; lia). rewrite Ls, Lp in C1.
  set (aes := cipher (joint_key key_v (client_key_share ssl))).
  destruct (batches_ideal cipher key_v tau_v aes ssl Hc Hk eq_refl (inner_of plaintext inner_type n) nblocks n 0 l) as [l1 E].
  { rewrite length_inner by lia. lia. }
  eexists. rewrite E. split; [reflexivity|]. cbn zeta.
  set (blocks := tabulate _ _). unfold verifier_view.
  rewrite !(view_nth blocks n n) by (rewrite ?repeat_length; lia).
  unfold blocks. rewrite !nth_tabulate by lia. cbn [Nat.mul Nat.add].
  unfold MaskConstants.xor_bytes at 1. unfold tabulate. apply map_ext_in. intros r Hr. apply in_seq in Hr.
  rewrite !(out_block_nth aes ssl plaintext inner_type (Ba _) Hb) by lia. fold pt.
  assert (El : lane_ctr ssl nblocks nblocks = lane_ctr ssl nblocks (nblocks - 1)).
  { unfold lane_ctr. rewrite (proj2 (Nat.ltb_ge nblocks nblocks)) by lia.
    now rewrite (proj2 (Nat.ltb_lt (nblocks - 1) nblocks)) by lia. }
  rewrite El. unfold inner_plaintext. fold pt.
  rewrite (nth_overflow pt (n := nblocks * 16 + r)) by lia. rewrite N.lxor_0_r.
  set (a := (aes _).[r]). set (p := pt.[_]).
  rewrite (N.lxor_comm a p), N.lxor_assoc, N.lxor_nilpotent, N.lxor_0_r.
  apply wrap_small. now apply (bytes_nth pt).
Qed.

Lemma padding_lane_reveals_plaintext_witness :
  exists blocks,
    snd (@encrypt_batches (ideal_prover_world []) toy_ssl (inner_of [71; 69; 84] 23 1) 1 [0%nat] []) = Some blocks /\
    MaskConstants.xor_bytes (nth 0 (verifier_view blocks 1) []) (nth 1 (verifier_view blocks 1) []) =
    tabulate 16 (fun r => [71; 69; 84; 23].[r]).
Proof.
  apply (@padding_lane_reveals_plaintext (ideal_prover_world []) toy_keyed toy_share [] toy_ssl [71; 69; 84] 23 []).
  - exact toy_keyed_bytes.
  - apply ideal_prover_ok.
  - reflexivity.
  - reflexivity.
  - apply Nat.ltb_lt. reflexivity.
  - repeat constructor.
  - apply Nat.ltb_lt. reflexivity.
Defined.
