(* ===== verification/ServerStream.v ===== *)
(** * Requests on a stream of bytes

    What the verifier's handlers do when the prover's bytes arrive in order,
    in pieces of any size: [read_exact_blocking] returns the next bytes, so a
    handler reads the request that was sent. *)

From S2P Require Import Prelude Block128 FieldCode Messaging Util KeyShare BlockMap GHash Arrays.
From S2P Require Import ServerState ServerIO ServerHandshake ServerRecords ServerRun ServerLogic.
From S2P Require Import ServerSafety ServerTrace ServerVerify ServerWorld.
From S2P Require Import Prover ProverProofs.

Import Server Handshake Records Run.
Local Open Scope N_scope.

Lemma overlay_more (acc bs old : list N) : overlay (acc ++ bs) (overlay acc old) = overlay (acc ++ bs) old.
Proof.
  unfold overlay. f_equal. rewrite length_app, skipn_app.
  rewrite (skipn_all2 acc) by lia. cbn. rewrite skipn_skipn. f_equal. lia.
Qed.

Definition is_read (a : Action) : bool := match a with ARead _ => true | _ => false end.

(** The reads deliver [input] in order: each one that finds bytes left gives
    at least one of them. *)
Class Stream (W : World) (input : list N) := {
  pos : list Action -> nat;
  pos_read : forall l n, 0 < n -> (pos l < length input)%nat ->
    exists k, (0 < k)%nat /\ N.of_nat k <= n /\
      reply l (ARead n) = Got (firstn k (skipn (pos l) input)) /\ pos (ARead n :: l) = (pos l + k)%nat;
  pos_other : forall l a, is_read a = false -> pos (a :: l) = pos l }.

Section OnStream.
Context `{KL : KeyLib} {W : World} {F : Fuel} {input : list N} {St : Stream W input}.

(** The server has kept its fields since [s0], and [rest] has not been read. *)
Definition at_rest (s0 : Server) (rest : list N) (s : Server) : Prop :=
  SameAtt s0 s /\ skipn (pos (log s)) input = rest.

Lemma SameAtt_log s a : SameAtt s (set_log (a :: log s) s).
Proof. repeat (split; [reflexivity|]). now exists [a]. Qed.

Lemma rest_left l (bs rest : list N) : skipn (pos l) input = bs ++ rest -> bs <> [] -> (pos l < length input)%nat.
Proof.
  intros E Hb. destruct (Nat.lt_ge_cases (pos l) (length input)) as [H|H]; [exact H|].
  rewrite skipn_all2 in E by exact H. now destruct bs.
Qed.

(** ** Reading *)

Lemma read_loop_stream n len : forall acc s s0 bs rest,
  at_rest s0 (bs ++ rest) s -> size acc + size bs = len -> (length bs <= n)%nat ->
  exists s', read_loop n (fun _ s => s) len acc s = (s', Done (acc ++ bs)) /\ at_rest s0 rest s'.
Proof.
  induction n as [|n IH]; intros acc s s0 bs rest [Hs Hr] Hlen Hn; cbn [read_loop].
  - destruct bs; [|cbn in Hn; lia]. rewrite (proj2 (N.ltb_ge _ _)) by (unfold size in *; cbn in *; lia).
    exists s. rewrite app_nil_r. split; [reflexivity | now split].
  - destruct bs as [|b bs].
    { rewrite (proj2 (N.ltb_ge _ _)) by (unfold size in *; cbn in *; lia).
      exists s. rewrite app_nil_r. split; [reflexivity | now split]. }
    rewrite (proj2 (N.ltb_lt _ _)) by (unfold size in *; cbn in *; lia).
    assert (Hp : (pos (log s) < length input)%nat) by (eapply rest_left; [exact Hr | discriminate]).
    destruct (pos_read (log s) (len - size acc)) as (k & K0 & Kn & E & P); [unfold size in *; cbn in *; lia | exact Hp|].
    unfold bind at 1, act. rewrite E, Hr. unfold bind at 1, modify.
    set (s1 := set_log (ARead (len - size acc) :: log s) s).
    assert (Kl : (k <= length (b :: bs))%nat) by (unfold size in *; cbn in *; lia).
    destruct (IH (acc ++ firstn k ((b :: bs) ++ rest)) s1 s0 (skipn k (b :: bs)) rest) as (s' & E' & Hs').
    + split; [eapply SameAtt_trans; [exact Hs | apply SameAtt_log]|].
      change (log s1) with (ARead (len - size acc) :: log s). rewrite P, Nat.add_comm, <- skipn_skipn, Hr.
      rewrite skipn_app. replace (k - length (b :: bs))%nat with 0%nat by lia. reflexivity.
    + unfold size in *. rewrite length_app, length_firstn, length_skipn, length_app in *. lia.
    + rewrite length_skipn. cbn [length] in *. lia.
    + exists s'. split; [|exact Hs']. rewrite E'. f_equal. f_equal.
      rewrite <- app_assoc. f_equal. rewrite firstn_app.
      replace (k - length (b :: bs))%nat with 0%nat by lia. rewrite firstn_O, app_nil_r.
      apply firstn_skipn.
Qed.

Lemma stream_read_exact len s s0 bs rest :
  at_rest s0 (bs ++ rest) s -> size bs = len -> (length bs <= fuel)%nat ->
  exists s', at_rest s0 rest s' /\ read_exact_blocking len s = (s', Done bs).
Proof.
  intros Hs Hl Hf. destruct (read_loop_stream fuel len [] s s0 bs rest Hs) as (s' & E & Hs'); [now cbn | exact Hf|].
  exists s'. split; [exact Hs' | exact E].
Qed.

(** Counters do not matter. *)
Lemma at_rest_track s0 rest s e n : at_rest s0 rest s -> at_rest s0 rest (fst (track e n s)).
Proof. intros [Hs Hr]. split; [eapply SameAtt_trans; [exact Hs|] | exact Hr]. repeat (split; [reflexivity|]). now exists []. Qed.

Lemma at_rest_rounds s0 rest s e n : at_rest s0 rest s -> at_rest s0 rest (fst (track_rounds e n s)).
Proof. intros [Hs Hr]. split; [eapply SameAtt_trans; [exact Hs|] | exact Hr]. repeat (split; [reflexivity|]). now exists []. Qed.

End OnStream.

(** Runs the read at the head of the handler, with the remaining stream in
    [Hs]; what is left are the conditions on the bytes. *)
Ltac read_next H Hs :=
  let E := fresh "E" in
  lazymatch goal with
  | |- context [bind (read_exact_blocking ?len) _ ?s] =>
      edestruct (stream_read_exact len s) as (? & H & E); [exact Hs|..|rewrite (bind_done _ _ _ _ _ E); clear E]
  end.

Section Requests.
Context `{KL : KeyLib} {W : World} {F : Fuel} {input : list N} {St : Stream W input}.

(** ** Verification requests *)

(** The bytes after the header of a [GCM_VERIFY] request. *)
Definition verify_body (seq : N) (aad ct tag : list N) : list N :=
  EncryptRequest.be_bytes 8 seq ++ EncryptRequest.be_bytes 2 (size aad) ++ aad ++
  EncryptRequest.be_bytes 4 (size ct) ++ ct ++ tag.

Lemma read_request_stream s s0 seq aad ct tag rest :
  at_rest s0 (verify_body seq aad ct tag ++ rest) s ->
  seq < 2 ^ 64 -> size aad = 5 -> 1 <= size ct <= 16385 -> size tag = 16 -> 16385 <= N.of_nat fuel ->
  exists s', at_rest s0 rest s' /\
    read_verify_request s = (s', Done {| rq_seq := seq; rq_aad := aad; rq_ciphertext := ct; rq_server_tag := tag |}).
Proof.
  intros Hs Hseq Ha Hc Ht Hf. unfold verify_body in Hs. rewrite <- !app_assoc in Hs. unfold read_verify_request.
  assert (Lb : forall n v, size (EncryptRequest.be_bytes n v) = N.of_nat n)
    by (intros; unfold size; now rewrite length_be_bytes).
  assert (Lf : forall n v, (n <= 8)%nat -> (length (EncryptRequest.be_bytes n v) <= fuel)%nat)
    by (intros; rewrite length_be_bytes; lia).
  read_next H1 Hs; [apply Lb | apply Lf; lia|].
  read_next H2 H1; [apply Lb | apply Lf; lia|].
  cbv zeta. rewrite u16_roundtrip, Ha by (rewrite Ha; reflexivity). change (5 =? SSL3_RT_HEADER_LENGTH) with true.
  unfold require at 1. unfold bind at 1, ret at 1.
  read_next H3 H2; [exact Ha | unfold size in Ha; lia|].
  read_next H4 H3; [apply Lb | apply Lf; lia|].
  rewrite u32_roundtrip by lia.
  replace (negb ((size ct =? 0) || (SSL3_RT_MAX_PLAIN_LENGTH + 1 <? size ct))) with true.
  2: { symmetry. apply negb_true_iff, orb_false_iff. split; [apply N.eqb_neq; lia | apply N.ltb_ge].
       unfold SSL3_RT_MAX_PLAIN_LENGTH. lia. }
  unfold require at 1. unfold bind at 1, ret at 1.
  read_next H5 H4; [reflexivity | unfold size in Hc; lia|].
  read_next H6 H5; [exact Ht | unfold size in Ht; lia|].
  eexists. split; [|rewrite u64_roundtrip by exact Hseq; reflexivity].
  apply (at_rest_track s0 rest (fst (track_rounds Events.GCM_VERIFY 1 _))), at_rest_rounds, H6.
Qed.

(** *** The handler *)

(** A reply of the verification circuit of either kind. *)
Definition vfy_reply (i : CircuitIn) (tag_passed cheated key_opened : bool) : option (CircuitOut i) :=
  match i as i return option (CircuitOut i) with
  | InGCMVfy _ _ _ _ => Some (tag_passed, cheated)
  | InGCMVfyCommit _ _ _ _ _ => Some (tag_passed, cheated, key_opened)
  | _ => None
  end.

(** The record is entered. *)
Definition passes (true_surf tag_passed cheated key_opened : bool) : bool :=
  tag_passed && negb cheated && (negb true_surf || key_opened).

(** The verifier answers with a verdict instead of ending the connection. *)
Definition gives_verdict (c : Conf) (cheated key_opened : bool) : bool :=
  true_surf c && is_rotate (mode c) && negb cheated && key_opened.

Lemma run_circuit_reply i o s :
  (forall l, reply l (ARun i) = Some o) -> run_circuit i s = (set_log (ARun i :: log s) s, Done o).
Proof. intros E. unfold run_circuit, bind, act. now rewrite E. Qed.

Lemma pos_log_other s a : is_read a = false -> pos (log (set_log (a :: log s) s)) = pos (log s).
Proof. apply pos_other. Qed.

Lemma write_header_ok h s :
  (forall l bs, reply l (AWrite bs) = true) ->
  write_single_header h s = (set_log (AWrite [h] :: log s) s, Done tt).
Proof. intros E. unfold write_single_header, socket_write, bind, act. cbn. now rewrite E. Qed.

(** The end of a verification, by what the circuit said. *)
Definition verify_ends (s : Server) (rq : VerifyRequest) (rest : list N) (tp ch ko : bool)
    (r : Server * Outcome unit) : Prop :=
  let ok := passes (true_surf (conf s)) tp ch ko in
  exists s',
    r = (s', if ok || gives_verdict (conf s) ch ko then Done tt else Fail) /\
    conf s' = conf s /\ keys s' = keys s /\ circuits s' = circuits s /\
    att s' = (if ok then entered (conf s) (att s) rq else att s) /\
    skipn (pos (log s')) input = rest /\
    (gives_verdict (conf s) ch ko = true ->
     exists l, log s' = AWrite [if tp then MessageHeaders.TAG_OK else MessageHeaders.TAG_REJECT] :: l).

Section Ends.
Context (s : Server) (rq : VerifyRequest) (ts rest : list N) (tp ch ko : bool).
Hypothesis Hrun : forall l, reply l (ARun (verify_input s rq ts)) = vfy_reply (verify_input s rq ts) tp ch ko.
Let iv := verify_iv (server_iv (traffic_key_shares (keys s))) (rq_seq rq).

Lemma verify_plain_ends s1 :
  true_surf (conf s) = false -> at_rest s rest s1 -> verify_ends s rq rest tp ch ko (verify_plain rq iv ts s1).
Proof.
  intros Et [(C & K & A & X & _) R1]. unfold verify_ends, passes, gives_verdict. unfold verify_input in Hrun.
  rewrite Et in Hrun |- *. cbn [negb orb andb]. unfold verify_plain. unfold bind at 1, gets at 1. rewrite K.
  rewrite (bind_done _ _ _ _ _ (run_circuit_reply _ _ s1 Hrun)). cbn [vfy_reply].
  set (s2 := set_log _ s1).
  assert (R2 : skipn (pos (log s2)) input = rest) by (unfold s2; now rewrite pos_log_other).
  rewrite orb_false_r, andb_true_r.
  destruct ch; [rewrite andb_false_r; exists s2; repeat split; (assumption || discriminate)|].
  destruct tp; [|exists s2; repeat split; (assumption || discriminate)].
  eexists. split; [reflexivity|]. unfold entered. rewrite Et. cbn [andb negb].
  repeat split; try assumption; try discriminate. cbn. now rewrite A.
Qed.

Hypothesis Hw : forall l bs, reply l (AWrite bs) = true.

Lemma verify_commit_ends s1 :
  true_surf (conf s) = true -> at_rest s rest s1 -> verify_ends s rq rest tp ch ko (verify_with_commitment rq iv ts s1).
Proof.
  intros Et [(C & K & A & X & _) R1]. unfold verify_ends, passes, gives_verdict. unfold verify_input in Hrun.
  rewrite Et in Hrun |- *. cbn [negb orb andb].
  unfold verify_with_commitment. unfold bind at 1 2, gets at 1 2. rewrite K, A.
  rewrite (bind_done _ _ _ _ _ (run_circuit_reply _ _ s1 Hrun)). cbn [vfy_reply].
  set (s2 := set_log _ s1).
  assert (R2 : skipn (pos (log s2)) input = rest) by (unfold s2; now rewrite pos_log_other).
  destruct ch; [rewrite !andb_false_r; exists s2; repeat split; (assumption || discriminate)|].
  destruct ko; [|rewrite !andb_false_r; exists s2; repeat split; (assumption || discriminate)].
  rewrite !andb_true_r. unfold bind at 1 2, require, ret at 1 2, negb at 1.
  unfold bind at 1, gets at 1. change (conf s2) with (conf s1). rewrite C.
  destruct tp; cbn [negb orb].
  - unfold bind at 1, gets at 1. change (conf s2) with (conf s1). rewrite C.
    unfold entered. rewrite Et. cbn [andb].
    destruct (retain_ct (conf s)); destruct (is_rotate (mode (conf s)));
      unfold bind, upd_att, modify, ret; try rewrite write_header_ok by exact Hw;
      (eexists; split; [reflexivity|]); cbn -[pos]; rewrite ?A, ?pos_other by reflexivity;
      repeat split; try assumption; try discriminate; eauto.
  - destruct (is_rotate (mode (conf s))).
    + rewrite write_header_ok by exact Hw. eexists. split; [reflexivity|].
      rewrite pos_log_other by reflexivity. repeat split; try assumption. intros _. eexists. reflexivity.
    + exists s2. repeat split; (assumption || discriminate).
Qed.

End Ends.

Lemma verify_gcm_tag_stream s seq aad ct tag rest ts tp ch ko :
  skipn (pos (log s)) input = verify_body seq aad ct tag ++ rest ->
  seq < 2 ^ 64 -> size aad = 5 -> 1 <= size ct <= 16385 -> size tag = 16 -> 16385 <= N.of_nat fuel ->
  let rq := {| rq_seq := seq; rq_aad := aad; rq_ciphertext := ct; rq_server_tag := tag |} in
  (true_surf (conf s) = true -> key_committed (att s) = true /\ key_released (att s) = false) ->
  has_circuit GCM_VFY s = true ->
  GHash.share (server_gcm_powers (keys s)) aad ct = Some ts ->
  (forall l, reply l (ARun (verify_input s rq ts)) = vfy_reply (verify_input s rq ts) tp ch ko) ->
  (forall l bs, reply l (AWrite bs) = true) ->
  verify_ends s rq rest tp ch ko (verify_gcm_tag s).
Proof.
  intros Hs Hseq Ha Hc Ht Hf rq Hk Hv Hts Hrun Hw.
  destruct (read_request_stream s s seq aad ct tag rest) as (s1 & H1 & E1); try assumption.
  { split; [reflexivity | exact Hs]. }
  pose proof H1 as [(C & K & A & X & _) _]. unfold verify_gcm_tag. unfold bind at 1 2, gets at 1 2.
  assert (G : forall k : M unit,
    ((if true_surf (conf s) then require (key_committed (att s)) ;; require (negb (key_released (att s))) else ret tt) ;; k) s
    = k s).
  { intros k. destruct (true_surf (conf s)); [|reflexivity]. destruct (Hk eq_refl) as [-> ->]. reflexivity. }
  rewrite G, (bind_done _ _ _ _ _ E1). fold rq. unfold bind at 1, gets at 1. rewrite K. cbn [rq_aad rq_ciphertext rq].
  rewrite Hts. unfold bind at 1 2, gets at 1 2. rewrite K.
  replace (has_circuit GCM_VFY s1) with true by (unfold has_circuit in *; now rewrite X).
  unfold bind at 1, require, ret at 1. destruct (true_surf (conf s)) eqn:Et.
  - now apply verify_commit_ends.
  - now apply verify_plain_ends.
Qed.

End Requests.

(** ** The concrete stream *)

#[local] Instance stream_world_stream (input : list N) : Stream (stream_world input) input.
Proof.
  refine {| pos := fun l => N.to_nat (N.min (asked l) (size input)) |}.
  - intros l n Hn Hp. set (p := N.to_nat (N.min (asked l) (size input))) in *.
    exists (N.to_nat (N.min n (size input - asked l))). cbn [asked fold_right].
    change (reply l (ARead n)) with (stream_read input l n). unfold stream_read. fold p.
    assert (Ll : size (skipn p input) = size input - asked l) by (unfold size in *; rewrite length_skipn; lia).
    rewrite Ll. fold (asked l).
    assert (asked l < size input) by (unfold size in *; lia).
    split; [lia | split; [lia | split; [|lia]]].
    destruct (firstn (N.to_nat (N.min n (size input - asked l))) (skipn p input)) as [|b r] eqn:E; [|reflexivity].
    apply (f_equal (@length N)) in E. rewrite length_firstn, length_skipn in E. unfold size in *. cbn in E. lia.
  - intros l a Ha. destruct a; try discriminate Ha; reflexivity.
Defined.
