(* ===== verification/ProverState.v ===== *)
(** * State and effects of the prover's connection ([ssl/ThreePartyHandshake.cpp])

    The fields of BoringSSL's [SSL] object that the prover keeps
    there ([boringssl/ssl/internal.h]), what its functions do to the outside
    world (the connection to the verifier, the circuits, randomness, the
    handshake layer), and the monad they run in.  As for the verifier, the
    world is an arbitrary function from the actions so far to the next reply.
    Allocation is taken to succeed. *)

From S2P Require Import Prelude Messaging ServerState ServerIO.

Local Open Scope N_scope.

Module Session.

(** ** Fields *)

(** [SSL::SurfRecord]: the record without its tag, the tag, and the sequence
    number that fixes the counter blocks. *)
Record SurfRecord := mkSurfRecord {
  ciphertext : list N;
  tag : list N;
  seq : N }.

(** Pointers, by whether they are not null. *)
Record Ptrs := mkPtrs {
  verifier : bool;
  gcm_vfy_circuit : bool;
  ks_block_circuit : bool;
  gcm_circuit : bool;
  rotate_circuit : bool }.

(** The fields that exist for either direction: [cats_share], [sats_share];
    [client_key_share], [server_key_share]; [client_iv], [server_iv], sixteen
    bytes with the IV at offset 4; [cgcm_share], [sgcm_share]. *)
Record Dir := mkDir {
  ats_share : list N;
  key_share : list N;
  iv : list N;
  gcm_share : list N }.

Record Release := mkRelease {
  surf_key_committed : bool;
  surf_key_released : bool;
  surf_key_commit_rand : list N;
  surf_full_server_key : list N;
  surf_epoch_start : nat;
  surf_epoch : N }.

Record Capture := mkCapture {
  surf_records : list SurfRecord;
  read_sequence : N;
  keystream : list N;
  next_mask_index : nat }.

(** What the handshake's callbacks keep.  The pointers to handshake circuits,
    by the circuit they point to, and the other pointers that are not null and
    are not in [Ptrs]. *)
Record Pre := mkPre {
  should_make_circuits : bool;
  handshake_circuit_a : option CircuitId;
  handshake_circuit_b : option CircuitId;
  ks_circuit : option CircuitId;
  made : list CircuitId }.

(** [SSL_is_server]; [s3->session_reused]; the group of the new session;
    [surf_psk_share] of [ssl->session], if there is one;
    [hs->key_share_bytes]. *)
Record Exchange := mkExchange {
  is_server : bool;
  session_reused : bool;
  group_id : N;
  session_psk : option (list N);
  key_share_bytes : list N;
  key_store : list N;
  x_key_store : list N;
  y_key_store : list N;
  ticket_nonce : list N }.

(** Shares of the secrets; the last two are [hs->client_handshake_secret] and
    [hs->server_handshake_secret]. *)
Record Shares := mkShares {
  shs_iv : list N;
  shts_share : list N;
  chts_share : list N;
  ms_share : list N;
  dhs_share : list N;
  fk_s : list N;
  rms_share : list N;
  psk_share : list N;
  client_handshake_secret : list N;
  server_handshake_secret : list N }.

(** The handshake layer after the handshake: [s3->hs_buf], empty also when the
    pointer is null; [s3->key_update_count], eight bits;
    [s3->key_update_pending]; [s3->write_shutdown] other than none. *)
Record Layer := mkLayer {
  hs_buf : list N;
  key_update_count : N;
  key_update_pending : bool;
  write_shutdown : bool }.

(** [throw_state] is the message after which a test's callback [thrower] is
    called, if one is set. *)
Record SSL := mkSSL {
  ptrs : Ptrs;
  surf_mode : Surf.Mode;
  surf_true_mode : bool;
  throw_state : option N;
  mask_seed : list N;
  mask_seed_key : list N;
  client : Dir;
  server : Dir;
  rel : Release;
  cap : Capture;
  pre : Pre;
  exch : Exchange;
  shares : Shares;
  layer : Layer }.

(** *** Updates *)

Definition set_gcm_circuit (v : bool) (r : Ptrs) : Ptrs :=
  mkPtrs (verifier r) (gcm_vfy_circuit r) (ks_block_circuit r) v (rotate_circuit r).

Definition set_ats_share (v : list N) (r : Dir) : Dir :=
  mkDir v (key_share r) (iv r) (gcm_share r).
Definition set_key_share (v : list N) (r : Dir) : Dir :=
  mkDir (ats_share r) v (iv r) (gcm_share r).
Definition set_iv (v : list N) (r : Dir) : Dir :=
  mkDir (ats_share r) (key_share r) v (gcm_share r).
Definition set_gcm_share (v : list N) (r : Dir) : Dir :=
  mkDir (ats_share r) (key_share r) (iv r) v.

Definition set_surf_key_committed (v : bool) (r : Release) : Release :=
  mkRelease v (surf_key_released r) (surf_key_commit_rand r) (surf_full_server_key r)
    (surf_epoch_start r) (surf_epoch r).
Definition set_surf_key_released (v : bool) (r : Release) : Release :=
  mkRelease (surf_key_committed r) v (surf_key_commit_rand r) (surf_full_server_key r)
    (surf_epoch_start r) (surf_epoch r).
Definition set_surf_key_commit_rand (v : list N) (r : Release) : Release :=
  mkRelease (surf_key_committed r) (surf_key_released r) v (surf_full_server_key r)
    (surf_epoch_start r) (surf_epoch r).
Definition set_surf_full_server_key (v : list N) (r : Release) : Release :=
  mkRelease (surf_key_committed r) (surf_key_released r) (surf_key_commit_rand r) v
    (surf_epoch_start r) (surf_epoch r).
Definition set_surf_epoch_start (v : nat) (r : Release) : Release :=
  mkRelease (surf_key_committed r) (surf_key_released r) (surf_key_commit_rand r)
    (surf_full_server_key r) v (surf_epoch r).
Definition set_surf_epoch (v : N) (r : Release) : Release :=
  mkRelease (surf_key_committed r) (surf_key_released r) (surf_key_commit_rand r)
    (surf_full_server_key r) (surf_epoch_start r) v.

Definition set_surf_records (v : list SurfRecord) (r : Capture) : Capture :=
  mkCapture v (read_sequence r) (keystream r) (next_mask_index r).
Definition set_read_sequence (v : N) (r : Capture) : Capture :=
  mkCapture (surf_records r) v (keystream r) (next_mask_index r).
Definition set_keystream (v : list N) (r : Capture) : Capture :=
  mkCapture (surf_records r) (read_sequence r) v (next_mask_index r).
Definition set_next_mask_index (v : nat) (r : Capture) : Capture :=
  mkCapture (surf_records r) (read_sequence r) (keystream r) v.

Definition set_ptrs (v : Ptrs) (r : SSL) : SSL :=
  mkSSL v (surf_mode r) (surf_true_mode r) (throw_state r) (mask_seed r) (mask_seed_key r)
    (client r) (server r) (rel r) (cap r) (pre r) (exch r) (shares r) (layer r).
Definition set_surf_mode (v : Surf.Mode) (r : SSL) : SSL :=
  mkSSL (ptrs r) v (surf_true_mode r) (throw_state r) (mask_seed r) (mask_seed_key r) (client r)
    (server r) (rel r) (cap r) (pre r) (exch r) (shares r) (layer r).
Definition set_surf_true_mode (v : bool) (r : SSL) : SSL :=
  mkSSL (ptrs r) (surf_mode r) v (throw_state r) (mask_seed r) (mask_seed_key r) (client r)
    (server r) (rel r) (cap r) (pre r) (exch r) (shares r) (layer r).
Definition set_mask_seed (v : list N) (r : SSL) : SSL :=
  mkSSL (ptrs r) (surf_mode r) (surf_true_mode r) (throw_state r) v (mask_seed_key r) (client r)
    (server r) (rel r) (cap r) (pre r) (exch r) (shares r) (layer r).
Definition set_mask_seed_key (v : list N) (r : SSL) : SSL :=
  mkSSL (ptrs r) (surf_mode r) (surf_true_mode r) (throw_state r) (mask_seed r) v (client r)
    (server r) (rel r) (cap r) (pre r) (exch r) (shares r) (layer r).
Definition set_client (v : Dir) (r : SSL) : SSL :=
  mkSSL (ptrs r) (surf_mode r) (surf_true_mode r) (throw_state r) (mask_seed r) (mask_seed_key r)
    v (server r) (rel r) (cap r) (pre r) (exch r) (shares r) (layer r).
Definition set_server (v : Dir) (r : SSL) : SSL :=
  mkSSL (ptrs r) (surf_mode r) (surf_true_mode r) (throw_state r) (mask_seed r) (mask_seed_key r)
    (client r) v (rel r) (cap r) (pre r) (exch r) (shares r) (layer r).
Definition set_rel (v : Release) (r : SSL) : SSL :=
  mkSSL (ptrs r) (surf_mode r) (surf_true_mode r) (throw_state r) (mask_seed r) (mask_seed_key r)
    (client r) (server r) v (cap r) (pre r) (exch r) (shares r) (layer r).
Definition set_cap (v : Capture) (r : SSL) : SSL :=
  mkSSL (ptrs r) (surf_mode r) (surf_true_mode r) (throw_state r) (mask_seed r) (mask_seed_key r)
    (client r) (server r) (rel r) v (pre r) (exch r) (shares r) (layer r).
Definition set_pre (v : Pre) (r : SSL) : SSL :=
  mkSSL (ptrs r) (surf_mode r) (surf_true_mode r) (throw_state r) (mask_seed r) (mask_seed_key r)
    (client r) (server r) (rel r) (cap r) v (exch r) (shares r) (layer r).
Definition set_exch (v : Exchange) (r : SSL) : SSL :=
  mkSSL (ptrs r) (surf_mode r) (surf_true_mode r) (throw_state r) (mask_seed r) (mask_seed_key r)
    (client r) (server r) (rel r) (cap r) (pre r) v (shares r) (layer r).
Definition set_shares (v : Shares) (r : SSL) : SSL :=
  mkSSL (ptrs r) (surf_mode r) (surf_true_mode r) (throw_state r) (mask_seed r) (mask_seed_key r)
    (client r) (server r) (rel r) (cap r) (pre r) (exch r) v (layer r).
Definition set_layer (v : Layer) (r : SSL) : SSL :=
  mkSSL (ptrs r) (surf_mode r) (surf_true_mode r) (throw_state r) (mask_seed r) (mask_seed_key r)
    (client r) (server r) (rel r) (cap r) (pre r) (exch r) (shares r) v.

Definition set_hs_buf (v : list N) (r : Layer) : Layer :=
  mkLayer v (key_update_count r) (key_update_pending r) (write_shutdown r).
Definition set_key_update_count (v : N) (r : Layer) : Layer :=
  mkLayer (hs_buf r) v (key_update_pending r) (write_shutdown r).
Definition set_key_update_pending (v : bool) (r : Layer) : Layer :=
  mkLayer (hs_buf r) (key_update_count r) v (write_shutdown r).

Definition set_handshake_circuit_a (v : option CircuitId) (r : Pre) : Pre :=
  mkPre (should_make_circuits r) v (handshake_circuit_b r) (ks_circuit r) (made r).
Definition set_handshake_circuit_b (v : option CircuitId) (r : Pre) : Pre :=
  mkPre (should_make_circuits r) (handshake_circuit_a r) v (ks_circuit r) (made r).
Definition set_ks_circuit (v : option CircuitId) (r : Pre) : Pre :=
  mkPre (should_make_circuits r) (handshake_circuit_a r) (handshake_circuit_b r) v (made r).
Definition set_made (v : list CircuitId) (r : Pre) : Pre :=
  mkPre (should_make_circuits r) (handshake_circuit_a r) (handshake_circuit_b r) (ks_circuit r) v.

Definition set_key_share_bytes (v : list N) (r : Exchange) : Exchange :=
  mkExchange (is_server r) (session_reused r) (group_id r) (session_psk r) v (key_store r)
    (x_key_store r) (y_key_store r) (ticket_nonce r).
Definition set_key_store (v : list N) (r : Exchange) : Exchange :=
  mkExchange (is_server r) (session_reused r) (group_id r) (session_psk r) (key_share_bytes r) v
    (x_key_store r) (y_key_store r) (ticket_nonce r).
Definition set_session_psk (v : option (list N)) (r : Exchange) : Exchange :=
  mkExchange (is_server r) (session_reused r) (group_id r) v (key_share_bytes r) (key_store r)
    (x_key_store r) (y_key_store r) (ticket_nonce r).
Definition set_ticket_nonce (v : list N) (r : Exchange) : Exchange :=
  mkExchange (is_server r) (session_reused r) (group_id r) (session_psk r) (key_share_bytes r)
    (key_store r) (x_key_store r) (y_key_store r) v.
Definition set_x_key_store (v : list N) (r : Exchange) : Exchange :=
  mkExchange (is_server r) (session_reused r) (group_id r) (session_psk r) (key_share_bytes r)
    (key_store r) v (y_key_store r) (ticket_nonce r).

Definition set_shs_iv (v : list N) (r : Shares) : Shares :=
  mkShares v (shts_share r) (chts_share r) (ms_share r) (dhs_share r) (fk_s r) (rms_share r)
    (psk_share r) (client_handshake_secret r) (server_handshake_secret r).
Definition set_shts_share (v : list N) (r : Shares) : Shares :=
  mkShares (shs_iv r) v (chts_share r) (ms_share r) (dhs_share r) (fk_s r) (rms_share r)
    (psk_share r) (client_handshake_secret r) (server_handshake_secret r).
Definition set_chts_share (v : list N) (r : Shares) : Shares :=
  mkShares (shs_iv r) (shts_share r) v (ms_share r) (dhs_share r) (fk_s r) (rms_share r)
    (psk_share r) (client_handshake_secret r) (server_handshake_secret r).
Definition set_ms_share (v : list N) (r : Shares) : Shares :=
  mkShares (shs_iv r) (shts_share r) (chts_share r) v (dhs_share r) (fk_s r) (rms_share r)
    (psk_share r) (client_handshake_secret r) (server_handshake_secret r).
Definition set_dhs_share (v : list N) (r : Shares) : Shares :=
  mkShares (shs_iv r) (shts_share r) (chts_share r) (ms_share r) v (fk_s r) (rms_share r)
    (psk_share r) (client_handshake_secret r) (server_handshake_secret r).
Definition set_fk_s (v : list N) (r : Shares) : Shares :=
  mkShares (shs_iv r) (shts_share r) (chts_share r) (ms_share r) (dhs_share r) v (rms_share r)
    (psk_share r) (client_handshake_secret r) (server_handshake_secret r).
Definition set_rms_share (v : list N) (r : Shares) : Shares :=
  mkShares (shs_iv r) (shts_share r) (chts_share r) (ms_share r) (dhs_share r) (fk_s r) v
    (psk_share r) (client_handshake_secret r) (server_handshake_secret r).
Definition set_psk_share (v : list N) (r : Shares) : Shares :=
  mkShares (shs_iv r) (shts_share r) (chts_share r) (ms_share r) (dhs_share r) (fk_s r)
    (rms_share r) v (client_handshake_secret r) (server_handshake_secret r).
Definition set_client_handshake_secret (v : list N) (r : Shares) : Shares :=
  mkShares (shs_iv r) (shts_share r) (chts_share r) (ms_share r) (dhs_share r) (fk_s r)
    (rms_share r) (psk_share r) v (server_handshake_secret r).
Definition set_server_handshake_secret (v : list N) (r : Shares) : Shares :=
  mkShares (shs_iv r) (shts_share r) (chts_share r) (ms_share r) (dhs_share r) (fk_s r)
    (rms_share r) (psk_share r) (client_handshake_secret r) v.

(** ** Actions on the world and their replies *)

(** The entry points of the circuit wrapper. *)
Inductive Circuit :=
  | verify_tag | verify_tag_commit | derive_ks_batch | derive_rotate | derive_gcm_shares
  | derive_hs (size : N) | derive_ts_key | derive_rms_key | derive_psk_key (width : nat) | derive_binder_key.

Definition output_size (c : Circuit) : nat :=
  match c with
  | verify_tag => 2
  | verify_tag_commit => 3
  | derive_ks_batch => 16 * 16 + 1
  | derive_rotate => 60
  | derive_gcm_shares => 16
  | derive_hs _ => 220
  | derive_ts_key => 120
  | derive_rms_key | derive_psk_key _ | derive_binder_key => 32
  end.

(** What the handshake's callbacks and the handshake layer of BoringSSL do. *)
Inductive Shake :=
  | GetEnv                            (** [getenv] of the two variables of the mode *)
  | Build (c : CircuitId) (with_commit : bool)
  | Preproc (c : CircuitId)           (** [do_preproc], [has_io_failed] *)
  | DeleteCircuit (c : CircuitId)
  | DoEctf (x y : list N) (group_id : N)
  | GetHash                           (** [Util::get_hash] of the transcript *)
  | GetReadBuffer                     (** [s3->hs_buf->length], [s3->read_buffer.span()] *)
  | AeadLengths                       (** key and nonce length of the new session's cipher *)
  | SetReadState (key iv : list N)    (** [method->set_read_state] *)
  | HashMessage                       (** [ssl_hash_message] *)
  | AdvanceSchedule                   (** BoringSSL's own key schedule, after the server's Finished *)
  | DupSession                        (** [SSL_SESSION_dup] of the established session *)
  | TicketExtensions (bs : list N)    (** a ticket's extensions are parsed; an alert is sent if that fails *)
  | NewSession (psk_share : option (list N))
                                      (** the session of a ticket, offered to [new_session_cb] *)
  | RotateNative (is_write : bool)    (** [tls13_rotate_traffic_key] without a verifier *)
  | AddKeyUpdate (request_type : N)   (** a KeyUpdate message is added to the flight *)
  | FinishFlight                      (** [method->finish_flight] *)
  | SendAlert (description : N).      (** [ssl_send_alert], fatal *)

Definition ShakeReply (a : Shake) : Type :=
  match a with
  | GetEnv => option Stdlib.Strings.String.string * option Stdlib.Strings.String.string
  | Build _ _ => bool                 (* not null *)
  | Preproc _ => bool                 (* has_io_failed *)
  | DeleteCircuit _ => unit
  | DoEctf _ _ _ | GetHash => option (list N)
  | GetReadBuffer => N * list N
  | AeadLengths => option (option (nat * nat))  (* [s3->hs] is not null; the cipher has an AEAD *)
  | SetReadState _ _ | HashMessage | AdvanceSchedule | DupSession | TicketExtensions _ | RotateNative _ | AddKeyUpdate _ => bool
  | NewSession _ | FinishFlight | SendAlert _ => unit
  end.

Definition shake_ok (a : Shake) : ShakeReply a -> Prop :=
  match a as a return ShakeReply a -> Prop with
  | DoEctf _ _ _ => fun r => match r with Some bs => Forall (fun b => b < 256) bs | None => True end
  | GetHash => fun r => match r with Some bs => length bs = 32%nat /\ Forall (fun b => b < 256) bs | None => True end
  | GetReadBuffer => fun r => Forall (fun b => b < 256) (snd r)
  | _ => fun _ => True
  end.

Inductive Action :=
  | SslWrite (bs : list N)            (** [SSL_write] to the verifier *)
  | SslRead (n : N)                   (** [SSL_read], with [SSL_get_error] and [poll] *)
  | RandBytes (n : nat)               (** [RAND_bytes] *)
  | RandomBytes (n : nat)             (** [Util::generate_random_bytes] *)
  | Run (c : Circuit) (input : list N)
  | KsRemaining                       (** [ks_batches_remaining] *)
  | KsPreproc                         (** [ks_block_circuit->do_preproc], [has_io_failed] *)
  | GenerateShares (is_verifier : bool) (input : N)
                                      (** [F2128_MTA::generate_shares_..._batched] *)
  | CreateContext (key iv : list N)   (** [SSLAEADContext::Create] for the session *)
  | SetWriteState (key iv : list N)   (** [method->set_write_state] with that context *)
  | Flush                             (** [method->flush] *)
  | AppendHandshake (bs : list N)     (** the memory of [tls_append_handshake_data] *)
  | DeleteCircuits                    (** [delete_circuits] *)
  | Shaking (a : Shake)
  | Throw.                            (** [thrower()] *)

(** A run of [generate_shares_..._batched] gives the shares and the bytes it
    sent, or aborts. *)
Definition Reply (a : Action) : Type :=
  match a with
  | SslWrite _ => bool                (* all bytes accepted *)
  | SslRead _ => ReadReply
  | RandBytes _ | Run _ _ => option (list N)
  | RandomBytes _ => list N
  | KsRemaining => N
  | KsPreproc => bool                 (* has_io_failed *)
  | GenerateShares _ _ => option (list N * N)
  | CreateContext _ _ => bool         (* a session exists and the context is not null *)
  | SetWriteState _ _ | Flush | AppendHandshake _ => bool
  | DeleteCircuits => unit
  | Shaking a => ShakeReply a
  | Throw => bool                     (* returned *)
  end.

Class World := reply : list Action -> forall a : Action, Reply a.

(** What the types say of a reply: a read of at least one and at most [n]
    bytes, arrays of the declared sizes. *)
Definition reply_ok (a : Action) : Reply a -> Prop :=
  match a as a return Reply a -> Prop with
  | SslRead n => fun r =>
      match r with Got bs => 1 <= size bs <= n /\ Forall (fun b => b < 256) bs | _ => True end
  | RandBytes n => fun r =>
      match r with Some bs => length bs = n /\ Forall (fun b => b < 256) bs | None => True end
  | RandomBytes n => fun bs => length bs = n /\ Forall (fun b => b < 256) bs
  | Run c _ => fun r =>
      match r with
      | Some bs => length bs = output_size c /\ Forall (fun b => b < 256) bs
      | None => True
      end
  | GenerateShares _ _ => fun r =>
      match r with
      | Some (bs, _) => length bs = 1088%nat /\ Forall (fun b => b < 2 ^ 128) bs
      | None => True
      end
  | Shaking a => shake_ok a
  | _ => fun _ => True
  end.

Class WorldOk (W : World) : Prop := replies_ok : forall l a, reply_ok a (reply l a).

(** ** The monad *)

Record St := mkSt { ssl : SSL; log : list Action }.

Definition S (A : Type) : Type := St -> St * Outcome A.

Definition ret {A} (a : A) : S A := fun s => (s, Done a).
Definition fail {A} : S A := fun s => (s, Fail).
Definition abort {A} : S A := fun s => (s, Abort).
Definition null_deref {A} : S A := fun s => (s, NullDeref).
Definition waiting {A} : S A := fun s => (s, Waiting).
Definition bind {A B} (m : S A) (k : A -> S B) : S B := fun s =>
  match m s with
  | (s, Done a) => k a s
  | (s, Fail) => (s, Fail)
  | (s, Abort) => (s, Abort)
  | (s, NullDeref) => (s, NullDeref)
  | (s, Waiting) => (s, Waiting)
  end.

Definition gets {A} (f : SSL -> A) : S A := fun s => (s, Done (f (ssl s))).
Definition modify (f : SSL -> SSL) : S unit := fun s => (mkSt (f (ssl s)) (log s), Done tt).

(** [if (!b) return false;] *)
Definition require (b : bool) : S unit := if b then ret tt else fail.

(** A result that is absent when the call returned false. *)
Definition from_option {A} (o : option A) : S A := match o with Some a => ret a | None => fail end.

Definition upd_rel (f : Release -> Release) : S unit := modify (fun c => set_rel (f (rel c)) c).
Definition upd_pre (f : Pre -> Pre) : S unit := modify (fun c => set_pre (f (pre c)) c).
Definition upd_exch (f : Exchange -> Exchange) : S unit := modify (fun c => set_exch (f (exch c)) c).
Definition upd_shares (f : Shares -> Shares) : S unit := modify (fun c => set_shares (f (shares c)) c).
Definition upd_layer (f : Layer -> Layer) : S unit := modify (fun c => set_layer (f (layer c)) c).
Definition upd_cap (f : Capture -> Capture) : S unit := modify (fun c => set_cap (f (cap c)) c).

End Session.

Declare Scope session_scope.
Delimit Scope session_scope with session.
Notation "x <- m ;; k" := (Session.bind m (fun x => k))
  (at level 61, m at next level, right associativity) : session_scope.
Notation "' p <- m ;; k" := (Session.bind m (fun x => match x with p => k end))
  (at level 61, p pattern, m at next level, right associativity) : session_scope.
Notation "m ;; k" := (Session.bind m (fun _ => k)) (at level 61, right associativity) : session_scope.

(** ** Talking to the verifier *)

Module Channel.
Import Session.
Open Scope session_scope.

Section Calls.
Context {W : World} {F : Fuel}.

Definition act (a : Action) : S (Reply a) := fun s =>
  (mkSt (ssl s) (a :: log s), Done (reply (log s) a)).

(** [RETURN_FALSE_IF_SSL_FAILED(SSL_write(...), size)] *)
Definition ssl_write (bs : list N) : S unit := ok <- act (SslWrite bs) ;; require ok.

(** The loop of [read_exact_blocking]. *)
Fixpoint read_loop (n : nat) (len : N) (acc : list N) : S (list N) :=
  if size acc <? len then
    match n with
    | O => waiting
    | Datatypes.S n =>
        r <- act (SslRead (len - size acc)) ;;
        match r with
        | Got bs => read_loop n len (acc ++ bs)
        | Again true => read_loop n len acc
        | Again false | Closed => fail
        end
    end
  else ret acc.

Definition read_exact_blocking (len : N) : S (list N) := read_loop fuel len [].

(** [is_correct_header<target_header>] *)
Definition is_correct_header (target_header : N) : S unit :=
  bs <- read_exact_blocking 1 ;;
  let in_header := bs.[0] in
  require (Messaging.is_valid_header in_header) ;; require (in_header =? target_header).

(** A call of the wrapper on a circuit. *)
Definition run_circuit (c : Circuit) (input : list N) : S (list N) :=
  r <- act (Run c input) ;; from_option r.

(** A counted loop that stops at the first failure. *)
Fixpoint for_each {A} (xs : list A) (body : A -> S unit) : S unit :=
  match xs with
  | [] => ret tt
  | x :: xs => body x ;; for_each xs body
  end.

End Calls.
End Channel.

(** A connection whose arrays are zero and whose pointers are set. *)
Definition zero_dir : Session.Dir :=
  Session.mkDir (repeat 0 16) (repeat 0 16) (repeat 0 16) (repeat 0 (1088 * 16)).

Definition zero_ssl (mode : Surf.Mode) (true_mode : bool) : Session.SSL :=
  Session.mkSSL (Session.mkPtrs true true true true true) mode true_mode None (repeat 0 16) (repeat 0 16)
    zero_dir zero_dir
    (Session.mkRelease false false (repeat 0 16) (repeat 0 16) 0 0) (Session.mkCapture [] 0 [] 0)
    (Session.mkPre true None None None []) (Session.mkExchange false false 23 None [] [] [] [] [])
    (Session.mkShares (repeat 0 16) (repeat 0 16) (repeat 0 16) (repeat 0 16) (repeat 0 16) (repeat 0 32) (repeat 0 16)
      (repeat 0 16) [] []) (Session.mkLayer [] 0 false false).

(** Replies to the handshake's actions for a world that has no handshake. *)
Definition quiet (a : Session.Shake) : Session.ShakeReply a :=
  match a return Session.ShakeReply a with
  | Session.GetEnv => (None, None)
  | Session.Build _ _ => true
  | Session.Preproc _ => false
  | Session.DeleteCircuit _ => tt
  | Session.DoEctf _ _ _ | Session.GetHash => None
  | Session.GetReadBuffer => (0, [])
  | Session.AeadLengths => None
  | Session.SetReadState _ _ | Session.HashMessage | Session.AdvanceSchedule => true
  | Session.DupSession | Session.TicketExtensions _ | Session.RotateNative _ | Session.AddKeyUpdate _ => true
  | Session.NewSession _ | Session.FinishFlight | Session.SendAlert _ => tt
  end.
