(* ===== verification/ProverLogic.v ===== *)
(** * Reasoning about the prover's functions

    Triples for the monad of [ProverState] with one condition for every way
    the call can end, the rules for its operations, and the tactic that walks
    through a function. *)

From S2P Require Import Prelude Messaging ServerState ServerIO.
From S2P Require Import ProverState.

Import Session Channel.
Local Open Scope N_scope.
Local Open Scope session_scope.

(** From [P], a return of [a] satisfies [Q a]; any other end satisfies [R]. *)
Definition triple {A} (P : St -> Prop) (m : S A) (Q : A -> St -> Prop) (R : St -> Prop) : Prop :=
  forall s, P s -> match m s with (s', Done a) => Q a s' | (s', _) => R s' end.

(** [m] keeps [I] however it ends, and what it returns satisfies [Phi]. *)
Definition keeps {A} (I : St -> Prop) (m : S A) (Phi : A -> Prop) : Prop :=
  triple I m (fun a s => I s /\ Phi a) I.

Section Rules.
Context {W : World} {F : Fuel}.

Lemma triple_weaken {A} P (m : S A) Q Q' R R' :
  triple P m Q R -> (forall a s, Q a s -> Q' a s) -> (forall s, R s -> R' s) -> triple P m Q' R'.
Proof.
  intros H HQ HR s Hs. specialize (H s Hs). destruct (m s) as [s' []]; auto.
Qed.

Lemma triple_bind {A B} P (m : S A) (k : A -> S B) Q Q' R :
  triple P m Q R -> (forall a, triple (Q a) (k a) Q' R) -> triple P (bind m k) Q' R.
Proof.
  intros Hm Hk s Hs. specialize (Hm s Hs). unfold bind.
  destruct (m s) as [s' []]; try exact Hm. now apply Hk.
Qed.

Lemma triple_ret {A} (P : St -> Prop) (a : A) (Q : A -> St -> Prop) R :
  (forall s, P s -> Q a s) -> triple P (ret a) Q R.
Proof. intros H s Hs. now apply H. Qed.

Lemma triple_fail {A} (P : St -> Prop) Q R : (forall s, P s -> R s) -> triple P (@fail A) Q R.
Proof. intros H s Hs. now apply H. Qed.

(** A computation that ends as [m] does. *)
Lemma triple_pre {A} (P P' : St -> Prop) (m : S A) Q R :
  (forall s, P s -> P' s) -> triple P' m Q R -> triple P m Q R.
Proof. intros H Hm s Hs. now apply Hm, H. Qed.

Lemma triple_require (P : St -> Prop) (b : bool) (Q : unit -> St -> Prop) (R : St -> Prop) :
  (forall s, P s -> if b then Q tt s else R s) -> triple P (require b) Q R.
Proof. intros H s Hs. specialize (H s Hs). now destruct b. Qed.

Lemma triple_gets {A} (P : St -> Prop) (f : SSL -> A) (Q : A -> St -> Prop) R :
  (forall s, P s -> Q (f (ssl s)) s) -> triple P (gets f) Q R.
Proof. intros H s Hs. now apply H. Qed.

Lemma triple_modify (P : St -> Prop) f (Q : unit -> St -> Prop) R :
  (forall s, P s -> Q tt (mkSt (f (ssl s)) (log s))) -> triple P (modify f) Q R.
Proof. intros H s Hs. now apply H. Qed.

Lemma triple_act (P : St -> Prop) a (Q : Reply a -> St -> Prop) R :
  (forall s, P s -> Q (reply (log s) a) (mkSt (ssl s) (a :: log s))) -> triple P (act a) Q R.
Proof. intros H s Hs. now apply H. Qed.

(** ** Invariants of the fields *)

Context (I : SSL -> Prop).
Let J (s : St) : Prop := I (ssl s).

Lemma keeps_bind {A B} (m : S A) (k : A -> S B) Phi Psi :
  keeps J m Phi -> (forall a, Phi a -> keeps J (k a) Psi) -> keeps J (bind m k) Psi.
Proof.
  intros Hm Hk. apply (triple_bind _ _ _ _ _ _ Hm). intros a s [Hs Ha]. now apply Hk.
Qed.

Lemma keeps_weaken {A} (m : S A) (Phi Psi : A -> Prop) :
  (forall a, Phi a -> Psi a) -> keeps J m Phi -> keeps J m Psi.
Proof. intros H Hm. apply (triple_weaken _ _ _ _ _ _ Hm); [|auto]. intros a s [Hs Ha]. auto. Qed.

Lemma keeps_ret {A} (a : A) (Phi : A -> Prop) : Phi a -> keeps J (ret a) Phi.
Proof. intros H s Hs. now split. Qed.

Lemma keeps_stop {A} (m : S A) Phi : (forall s, exists o, m s = (s, o) /\ forall a, o <> Done a) -> keeps J m Phi.
Proof.
  intros H s Hs. destruct (H s) as (o & -> & Ho). destruct o as [a| | | |]; try exact Hs.
  now destruct (Ho a).
Qed.

Lemma keeps_fail {A} Phi : keeps J (@fail A) Phi.
Proof. apply keeps_stop. intros s. now exists Fail. Qed.
Lemma keeps_abort {A} Phi : keeps J (@abort A) Phi.
Proof. apply keeps_stop. intros s. now exists Abort. Qed.
Lemma keeps_null {A} Phi : keeps J (@null_deref A) Phi.
Proof. apply keeps_stop. intros s. now exists NullDeref. Qed.
Lemma keeps_waiting {A} Phi : keeps J (@waiting A) Phi.
Proof. apply keeps_stop. intros s. now exists Waiting. Qed.

Lemma keeps_require b : keeps J (require b) (fun _ => b = true).
Proof. intros s Hs. destruct b; [now split | exact Hs]. Qed.

Lemma keeps_from_option {A} (o : option A) : keeps J (from_option o) (fun a => o = Some a).
Proof. intros s Hs. destruct o; [now split | exact Hs]. Qed.

Lemma keeps_gets {A} (f : SSL -> A) : keeps J (gets f) (fun a => exists c, I c /\ a = f c).
Proof. intros s Hs. split; [exact Hs | now exists (ssl s)]. Qed.

Lemma keeps_modify f : (forall c, I c -> I (f c)) -> keeps J (modify f) (fun _ => True).
Proof. intros H s Hs. split; [now apply H | exact Logic.I]. Qed.

Lemma keeps_act {wok : WorldOk W} a : keeps J (act a) (reply_ok a).
Proof. intros s Hs. split; [exact Hs | apply replies_ok]. Qed.

Lemma keeps_run {wok : WorldOk W} c input :
  keeps J (run_circuit c input) (fun bs => length bs = output_size c /\ Forall (fun b => b < 256) bs).
Proof.
  unfold run_circuit. eapply keeps_bind; [apply keeps_act|]. intros r Hr.
  eapply keeps_weaken; [|apply keeps_from_option]. intros a ->. exact Hr.
Qed.

Lemma keeps_write bs : keeps J (ssl_write bs) (fun _ => True).
Proof.
  intros s Hs. unfold ssl_write, bind, act, require. cbn [fst snd].
  destruct (reply (log s) (SslWrite bs)); [split; [exact Hs | exact Logic.I] | exact Hs].
Qed.

Lemma keeps_read {wok : WorldOk W} len :
  keeps J (read_exact_blocking len) (fun bs => size bs = len /\ Forall (fun b => b < 256) bs).
Proof.
  unfold read_exact_blocking. generalize (@fuel F). intros n.
  assert (Hb : size (@nil N) <= len /\ Forall (fun b => b < 256) (@nil N)).
  { split; [change (size (@nil N)) with 0; lia | constructor]. }
  revert Hb. generalize (@nil N). induction n as [|n IH]; intros acc [Ha Hb]; cbn [read_loop];
    destruct (N.ltb_spec (size acc) len) as [Hl|Hl];
    try (apply keeps_ret; split; [lia | assumption]); [apply keeps_waiting|].
  eapply keeps_bind; [apply keeps_act|]. intros [bs|[]|] Hr; cbn in Hr;
    try apply keeps_fail; [|now apply IH].
  destruct Hr as [Hr Hb']. apply IH. split; [|now apply Forall_app].
  unfold size in *. rewrite length_app. lia.
Qed.

Lemma keeps_for_each {A} (xs : list A) body :
  (forall x, In x xs -> keeps J (body x) (fun _ => True)) -> keeps J (for_each xs body) (fun _ => True).
Proof.
  induction xs as [|x xs IH]; intros H; cbn [for_each]; [now apply keeps_ret|].
  eapply keeps_bind; [apply H; now left|]. intros [] _. apply IH. intros y Hy. apply H. now right.
Qed.

End Rules.

(** A function under [keeps]: the head operation by its rule, with what is
    known of its result in the context. *)
Create HintDb keeps.
#[export] Hint Resolve keeps_require keeps_from_option keeps_gets keeps_act keeps_run keeps_write
  keeps_read keeps_fail keeps_abort keeps_null keeps_waiting : keeps.

Ltac keeps_step :=
  cbv zeta;
  match goal with
  | |- keeps _ (bind (modify _) _) _ => eapply keeps_bind; [apply keeps_modify |]; [| intros [] _]
  | |- keeps _ (bind (upd_rel _) _) _ => eapply keeps_bind; [apply keeps_modify |]; [| intros [] _]
  | |- keeps _ (bind (upd_cap _) _) _ => eapply keeps_bind; [apply keeps_modify |]; [| intros [] _]
  | |- keeps _ (bind (gets _) _) _ =>
      eapply keeps_bind; [apply keeps_gets |]; intros ? (? & ? & ->)
  | |- keeps _ (bind _ _) _ => eapply keeps_bind; [solve [eauto with keeps] |]; intros ? ?; cbv beta in *
  | |- keeps _ (ret _) _ => apply keeps_ret
  | |- keeps _ (if ?b then _ else _) _ => destruct b eqn:?
  end.

(** ** What a function does not touch

    [frozen f m]: [f] of the fields is the same after [m], however it ends. *)

Section Frozen.
Context {W : World} {F : Fuel} {X : Type} (f : SSL -> X).

Definition frozen {A} (m : S A) : Prop := forall s, f (ssl (fst (m s))) = f (ssl s).

Lemma frozen_same {A} (m : S A) : (forall s, ssl (fst (m s)) = ssl s) -> frozen m.
Proof. intros H s. now rewrite H. Qed.

Lemma frozen_bind {A B} (m : S A) (k : A -> S B) : frozen m -> (forall a, frozen (k a)) -> frozen (bind m k).
Proof.
  intros Hm Hk s. specialize (Hm s). unfold bind. destruct (m s) as [s1 []]; try exact Hm. cbn [fst] in *. now rewrite Hk.
Qed.

Lemma frozen_ret {A} (a : A) : frozen (ret a).
Proof. now apply frozen_same. Qed.
Lemma frozen_fail {A} : frozen (@fail A).
Proof. now apply frozen_same. Qed.
Lemma frozen_abort {A} : frozen (@abort A).
Proof. now apply frozen_same. Qed.
Lemma frozen_null {A} : frozen (@null_deref A).
Proof. now apply frozen_same. Qed.
Lemma frozen_waiting {A} : frozen (@waiting A).
Proof. now apply frozen_same. Qed.
Lemma frozen_act a : frozen (act a).
Proof. now apply frozen_same. Qed.
Lemma frozen_gets {A} (g : SSL -> A) : frozen (gets g).
Proof. now apply frozen_same. Qed.
Lemma frozen_require b : frozen (require b).
Proof. apply frozen_same. now destruct b. Qed.
Lemma frozen_option {A} (o : option A) : frozen (from_option o).
Proof. apply frozen_same. now destruct o. Qed.
Lemma frozen_modify g : (forall c, f (g c) = f c) -> frozen (modify g).
Proof. intros H s. apply H. Qed.

Lemma frozen_write bs : frozen (ssl_write bs).
Proof. apply frozen_bind; [apply frozen_act | apply frozen_require]. Qed.

Lemma frozen_run c i : frozen (run_circuit c i).
Proof. apply frozen_bind; [apply frozen_act | intros; apply frozen_option]. Qed.

Lemma frozen_read len : frozen (read_exact_blocking len).
Proof.
  unfold read_exact_blocking. generalize (@nil N) as acc. generalize (fuel : nat). induction n as [|n IH]; intros acc; cbn [read_loop].
  - destruct (_ <? _); [apply frozen_waiting | apply frozen_ret].
  - destruct (_ <? _); [|apply frozen_ret]. apply frozen_bind; [apply frozen_act|].
    intros [bs|[]|]; try apply IH; apply frozen_fail.
Qed.

Lemma frozen_header h : frozen (is_correct_header h).
Proof. apply frozen_bind; [apply frozen_read | intros; apply frozen_bind; [apply frozen_require | intros; apply frozen_require]]. Qed.

Lemma frozen_for_each {A} (xs : list A) body : (forall x, frozen (body x)) -> frozen (for_each xs body).
Proof. intros H. induction xs as [|x xs IH]; cbn [for_each]; [apply frozen_ret | apply frozen_bind; auto]. Qed.

End Frozen.

Create HintDb frozen.
#[export] Hint Resolve frozen_ret frozen_fail frozen_abort frozen_null frozen_waiting frozen_act frozen_gets frozen_require
  frozen_option frozen_write frozen_run frozen_read frozen_header : frozen.

(** Walk through a function. *)
Ltac frozen_step :=
  cbv zeta;
  first [ match goal with |- frozen _ (bind _ _) => apply frozen_bind; [|intros ?] end
        | solve [auto with frozen]
        | apply frozen_modify; intros ?; solve [reflexivity | match goal with |- context [if ?b then _ else _] => destruct b; reflexivity end]
        | match goal with
          | |- frozen _ (if ?b then _ else _) => destruct b
          | |- frozen _ (match ?x with _ => _ end) => destruct x
          end ].

(** ** What a function does not do

    [avoids bad m]: [m] adds no action to the log that [bad] holds of. *)

Section Avoids.
Context {W : World} {F : Fuel} (bad : Action -> bool).

Definition avoids {A} (m : S A) : Prop :=
  forall s, exists d, log (fst (m s)) = d ++ log s /\ existsb bad d = false.

Lemma avoids_same {A} (m : S A) : (forall s, log (fst (m s)) = log s) -> avoids m.
Proof. intros H s. exists []. now rewrite H. Qed.

Lemma avoids_bind {A X} (m : S A) (k : A -> S X) : avoids m -> (forall a, avoids (k a)) -> avoids (bind m k).
Proof.
  intros Hm Hk s. destruct (Hm s) as (d & E & N). unfold bind. destruct (m s) as [s1 o] eqn:Em. cbn [fst] in E.
  destruct o as [a| | | |]; try (exists d; split; [exact E | exact N]).
  destruct (Hk a s1) as (d' & E' & N'). exists (d' ++ d). rewrite E', E, app_assoc, existsb_app, N, N'. now split.
Qed.

Lemma avoids_act a : bad a = false -> avoids (act a).
Proof. intros H s. exists [a]. split; [reflexivity|]. cbn. now rewrite H. Qed.

Lemma avoids_ret {A} (a : A) : avoids (ret a).
Proof. now apply avoids_same. Qed.
Lemma avoids_fail {A} : avoids (@fail A).
Proof. now apply avoids_same. Qed.
Lemma avoids_abort {A} : avoids (@abort A).
Proof. now apply avoids_same. Qed.
Lemma avoids_null {A} : avoids (@null_deref A).
Proof. now apply avoids_same. Qed.
Lemma avoids_waiting {A} : avoids (@waiting A).
Proof. now apply avoids_same. Qed.
Lemma avoids_gets {A} (g : SSL -> A) : avoids (gets g).
Proof. now apply avoids_same. Qed.
Lemma avoids_modify g : avoids (modify g).
Proof. now apply avoids_same. Qed.
Lemma avoids_require b : avoids (require b).
Proof. apply avoids_same. now destruct b. Qed.
Lemma avoids_option {A} (o : option A) : avoids (from_option o).
Proof. apply avoids_same. now destruct o. Qed.

Lemma avoids_write bs : bad (SslWrite bs) = false -> avoids (ssl_write bs).
Proof. intros H. apply avoids_bind; [now apply avoids_act | apply avoids_require]. Qed.

Lemma avoids_run c i : bad (Run c i) = false -> avoids (run_circuit c i).
Proof. intros H. apply avoids_bind; [now apply avoids_act | apply avoids_option]. Qed.

Lemma avoids_read len : (forall n, bad (SslRead n) = false) -> avoids (read_exact_blocking len).
Proof.
  intros H. unfold read_exact_blocking. generalize (@nil N) as acc. generalize (fuel : nat).
  induction n as [|n IH]; intros acc; cbn [read_loop].
  - destruct (_ <? _); [apply avoids_waiting | apply avoids_ret].
  - destruct (_ <? _); [|apply avoids_ret]. apply avoids_bind; [now apply avoids_act|].
    intros [bs|[]|]; try apply IH; apply avoids_fail.
Qed.

Lemma avoids_header h : (forall n, bad (SslRead n) = false) -> avoids (is_correct_header h).
Proof.
  intros H. apply avoids_bind; [now apply avoids_read | intros; apply avoids_bind; [apply avoids_require | intros; apply avoids_require]].
Qed.

Lemma avoids_for_each {A} (xs : list A) body : (forall x, avoids (body x)) -> avoids (for_each xs body).
Proof. intros H. induction xs as [|x xs IH]; cbn [for_each]; [apply avoids_ret | apply avoids_bind; auto]. Qed.

End Avoids.

Create HintDb avoids.
#[export] Hint Resolve avoids_ret avoids_fail avoids_abort avoids_null avoids_waiting avoids_gets avoids_modify avoids_require avoids_option : avoids.

(** Walk through a function. *)
Ltac avoids_step :=
  cbv zeta;
  first [ match goal with |- avoids _ (bind _ _) => apply avoids_bind; [|intros ?] end
        | solve [auto with avoids]
        | match goal with
          | |- avoids _ (act _) => apply avoids_act; solve [auto with avoids]
          | |- avoids _ (ssl_write _) => apply avoids_write; solve [auto with avoids]
          | |- avoids _ (run_circuit _ _) => apply avoids_run; solve [auto with avoids]
          | |- avoids _ (read_exact_blocking _) => apply avoids_read; solve [auto with avoids]
          | |- avoids _ (is_correct_header _) => apply avoids_header; solve [auto with avoids]
          | |- avoids _ (if ?b then _ else _) => destruct b
          | |- avoids _ (match ?x with _ => _ end) => destruct x
          end ].
