(* ===== verification/ProverCircuits.v ===== *)
(** * The prover's circuit calls ([ssl/ThreePartyHandshake.cpp])

    The packing of circuit inputs and the reading of their outputs for tag
    verification, keystream, key rotation and the hash key, and the calls that
    turn the hash key into shares of its powers.  The functions that both
    parties call take the party as an argument, as the code's templates do. *)

From S2P Require Import Prelude Block128 Messaging GHash ServerState ServerIO ServerHandshake ServerRecords.
From S2P Require Import Prover ProverState.

Import Session Channel.
Local Open Scope N_scope.
Local Open Scope session_scope.

Module Circuits.

Definition repeated_bit := EncryptRequest.repeated_bit.

(** ** Inputs *)

Record GCMVfyCircuitIn := {
  vfy_key : list N; vfy_iv : list N; vfy_tag_share : list N; vfy_server_tag : list N }.

Record KSBatchCircuitIn := {
  ks_key : list N; ks_ctr : list (list N); ks_s : list N; ks_r : list N; ks_d : list N }.

(** key || iv || tag_share || server_tag *)
Definition pack_gcm_vfy (i : GCMVfyCircuitIn) : list N :=
  vfy_key i ++ vfy_iv i ++ vfy_tag_share i ++ vfy_server_tag i.

(** ... || r_k || d_k *)
Definition pack_gcm_vfy_commit (i : GCMVfyCircuitIn) (r_k d_k : list N) : list N :=
  pack_gcm_vfy i ++ r_k ++ d_k.

(** key || ctr_0 || ... || ctr_{N-1} || s || r || d *)
Definition pack_ks_batch (i : KSBatchCircuitIn) : list N :=
  ks_key i ++ concat (ks_ctr i) ++ ks_s i ++ ks_r i ++ ks_d i.

(** secret share || mask of the secret || mask of the key (ALICE only) *)
Definition pack_rotate (is_verifier : bool) (secret_share xor_mask : list N) : list N :=
  secret_share ++ firstn 16 xor_mask ++ (if is_verifier then repeat 0 16 else skipn 16 xor_mask).

(** The key share in little-endian order, and the mask. *)
Definition pack_gcm_share (key_share xor_mask : list N) : list N :=
  tabulate 16 (fun i => key_share.[15 - i]) ++ xor_mask.

Section Calls.
Context {W : World} {F : Fuel}.

(** ** Tag verification *)

Definition run_gcm_vfy_circuit (circuit : bool) (i : GCMVfyCircuitIn) : S (bool * bool) :=
  require circuit ;;
  output <- run_circuit verify_tag (pack_gcm_vfy i) ;;
  require (repeated_bit output.[0] && repeated_bit output.[1]) ;;
  let tag_passed := negb (output.[0] =? 0) in
  let cheated := output.[1] =? 0 in
  ret (tag_passed, cheated).

Definition run_gcm_vfy_commit_circuit (circuit : bool) (i : GCMVfyCircuitIn) (r_k d_k : list N)
  : S (bool * bool * bool) :=
  require circuit ;;
  output <- run_circuit verify_tag_commit (pack_gcm_vfy_commit i r_k d_k) ;;
  require (forallb (fun k => repeated_bit output.[k]) (List.seq 0 3)) ;;
  let tag_passed := negb (output.[0] =? 0) in
  let cheated := output.[1] =? 0 in
  let key_opened := negb (output.[2] =? 0) in
  ret (tag_passed, cheated, key_opened).

(** ** Keystream *)

Definition run_ks_batch_circuit (circuit : bool) (i : KSBatchCircuitIn) : S (bool * list (list N)) :=
  require circuit ;;
  output <- run_circuit derive_ks_batch (pack_ks_batch i) ;;
  let masked_ks := tabulate KS_BATCH_N (fun i => firstn 16 (skipn (i * 16) output)) in
  let ok_byte := output.[16 * KS_BATCH_N] in
  require (repeated_bit ok_byte) ;;
  ret (negb (ok_byte =? 0), masked_ks).

(** ** Key rotation *)

(** The share of the next secret, the share of the key, the IV. *)
Definition rotate_out (is_verifier : bool) (xor_mask output : list N) : RotateOut :=
  let half := if is_verifier then 16%nat else 0%nat in
  {| next_share := tabulate 16 (fun i => output.[half + i] ⊕ xor_mask.[i]);
     rot_key_share := tabulate 16 (fun i => if is_verifier then output.[32 + i] else xor_mask.[16 + i]);
     rot_iv := skipn 48 output |}.

Definition run_rotate_circuit (circuit is_verifier : bool) (secret_share : list N) : S RotateOut :=
  require circuit ;;
  xor_mask <- act (RandomBytes 32) ;;
  output <- run_circuit derive_rotate (pack_rotate is_verifier secret_share xor_mask) ;;
  ret (rotate_out is_verifier xor_mask output).

(** ** Shares of the powers of the hash key *)

(** The pointer is used unchecked. *)
Definition run_gcm_share_circuit (circuit : bool) (key_share xor_mask : list N) : S (list N) :=
  if circuit then run_circuit Session.derive_gcm_shares (pack_gcm_share key_share xor_mask)
  else null_deref.

(** This party's factor of the hash key: the verifier's is the inverse of its
    mask, the prover's is the output without its own mask. *)
Definition mta_input (is_verifier : bool) (xor_mask power_share : list N) : N :=
  let unmasked := if is_verifier then power_share
                  else tabulate 16 (fun i => power_share.[i] ⊕ xor_mask.[i]) in
  if is_verifier then F2128.inv (F2128.arr_to_block xor_mask) else F2128.arr_to_block unmasked.

(** The counter is exchanged as the eight bytes of a [uint64_t] in memory;
    both sides make one call and do not retry. *)
Definition exchange_bandwidth (is_verifier : bool) (m_bandwidth : N) : S unit :=
  if is_verifier then
    r <- act (SslRead 8) ;;
    match r with Got bs => require (size bs =? 8) | _ => fail end
  else
    ok <- act (SslWrite (tabulate 8 (fun i => wrap 8 (N.shiftr m_bandwidth (8 * N.of_nat i))))) ;;
    require ok.

Definition make_gcm_share (circuit is_verifier : bool) (key_share : list N) : S (list N) :=
  xor_mask <- act (RandomBytes 16) ;;
  power_share <- run_gcm_share_circuit circuit key_share xor_mask ;;
  r <- act (GenerateShares is_verifier (mta_input is_verifier xor_mask power_share)) ;;
  match r with
  | None => abort
  | Some (share, m_bandwidth) =>
      exchange_bandwidth is_verifier m_bandwidth ;;
      ret (powers_of_blocks share)
  end.

(** [ssl] is the connection to the peer; its role is the party. *)
Definition make_gcm_share_for (ssl circuit is_server : bool) (key_share : list N) : S (list N) :=
  require (ssl && circuit) ;; make_gcm_share circuit is_server key_share.

(** The client's share first. *)
Definition make_gcm_shares (ssl circuit is_server : bool) (ckey_share skey_share : list N)
  : S (list N * list N) :=
  require (ssl && circuit) ;;
  c <- make_gcm_share circuit is_server ckey_share ;;
  s <- make_gcm_share circuit is_server skey_share ;;
  ret (c, s).

(** The test callback after a message: it ends in an exception, which a
    [noexcept] function turns into termination. *)
Definition maybe_throw (header : N) : S unit :=
  thrower <- gets throw_state ;;
  match thrower with
  | Some h =>
      if h =? header then act DeleteCircuits ;; returned <- act Throw ;; if returned then ret tt else abort
      else ret tt
  | None => ret tt
  end.

Definition derive_gcm_shares : S unit :=
  p <- gets ptrs ;;
  require (verifier p) ;;
  ssl_write [MessageHeaders.GCM_SHARE_START] ;;
  ckey <- gets (fun c => key_share (client c)) ;;
  cgcm <- make_gcm_share (gcm_circuit p) false ckey ;;
  modify (fun c => set_client (set_gcm_share cgcm (client c)) c) ;;
  skey <- gets (fun c => key_share (server c)) ;;
  sgcm <- make_gcm_share (gcm_circuit p) false skey ;;
  modify (fun c => set_server (set_gcm_share sgcm (server c)) c) ;;
  mode <- gets surf_mode ;;
  (if Handshake.is_rotate mode then ret tt
   else modify (fun c => set_ptrs (set_gcm_circuit false (ptrs c)) c)) ;;
  is_correct_header MessageHeaders.GCM_SHARE_DONE ;;
  maybe_throw MessageHeaders.GCM_SHARE_DONE.

(** ** Rotation *)

(** A placeholder context, installed by a call that first seals the pending
    KeyUpdate under the key still in place. *)
Definition surf_reset_write_state : S unit :=
  d <- gets client ;;
  let iv := skipn 4 (iv d) in
  ok <- act (CreateContext (key_share d) iv) ;;
  require ok ;;
  ok <- act (SetWriteState (key_share d) iv) ;;
  require ok.

(** [std::copy(out.iv, iv.begin() + 4)] and the other shares of a direction. *)
Definition rotate_dir (o : RotateOut) (d : Dir) : Dir :=
  set_iv (firstn 4 (iv d) ++ rot_iv o) (set_key_share (rot_key_share o) (set_ats_share (next_share o) d)).

Definition upd_dir (is_write : bool) (f : Dir -> Dir) : S unit :=
  modify (fun c => if is_write then set_client (f (client c)) c else set_server (f (server c)) c).

Definition rotate_traffic_keys (is_write : bool) : S unit :=
  p <- gets ptrs ;;
  mode <- gets surf_mode ;;
  require (verifier p && Handshake.is_rotate mode && rotate_circuit p && gcm_circuit p) ;;
  (if is_write then
     surf_reset_write_state ;;
     flushed <- act Flush ;;
     require flushed
   else ret tt) ;;
  ssl_write [MessageHeaders.ROTATE_KEY; if is_write then 0 else 1] ;;
  d <- gets (fun c => if is_write then client c else server c) ;;
  out <- run_rotate_circuit (rotate_circuit p) false (ats_share d) ;;
  upd_dir is_write (rotate_dir out) ;;
  gcm <- make_gcm_share_for (verifier p) (gcm_circuit p) false (rot_key_share out) ;;
  upd_dir is_write (set_gcm_share gcm) ;;
  if is_write then ret tt
  else upd_rel (fun r => set_surf_key_released false (set_surf_key_committed false r)).

End Calls.
End Circuits.
