(* ===== verification/KeyUpdate.v ===== *)
(** * Rotating the traffic keys (RFC 8446, 7.2)

    A key update runs [DeriveRotateKey] on the parties' shares of a traffic
    secret; the shares of the next secret feed the next update. *)

From Stdlib Require Import String.
From S2P Require Import Prelude Messaging Util Arrays CircuitWires CircuitRecords Sha256 CircuitHkdf CircuitKeys KeyDerive.
From S2P Require Import ServerState ProverState ProverCircuits.
From Stdlib Require Import List.
Import ListNotations Wires CircuitSynthesis KeyCircuits KeyDerivation Circuits.
#[local] Abbreviation length := List.length.
Local Open Scope N_scope.
#[local] Opaque KDF.expand_label MaskConstants.xor_bytes mask_halves.

Section Rotate.
Context {sc : Sha256Circuit}.

(** One update: the parties' shares of the secret and their masks. *)
Definition rotate_jointly (shares masks : list N * list N) : RotateOut * RotateOut :=
  let '(sA, sB) := shares in
  let '(mA, mB) := masks in
  let output := exec DeriveRotateKey 60 (pack_rotate false sA mA) (pack_rotate true sB mB) in
  (rotate_out false mA output, rotate_out true mB output).

Fixpoint rotations (shares : list N * list N) (masks : list (list N * list N)) : list (RotateOut * RotateOut) :=
  match masks with
  | [] => []
  | m :: masks =>
      let r := rotate_jointly shares m in
      r :: rotations (next_share (fst r), next_share (snd r)) masks
  end.

Context {sok : Sha256Ok sc}.

Definition rotated (s mA mB : list N) : list (list N) :=
  let next := Schedule.next_traffic_secret s in
  [mask_halves (sub 0 16 mA) (sub 0 16 mB) next;
   MaskConstants.xor_bytes (sub 16 16 mA) (Schedule.traffic_key next); Schedule.traffic_iv next].

Lemma rotated_shape s mA mB : shape [32; 16; 12]%nat (rotated s mA mB).
Proof.
  unfold rotated. apply Forall2_cons; [apply mask_halves_arr|]. apply Forall2_cons; [apply xor_bytes_arr|].
  apply Forall2_cons; [apply expand_label_arr|]. constructor.
Qed.

Lemma rotate_circuit_spec sA sB mA mB : arr 16 sA -> arr 16 sB -> arr 32 mA -> arr 32 mB ->
  exec DeriveRotateKey 60 (pack_rotate false sA mA) (pack_rotate true sB mB) = concat (rotated (sA ++ sB) mA mB).
Proof.
  intros HA HB HmA HmB. pose proof (sub_arr 0 16 32 mA HmA ltac:(lia)) as A0.
  pose proof (sub_arr 0 16 32 mB HmB ltac:(lia)) as B0. pose proof (sub_arr 16 16 32 mA HmA ltac:(lia)) as A1.
  assert (E1 : skipn 16 mA = sub 16 16 mA)
    by (unfold sub; now rewrite firstn_all2 by (rewrite length_skipn, (proj1 HmA); lia)).
  apply exec_bytes; [exact (shape_arr _ _ (rotated_shape _ mA mB))|].
  unfold DeriveRotateKey, pack_rotate. rewrite E1. change (firstn 16 ?m) with (sub 0 16 m). slices.
  rewrite !input_share by assumption.
  rewrite (sub_past 16 16 16 sA), (sub_past 16 16 16 sB), (sub_past 16 32 16 sA) by (apply HA || apply HB || lia).
  cbn [Nat.sub]. rewrite !(sub_head 16) by (apply A0 || apply B0). rewrite (sub_past 16 16 16 (sub 0 16 mA)) by (apply A0 || lia).
  cbn [Nat.sub]. rewrite (sub_all 16 (sub 16 16 mA)) by apply A1.
  rewrite <- bits_app, (expand_bits0 (sA ++ sB)) by (exact (arr_app _ _ _ _ HA HB) || reflexivity || lia).
  rewrite !expand_bits0 by (apply expand_arr32 || reflexivity || lia).
  rewrite xor_secrets_bits, xor_wires_bits by (assumption || apply expand_arr32 || apply A1 || apply expand_label_arr).
  unfold rotated. cbn [concat]. now rewrite !bits_app, app_nil_r.
Qed.

(** The shares after an update. *)
Definition shares_of_update (s : list N) (r : RotateOut * RotateOut) : Prop :=
  arr 16 (next_share (fst r)) /\ arr 16 (next_share (snd r)) /\
  next_share (fst r) ++ next_share (snd r) = Schedule.next_traffic_secret s.

Lemma rotate_jointly_shares sA sB mA mB : arr 16 sA -> arr 16 sB -> arr 32 mA -> arr 32 mB ->
  let r := rotate_jointly (sA, sB) (mA, mB) in
  let next := Schedule.next_traffic_secret (sA ++ sB) in
  shares_of_update (sA ++ sB) r /\
  MaskConstants.xor_bytes (rot_key_share (fst r)) (rot_key_share (snd r)) = Schedule.traffic_key next /\
  rot_iv (fst r) = Schedule.traffic_iv next /\ rot_iv (snd r) = Schedule.traffic_iv next.
Proof.
  intros HA HB HmA HmB r next. unfold r, rotate_jointly. rewrite rotate_circuit_spec by assumption.
  pose proof (rotated_shape (sA ++ sB) mA mB) as Hs. set (out := concat _) in *.
  pose proof (fun k i n => shape_part _ _ k i n 0%nat Hs) as P. fold out in P.
  pose proof (shape_arr _ _ Hs) as [Lo _]. fold out in Lo. change (list_sum _) with 60%nat in Lo.
  assert (Hn : arr 32 next) by apply expand_arr32.
  assert (S : unmask out 0 mA 0 ++ unmask out (0 + 16) mB 0 = next)
    by (apply shares_of_secret; [apply HmA | apply HmB | exact Hn | apply (P 0%nat); (reflexivity || (cbn; lia))]).
  unfold rotate_out, shares_of_update. cbn [fst snd next_share rot_key_share rot_iv].
  rewrite (tabulate_sub 32 16 out), (tabulate_sub 16 16 mA) by (rewrite ?Lo, ?(proj1 HmA); lia).
  assert (Iv : skipn 48 out = Schedule.traffic_iv next).
  { rewrite <- (firstn_all2 (n := 12) (skipn 48 out)) by (rewrite length_skipn, Lo; lia).
    apply (P 2%nat 48%nat 12%nat); (reflexivity || (cbn; lia)). }
  rewrite Iv, (P 1%nat 32%nat 16%nat) by (reflexivity || (cbn; lia)). cbn [nth rotated].
  rewrite xor_bytes_cancel by (apply expand_label_arr || (apply (sub_arr _ _ 32); (exact HmA || lia))).
  assert (Bn : bytes (unmask out 0 mA 0) /\ bytes (unmask out (0 + 16) mB 0)) by (apply Forall_app; rewrite S; apply Hn).
  split; [split; [|split]|split; [reflexivity | split; reflexivity]].
  - split; [reflexivity | apply Bn].
  - split; [reflexivity | apply Bn].
  - exact S.
Qed.

(** C21: any number of key updates, in each of which the parties put in the next
    shares that they stored at the last one: after the [i]-th, the two shares join to the
    secret that RFC 8446 reaches by as many updates of the first one, the
    shares of the key have that secret's key as their exclusive or, and both
    parties hold its IV. *)
Theorem key_updates sA sB masks i :
  arr 16 sA -> arr 16 sB -> Forall (fun m => arr 32 (fst m) /\ arr 32 (snd m)) masks -> (i < length masks)%nat ->
  exists oA oB, nth_error (rotations (sA, sB) masks) i = Some (oA, oB) /\
    let s := Nat.iter (S i) Schedule.next_traffic_secret (sA ++ sB) in
    next_share oA ++ next_share oB = s /\
    MaskConstants.xor_bytes (rot_key_share oA) (rot_key_share oB) = Schedule.traffic_key s /\
    rot_iv oA = Schedule.traffic_iv s /\ rot_iv oB = Schedule.traffic_iv s.
Proof.
  intros HA HB HM. revert sA sB i HA HB. induction HM as [|[mA mB] masks [HmA HmB] HM IH]; intros sA sB i HA HB Hi; [cbn in Hi; lia|].
  pose proof (rotate_jointly_shares sA sB mA mB HA HB HmA HmB) as [(NA & NB & NE) (K & I & J)].
  cbn [rotations]. set (r := rotate_jointly (sA, sB) (mA, mB)) in *. destruct i as [|i].
  - exists (fst r), (snd r). cbn [nth_error]. split; [now destruct r|]. cbn [Nat.iter].
    exact (conj NE (conj K (conj I J))).
  - destruct (IH (next_share (fst r)) (next_share (snd r)) i NA NB) as (oA & oB & E & H); [cbn in Hi; lia|].
    exists oA, oB. split; [exact E|]. rewrite NE in H. now rewrite Nat.iter_succ_r.
Qed.

End Rotate.

(** ** Two updates of a secret *)

Lemma key_updates_witness :
  let s := Nat.iter 2 Schedule.next_traffic_secret (repeat 1 16 ++ repeat 2 16) in
  exists oA oB,
    nth_error (rotations (sc := reference_sha) (repeat 1 16, repeat 2 16)
      [(repeat 3 32, repeat 4 32); (repeat 5 32, repeat 6 32)]) 1 = Some (oA, oB) /\
    next_share oA ++ next_share oB = s /\
    MaskConstants.xor_bytes (rot_key_share oA) (rot_key_share oB) = Schedule.traffic_key s /\
    rot_iv oA = Schedule.traffic_iv s /\ rot_iv oB = Schedule.traffic_iv s.
Proof.
  apply (key_updates (sc := reference_sha) (repeat 1 16) (repeat 2 16)
    [(repeat 3 32, repeat 4 32); (repeat 5 32, repeat 6 32)] 1).
  - now apply arr_const.
  - now apply arr_const.
  - repeat constructor.
  - cbn. lia.
Defined.
