(* ===== verification/ProverShares.v ===== *)
(** * Shares of the powers of the hash key, both parties ([make_gcm_share])

    [make_gcm_share<false>] of the prover and [make_gcm_share<true>] of the
    verifier against each other: the circuit gives the prover [H * m_bob]
    under its mask, the multiplicative-to-additive run takes that and the
    inverse of [m_bob], so the powers they share are those of [H]. *)

From S2P Require Import Prelude Block128 GF128 FieldCode FieldInverse F2128MtA F2128Shares F2128Powers F2128Claims.
From S2P Require Import GHash Messaging Arrays Util CircuitWires CircuitGcm ServerState ServerIO ProverState.
From S2P Require Import ProverCircuits.

Import Session Channel Circuits Wires GcmCircuit.
Local Open Scope N_scope.

#[local] Opaque rev128 F2128.inv gf_mul F2128.mul GHash.kMaxPowers F2128_MTA.num_powers.

(** What the two parties feed to the circuit is its inputs' layout. *)
Lemma pack_gcm_share_rev k m : arr 16 k -> pack_gcm_share k m = rev k ++ m.
Proof.
  intros [Lk _]. unfold pack_gcm_share. f_equal. apply (nth_ext _ _ 0 0).
  - now rewrite length_tabulate, length_rev.
  - rewrite length_tabulate. intros i Hi. rewrite nth_tabulate, rev_nth, Lk by lia. f_equal.
Qed.

Lemma some_pair {A B} (a a' : A) (b b' : B) : Some (a, b) = Some (a', b') -> a = a' /\ b = b'.
Proof. intros E. now injection E. Qed.

(** ** The factors *)

Lemma unmask_block x m : arr 16 m -> x < 2 ^ 128 ->
  F2128.arr_to_block (tabulate 16 (fun i => (F2128.block_to_arr (x ⊕ F2128.arr_to_block m)).[i] ⊕ m.[i])) = x.
Proof.
  intros Hm Hx. set (y := F2128.block_to_arr (x ⊕ F2128.arr_to_block m)).
  assert (Hy : arr 16 y) by (split; [reflexivity | apply block_to_arr_bytes]).
  assert (E : bits (tabulate 16 (fun i => y.[i] ⊕ m.[i])) = wires 128 x).
  { transitivity (xor_wires 128 (bits y) (bits m)).
    - rewrite xor_wires_bits by apply Hy || apply Hm. f_equal. unfold MaskConstants.xor_bytes.
      apply (nth_ext _ _ 0 0); rewrite !length_tabulate; [reflexivity|]. intros i Hi.
      rewrite !nth_tabulate by exact Hi. symmetry. apply wrap_small.
      apply (lxor_lt _ _ 8); apply bytes_at; [apply Hy | apply Hm].
    - unfold y. rewrite <- wires_bits_block, bits_wires, xor_wires_spec by
        (exact Hm || (apply (lxor_lt _ _ 128); [exact Hx | apply arr_lt])).
      now rewrite N.lxor_assoc, N.lxor_nilpotent, N.lxor_0_r. }
  rewrite wires_bits_block in E by exact Hx. apply bits_inj in E.
  - rewrite E. now apply arr_block_roundtrip.
  - apply arr_tabulate. intros i Hi. apply lxor_byte; apply bytes_at; [apply Hy | apply Hm].
  - split; [reflexivity | apply block_to_arr_bytes].
Qed.

Section Joint.
Context {bf : BristolAES} {aes : list N -> list N -> list N} {Bok : BristolOk bf aes}.

(** The factors of the two parties multiply to the hash key. *)
Lemma factors_hash_key ka ma kb mb :
  arr 16 ka -> arr 16 ma -> arr 16 kb -> arr 16 mb -> F2128.arr_to_block mb <> 0 ->
  let x := exec DeriveGCMMultiplicativeShares 16 (pack_gcm_share ka ma) (pack_gcm_share kb mb) in
  mta_input false ma x < 2 ^ 128 /\ mta_input true mb x < 2 ^ 128 /\
  mta_input false ma x ⊗ mta_input true mb x = hash_key (aes := aes) (MaskConstants.xor_bytes ka kb).
Proof.
  intros Hka Hma Hkb Hmb H0 x. unfold x.
  rewrite !pack_gcm_share_rev, gcm_share_circuit_spec by assumption.
  set (h := hash_key (MaskConstants.xor_bytes ka kb)). set (m := F2128.arr_to_block mb).
  assert (Hh : h < 2 ^ 128) by apply rev128_lt. assert (Hm : m < 2 ^ 128) by apply arr_lt.
  destruct (inv_mul_gf m Hm H0) as [Hi E]. unfold mta_input. fold m.
  rewrite unmask_block by (assumption || now apply gf_mul_lt).
  split; [now apply gf_mul_lt | split; [exact Hi|]].
  rewrite gf_mul_assoc, E by assumption. apply gf_mul_1_r.
Qed.

Context {ot : F2128_MTA.OTChannel} (ot_ok : F2128_MTA.OTCorrect).

(** A run of [generate_shares_batched] that returns shares the powers. *)
Lemma batched_powers tp p_in v_in out_p out_v :
  TapeOk tp -> p_in < 2 ^ 128 -> v_in < 2 ^ 128 ->
  F2128_MTA.generate_shares_batched tp p_in v_in = Some (out_p, out_v) ->
  power_shares (p_in ⊗ v_in) (powers_of_blocks out_p) (powers_of_blocks out_v).
Proof.
  intros Htp Hp Hv E. rewrite generate_shares_batched_eq in E.
  destruct (tape_consistent tp); [|discriminate E]. apply some_pair in E as [<- <-].
  destruct (length_mult tp Htp p_in v_in Hp Hv) as [Lp Lv].
  exact (power_shares_blocks _ _ _ (shares_good tp Htp p_in v_in Hp Hv)
           (eq_trans (length_all_squares _) Lp) (eq_trans (length_all_squares _) Lv)).
Qed.

(** The replies the two worlds give to the two calls: random masks, the
    circuit run on both inputs, the multiplicative-to-additive run on both
    factors, and the bandwidth message. *)
Record ShareRun (Wp Wv : World) (lp lv : list Action) (tp : F2128_MTA.Tape) (ka kb ma mb out_p out_v : list N) : Prop := {
  x := exec DeriveGCMMultiplicativeShares 16 (pack_gcm_share ka ma) (pack_gcm_share kb mb);
  lp1 := RandomBytes 16 :: lp; lv1 := RandomBytes 16 :: lv;
  lp2 := Run Session.derive_gcm_shares (pack_gcm_share ka ma) :: lp1;
  lv2 := Run Session.derive_gcm_shares (pack_gcm_share kb mb) :: lv1;
  lp3 := GenerateShares false (mta_input false ma x) :: lp2;
  lv3 := GenerateShares true (mta_input true mb x) :: lv2;
  run_masks : reply (World := Wp) lp (RandomBytes 16) = ma /\ reply (World := Wv) lv (RandomBytes 16) = mb;
  run_circuits : reply (World := Wp) lp1 (Run Session.derive_gcm_shares (pack_gcm_share ka ma)) = Some x /\
                 reply (World := Wv) lv1 (Run Session.derive_gcm_shares (pack_gcm_share kb mb)) = Some x;
  run_mta : F2128_MTA.generate_shares_batched tp (mta_input false ma x) (mta_input true mb x) = Some (out_p, out_v);
  run_mta_p : option_map fst (reply (World := Wp) lp2 (GenerateShares false (mta_input false ma x))) = Some out_p;
  run_mta_v : option_map fst (reply (World := Wv) lv2 (GenerateShares true (mta_input true mb x))) = Some out_v;
  run_sent : forall bs, reply (World := Wp) lp3 (SslWrite bs) = true;
  run_read : exists bs, reply (World := Wv) lv3 (SslRead 8) = Got bs /\ size bs = 8 }.

Lemma make_gcm_share_run Wp Wv sp sv tp ka kb ma mb out_p out_v :
  ShareRun Wp Wv (log sp) (log sv) tp ka kb ma mb out_p out_v ->
  exists sp' sv',
    make_gcm_share (W := Wp) true false ka sp = (sp', Done (powers_of_blocks out_p)) /\
    make_gcm_share (W := Wv) true true kb sv = (sv', Done (powers_of_blocks out_v)) /\
    ssl sp' = ssl sp /\ ssl sv' = ssl sv.
Proof.
  intros [x lp1 lv1 lp2 lv2 lp3 lv3 [Mp Mv] [Cp Cv] _ Gp Gv Sp (bs & Rv & Lb)].
  destruct (reply lp2 _) as [[op bp]|] eqn:Ep in Gp; [|discriminate Gp]. injection Gp as ->.
  destruct (reply lv2 _) as [[ov bv]|] eqn:Ev in Gv; [|discriminate Gv]. injection Gv as ->.
  unfold make_gcm_share, run_gcm_share_circuit, run_circuit, exchange_bandwidth, bind, act, from_option, require, ret.
  cbn [log ssl]. rewrite Mp, Mv. fold lp1 lv1. rewrite Cp, Cv. cbn [log ssl].
  fold lp2 lv2. rewrite Ep, Ev. cbn [log ssl]. fold lp3 lv3. rewrite Sp, Rv, Lb.
  cbn. eexists _, _. repeat split; reflexivity.
Qed.

End Joint.

(** C13: Both parties' [make_gcm_share] against each other: when the circuit
    runs on both packed inputs, the multiplicative-to-additive run accepts and
    the bandwidth message goes through, both calls succeed and change nothing
    of the connection, and their outputs are shares of the powers of the hash
    key AES_k(0) for the key whose shares went in, for all key shares, masks
    (the verifier's not zero) and tapes. *)
Theorem make_gcm_share_powers {bf : BristolAES} {aes : list N -> list N -> list N} {Bok : BristolOk bf aes}
    {ot : F2128_MTA.OTChannel} (ot_ok : F2128_MTA.OTCorrect)
    (Wp Wv : World) (sp sv : St) (tp : F2128_MTA.Tape) (ka kb ma mb out_p out_v : list N) :
  arr 16 ka -> arr 16 kb -> arr 16 ma -> arr 16 mb -> F2128.arr_to_block mb <> 0 -> TapeOk tp ->
  ShareRun Wp Wv (log sp) (log sv) tp ka kb ma mb out_p out_v ->
  exists sp' sv' powers_p powers_v,
    make_gcm_share (W := Wp) true false ka sp = (sp', Done powers_p) /\
    make_gcm_share (W := Wv) true true kb sv = (sv', Done powers_v) /\
    ssl sp' = ssl sp /\ ssl sv' = ssl sv /\
    power_shares (rev128 (NIST.be_int (aes (MaskConstants.xor_bytes ka kb) (repeat 0 16)))) powers_p powers_v.
Proof.
  intros Hka Hkb Hma Hmb H0 Htp R.
  destruct (make_gcm_share_run _ _ _ _ _ _ _ _ _ _ _ R) as (sp' & sv' & Ep & Ev & Sp & Sv).
  destruct (factors_hash_key ka ma kb mb) as (Bp & Bv & E); try assumption.
  exists sp', sv', (powers_of_blocks out_p), (powers_of_blocks out_v). repeat split; try assumption.
  change (rev128 _) with (hash_key (aes := aes) (MaskConstants.xor_bytes ka kb)). rewrite <- E.
  apply (batched_powers ot_ok tp); try assumption. apply R.
Qed.

(** *** An instance *)

Section Instance.
#[local] Existing Instance toy_bristol.

Definition toy_key : list N := [1;2;3;4;5;6;7;8;9;10;11;12;13;14;15;16].
Definition toy_mask : list N := repeat 7 16.
Definition toy_out : list N :=
  exec DeriveGCMMultiplicativeShares 16 (pack_gcm_share toy_key toy_mask) (pack_gcm_share toy_mask toy_key).

Definition toy_shares : option (list N * list N) :=
  @F2128_MTA.generate_shares_batched ideal_ot simple_tape
    (mta_input false toy_mask toy_out) (mta_input true toy_key toy_out).

Definition share_world (mask share : list N) : World := fun _ a =>
  match a with
  | SslWrite _ => true
  | SslRead n => Got (repeat 0 (N.to_nat n))
  | RandBytes n => Some (repeat 0 n)
  | RandomBytes _ => mask
  | Run _ _ => Some toy_out
  | KsRemaining => 0
  | KsPreproc => false
  | GenerateShares _ _ => Some (share, 0)
  | CreateContext _ _ | SetWriteState _ _ | Flush | AppendHandshake _ => true
  | DeleteCircuits => tt
  | Shaking a => quiet a
  | Throw => true
  end.

Definition shares_of (o : option (list N * list N)) : list N * list N :=
  match o with Some r => r | None => ([], []) end.

Definition toy_p : list N := fst (shares_of toy_shares).
Definition toy_v : list N := snd (shares_of toy_shares).

Lemma shares_of_some o r : o = Some r -> o = Some (fst (shares_of o), snd (shares_of o)).
Proof. intros ->. now destruct r. Qed.

Lemma toy_run : toy_shares = Some (toy_p, toy_v).
Proof.
  eapply shares_of_some. unfold toy_shares. rewrite generate_shares_batched_eq, simple_consistent. reflexivity.
Qed.

Lemma toy_share_run c :
  ShareRun (bf := toy_bristol) (ot := ideal_ot) (share_world toy_mask toy_p) (share_world toy_key toy_v) c c
    simple_tape toy_key toy_mask toy_mask toy_key toy_p toy_v.
Proof.
  split.
  - split; reflexivity.
  - split; reflexivity.
  - exact toy_run.
  - cbn [reply share_world option_map fst]. reflexivity.
  - cbn [reply share_world option_map fst]. reflexivity.
  - reflexivity.
  - exists (repeat 0 8). split; reflexivity.
Qed.

End Instance.


Lemma make_gcm_share_powers_witness :
  exists sp' sv' powers_p powers_v,
    make_gcm_share (W := share_world toy_mask toy_p) true false toy_key (mkSt (zero_ssl Surf.True' true) []) =
      (sp', Done powers_p) /\
    make_gcm_share (W := share_world toy_key toy_v) true true toy_mask (mkSt (zero_ssl Surf.True' true) []) =
      (sv', Done powers_v) /\
    ssl sp' = zero_ssl Surf.True' true /\ ssl sv' = zero_ssl Surf.True' true /\
    power_shares (rev128 (NIST.be_int [6;5;4;3;2;1;0;15;14;13;12;11;10;9;8;23])) powers_p powers_v.
Proof.
  apply (@make_gcm_share_powers toy_bristol _ toy_bristol_ok ideal_ot ideal_ot_correct
    (share_world toy_mask toy_p) (share_world toy_key toy_v) (mkSt (zero_ssl Surf.True' true) [])
    (mkSt (zero_ssl Surf.True' true) []) simple_tape toy_key toy_mask toy_mask toy_key toy_p toy_v).
  1-4: split; [reflexivity | repeat constructor].
  - discriminate.
  - exact simple_tape_ok.
  - apply toy_share_run.
Defined.
