(* ===== verification/ProverAttest.v ===== *)
(** * The prover's side of attestation ([ssl/ThreePartyHandshake.cpp])

    The commitments to the mask seed and to the key share, the capture of
    records, the request to verify a record's tag and the derivation of its
    keystream, and the part of [tls_open_record] that calls them
    ([boringssl/ssl/tls_record.cc]). *)

From S2P Require Import Prelude Block128 Messaging BlockMap GHash ServerState ServerIO ServerHandshake ServerRecords.
From S2P Require Import Prover ProverState ProverCircuits.

Import Session Channel Circuits.
Local Open Scope N_scope.
Local Open Scope session_scope.

Module Attest.

Definition kTagLen : nat := 16.
Definition kMaxSurfRecords : nat := 4096.

(** ** Messages *)

Definition be_bytes := EncryptRequest.be_bytes.
Definition record_header := EncryptRequest.record_header.

Definition gcm_verify_message (rec : SurfRecord) (aad : list N) : list N :=
  MessageHeaders.GCM_VERIFY :: be_bytes 8 (seq rec) ++ be_bytes 2 (size aad) ++ aad ++
  be_bytes 4 (wrap 32 (size (ciphertext rec))) ++ ciphertext rec ++ tag rec.

Definition dims_bytes (r : SurfBlockMap.RecordDims) : list N :=
  be_bytes 8 (SurfBlockMap.seq r) ++ be_bytes 4 (SurfBlockMap.ct_len r).

Definition ks_derive_message (recs : list SurfBlockMap.RecordDims) : list N :=
  MessageHeaders.KS_DERIVE :: be_bytes 4 (wrap 32 (size recs)) ++ flat_map dims_bytes recs.

(** [recs] of one record. *)
Definition dims_of (rec : SurfRecord) : SurfBlockMap.RecordDims :=
  {| SurfBlockMap.seq := seq rec; SurfBlockMap.ct_len := wrap 32 (size (ciphertext rec)) |}.

(** [input.iv]: the IV at offset 4 of [server_iv], exclusive or the sequence
    number, and the counter 1. *)
Definition vfy_iv_of (server_iv : list N) (seq : N) : list N :=
  let iv := repeat 0 16 in
  let iv := fold_left (fun iv i => upd i server_iv.[4 + i] iv) (List.seq 0 12) iv in
  let iv := fold_left (fun iv i =>
      upd (11 - i) (iv.[11 - i] ⊕ wrap 8 (N.shiftr seq (8 * N.of_nat i))) iv) (List.seq 0 8) iv in
  upd 15 1 iv.

Section Calls.
Context {W : World} {F : Fuel} {B : MaskConstants.BlockCipher}.

(** ** Commitments *)

(** The end of [preprocess_circuits]: the commitment to the mask seed. *)
Definition commit_mask_seed : S unit :=
  true_mode <- gets surf_true_mode ;;
  (if true_mode then ret tt
   else
     s <- act (RandBytes 16) ;; s <- from_option s ;;
     modify (set_mask_seed s) ;;
     r <- act (RandBytes 16) ;; r <- from_option r ;;
     modify (set_mask_seed_key r) ;;
     commitment <- from_option (MaskConstants.hirose_commit_host r s) ;;
     ssl_write (MessageHeaders.MASK_COMMITMENTS :: commitment)) ;;
  upd_cap (set_next_mask_index 0).

Definition surf_send_key_commitment : S unit :=
  r <- act (RandBytes 16) ;; r <- from_option r ;;
  upd_rel (set_surf_key_commit_rand r) ;;
  k <- gets (fun c => key_share (server c)) ;;
  d_k <- from_option (MaskConstants.hirose_commit_host r k) ;;
  ssl_write (MessageHeaders.KEY_COMMIT :: d_k) ;;
  upd_rel (set_surf_key_committed true).

(** ** Tag verification *)

(** The verdict the verifier sends in ROTATE mode; [want] is whether the
    caller passed [tag_ok]. *)
Definition read_verdict (want cheated key_opened : bool) : S (option bool) :=
  ack <- read_exact_blocking 1 ;;
  require (negb (cheated || negb key_opened)) ;;
  if ack.[0] =? MessageHeaders.TAG_OK then ret (if want then Some true else None)
  else
    require ((ack.[0] =? MessageHeaders.TAG_REJECT) && want) ;;
    ret (Some false).

(** The circuit's half of [verify_record_tag]: what is written to [*tag_ok],
    if anything. *)
Definition run_verification (input : GCMVfyCircuitIn) (want : bool) : S (option bool) :=
  circuit <- gets (fun c => gcm_vfy_circuit (ptrs c)) ;;
  true_mode <- gets surf_true_mode ;;
  if true_mode then
    r_k <- gets (fun c => surf_key_commit_rand (rel c)) ;;
    '(tag_passed, cheated, key_opened) <-
      run_gcm_vfy_commit_circuit circuit input r_k (repeat 0 32) ;;
    mode <- gets surf_mode ;;
    if negb (Handshake.is_rotate mode) then
      require (tag_passed && negb cheated && key_opened) ;; ret None
    else read_verdict want cheated key_opened
  else
    '(tag_passed, cheated) <- run_gcm_vfy_circuit circuit input ;;
    require (tag_passed && negb cheated) ;; ret None.

Definition verify_record_tag (record_index : nat) (want : bool) : S (option bool) :=
  p <- gets ptrs ;;
  require (verifier p && gcm_vfy_circuit p) ;;
  records <- gets (fun c => surf_records (cap c)) ;;
  require (record_index <? length records)%nat ;;
  true_mode <- gets surf_true_mode ;;
  committed <- gets (fun c => surf_key_committed (rel c)) ;;
  (if true_mode && negb committed then surf_send_key_commitment else ret tt) ;;
  let rec := nth record_index records (mkSurfRecord [] [] 0) in
  let aad := record_header (size (ciphertext rec) + 16) in
  ssl_write (gcm_verify_message rec aad) ;;
  d <- gets server ;;
  tag_share <- from_option (GHash.share (gcm_share d) aad (ciphertext rec)) ;;
  run_verification
    {| vfy_key := key_share d; vfy_iv := vfy_iv_of (iv d) (seq rec);
       vfy_tag_share := tag_share; vfy_server_tag := tag rec |} want.

(** ** Keystream *)

(** The counter of lane [idx]; past the last block one with the top bit set. *)
Definition lane_ctr (iv : list N) (recs : list SurfBlockMap.RecordDims) (nblocks idx : nat)
  : option (list N) :=
  if (idx <? nblocks)%nat then
    match SurfBlockMap.resolve recs (N.of_nat idx) with
    | Some (seq, counter) => Some (SurfBlockMap.ctr_block iv seq counter)
    | None => None
    end
  else
    match SurfBlockMap.resolve recs (N.of_nat nblocks - 1) with
    | Some (seq, _) => Some (SurfBlockMap.ctr_block iv seq (N.lor 0x80000000 (wrap 32 (N.of_nat idx))))
    | None => None
    end.

(** The loop that fills [in.ctr]. *)
Fixpoint fill_ctrs (iv : list N) (recs : list SurfBlockMap.RecordDims) (nblocks : nat) (lanes : list nat)
  : S (list (list N)) :=
  match lanes with
  | [] => ret []
  | idx :: lanes =>
      ctr <- from_option (lane_ctr iv recs nblocks idx) ;;
      rest <- fill_ctrs iv recs nblocks lanes ;;
      ret (ctr :: rest)
  end.

(** [for k: keystream[idx * 16 + k] = masked_ks[k] ^ b[k]] *)
Definition store_block (idx : nat) (masked b ks : list N) : list N :=
  fold_left (fun ks k => upd (idx * 16 + k) (masked.[k] ⊕ b.[k]) ks) (List.seq 0 16) ks.

(** One lane of the loop that strips the masks; the lanes past the last block
    are left. *)
Definition unmask_lane (ctrs masked_ks : list (list N)) (nblocks batch j : nat) : S unit :=
  let idx := (batch * KS_BATCH_N + j)%nat in
  if (nblocks <=? idx)%nat then ret tt
  else
    seed <- gets mask_seed ;;
    b <- from_option (MaskConstants.aes_ecb_block seed (nth j ctrs [])) ;;
    upd_cap (fun c => set_keystream (store_block idx (nth j masked_ks []) b (keystream c)) c).

Definition derive_batch (recs : list SurfBlockMap.RecordDims) (nblocks batch : nat) : S unit :=
  remaining <- act KsRemaining ;;
  (if remaining =? 0 then failed <- act KsPreproc ;; require (negb failed) else ret tt) ;;
  c <- gets (fun c => c) ;;
  ctrs <- fill_ctrs (skipn 4 (iv (server c))) recs nblocks
            (map (fun j => (batch * KS_BATCH_N + j)%nat) (List.seq 0 KS_BATCH_N)) ;;
  '(ok, masked_ks) <- run_ks_batch_circuit (ks_block_circuit (ptrs c))
    {| ks_key := key_share (server c); ks_ctr := ctrs; ks_s := mask_seed c; ks_r := mask_seed_key c;
       ks_d := repeat 0 32 |} ;;
  require ok ;;
  for_each (List.seq 0 KS_BATCH_N) (unmask_lane ctrs masked_ks nblocks batch).

Definition keystream_size : nat := MaskConstants.kNumMasks * 16.

Definition derive_keystream (record_index : nat) : S unit :=
  p <- gets ptrs ;;
  require (verifier p && ks_block_circuit p) ;;
  records <- gets (fun c => surf_records (cap c)) ;;
  require (record_index <? length records)%nat ;;
  let rec := nth record_index records (mkSurfRecord [] [] 0) in
  let recs := [dims_of rec] in
  let nblocks := N.to_nat (SurfBlockMap.total_blocks recs) in
  require (negb ((nblocks =? 0) || (MaskConstants.kNumMasks <? nblocks))%nat) ;;
  let nbatches := ((nblocks + KS_BATCH_N - 1) / KS_BATCH_N)%nat in
  ssl_write (ks_derive_message recs) ;;
  upd_cap (fun c => if (length (keystream c) =? keystream_size)%nat then c
                    else set_keystream (repeat 0 keystream_size) c) ;;
  for_each (List.seq 0 nbatches) (derive_batch recs nblocks) ;;
  upd_cap (set_next_mask_index nblocks).

Definition attest_record (record_index : nat) : S unit :=
  true_mode <- gets surf_true_mode ;;
  if true_mode then ret tt
  else verify_record_tag record_index false ;; derive_keystream record_index.

(** ** Records as they arrive *)

Definition surf_capture_ciphertext (body : list N) : S unit :=
  require (kTagLen <=? length body)%nat ;;
  let ct_len := (length body - kTagLen)%nat in
  seq <- gets (fun c => read_sequence (cap c)) ;;
  upd_cap (fun c => set_surf_records
    (surf_records c ++ [mkSurfRecord (firstn ct_len body) (skipn ct_len body) seq]) c).

Definition next_sequence : S unit :=
  seq <- gets (fun c => read_sequence (cap c)) ;;
  require (negb (wrap 64 (seq + 1) =? 0)) ;;
  upd_cap (set_read_sequence (seq + 1)).

(** The part of [tls_open_record] for an attested connection whose keys are
    installed, up to the update of the sequence number; [surf_decrypt] is set
    to [attest_record] if at all.  The result is the plaintext, or [None] when
    the record is kept sealed ([ssl_open_record_discard]). *)
Definition surf_open_record (surf_decrypt : bool) (body : list N) : S (option (list N)) :=
  surf_capture_ciphertext body ;;
  true_mode <- gets surf_true_mode ;;
  if true_mode then
    next_sequence ;;
    n <- gets (fun c => length (surf_records (cap c))) ;;
    require (negb (kMaxSurfRecords <? n)%nat) ;;
    ret None
  else
    n <- gets (fun c => length (surf_records (cap c))) ;;
    (if surf_decrypt then attest_record (n - 1) else ret tt) ;;
    let ct_len := (length body - kTagLen)%nat in
    let nblocks := ((ct_len + 15) / 16)%nat in
    c <- gets cap ;;
    require (negb ((next_mask_index c <? nblocks) || (length (keystream c) <? next_mask_index c * 16))%nat) ;;
    let ks := skipn ((next_mask_index c - nblocks) * 16) (keystream c) in
    let pt := tabulate ct_len (fun i => body.[i] ⊕ ks.[i]) in
    next_sequence ;;
    ret (Some pt).

End Calls.

(** The loop of [tls_open_record] that removes padding: the inner content
    type and the content. *)
Fixpoint strip_inner (rev_out : list N) : option (N * list N) :=
  match rev_out with
  | [] => None
  | t :: r => if t =? 0 then strip_inner r else Some (t, rev r)
  end.

Definition inner_plaintext (pt : list N) : option (N * list N) := strip_inner (rev pt).

End Attest.
