(* ===== verification/ProverHandshake.v ===== *)
(** * The prover's handshake callbacks ([ssl/ThreePartyHandshake.cpp])

    What BoringSSL calls on the prover while it performs the handshake with
    the origin: the preprocessing of the circuits, the exchange of key shares
    with the verifier, the conversion of the shared point, the derivation of
    the handshake, traffic and resumption secrets, of the PSK and of its
    binder, and the two messages that bring the verifier's halves of the
    handshake secrets.  The few lines of [boringssl/ssl/tls13_client.cc] that
    move a PSK share between a connection and its session are at the end. *)

From S2P Require Import Prelude Block128 Messaging Util Sha256 GHash KeyShare KeyDerive ServerState ServerIO ServerHandshake ServerRecords.
From S2P Require Import Prover ProverState ProverCircuits ProverAttest.

Import ByteString Session Channel Circuits.
Local Open Scope N_scope.
Local Open Scope session_scope.

Module Callbacks.

(** ** Pointers to circuits *)

Definition pointer (c : CircuitId) (s : SSL) : bool :=
  match c with
  | HANDSHAKE_A => match handshake_circuit_a (pre s) with Some _ => true | None => false end
  | HANDSHAKE_B => match handshake_circuit_b (pre s) with Some _ => true | None => false end
  | GCM_SHARE => gcm_circuit (ptrs s)
  | GCM_VFY => gcm_vfy_circuit (ptrs s)
  | KS_BLOCK => ks_block_circuit (ptrs s)
  | ROTATE => rotate_circuit (ptrs s)
  | c => existsb (CircuitId_eqb c) (made (pre s))
  end.

Definition upd_ptrs (f : Ptrs -> Ptrs) (s : SSL) : SSL := set_ptrs (f (ptrs s)) s.

Definition set_pointer (c : CircuitId) (v : bool) (s : SSL) : SSL :=
  match c with
  | HANDSHAKE_A => set_pre (set_handshake_circuit_a (if v then Some HANDSHAKE_A else None) (pre s)) s
  | HANDSHAKE_B => set_pre (set_handshake_circuit_b (if v then Some HANDSHAKE_B else None) (pre s)) s
  | GCM_SHARE => upd_ptrs (set_gcm_circuit v) s
  | GCM_VFY => upd_ptrs (fun p => mkPtrs (verifier p) v (ks_block_circuit p) (gcm_circuit p) (rotate_circuit p)) s
  | KS_BLOCK => upd_ptrs (fun p => mkPtrs (verifier p) (gcm_vfy_circuit p) v (gcm_circuit p) (rotate_circuit p)) s
  | ROTATE => upd_ptrs (fun p => mkPtrs (verifier p) (gcm_vfy_circuit p) (ks_block_circuit p) (gcm_circuit p) v) s
  | c =>
      let others := filter (fun d => negb (CircuitId_eqb c d)) (made (pre s)) in
      set_pre (set_made (if v then c :: others else others) (pre s)) s
  end.

(** Bits of the field that a handshake circuit was built for. *)
Definition field_size (c : CircuitId) : N :=
  match c with HANDSHAKE_A => 256 | HANDSHAKE_B => 384 | _ => 0 end.

Section Calls.
Context {W : World} {F : Fuel} {B : MaskConstants.BlockCipher}.

Definition shake (a : Shake) : S (ShakeReply a) := act (Shaking a).

Definition delete (c : option CircuitId) : S unit :=
  match c with Some c => shake (DeleteCircuit c) ;; ret tt | None => ret tt end.

(** A [unique_ptr]: the circuit is deleted when the scope is left, by an
    exception too. *)
Definition scoped {A} (c : option CircuitId) (m : S A) : S A := fun s =>
  match m s with
  | (s, Waiting) => (s, Waiting)
  | (s, NullDeref) => (s, NullDeref)
  | (s, o) => (fst (delete c s), o)
  end.

(** [std::unique_ptr(ssl->c); ssl->c = nullptr;] *)
Definition take (c : CircuitId) : S (option CircuitId) :=
  here <- gets (pointer c) ;;
  modify (set_pointer c false) ;;
  ret (if here then Some c else None).

(** One [SSL_read] that must return all [n] bytes. *)
Definition ssl_read_once (n : N) : S (list N) :=
  r <- act (SslRead n) ;;
  match r with Got bs => require (size bs =? n) ;; ret bs | _ => fail end.

(** The test callback where the code does not delete the circuits first. *)
Definition maybe_throw_only (header : N) : S unit :=
  thrower <- gets throw_state ;;
  match thrower with
  | Some h => if h =? header then returned <- act Throw ;; if returned then ret tt else abort else ret tt
  | None => ret tt
  end.

(** ** Preprocessing *)

Definition preproc_circuit (c : CircuitId) (with_commit : bool) : S unit :=
  not_null <- shake (Build c with_commit) ;;
  modify (set_pointer c not_null) ;;
  if not_null then
    failed <- shake (Preproc c) ;;
    require (negb failed)
  else ret tt.

Definition preprocess_circuits : S unit :=
  p <- gets ptrs ;;
  e <- gets exch ;;
  require (verifier p && negb (is_server e)) ;;
  env <- shake GetEnv ;;
  mode <- from_option (Surf.mode_from_env (fst env) (snd env)) ;;
  modify (set_surf_mode mode) ;;
  modify (set_surf_true_mode (Surf.is_capture mode)) ;;
  make <- gets (fun c => should_make_circuits (pre c)) ;;
  built <- gets (pointer HANDSHAKE_A) ;;
  if negb make || built then ret tt
  else
    preproc_circuit HANDSHAKE_A false ;;
    preproc_circuit TRAFFIC false ;;
    preproc_circuit GCM_SHARE false ;;
    preproc_circuit RESUMPTION false ;;
    preproc_circuit PSK_1 false ;;
    preproc_circuit PSK_8 false ;;
    preproc_circuit PSK_0 false ;;
    preproc_circuit BINDER false ;;
    true_mode <- gets surf_true_mode ;;
    preproc_circuit GCM_VFY true_mode ;;
    (if negb true_mode then preproc_circuit KS_BLOCK false else ret tt) ;;
    preproc_circuit AES_ENC_C false ;;
    preproc_circuit GCM_TAG_C false ;;
    mode <- gets surf_mode ;;
    (if Handshake.is_rotate mode then preproc_circuit ROTATE false else ret tt) ;;
    Attest.commit_mask_seed.

(** ** Key shares *)

Definition three_party_handshake_comm : S unit :=
  p <- gets ptrs ;;
  e <- gets exch ;;
  require (verifier p && negb (is_server e)) ;;
  upd_exch (set_key_store (key_share_bytes e)) ;;
  key_share_packed <- from_option (Messaging.pack_key_bytes MessageHeaders.COLLECT (key_share_bytes e)) ;;
  ssl_write key_share_packed ;;
  preprocess_circuits ;;
  reply <- ssl_read_once (size key_share_packed) ;;
  '(header, new_key_bytes) <- from_option (Messaging.unpack_key_bytes reply) ;;
  require (header =? MessageHeaders.OK) ;;
  upd_exch (set_key_share_bytes new_key_bytes) ;;
  maybe_throw MessageHeaders.OK.

Definition three_party_handshake_send_received_key_shares (group_id : N) (in_cbs : list N) : S unit :=
  p <- gets ptrs ;;
  require (verifier p) ;;
  require (negb (size in_cbs =? 0)) ;;
  e <- gets exch ;;
  require (negb (is_server e)) ;;
  arr <- from_option (CBB_add_u16_length_prefixed (CBB_add_u16 [] group_id) in_cbs) ;;
  key_share_packed <- from_option (Messaging.pack_key_bytes MessageHeaders.SERVER_KEY_SHARE arr) ;;
  ssl_write key_share_packed ;;
  is_correct_header MessageHeaders.HS_RECV ;;
  maybe_throw_only MessageHeaders.HS_RECV.

(** ** The shared secret *)

(** [std::swap(ssl->ks_circuit, ...)] with the circuit of the group; the other
    one is deleted and its pointer kept. *)
Definition choose_circuit (group_id : N) : S unit :=
  r <- gets pre ;;
  if group_id =? Util.SSL_CURVE_SECP256R1 then
    upd_pre (set_ks_circuit (handshake_circuit_a r)) ;;
    upd_pre (set_handshake_circuit_a (ks_circuit r)) ;;
    delete (handshake_circuit_b r)
  else if group_id =? Util.SSL_CURVE_SECP384R1 then
    upd_pre (set_ks_circuit (handshake_circuit_b r)) ;;
    upd_pre (set_handshake_circuit_b (ks_circuit r)) ;;
    delete (handshake_circuit_a r)
  else fail.

Definition derive_handshake_secret (secret : list N) : S unit :=
  p <- gets ptrs ;;
  e <- gets exch ;;
  require (negb (size secret =? 0) && negb (is_server e) && verifier p) ;;
  let mode := if session_reused e then MessageHeaders.HS_MODE_RESUMED else MessageHeaders.HS_MODE_FULL in
  ssl_write [mode; MessageHeaders.DO_ECTF] ;;
  x <- shake (DoEctf secret (y_key_store e) (group_id e)) ;;
  x <- from_option x ;;
  upd_exch (set_x_key_store x) ;;
  make <- gets (fun c => should_make_circuits (pre c)) ;;
  (if make then choose_circuit (group_id e) else ret tt) ;;
  is_correct_header MessageHeaders.ECTF_DONE ;;
  maybe_throw MessageHeaders.ECTF_DONE.

(** ** Handshake secrets *)

Definition run_handshake_circuit (circuit : option CircuitId) (i : KeyDerivation.HandshakeCircuitIn)
  : S KeyDerivation.HandshakeCircuitOut :=
  c <- from_option circuit ;;
  require ((field_size c =? 256) || (field_size c =? 384)) ;;
  xor_mask <- act (RandomBytes 96) ;;
  output <- run_circuit (derive_hs (field_size c)) (KeyDerivation.pack_handshake false i xor_mask) ;;
  ret (KeyDerivation.handshake_out false xor_mask output).

(** [std::copy(iv.cbegin(), iv.cend(), dest.begin() + 4)] *)
Definition copy_iv (iv dest : list N) : list N := firstn 4 dest ++ iv.

Definition store_handshake (o : KeyDerivation.HandshakeCircuitOut) : S unit :=
  upd_shares (fun r => set_shs_iv (copy_iv (KeyDerivation.hs_iv o) (shs_iv r)) r) ;;
  upd_shares (set_ms_share (KeyDerivation.MS_share o)) ;;
  upd_shares (set_dhs_share (KeyDerivation.dHS_share o)) ;;
  upd_shares (set_fk_s (KeyDerivation.fk_s o)) ;;
  modify (fun c => set_server (set_key_share (KeyDerivation.hs_server_key_share o) (server c)) c) ;;
  upd_shares (set_shts_share (KeyDerivation.SHTS_share o)) ;;
  upd_shares (set_chts_share (KeyDerivation.CHTS_share o)).

Definition unsupported (group_id : N) : bool :=
  (group_id =? KeyShare.KeyShare.SSL_CURVE_X25519) || (group_id =? KeyShare.KeyShare.SSL_GROUP_X25519_MLKEM768)
  || (group_id =? KeyShare.KeyShare.SSL_GROUP_X25519_KYBER768_DRAFT00).

Definition derive_handshake_keys (secret : list N) : S unit :=
  p <- gets ptrs ;;
  e <- gets exch ;;
  require (negb (size secret =? 0) && negb (is_server e) && verifier p) ;;
  require (negb (unsupported (group_id e))) ;;
  hash <- shake GetHash ;;
  hash <- from_option hash ;;
  psk <- gets (fun c => if session_reused e then psk_share (shares c) else repeat 0 16) ;;
  let input := {| KeyDerivation.hs_hash := hash; KeyDerivation.hs_key_share := x_key_store e;
                  KeyDerivation.hs_psk_share := psk |} in
  circuit <- gets (fun c => ks_circuit (pre c)) ;;
  upd_pre (set_ks_circuit None) ;;
  scoped circuit (
    output <- run_handshake_circuit circuit input ;;
    store_handshake output ;;
    is_correct_header MessageHeaders.KS_DONE ;;
    maybe_throw MessageHeaders.KS_DONE).

(** The verifier's halves: [buf_in] is the header, the half of the client's
    handshake traffic secret and the half of the server's. *)
Definition combine_shares (buf_in : list N) : S unit :=
  require (Messaging.is_valid_header buf_in.[0]) ;;
  require (buf_in.[0] =? MessageHeaders.CERTIFICATE_CTX_RECV) ;;
  r <- gets shares ;;
  upd_shares (set_client_handshake_secret (chts_share r ++ KeyDerivation.sub 1 16 buf_in)) ;;
  upd_shares (set_server_handshake_secret (shts_share r ++ KeyDerivation.sub 17 16 buf_in)).

Definition commit_to_server_certificate : S unit :=
  p <- gets ptrs ;;
  require (verifier p) ;;
  k <- gets (fun c => key_share (server c)) ;;
  '(length, span) <- shake GetReadBuffer ;;
  ssl_write (MessageHeaders.CERTIFICATE_CTX_SEND :: EncryptRequest.be_bytes 8 length ++ span ++ SHA2.sha256 k) ;;
  buf_in <- ssl_read_once 33 ;;
  combine_shares buf_in.

Definition combine_handshake_secret_shares : S unit :=
  p <- gets ptrs ;;
  require (verifier p) ;;
  buf_in <- ssl_read_once 33 ;;
  combine_shares buf_in.

(** ** Traffic secrets *)

Definition run_traffic_circuit (circuit : option CircuitId) (i : KeyDerivation.TrafficCircuitIn)
  : S KeyDerivation.TrafficCircuitOut :=
  c <- from_option circuit ;;
  xor_mask <- act (RandomBytes 64) ;;
  output <- run_circuit derive_ts_key (KeyDerivation.pack_traffic false i xor_mask) ;;
  ret (KeyDerivation.traffic_out false xor_mask output).

Definition store_traffic (o : KeyDerivation.TrafficCircuitOut) : S unit :=
  modify (fun c => set_client (set_key_share (KeyDerivation.client_key_share o) (client c)) c) ;;
  modify (fun c => set_server (set_key_share (KeyDerivation.server_key_share o) (server c)) c) ;;
  modify (fun c => set_client (set_ats_share (KeyDerivation.CATS_share o) (client c)) c) ;;
  modify (fun c => set_server (set_ats_share (KeyDerivation.SATS_share o) (server c)) c) ;;
  modify (fun c => set_client (set_iv (copy_iv (KeyDerivation.client_iv o) (iv (client c))) (client c)) c) ;;
  modify (fun c => set_server (set_iv (copy_iv (KeyDerivation.server_iv o) (iv (server c))) (server c)) c).

Definition derive_traffic_keys : S unit :=
  p <- gets ptrs ;;
  require (verifier p) ;;
  ssl_write [MessageHeaders.DERIVE_TS] ;;
  ms <- gets (fun c => ms_share (shares c)) ;;
  hash <- shake GetHash ;;
  hash <- from_option hash ;;
  circuit <- take TRAFFIC ;;
  scoped circuit (
    output <- run_traffic_circuit circuit {| KeyDerivation.ts_hash := hash; KeyDerivation.ts_ms_share := ms |} ;;
    store_traffic output ;;
    maybe_throw MessageHeaders.DERIVE_TS).

(** ** Resumption *)

Definition run_resumption_circuit (circuit : option CircuitId) (i : KeyDerivation.ResumptionCircuitIn)
  : S KeyDerivation.ResumptionCircuitOut :=
  c <- from_option circuit ;;
  xor_mask <- act (RandomBytes 16) ;;
  output <- run_circuit derive_rms_key (KeyDerivation.pack_resumption false i xor_mask) ;;
  ret (KeyDerivation.resumption_out false xor_mask output).

Definition derive_resumption_keys : S unit :=
  p <- gets ptrs ;;
  e <- gets exch ;;
  require (negb (is_server e) && verifier p) ;;
  ssl_write [MessageHeaders.DERIVE_RES] ;;
  ms <- gets (fun c => ms_share (shares c)) ;;
  hash <- shake GetHash ;;
  hash <- from_option hash ;;
  circuit <- take RESUMPTION ;;
  scoped circuit (
    output <- run_resumption_circuit circuit {| KeyDerivation.res_hash := hash; KeyDerivation.res_ms_share := ms |} ;;
    upd_shares (set_rms_share (KeyDerivation.RMS_share output)) ;;
    is_correct_header MessageHeaders.RES_DONE ;;
    maybe_throw MessageHeaders.RES_DONE).

Definition run_psk_circuit (circuit : option CircuitId) (i : KeyDerivation.PskCircuitIn)
  : S KeyDerivation.PskCircuitOut :=
  c <- from_option circuit ;;
  xor_mask <- act (RandomBytes 16) ;;
  output <- run_circuit (derive_psk_key (length (KeyDerivation.ticket_nonce i))) (KeyDerivation.pack_psk false i xor_mask) ;;
  ret (KeyDerivation.psk_out false xor_mask output).

(** The request and the circuit for a width of the nonce. *)
Definition psk_header (nonce_len : nat) : option N :=
  match nonce_len with
  | 0 => Some MessageHeaders.DERIVE_PSK_0
  | 1 => Some MessageHeaders.DERIVE_PSK
  | 8 => Some MessageHeaders.DERIVE_PSK_8
  | _ => None
  end%nat.

Definition derive_psk_keys : S unit :=
  p <- gets ptrs ;;
  e <- gets exch ;;
  require (negb (is_server e) && verifier p) ;;
  have <- gets (fun c => pointer PSK_1 c || pointer PSK_8 c || pointer PSK_0 c) ;;
  if negb have then ret tt
  else
    let nonce := ticket_nonce e in
    header <- from_option (psk_header (length nonce)) ;;
    ssl_write [header] ;;
    circuit <- take PSK_1 ;;
    circuit_8 <- take PSK_8 ;;
    circuit_0 <- take PSK_0 ;;
    scoped circuit (scoped circuit_8 (scoped circuit_0 (
      rms <- gets (fun c => rms_share (shares c)) ;;
      let chosen := match length nonce with 0 => circuit_0 | 1 => circuit | _ => circuit_8 end%nat in
      output <- run_psk_circuit chosen {| KeyDerivation.psk_rms_share := rms; KeyDerivation.ticket_nonce := nonce |} ;;
      upd_shares (set_psk_share (KeyDerivation.PSK_share output)) ;;
      is_correct_header MessageHeaders.PSK_DONE ;;
      maybe_throw MessageHeaders.PSK_DONE))).

(** [out_size] is the size of [binder_out]; the binder is returned. *)
Definition derive_binder (ch_hash : list N) (out_size : N) : S (list N) :=
  p <- gets ptrs ;;
  here <- gets (pointer BINDER) ;;
  session <- gets (fun c => session_psk (exch c)) ;;
  require (verifier p && here) ;;
  share <- from_option session ;;
  ssl_write [MessageHeaders.DERIVE_BINDER] ;;
  require (size ch_hash =? 32) ;;
  circuit <- take BINDER ;;
  scoped circuit (
    binder <- run_circuit derive_binder_key
      (KeyDerivation.pack_binder false {| KeyDerivation.bi_psk_share := share; KeyDerivation.ch_hash := ch_hash |}) ;;
    require (out_size =? size binder) ;;
    ret binder).

(** ** Session tickets *)

Definition xor_share (mine theirs : list N) : list N := tabulate 16 (fun i => mine.[i] ⊕ theirs.[i]).

(** The spans over the key and IV arrays are [key_len] and [iv_len] long: more
    than the arrays have is outside the rules of the language, as is a null
    [s3->hs]. *)
Definition commit_to_session_ticket (data : list N) : S unit :=
  p <- gets ptrs ;;
  require (verifier p) ;;
  c <- gets client ;;
  s <- gets server ;;
  ssl_write (MessageHeaders.SESSION_CTX_SEND :: EncryptRequest.be_bytes 8 (size data) ++ data ++
    SHA2.sha256 (key_share c ++ key_share s)) ;;
  buf_in <- ssl_read_once 33 ;;
  require (Messaging.is_valid_header buf_in.[0]) ;;
  require (buf_in.[0] =? MessageHeaders.SESSION_CTX_RECV) ;;
  let client_traffic_key := xor_share (key_share c) (KeyDerivation.sub 1 16 buf_in) in
  let server_traffic_key := xor_share (key_share s) (KeyDerivation.sub 17 16 buf_in) in
  lengths <- shake AeadLengths ;;
  match lengths with
  | None => null_deref
  | Some lengths =>
      '(key_len, iv_len) <- from_option lengths ;;
      if negb ((key_len <=? 16)%nat && (iv_len <=? 12)%nat) then null_deref
      else
        let wkey := firstn key_len client_traffic_key in
        let wiv := firstn iv_len (skipn 4 (iv c)) in
        let rkey := firstn key_len server_traffic_key in
        let riv := firstn iv_len (skipn 4 (iv s)) in
        write_aead <- act (CreateContext wkey wiv) ;;
        read_aead <- act (CreateContext rkey riv) ;;
        require (write_aead && read_aead) ;;
        ok <- act (SetWriteState wkey wiv) ;;
        require ok ;;
        ok <- shake (SetReadState rkey riv) ;;
        require ok
  end.

(** ** Between the connection and its session ([tls13_client.cc]) *)

(** In [do_read_server_hello], when the offered session was accepted. *)
Definition lift_psk_share : S unit :=
  session <- gets (fun c => session_psk (exch c)) ;;
  match session with
  | None => null_deref
  | Some share => upd_shares (set_psk_share share) ;; upd_exch (set_session_psk None)
  end.

(** In [do_read_server_hello], after the server's key share was parsed: the
    calls that give BoringSSL the secrets of the handshake. *)
Definition server_hello_secrets (shared_secret : list N) : S unit :=
  derive_handshake_secret shared_secret ;;
  hashed <- shake HashMessage ;;
  require hashed ;;
  derive_handshake_keys shared_secret ;;
  p <- gets ptrs ;;
  e <- gets exch ;;
  (if verifier p && negb (session_reused e) then commit_to_server_certificate else ret tt) ;;
  (if verifier p && session_reused e then combine_handshake_secret_shares else ret tt).

(** In [do_read_server_finished], after the server's Finished was hashed. *)
Definition server_finished_secrets : S unit :=
  derive_traffic_keys ;;
  advanced <- shake AdvanceSchedule ;;
  require advanced ;;
  p <- gets ptrs ;;
  if verifier p then Circuits.derive_gcm_shares else ret tt.

(** [tls13_install_3p_traffic_keys]: placeholder contexts with the IVs. *)
Definition install_3p_traffic_keys : S unit :=
  c <- gets client ;;
  s <- gets server ;;
  lengths <- shake AeadLengths ;;
  match lengths with
  | None => null_deref
  | Some lengths =>
      '(key_len, iv_len) <- from_option lengths ;;
      if negb ((key_len <=? 16)%nat && (iv_len <=? 12)%nat) then null_deref
      else
        let key := firstn key_len (key_share c) in
        let client_iv := firstn iv_len (skipn 4 (iv c)) in
        let server_iv := firstn iv_len (skipn 4 (iv s)) in
        read_aead <- act (CreateContext key server_iv) ;;
        require read_aead ;;
        write_aead <- act (CreateContext key client_iv) ;;
        require write_aead ;;
        ok <- act (SetWriteState key client_iv) ;;
        require ok ;;
        ok <- shake (SetReadState key server_iv) ;;
        require ok
  end.

(** In [do_complete_second_flight], after the client's Finished. *)
Definition second_flight_secrets : S unit :=
  p <- gets ptrs ;;
  (if verifier p then derive_resumption_keys else ret tt) ;;
  if verifier p then install_3p_traffic_keys else ret tt.

(** In [tls13_create_session_with_ticket]: the share that the new session
    carries. *)
Definition session_with_ticket (nonce : list N) : S (list N) :=
  upd_exch (set_ticket_nonce nonce) ;;
  derive_psk_keys ;;
  gets (fun c => psk_share (shares c)).

End Calls.
End Callbacks.
