(* ===== verification/PostHandshake.v ===== *)
(** * Messages after the handshake ([boringssl/ssl/s3_both.cc], [tls13_both.cc], [tls13_client.cc])

    The buffer of the handshake layer and what [tls13_post_handshake] does with
    a message in it: a NewSessionTicket is parsed and its PSK derived with the
    verifier, a KeyUpdate rotates the keys of the connection, anything else is
    refused.  The callbacks of the three-party connection are installed.

    The lemmas: a ticket touches only the fields of the handshake and the PSK, a
    key update only those of the traffic keys, and the loop over the buffered
    messages ends, since each takes bytes from the buffer. *)

From S2P Require Import Prelude Messaging ServerState ServerIO ServerHandshake ServerRecords.
From S2P Require Import Prover ProverState ProverLogic ProverCircuits ProverAttest ProverHandshake.

Import ByteString Session Channel Circuits Callbacks.
Local Open Scope N_scope.
Local Open Scope session_scope.

Module PostHandshake.

Definition SSL3_MT_NEW_SESSION_TICKET : N := 4.
Definition SSL3_MT_KEY_UPDATE : N := 24.
Definition SSL_KEY_UPDATE_NOT_REQUESTED : N := 0.
Definition SSL_KEY_UPDATE_REQUESTED : N := 1.
Definition SSL_AD_UNEXPECTED_MESSAGE : N := 10.
Definition SSL_AD_DECODE_ERROR : N := 50.
Definition kMaxKeyUpdates : N := 32.

(** ** The buffer *)

Definition CBS_get_u24 (cbs : list N) : option (N * list N) :=
  match cbs with
  | b0 :: b1 :: b2 :: r => Some (N.lor (N.shiftl b0 16) (N.lor (N.shiftl b1 8) b2), r)
  | _ => None
  end.

Definition CBS_get_u32 (cbs : list N) : option (N * list N) :=
  match cbs with
  | b0 :: b1 :: b2 :: b3 :: r =>
      Some (N.lor (N.shiftl b0 24) (N.lor (N.shiftl b1 16) (N.lor (N.shiftl b2 8) b3)), r)
  | _ => None
  end.

Definition CBS_get_u8_length_prefixed (cbs : list N) : option (list N * list N) :=
  match CBS_get_u8 cbs with
  | Some (n, r) => CBS_get_bytes r (N.to_nat n)
  | None => None
  end.

(** Type and body of the first message, and what follows it. *)
Definition parse_message (buf : list N) : option (N * list N * list N) :=
  match CBS_get_u8 buf with
  | None => None
  | Some (type, cbs) =>
      match CBS_get_u24 cbs with
      | None => None
      | Some (len, cbs) =>
          match CBS_get_bytes cbs (N.to_nat len) with
          | None => None
          | Some (body, rest) => Some (type, body, rest)
          end
      end
  end.

(** ** Tickets *)

Record Ticket := mkTicket {
  server_timeout : N;
  ticket_age_add : N;
  nonce : list N;
  ticket : list N;
  extensions : list N }.

(** The reads of [tls13_create_session_with_ticket]. *)
Definition parse_ticket (body : list N) : option Ticket :=
  match CBS_get_u32 body with
  | None => None
  | Some (timeout, cbs) =>
      match CBS_get_u32 cbs with
      | None => None
      | Some (age_add, cbs) =>
          match CBS_get_u8_length_prefixed cbs with
          | None => None
          | Some (nonce, cbs) =>
              match CBS_get_u16_length_prefixed cbs with
              | None => None
              | Some (ticket, cbs) =>
                  if (length ticket =? 0)%nat then None
                  else match CBS_get_u16_length_prefixed cbs with
                       | Some (exts, []) => Some (mkTicket timeout age_add nonce ticket exts)
                       | _ => None
                       end
              end
          end
      end
  end.

Section Calls.
Context {W : World} {F : Fuel} {B : MaskConstants.BlockCipher}.

Definition tls_append_handshake_data (data : list N) : S unit :=
  ok <- act (AppendHandshake data) ;;
  require ok ;;
  upd_layer (fun r => set_hs_buf (hs_buf r ++ data) r).

Definition tls_get_message : S (option (N * list N)) :=
  gets (fun c => option_map fst (parse_message (hs_buf (layer c)))).

Definition tls_next_message : S unit :=
  upd_layer (fun r => match parse_message (hs_buf r) with Some (_, rest) => set_hs_buf rest r | None => r end).

(** [ssl_send_alert] and [return false] *)
Definition alert_and_fail {A} (description : N) : S A := shake (SendAlert description) ;; fail.

(** The session of the ticket carries the share of its PSK. *)
Definition tls13_create_session_with_ticket (body : list N) : S (option (list N)) :=
  dup <- shake DupSession ;;
  require dup ;;
  match parse_ticket body with
  | None => alert_and_fail SSL_AD_DECODE_ERROR
  | Some t =>
      p <- gets ptrs ;;
      share <- (if verifier p then share <- session_with_ticket (nonce t) ;; ret (Some share)
                else upd_exch (set_ticket_nonce (nonce t)) ;; ret None) ;;
      parsed <- shake (TicketExtensions (extensions t)) ;;
      require parsed ;;
      ret share
  end.

Definition tls13_process_new_session_ticket (body : list N) : S unit :=
  shut <- gets (fun c => write_shutdown (layer c)) ;;
  if shut then ret tt
  else
    session <- tls13_create_session_with_ticket body ;;
    shake (NewSession session) ;;
    ret tt.

(** ** Key updates *)

Definition tls13_rotate_traffic_key (is_write : bool) : S unit :=
  p <- gets ptrs ;;
  if verifier p then rotate_traffic_keys is_write
  else ok <- shake (RotateNative is_write) ;; require ok.

Definition tls13_add_key_update (request_type : N) : S unit :=
  pending <- gets (fun c => key_update_pending (layer c)) ;;
  if pending then ret tt
  else
    ok <- shake (AddKeyUpdate request_type) ;;
    require ok ;;
    tls13_rotate_traffic_key true ;;
    upd_layer (set_key_update_pending true) ;;
    shake FinishFlight ;;
    ret tt.

Definition tls13_receive_key_update (body : list N) : S unit :=
  match body with
  | [key_update_request] =>
      if (key_update_request =? SSL_KEY_UPDATE_NOT_REQUESTED) || (key_update_request =? SSL_KEY_UPDATE_REQUESTED) then
        tls13_rotate_traffic_key false ;;
        if key_update_request =? SSL_KEY_UPDATE_REQUESTED then tls13_add_key_update SSL_KEY_UPDATE_NOT_REQUESTED else ret tt
      else alert_and_fail SSL_AD_DECODE_ERROR
  | _ => alert_and_fail SSL_AD_DECODE_ERROR
  end.

(** ** Dispatch *)

Definition tls13_post_handshake (type : N) (body : list N) : S unit :=
  server <- gets (fun c => is_server (exch c)) ;;
  if (type =? SSL3_MT_NEW_SESSION_TICKET) && negb server then tls13_process_new_session_ticket body
  else if type =? SSL3_MT_KEY_UPDATE then
    upd_layer (fun r => set_key_update_count (wrap 8 (key_update_count r + 1)) r) ;;
    count <- gets (fun c => key_update_count (layer c)) ;;
    if kMaxKeyUpdates <? count then alert_and_fail SSL_AD_UNEXPECTED_MESSAGE else tls13_receive_key_update body
  else
    upd_layer (set_key_update_count 0) ;;
    alert_and_fail SSL_AD_UNEXPECTED_MESSAGE.

(** [while (get_message) { post_handshake; next_message }] *)
Fixpoint message_loop (n : nat) : S unit :=
  match n with
  | O => waiting
  | Datatypes.S n =>
      msg <- tls_get_message ;;
      match msg with
      | None => ret tt
      | Some (type, body) =>
          tls13_post_handshake type body ;;
          tls_next_message ;;
          message_loop n
      end
  end.

(** Bytes from a record, and the messages that they complete.  A message takes
    at least four bytes of the buffer, so a round for each byte is enough (see
    [message_loop_enough]). *)
Definition process_handshake_data (data : list N) : S unit :=
  tls_append_handshake_data data ;;
  buf <- gets (fun c => hs_buf (layer c)) ;;
  message_loop (Datatypes.S (length buf)).

End Calls.
End PostHandshake.

Import PostHandshake.

(** ** What the messages touch *)

(** A view of the fields without those that a ticket changes. *)
Class NoTicket {X : Type} (f : SSL -> X) : Prop := {
  ticket_pre : forall v c, f (set_pre v c) = f c;
  ticket_exch : forall v c, f (set_exch v c) = f c;
  ticket_shares : forall v c, f (set_shares v c) = f c }.

(** A view without the keys of the two directions and the state of a release. *)
Class NoKeys {X : Type} (f : SSL -> X) : Prop := {
  keys_client : forall v c, f (set_client v c) = f c;
  keys_server : forall v c, f (set_server v c) = f c;
  keys_rel : forall v c, f (set_rel v c) = f c }.

(** A view without the handshake layer, apart from its buffer. *)
Class NoLayer {X : Type} (f : SSL -> X) : Prop :=
  layer_blind : forall v c, hs_buf v = hs_buf (layer c) -> f (set_layer v c) = f c.

Section Untouched.
Context {W : World} {F : Fuel} {B : MaskConstants.BlockCipher} {X : Type} (f : SSL -> X).

Lemma frozen_delete c : frozen f (delete c).
Proof. destruct c; [apply frozen_bind; [apply frozen_act | intros; apply frozen_ret] | apply frozen_ret]. Qed.

Lemma frozen_shake a : frozen f (shake a).
Proof. apply frozen_act. Qed.

Lemma frozen_scoped {A} c (m : S A) : frozen f m -> frozen f (scoped c m).
Proof.
  intros Hm s. specialize (Hm s). unfold scoped. pose proof (frozen_delete c) as Hd.
  destruct (m s) as [s1 []]; cbn [fst] in *; rewrite ?Hd; exact Hm.
Qed.

Lemma frozen_throw h : frozen f (maybe_throw h).
Proof. unfold maybe_throw. repeat frozen_step. Qed.

Hint Resolve frozen_shake frozen_throw : frozen.

Section Tickets.
Context {nt : NoTicket f}.

Lemma frozen_take_psk c : c = PSK_1 \/ c = PSK_8 \/ c = PSK_0 -> frozen f (take c).
Proof.
  intros Hc. unfold take. apply frozen_bind; [apply frozen_gets|]. intros here. apply frozen_bind; [|intros; apply frozen_ret].
  apply frozen_modify. intros s. destruct Hc as [-> | [-> | ->]]; apply ticket_pre.
Qed.

Lemma frozen_psk : frozen f derive_psk_keys.
Proof.
  unfold derive_psk_keys, run_psk_circuit, upd_shares.
  repeat (match goal with |- frozen _ (scoped _ _) => apply frozen_scoped end || (apply frozen_take_psk; tauto) || (apply frozen_modify; intros; apply ticket_shares) || frozen_step).
Qed.

Lemma frozen_create body : frozen f (tls13_create_session_with_ticket body).
Proof.
  unfold tls13_create_session_with_ticket, session_with_ticket, alert_and_fail, upd_exch.
  repeat (apply frozen_psk || (apply frozen_modify; intros; apply ticket_exch) || frozen_step).
Qed.

Lemma frozen_process body : frozen f (tls13_process_new_session_ticket body).
Proof. unfold tls13_process_new_session_ticket. repeat (apply frozen_create || frozen_step). Qed.

End Tickets.

(** ** Key updates *)

Lemma frozen_rotate {nk : NoKeys f} w : frozen f (rotate_traffic_keys w).
Proof.
  unfold rotate_traffic_keys, surf_reset_write_state, make_gcm_share_for, make_gcm_share, run_gcm_share_circuit, run_rotate_circuit,
    exchange_bandwidth, upd_dir, upd_rel.
  repeat (frozen_step || (apply frozen_modify; intros; destruct w; apply keys_client || apply keys_server || apply keys_rel)
          || (apply frozen_modify; intros; apply keys_rel)).
Qed.

Section Updates.
Context {nl : NoLayer f}.
Hypothesis rotations : forall w, frozen f (rotate_traffic_keys w).

Lemma frozen_native w : frozen f (tls13_rotate_traffic_key w).
Proof. unfold tls13_rotate_traffic_key. repeat (apply rotations || frozen_step). Qed.

Lemma frozen_layer g : (forall c, hs_buf (g c) = hs_buf c) -> frozen f (upd_layer g).
Proof. intros H. apply frozen_modify. intros c. apply layer_blind, H. Qed.

Lemma frozen_update body : frozen f (tls13_receive_key_update body).
Proof.
  unfold tls13_receive_key_update, tls13_add_key_update, alert_and_fail.
  repeat (apply frozen_native || (apply frozen_layer; reflexivity) || frozen_step).
Qed.

(** The handler leaves the buffer to [tls_next_message]. *)
Lemma frozen_post {nt : NoTicket f} type body : frozen f (tls13_post_handshake type body).
Proof.
  unfold tls13_post_handshake, alert_and_fail.
  repeat (apply frozen_process || apply frozen_update || (apply frozen_layer; reflexivity) || frozen_step).
Qed.

End Updates.
End Untouched.

(** A view without the whole layer is kept by the loop. *)
Lemma frozen_messages {W : World} {F : Fuel} {B : MaskConstants.BlockCipher} {X : Type} (f : SSL -> X) {nt : NoTicket f}
    (layers : forall v c, f (set_layer v c) = f c) (rotations : forall w, frozen f (rotate_traffic_keys w)) data :
  frozen f (process_handshake_data data).
Proof.
  assert (nl : NoLayer f) by (intros v c _; apply layers).
  assert (Hl : forall n, frozen f (message_loop n)).
  { induction n as [|n IH]; cbn [message_loop]; unfold tls_get_message, tls_next_message, upd_layer;
      repeat (exact IH || apply (frozen_post f rotations) || (apply frozen_modify; intros; apply layers) || frozen_step). }
  unfold process_handshake_data, tls_append_handshake_data, upd_layer.
  repeat (apply Hl || (apply frozen_modify; intros; apply layers) || frozen_step).
Qed.

(** ** The loop ends *)

Definition buffer_of (c : SSL) : list N := hs_buf (layer c).

#[export] Instance buffer_no_ticket : NoTicket buffer_of.
Proof. now split. Qed.
#[export] Instance buffer_no_keys : NoKeys buffer_of.
Proof. now split. Qed.
#[export] Instance buffer_no_layer : NoLayer buffer_of.
Proof. intros v c E. exact E. Qed.

Lemma parse_message_takes buf type body rest : parse_message buf = Some (type, body, rest) ->
  (length rest + length body + 4 = length buf)%nat.
Proof.
  destruct buf as [|t [|b0 [|b1 [|b2 r]]]]; try discriminate. unfold parse_message. cbn [CBS_get_u8 CBS_get_u24].
  unfold CBS_get_bytes. destruct (Nat.leb_spec (N.to_nat (N.lor (N.shiftl b0 16) (N.lor (N.shiftl b1 8) b2))) (length r)); [|discriminate].
  intros [= <- <- <-]. cbn [length]. rewrite length_firstn, length_skipn. lia.
Qed.

Section Ends.
Context {W : World} {F : Fuel} {B : MaskConstants.BlockCipher}.

(** With a round for each byte of the buffer, more rounds change nothing. *)
Lemma message_loop_enough extra : forall n s, (length (buffer_of (ssl s)) < n)%nat -> message_loop (n + extra) s = message_loop n s.
Proof.
  induction n as [|n IH]; intros s Hn; [lia|]. cbn [Nat.add message_loop]. unfold bind at 1 4, tls_get_message, gets.
  fold (buffer_of (ssl s)). destruct (parse_message (buffer_of (ssl s))) as [[[type body] rest]|] eqn:E; [|reflexivity].
  cbn [option_map fst]. pose proof (frozen_post buffer_of (frozen_rotate buffer_of) type body s) as Hp. unfold bind.
  destruct (tls13_post_handshake type body s) as [s1 []]; try reflexivity. cbn [fst] in Hp.
  unfold tls_next_message, upd_layer, modify. apply IH. cbn [ssl]. unfold buffer_of in *. cbn [layer set_layer]. rewrite Hp, E.
  apply parse_message_takes in E. cbn. lia.
Qed.

End Ends.
