(* ===== verification/ProverRelease.v ===== *)
(** * Opening the captured records ([ssl/ThreePartyHandshake.cpp])

    The release of the verifier's key share in the sealed-capture modes:
    decryption under the reconstructed key, the tests that the stream ended
    where the origin ended it, the assembly of the response, and the epochs of
    ROTATE mode. *)

From S2P Require Import Prelude Messaging BlockMap ServerState ServerIO ServerHandshake ServerRecords.
From S2P Require Import Prover ProverState ProverCircuits ProverAttest ProverHandshake PostHandshake.

Import Session Channel Circuits Attest PostHandshake.
Local Open Scope N_scope.
Local Open Scope session_scope.

Module Releasing.

Definition SSL3_RT_ALERT : N := 21.
Definition SSL3_RT_HANDSHAKE : N := 22.
Definition SSL3_RT_APPLICATION_DATA : N := 23.
Definition SSL3_AL_WARNING : N := 1.
Definition SSL_AD_CLOSE_NOTIFY : N := 0.

(** ** Records under the full key *)

(** [for j < n: out[off + j] = ct[off + j] ^ ks[j]] *)
Definition xor_block (ct ks : list N) (off n : nat) (out : list N) : list N :=
  fold_left (fun out j => upd (off + j) (ct.[off + j] ⊕ ks.[j]) out) (List.seq 0 n) out.

(** The loop over the blocks. *)
Fixpoint open_blocks `{MaskConstants.BlockCipher} (key iv : list N) (recs : list SurfBlockMap.RecordDims)
    (ct : list N) (idxs : list nat) (out : list N) : option (list N) :=
  match idxs with
  | [] => Some out
  | idx :: idxs =>
      match SurfBlockMap.resolve recs (N.of_nat idx) with
      | None => None
      | Some (seq, counter) =>
          match MaskConstants.aes_ecb_block key (SurfBlockMap.ctr_block iv seq counter) with
          | None => None
          | Some ks =>
              open_blocks key iv recs ct idxs
                (xor_block ct ks (idx * 16) (Nat.min 16 (length ct - idx * 16)) out)
          end
      end
  end.

(** [server_iv] holds the IV at offset 4. *)
Definition true_surf_open_record `{MaskConstants.BlockCipher} (key server_iv : list N) (rec : SurfRecord)
  : option (list N) :=
  let ct := ciphertext rec in
  let nblocks := ((length ct + 15) / 16)%nat in
  open_blocks key (skipn 4 server_iv) [dims_of rec] ct (List.seq 0 nblocks) (repeat 0 (length ct)).

(** ** Inner plaintexts *)

(** [while (n > 0 && pt[n - 1] == 0) n--] *)
Fixpoint skip_padding (pt : list N) (n : nat) : nat :=
  match n with
  | O => O
  | Datatypes.S m => if pt.[m] =? 0 then skip_padding pt m else n
  end.

Definition surf_is_close_notify (pt : list N) : bool :=
  let n := skip_padding pt (length pt) in
  if (n =? 0)%nat || negb (pt.[n - 1] =? SSL3_RT_ALERT) then false
  else (n - 1 =? 2)%nat && (pt.[0] =? SSL3_AL_WARNING) && (pt.[1] =? SSL_AD_CLOSE_NOTIFY).

Definition surf_is_key_update (pt : list N) : bool :=
  let n := skip_padding pt (length pt) in
  if (n =? 0)%nat || negb (pt.[n - 1] =? SSL3_RT_HANDSHAKE) then false
  else (n - 1 =? 5)%nat && (pt.[0] =? SSL3_MT_KEY_UPDATE) && (pt.[1] =? 0) && (pt.[2] =? 0) && (pt.[3] =? 1).

(** [!pt.empty() && pt.back() == type] *)
Definition has_type (type : N) (pt : list N) : bool :=
  negb (length pt =? 0)%nat && (last pt 0 =? type).

(** ** Assembly of the response *)

Definition total_size (opened : list (list N)) : nat :=
  fold_left (fun total pt => if has_type SSL3_RT_APPLICATION_DATA pt then (total + (length pt - 1))%nat else total)
    opened 0%nat.

(** [std::copy(first, last, out.begin() + off)] *)
Definition copy_at (off : nat) (src out : list N) : list N :=
  firstn off out ++ src ++ skipn (off + length src) out.

Definition assemble_step (st : nat * list N) (pt : list N) : nat * list N :=
  let '(off, out) := st in
  if has_type SSL3_RT_APPLICATION_DATA pt
  then (off + (length pt - 1), copy_at off (removelast pt) out)%nat
  else (off, out).

(** The final offset and the output. *)
Definition assemble (opened : list (list N)) : nat * list N :=
  fold_left assemble_step opened (0%nat, repeat 0 (total_size opened)).

(** [for i + 1 < opened.size(): surf_is_close_notify(opened[i])] *)
Definition early_close (opened : list (list N)) : bool := existsb surf_is_close_notify (removelast opened).

Definition ends_with_close (opened : list (list N)) : bool :=
  negb (length opened =? 0)%nat && surf_is_close_notify (last opened []).

Section Calls.
Context {W : World} {F : Fuel} {B : MaskConstants.BlockCipher}.

(** ** Steps of a release *)

(** [KEY_RELEASE], and the full key from the share that comes back. *)
Definition surf_release_epoch_key : S unit :=
  ssl_write [MessageHeaders.KEY_RELEASE] ;;
  kv <- read_exact_blocking 16 ;;
  k <- gets (fun c => key_share (server c)) ;;
  upd_rel (set_surf_full_server_key (tabulate 16 (fun i => k.[i] ⊕ kv.[i]))) ;;
  upd_rel (set_surf_key_released true).

(** The records of an index range, opened. *)
Fixpoint open_records (idxs : list nat) : S (list (list N)) :=
  match idxs with
  | [] => ret []
  | i :: idxs =>
      c <- gets (fun c => c) ;;
      pt <- from_option (true_surf_open_record (surf_full_server_key (rel c)) (iv (server c))
              (nth i (surf_records (cap c)) (mkSurfRecord [] [] 0))) ;;
      rest <- open_records idxs ;;
      ret (pt :: rest)
  end.

(** Handshake records, back to the handshake layer. *)
Definition replay_record (pt : list N) : S unit :=
  if has_type SSL3_RT_HANDSHAKE pt then process_handshake_data (removelast pt) else ret tt.

(** The end of the stream, and the response. *)
Definition finish_stream (opened : list (list N)) (require_close_notify : bool) : S (list N) :=
  require (negb (early_close opened)) ;;
  require (negb (require_close_notify && negb (ends_with_close opened))) ;;
  let '(off, out) := assemble opened in
  require (off =? total_size opened)%nat ;;
  ret out.

Fixpoint verify_all (idxs : list nat) : S unit :=
  match idxs with
  | [] => ret tt
  | i :: idxs => verify_record_tag i false ;; verify_all idxs
  end.

(** ** TRUE mode *)

Definition true_surf_release (require_close_notify : bool) : S (list N) :=
  c <- gets (fun c => c) ;;
  require (verifier (ptrs c) && surf_true_mode c && negb (surf_key_released (rel c))) ;;
  let n := length (surf_records (cap c)) in
  verify_all (List.seq 0 n) ;;
  surf_release_epoch_key ;;
  opened <- open_records (List.seq 0 n) ;;
  out <- finish_stream opened require_close_notify ;;
  for_each opened replay_record ;;
  ret out.

(** ** ROTATE mode *)

(** Verification in order until the first record that is rejected; [k] is the
    number of records left. *)
Fixpoint verify_until_reject (k end_ : nat) : S nat :=
  match k with
  | O => ret end_
  | Datatypes.S k =>
      r <- verify_record_tag end_ true ;;
      if match r with Some ok => ok | None => true end
      then verify_until_reject k (Datatypes.S end_)
      else ret end_
  end.

(** [surf_records[j].seq = j - end] for the records from [end] on. *)
Definition renumber (end_ : nat) (records : list SurfRecord) : list SurfRecord :=
  fold_left (fun rs j =>
      let r := nth j rs (mkSurfRecord [] [] 0) in
      upd j (mkSurfRecord (ciphertext r) (tag r) (wrap 64 (N.of_nat (j - end_)))) rs)
    (List.seq end_ (length records - end_)) records.

Definition begin_epoch : S unit :=
  upd_rel (fun r => set_surf_key_released false (set_surf_key_committed false r)) ;;
  surf_send_key_commitment.

(** One round of the loop over the epochs: the new [end], and the opened
    records. *)
Definition one_epoch (n start : nat) : S (nat * list (list N)) :=
  begin_epoch ;;
  end_ <- verify_until_reject (n - start) start ;;
  require (negb (end_ =? start)%nat) ;;
  surf_release_epoch_key ;;
  pts <- open_records (List.seq start (end_ - start)) ;;
  ret (end_, pts).

(** The step to the next epoch. *)
Definition next_epoch (end_ : nat) : S unit :=
  rotate_traffic_keys false ;;
  upd_cap (fun c => set_surf_records (renumber end_ (surf_records c)) c).

(** [is_boundary.back() = true] *)
Definition mark_last (bs : list bool) : list bool := removelast bs ++ [true].

Fixpoint epochs (rounds n start : nat) (opened : list (list N)) (is_boundary : list bool)
  : S (list (list N) * list bool) :=
  match rounds with
  | O => waiting
  | Datatypes.S rounds =>
      '(end_, pts) <- one_epoch n start ;;
      let opened := opened ++ pts in
      let is_boundary := is_boundary ++ repeat false (length pts) in
      if (end_ =? n)%nat then ret (opened, is_boundary)
      else
        require (surf_is_key_update (last opened [])) ;;
        next_epoch end_ ;;
        epochs rounds n end_ opened (mark_last is_boundary)
  end.

Definition rotate_surf_release (require_close_notify : bool) : S (list N) :=
  c <- gets (fun c => c) ;;
  require (verifier (ptrs c) && Handshake.is_rotate (surf_mode c) && negb (surf_key_released (rel c))) ;;
  let n := length (surf_records (cap c)) in
  '(opened, is_boundary) <- epochs (Datatypes.S n) n 0 [] [] ;;
  upd_rel (set_surf_key_released true) ;;
  out <- finish_stream opened require_close_notify ;;
  for_each (combine opened is_boundary)
    (fun '(pt, boundary) => if (boundary : bool) then ret tt else replay_record pt) ;;
  ret out.

(** Every record must verify. *)
Fixpoint verify_epoch (idxs : list nat) : S unit :=
  match idxs with
  | [] => ret tt
  | i :: idxs =>
      r <- verify_record_tag i true ;;
      require (match r with Some ok => ok | None => true end) ;;
      verify_epoch idxs
  end.

(** The end of an epoch: a KeyUpdate, or the close_notify of the stream. *)
Definition epoch_end_ok (final_epoch : bool) (opened : list (list N)) : bool :=
  if final_epoch then surf_is_close_notify (last opened []) else surf_is_key_update (last opened []).

Definition rotate_surf_release_epoch (final_epoch : bool) : S (list N) :=
  c <- gets (fun c => c) ;;
  require (verifier (ptrs c) && Handshake.is_rotate (surf_mode c)) ;;
  let start := surf_epoch_start (rel c) in
  let n := length (surf_records (cap c)) in
  require (start <? n)%nat ;;
  begin_epoch ;;
  verify_epoch (List.seq start (n - start)) ;;
  surf_release_epoch_key ;;
  opened <- open_records (List.seq start (n - start)) ;;
  require (epoch_end_ok final_epoch opened) ;;
  require (negb (early_close opened)) ;;
  let '(_, out) := assemble opened in
  for_each (if final_epoch then opened else removelast opened) replay_record ;;
  (if final_epoch then ret tt
   else
     rotate_traffic_keys false ;;
     upd_cap (set_read_sequence 0) ;;
     upd_rel (set_surf_epoch_start n) ;;
     upd_rel (fun r => set_surf_epoch (wrap 32 (surf_epoch r + 1)) r)) ;;
  ret out.

End Calls.
End Releasing.
