(* ===== verification/Preprocessing.v ===== *)
(** * Preprocessing in lock-step

    Preprocessing a circuit is a two-party protocol: the prover's
    [preprocess_circuits] and the verifier's [do_preproc] must build and
    preprocess the same circuits in the same order. *)

From S2P Require Import Prelude Messaging Util GHash CircuitWires BlockMap KeyShare ServerState ServerIO ServerHandshake ServerRecords ServerRun ServerLogic ServerWorld.
From S2P Require Import Prover ProverState ProverCircuits ProverAttest ProverHandshake ProverLogic.

Import Server Handshake.
Local Open Scope N_scope.

(** ** What the parties do *)

Inductive PreStep :=
  | Built (c : CircuitId) (with_commit : bool)
  | Prepared (c : CircuitId).

Definition prover_step (a : Session.Action) : list PreStep :=
  match a with
  | Session.Shaking (Session.Build c w) => [Built c w]
  | Session.Shaking (Session.Preproc c) => [Prepared c]
  | _ => []
  end.

Definition verifier_step (a : Action) : list PreStep :=
  match a with ABuild c w => [Built c w] | APreproc c => [Prepared c] | _ => [] end.

(** In the order of time. *)
Definition prover_steps (l : list Session.Action) : list PreStep := flat_map prover_step (rev l).
Definition verifier_steps (l : list Action) : list PreStep := flat_map verifier_step (rev l).

Lemma prover_steps_cons a l : prover_steps (a :: l) = prover_steps l ++ prover_step a.
Proof. unfold prover_steps. cbn [rev]. rewrite flat_map_app. cbn. now rewrite app_nil_r. Qed.

Lemma verifier_steps_cons a l : verifier_steps (a :: l) = verifier_steps l ++ verifier_step a.
Proof. unfold verifier_steps. cbn [rev]. rewrite flat_map_app. cbn. now rewrite app_nil_r. Qed.

(** ** The plan of a mode *)

Definition plan (m : Surf.Mode) : list (CircuitId * bool) :=
  [(HANDSHAKE_A, false); (TRAFFIC, false); (GCM_SHARE, false); (RESUMPTION, false);
   (PSK_1, false); (PSK_8, false); (PSK_0, false); (BINDER, false); (GCM_VFY, Surf.is_capture m)] ++
  (if Surf.is_capture m then [] else [(KS_BLOCK, false)]) ++
  [(AES_ENC_C, false); (GCM_TAG_C, false)] ++
  (if is_rotate m then [(ROTATE, false)] else []).

(** A circuit that could be built is preprocessed at once. *)
Definition steps_of (built : CircuitId -> bool) (cw : CircuitId * bool) : list PreStep :=
  Built (fst cw) (snd cw) :: (if built (fst cw) then [Prepared (fst cw)] else []).

Lemma circuit_eqb_eq c d : CircuitId_eqb c d = true <-> c = d.
Proof. split; [|intros ->; now destruct d]. now destruct c, d. Qed.

Lemma existsb_others cs c d :
  existsb (CircuitId_eqb d) (filter (fun e => negb (CircuitId_eqb c e)) cs) =
  negb (CircuitId_eqb c d) && existsb (CircuitId_eqb d) cs.
Proof.
  induction cs as [|e cs IH]; [symmetry; apply andb_false_r|]. cbn.
  destruct (CircuitId_eqb c e) eqn:Ee; cbn; rewrite IH.
  - apply circuit_eqb_eq in Ee as ->. destruct (CircuitId_eqb e d) eqn:Ed; [reflexivity|].
    destruct (CircuitId_eqb d e) eqn:Ed'; [|reflexivity]. apply circuit_eqb_eq in Ed' as ->.
    now rewrite (proj2 (circuit_eqb_eq e e) eq_refl) in Ed.
  - destruct (CircuitId_eqb d e) eqn:Ed; [|reflexivity]. apply circuit_eqb_eq in Ed as ->. now rewrite Ee.
Qed.

Section Prover.
Context {W : Session.World} {F : Fuel} {B : MaskConstants.BlockCipher} (built : CircuitId -> bool).
Context (builds : forall l c w, Session.reply l (Session.Shaking (Session.Build c w)) = built c).
Context (m : Surf.Mode) (l0 : list Session.Action).

Lemma pointer_set c d v s : Callbacks.pointer d (Callbacks.set_pointer c v s) =
  if CircuitId_eqb c d then v else Callbacks.pointer d s.
Proof.
  pose proof (existsb_others (Session.made (Session.pre s))) as E.
  destruct c, d, v; unfold Callbacks.pointer, Callbacks.set_pointer, Callbacks.upd_ptrs; cbn -[CircuitId_eqb];
    rewrite ?E; reflexivity.
Qed.

Definition planned (ps : list (CircuitId * bool)) (s : Session.St) : Prop :=
  Session.surf_mode (Session.ssl s) = m /\ Session.surf_true_mode (Session.ssl s) = Surf.is_capture m /\
  prover_steps (Session.log s) = prover_steps l0 ++ flat_map (steps_of built) ps /\
  forall c w, In (c, w) ps -> Callbacks.pointer c (Session.ssl s) = built c.

Lemma planned_step ps c w s s' : planned ps s -> Callbacks.preproc_circuit c w s = (s', Done tt) -> planned (ps ++ [(c, w)]) s'.
Proof.
  intros (Hm & Ht & Hs & Hp). unfold Callbacks.preproc_circuit, Callbacks.shake, Session.bind, Channel.act, Session.modify.
  rewrite builds. cbn [Session.ssl Session.log].
  assert (G : forall s', Session.ssl s' = Callbacks.set_pointer c (built c) (Session.ssl s) ->
    prover_steps (Session.log s') = prover_steps (Session.log s) ++ steps_of built (c, w) -> planned (ps ++ [(c, w)]) s').
  { intros s1 E1 E2. unfold planned. rewrite E1, E2, Hs, flat_map_app, app_assoc. cbn [flat_map]. rewrite app_nil_r.
    split; [now destruct c|]. split; [now destruct c|]. split; [reflexivity|]. intros d w' Hd. rewrite pointer_set.
    destruct (CircuitId_eqb c d) eqn:Ecd; [now destruct c, d|]. apply in_app_or in Hd as [Hd|[Hd|[]]]; [now apply (Hp d w')|].
    injection Hd as -> _. destruct d; discriminate. }
  unfold steps_of in G. cbn [fst snd] in G. destruct (built c).
  - destruct (Session.reply _ _) in |- *; cbn; intros E; [discriminate|]. injection E as <-. apply G; [reflexivity|].
    cbn [Session.log]. rewrite !prover_steps_cons, <- app_assoc. reflexivity.
  - intros E. injection E as <-. apply G; [reflexivity|]. cbn [Session.log]. now rewrite prover_steps_cons.
Qed.

Lemma session_bind_inv {A C} (x : Session.S A) (k : A -> Session.S C) s s' c :
  Session.bind x k s = (s', Done c) -> exists s1 a, x s = (s1, Done a) /\ k a s1 = (s', Done c).
Proof. unfold Session.bind. destruct (x s) as [s1 [a| | | |]]; try discriminate. eauto. Qed.

(** The commitment to the mask seed builds nothing. *)
Lemma planned_commit ps s s' : planned ps s -> Attest.commit_mask_seed s = (s', Done tt) -> planned ps s'.
Proof.
  intros (Hm & Ht & Hs & Hp). unfold Attest.commit_mask_seed, Session.gets, Session.upd_cap, Session.modify.
  cbn [Session.bind]. unfold Session.bind at 1. destruct (Session.surf_true_mode (Session.ssl s)) eqn:Et.
  - intros E. injection E as <-. split; [exact Hm|]. split; [exact (eq_trans Et Ht)|]. split; [exact Hs|].
    intros c w Hc. rewrite <- (Hp c w Hc). now destruct c.
  - intros E. apply session_bind_inv in E as (s1 & [] & E1 & E2). injection E2 as <-.
    apply session_bind_inv in E1 as (s2 & o1 & E & E1). injection E as <- <-.
    apply session_bind_inv in E1 as (s3 & x1 & E & E1). destruct (Session.reply _ _) as [v1|] in E; [|discriminate]. injection E as <- <-.
    apply session_bind_inv in E1 as (s4 & [] & E & E1). injection E as <-.
    apply session_bind_inv in E1 as (s5 & o2 & E & E1). injection E as <- <-.
    apply session_bind_inv in E1 as (s6 & x2 & E & E1). destruct (Session.reply _ _) as [v2|] in E; [|discriminate]. injection E as <- <-.
    apply session_bind_inv in E1 as (s7 & [] & E & E1). injection E as <-.
    apply session_bind_inv in E1 as (s8 & x3 & E & E1). destruct (MaskConstants.hirose_commit_host _ _) as [v3|] in E; [|discriminate].
    injection E as <- <-.
    apply session_bind_inv in E1 as (s9 & x4 & E & E1). injection E as <- <-. destruct (Session.reply _ _) in E1; [|discriminate].
    injection E1 as <-. cbn [Session.ssl Session.log Session.modify].
    split; [exact Hm|]. split; [exact (eq_trans Et Ht)|]. split.
    + cbn [Session.log]. rewrite !prover_steps_cons. cbn [prover_step]. now rewrite !app_nil_r.
    + intros c w Hc. rewrite <- (Hp c w Hc). now destruct c.
Qed.

Ltac planned_next H E :=
  let s1 := fresh "s" in let E1 := fresh "E" in
  apply session_bind_inv in E as (s1 & [] & E1 & E); apply (planned_step _ _ _ _ _ H) in E1; clear H; rename E1 into H.

Lemma preprocess_steps s s' :
  Session.log s = l0 -> Session.should_make_circuits (Session.pre (Session.ssl s)) = true ->
  Session.handshake_circuit_a (Session.pre (Session.ssl s)) = None ->
  (let env := Session.reply l0 (Session.Shaking Session.GetEnv) in Surf.mode_from_env (fst env) (snd env) = Some m) ->
  Callbacks.preprocess_circuits s = (s', Done tt) -> planned (plan m) s'.
Proof.
  intros Hl Hmake Ha Henv. unfold Callbacks.preprocess_circuits, Session.gets, Session.modify. intros E.
  apply session_bind_inv in E as (s1 & p & E1 & E). injection E1 as <- <-.
  apply session_bind_inv in E as (s1 & e & E1 & E). injection E1 as <- <-.
  apply session_bind_inv in E as (s1 & [] & E1 & E). unfold Session.require in E1.
  destruct (_ && _) in E1; [|discriminate]. injection E1 as <-.
  apply session_bind_inv in E as (s1 & env & E1 & E). unfold Callbacks.shake, Channel.act in E1. rewrite Hl in E1. injection E1 as <- <-.
  cbv zeta in Henv. rewrite Henv in E.
  apply session_bind_inv in E as (s1 & m' & E1 & E). injection E1 as <- <-.
  apply session_bind_inv in E as (s1 & [] & E1 & E). injection E1 as <-.
  apply session_bind_inv in E as (s1 & [] & E1 & E). injection E1 as <-.
  apply session_bind_inv in E as (s1 & mk & E1 & E). injection E1 as <- <-.
  apply session_bind_inv in E as (s1 & bt & E1 & E). injection E1 as <- <-.
  cbn [Session.ssl Session.set_surf_true_mode Session.set_surf_mode Session.pre Callbacks.pointer] in E. rewrite Hmake, Ha in E.
  cbn [negb orb] in E.
  match type of E with Session.bind _ _ ?s0 = _ => assert (H : planned [] s0) end.
  { split; [reflexivity|]. split; [reflexivity|]. split; [|intros c w []]. cbn [Session.log flat_map].
    rewrite prover_steps_cons. cbn [prover_step]. reflexivity. }
  do 8 planned_next H E.
  apply session_bind_inv in E as (s9 & tm & E1 & E). injection E1 as <- <-.
  rewrite (proj1 (proj2 H)) in E. planned_next H E.
  unfold plan. destruct (Surf.is_capture m) eqn:Em; cbn [negb] in E;
    [apply session_bind_inv in E as (s11 & [] & E1 & E); injection E1 as <- | planned_next H E];
    do 2 planned_next H E;
    apply session_bind_inv in E as (s12 & md & E1 & E); injection E1 as <- <-;
    rewrite (proj1 H) in E; destruct (is_rotate m);
    try (apply session_bind_inv in E as (s13 & [] & E1 & E); injection E1 as <-); try planned_next H E;
    exact (planned_commit _ _ _ H E).
Qed.

(** *** Completion *)

Definition completes {A} (x : Session.S A) : Prop := forall s, exists s' a, x s = (s', Done a).

Lemma completes_bind {A C} (x : Session.S A) (k : A -> Session.S C) :
  completes x -> (forall a, completes (k a)) -> completes (Session.bind x k).
Proof. intros Hx Hk s. destruct (Hx s) as (s1 & a & E). unfold Session.bind. rewrite E. apply Hk. Qed.

Lemma completes_simple {A} (x : Session.S A) (f : Session.St -> Session.St) (g : Session.St -> A) :
  (forall s, x s = (f s, Done (g s))) -> completes x.
Proof. intros H s. exists (f s), (g s). apply H. Qed.

Context (prepared : forall l c, Session.reply l (Session.Shaking (Session.Preproc c)) = false).
Context (written : forall l bs, Session.reply l (Session.SslWrite bs) = true).
Context (random : forall l, exists bs, Session.reply l (Session.RandBytes 16) = Some bs).
Context (committed : forall r s, exists d, MaskConstants.hirose_commit_host r s = Some d).

Lemma completes_preproc c w : completes (Callbacks.preproc_circuit c w).
Proof.
  intros s. unfold Callbacks.preproc_circuit, Callbacks.shake, Session.bind, Channel.act, Session.modify. cbn [Session.ssl Session.log].
  destruct (Session.reply _ _) in |- *; [|eexists _, tt; reflexivity]. rewrite prepared. eexists _, tt. reflexivity.
Qed.

Lemma completes_commit : completes Attest.commit_mask_seed.
Proof.
  unfold Attest.commit_mask_seed. apply completes_bind; [now eapply completes_simple|]. intros []; apply completes_bind;
    try (now eapply completes_simple); intros; try (now eapply completes_simple).
  intros s. unfold Session.bind, Channel.act, Session.modify, Channel.ssl_write, Session.from_option.
  destruct (random (Session.log s)) as [r1 E1]. rewrite E1. cbn [Session.ssl Session.log Session.ret].
  match goal with |- context [Session.reply ?l (Session.RandBytes 16)] => destruct (random l) as [r2 E2] end.
  rewrite E2. cbn [Session.ssl Session.log]. destruct (committed r2 r1) as [d Ed]. unfold Session.ret. cbn [Session.ssl Session.log]. rewrite Ed.
  cbn [Session.ssl Session.log]. unfold Session.bind, Channel.act. rewrite written. eexists _, tt. reflexivity.
Qed.

Lemma preprocess_completes s :
  Session.verifier (Session.ptrs (Session.ssl s)) = true -> Session.is_server (Session.exch (Session.ssl s)) = false ->
  (let env := Session.reply (Session.log s) (Session.Shaking Session.GetEnv) in Surf.mode_from_env (fst env) (snd env) = Some m) ->
  exists s', Callbacks.preprocess_circuits s = (s', Done tt).
Proof.
  intros Hv Hs Henv. unfold Callbacks.preprocess_circuits. unfold Session.bind at 1 2, Session.gets at 1 2. rewrite Hv, Hs. cbn [negb andb].
  unfold Session.bind at 1, Session.require, Session.ret at 1. unfold Session.bind at 1, Callbacks.shake, Channel.act. cbv zeta in Henv. rewrite Henv.
  unfold Session.from_option. unfold Session.bind at 1, Session.ret at 1.
  match goal with |- context [Session.bind _ ?k ?s] => assert (C : completes (k tt)) end.
  - repeat first [apply completes_preproc | apply completes_commit | apply completes_bind; [|intros]
      | match goal with |- completes (if ?b then _ else _) => destruct b end | now eapply completes_simple].
  - destruct (C (Session.mkSt (Session.set_surf_mode m (Session.ssl s)) (Session.Shaking Session.GetEnv :: Session.log s))) as (s' & [] & E).
    exists s'. exact E.
Qed.

End Prover.

Section Verifier.
Context `{KL : KeyLib} {W : World} {F : Fuel} (built : CircuitId -> bool).
Context (builds : forall l c w, reply l (ABuild c w) = built c).
Context (cf : Conf) (l0 : list Action).

Definition v_planned (ps : list (CircuitId * bool)) (s : Server) : Prop :=
  conf s = cf /\ verifier_steps (log s) = verifier_steps l0 ++ flat_map (steps_of built) ps /\
  forall c w, In (c, w) ps -> has_circuit c s = built c.

Lemma server_bind_inv {A C} (x : M A) (k : A -> M C) s s' c :
  bind x k s = (s', Done c) -> exists s1 a, x s = (s1, Done a) /\ k a s1 = (s', Done c).
Proof. unfold bind. destruct (x s) as [s1 [a| | | |]]; try discriminate. eauto. Qed.

(** The list of circuits after an update, as [pointer_set]. *)
Lemma has_circuit_set c d v s : has_circuit d (fst (set_circuit c v s)) = if CircuitId_eqb c d then v else has_circuit d s.
Proof.
  unfold set_circuit, modify, has_circuit. cbn [fst circuits set_circuits].
  assert (E : existsb (CircuitId_eqb d) (filter (fun e => negb (CircuitId_eqb c e)) (circuits s)) =
    negb (CircuitId_eqb c d) && existsb (CircuitId_eqb d) (circuits s)) by apply existsb_others.
  destruct v; cbn [existsb]; rewrite E; destruct (CircuitId_eqb c d) eqn:Ecd; cbn [negb andb];
    try (apply circuit_eqb_eq in Ecd as ->; now rewrite (proj2 (circuit_eqb_eq d d) eq_refl)); try reflexivity.
  destruct (CircuitId_eqb d c) eqn:Edc; [|reflexivity]. apply circuit_eqb_eq in Edc as ->.
  now rewrite (proj2 (circuit_eqb_eq c c) eq_refl) in Ecd.
Qed.

Lemma v_planned_step ps c w s s' : v_planned ps s -> preproc_circuit c w s = (s', Done tt) -> v_planned (ps ++ [(c, w)]) s'.
Proof.
  intros (Hc & Hs & Hp) E. unfold preproc_circuit in E.
  apply server_bind_inv in E as (s1 & nn & E1 & E). unfold act in E1. injection E1 as <- <-. rewrite builds in E.
  apply server_bind_inv in E as (s2 & [] & E1 & E). set (s1 := set_log _ s) in *.
  assert (H2 : s2 = fst (set_circuit c (built c) s1)) by now rewrite E1.
  assert (G : forall s', conf s' = conf s -> circuits s' = circuits s2 ->
    verifier_steps (log s') = verifier_steps (log s) ++ steps_of built (c, w) -> v_planned (ps ++ [(c, w)]) s').
  { intros s3 E2 E3 E4. split; [now rewrite E2|]. split; [rewrite E4, Hs, flat_map_app, app_assoc; cbn [flat_map]; now rewrite app_nil_r|].
    intros d w' Hd. unfold has_circuit. rewrite E3, H2. fold (has_circuit d (fst (set_circuit c (built c) s1))). rewrite has_circuit_set.
    destruct (CircuitId_eqb c d) eqn:Ecd; [apply circuit_eqb_eq in Ecd; now subst|].
    apply in_app_or in Hd as [Hd|[Hd|[]]]; [now apply (Hp d w')|].
    injection Hd as -> _. now rewrite (proj2 (circuit_eqb_eq d d) eq_refl) in Ecd. }
  unfold steps_of in G. cbn [fst snd] in G. destruct (built c) eqn:Eb.
  - apply server_bind_inv in E as (s3 & [] & E2 & E). unfold act in E2. injection E2 as <-.
    apply server_bind_inv in E as (s4 & n & E2 & E). unfold act in E2. injection E2 as <- <-.
    apply server_bind_inv in E as (s5 & [] & E2 & E). unfold track, modify in E2. injection E2 as <-.
    apply server_bind_inv in E as (s6 & r & E2 & E). unfold act in E2. injection E2 as <- <-.
    apply server_bind_inv in E as (s7 & [] & E2 & E). unfold track_rounds, modify in E2. injection E2 as <-.
    apply server_bind_inv in E as (s8 & f & E2 & E). unfold act in E2. injection E2 as <- <-.
    destruct (reply _ _) in E; [discriminate|]. injection E as <-.
    apply G; rewrite ?H2; try reflexivity. cbn [log set_log set_rounds set_bandwidth]. rewrite !verifier_steps_cons. cbn [verifier_step].
    rewrite !app_nil_r. change (log (fst (set_circuit c true s1))) with (ABuild c w :: log s). now rewrite verifier_steps_cons, <- app_assoc.
  - injection E as <-. apply G; rewrite ?H2; try reflexivity.
    change (log (fst (set_circuit c false s1))) with (ABuild c w :: log s). now rewrite verifier_steps_cons.
Qed.

Ltac v_next H E :=
  let s1 := fresh "s" in let E1 := fresh "E" in
  apply server_bind_inv in E as (s1 & [] & E1 & E); apply (v_planned_step _ _ _ _ _ H) in E1; clear H; rename E1 into H.

Lemma do_preproc_steps s s' : log s = l0 -> conf s = cf -> true_surf cf = Surf.is_capture (mode cf) ->
  do_preproc true s = (s', Done tt) -> v_planned (plan (mode cf)) s'.
Proof.
  intros Hl Hc Ht. unfold do_preproc. cbn [negb]. intros E.
  assert (H : v_planned [] s).
  { split; [exact Hc|]. split; [cbn; now rewrite Hl, app_nil_r | intros c w []]. }
  do 8 v_next H E.
  apply server_bind_inv in E as (s9 & tm & E1 & E). injection E1 as <- <-.
  rewrite (proj1 H), Ht in E. v_next H E. unfold plan.
  destruct (Surf.is_capture (mode cf)) eqn:Em; cbn [negb] in E;
    [apply server_bind_inv in E as (s11 & [] & E1 & E); injection E1 as <- | v_next H E];
    do 2 v_next H E;
    apply server_bind_inv in E as (s12 & md & E1 & E); injection E1 as <- <-;
    rewrite (proj1 H) in E; destruct (is_rotate (mode cf));
    try (apply server_bind_inv in E as (s13 & [] & E1 & E); injection E1 as <-); try v_next H E;
    unfold advance in E; apply server_bind_inv in E as (s14 & st & E1 & E); injection E1 as <- <-; injection E as <-;
    exact H.
Qed.

Definition v_completes {A} (x : M A) : Prop := forall s, exists s' a, x s = (s', Done a).

Lemma v_completes_bind {A C} (x : M A) (k : A -> M C) :
  v_completes x -> (forall a, v_completes (k a)) -> v_completes (bind x k).
Proof. intros Hx Hk s. destruct (Hx s) as (s1 & a & E). unfold bind. rewrite E. apply Hk. Qed.

Lemma v_completes_simple {A} (x : M A) f g : (forall s, x s = (f s, Done (g s))) -> v_completes x.
Proof. intros H s. exists (f s), (g s). apply H. Qed.

Context (prepared : forall l c, reply l (AIoFailed c) = false).

Lemma v_completes_preproc c w : v_completes (preproc_circuit c w).
Proof.
  intros s. unfold preproc_circuit, bind, act, set_circuit, track, track_rounds, modify. cbn [log].
  destruct (reply _ _) in |- *; [|eexists _, tt; reflexivity]. rewrite prepared. eexists _, tt. reflexivity.
Qed.

Lemma do_preproc_completes : v_completes (do_preproc true).
Proof.
  unfold do_preproc. cbn [negb].
  repeat first [apply v_completes_preproc | apply v_completes_bind; [|intros]
    | match goal with |- v_completes (if ?b then _ else _) => destruct b end | now eapply v_completes_simple].
Qed.

End Verifier.

(** C25: preprocessing in lock-step.  When both parties run in the same mode,
    the same circuits can be built by both, and no preprocessing or message
    fails, the prover's [preprocess_circuits] and the verifier's [do_preproc]
    both return, having built and preprocessed the same circuits in the same
    order, of the same variant; afterwards they hold the same circuits and
    agree on the mode. *)
Theorem preprocessing_lockstep `{KL : KeyLib} {Wp : Session.World} {Wv : World} {F : Fuel} {B : MaskConstants.BlockCipher}
    (built : CircuitId -> bool) (m : Surf.Mode) (sp : Session.St) (sv : Server) :
  (forall l c w, Session.reply l (Session.Shaking (Session.Build c w)) = built c) ->
  (forall l c w, reply l (ABuild c w) = built c) ->
  (forall l c, Session.reply l (Session.Shaking (Session.Preproc c)) = false) ->
  (forall l c, reply l (AIoFailed c) = false) ->
  (forall l bs, Session.reply l (Session.SslWrite bs) = true) ->
  (forall l, exists bs, Session.reply l (Session.RandBytes 16) = Some bs) ->
  (forall r s, exists d, MaskConstants.hirose_commit_host r s = Some d) ->
  (let env := Session.reply (Session.log sp) (Session.Shaking Session.GetEnv) in
   Surf.mode_from_env (fst env) (snd env) = Some m) ->
  mode (conf sv) = m -> true_surf (conf sv) = Surf.is_capture m ->
  Session.verifier (Session.ptrs (Session.ssl sp)) = true -> Session.is_server (Session.exch (Session.ssl sp)) = false ->
  Session.should_make_circuits (Session.pre (Session.ssl sp)) = true ->
  Session.handshake_circuit_a (Session.pre (Session.ssl sp)) = None ->
  exists sp' sv' steps,
    Callbacks.preprocess_circuits sp = (sp', Done tt) /\ do_preproc true sv = (sv', Done tt) /\
    prover_steps (Session.log sp') = prover_steps (Session.log sp) ++ steps /\
    verifier_steps (log sv') = verifier_steps (log sv) ++ steps /\
    steps = flat_map (steps_of built) (plan m) /\
    (forall c w, In (c, w) (plan m) -> Callbacks.pointer c (Session.ssl sp') = has_circuit c sv') /\
    Session.surf_mode (Session.ssl sp') = mode (conf sv') /\ Session.surf_true_mode (Session.ssl sp') = true_surf (conf sv').
Proof.
  intros Bp Bv Pp Pv Hw Hr Hd Henv Hm Ht Hv Hs Hmake Ha.
  destruct (preprocess_completes m Pp Hw Hr Hd sp Hv Hs Henv) as (sp' & Ep).
  destruct (do_preproc_completes Pv sv) as (sv' & [] & Ev). exists sp', sv', (flat_map (steps_of built) (plan m)).
  pose proof (preprocess_steps built Bp m (Session.log sp) sp sp' eq_refl Hmake Ha Henv Ep) as (M1 & M2 & S1 & P1).
  pose proof (do_preproc_steps built Bv (conf sv) (log sv) sv sv' eq_refl eq_refl ltac:(now rewrite Hm) Ev) as (C2 & S2 & P2).
  rewrite Hm in S2, P2. repeat (split; [assumption || reflexivity|]). split; [|rewrite C2, M1, M2; auto].
  intros c w Hc. now rewrite (P1 c w Hc), (P2 c w Hc).
Qed.

(** Everything can be built, in the masked mode. *)
Definition build_world : Session.World := fun _ a =>
  match a as a return Session.Reply a with
  | Session.SslWrite _ => true
  | Session.SslRead n => Got []
  | Session.RandBytes n => Some (repeat 0 n)
  | Session.RandomBytes n => repeat 0 n
  | Session.Run _ _ => None
  | Session.KsRemaining => 0
  | Session.KsPreproc => false
  | Session.GenerateShares _ _ => None
  | Session.CreateContext _ _ | Session.SetWriteState _ _ | Session.Flush | Session.AppendHandshake _
  | Session.Throw => true
  | Session.DeleteCircuits => tt
  | Session.Shaking (Session.Build _ _) => true
  | Session.Shaking a => quiet a
  end.

Definition preproc_server : @Server toy_lib := ready_server Surf.Masked CIRCUIT_PREPROC Run.empty_att.

Lemma preprocessing_lockstep_witness :
  exists sp' sv',
    Callbacks.preprocess_circuits (W := build_world) (B := toy_cipher)
      (Session.mkSt (zero_ssl Surf.Masked false) []) = (sp', Done tt) /\
    @do_preproc toy_lib (stream_world []) true preproc_server = (sv', Done tt) /\
    prover_steps (Session.log sp') = verifier_steps (log sv').
Proof.
  destruct (@preprocessing_lockstep toy_lib build_world (stream_world []) 8%nat toy_cipher (fun _ => true) Surf.Masked
    (Session.mkSt (zero_ssl Surf.Masked false) []) preproc_server) as (sp' & sv' & steps & E1 & E2 & E3 & E4 & _);
    try reflexivity.
  - intros l. now eexists.
  - intros r s. unfold MaskConstants.hirose_commit_host, toy_cipher. cbn. now eexists.
  - exists sp', sv'. split; [exact E1|]. split; [exact E2|]. now rewrite E3, E4.
Defined.
