(* ===== verification/Dialogue.v ===== *)
(** * Two parties in a dialogue

    Execution of the prover's and of the verifier's functions when the bytes
    one sends reach the other.  A configuration of a party is its fields, the
    bytes it has sent and the bytes it has still to read; the judgements
    [p_runs] and [v_runs] say that a call returns and where it leads. *)

From S2P Require Import Prelude Messaging Util KeyShare BlockMap ServerState ServerIO ServerHandshake ServerRecords ServerRun ServerLogic ServerWorld ServerStream.
From S2P Require Import Prover ProverState ProverCircuits ProverAttest ProverHandshake.

Local Open Scope N_scope.

(** ** The prover *)

Module PDial.
Import Session Channel Callbacks.
Local Open Scope session_scope.

Definition is_read (a : Action) : bool := match a with SslRead _ => true | _ => false end.
Definition payload (a : Action) : list N := match a with SslWrite bs => bs | _ => [] end.

(** The bytes sent, in the order of time. *)
Definition sent (l : list Action) : list N := flat_map payload (rev l).

Lemma sent_cons a l : sent (a :: l) = sent l ++ payload a.
Proof. unfold sent. cbn [rev]. rewrite flat_map_app. cbn. now rewrite app_nil_r. Qed.

(** The reads deliver [input] in order, and each finds the bytes it asks for
    when there are as many left. *)
Class Feed (W : World) (input : list N) := {
  got : list Action -> nat;
  got_read : forall l n, 0 < n -> (got l + N.to_nat n <= length input)%nat ->
    reply l (SslRead n) = Got (firstn (N.to_nat n) (skipn (got l) input)) /\ got (SslRead n :: l) = (got l + N.to_nat n)%nat;
  got_other : forall l a, is_read a = false -> got (a :: l) = got l }.

Record Cfg := mkCfg { fields : SSL; said : list N; due : list N }.

Section Runs.
Context {W : World} {F : Fuel} {input : list N} {Fd : Feed W input}.

Definition here (x : Cfg) (s : St) : Prop :=
  ssl s = fields x /\ sent (log s) = said x /\ skipn (got (log s)) input = due x.

Definition p_runs {A} (m : S A) (x : Cfg) (a : A) (y : Cfg) : Prop :=
  forall s, here x s -> exists s', m s = (s', Done a) /\ here y s'.

Lemma p_bind {A C} (m : S A) (k : A -> S C) x a y c z : p_runs m x a y -> p_runs (k a) y c z -> p_runs (bind m k) x c z.
Proof.
  intros Hm Hk s Hs. destruct (Hm s Hs) as (s1 & E & H1). destruct (Hk s1 H1) as (s2 & E2 & H2).
  exists s2. split; [|exact H2]. unfold bind. now rewrite E.
Qed.

Lemma p_ret {A} (a : A) x : p_runs (ret a) x a x.
Proof. intros s Hs. now exists s. Qed.

Lemma p_gets {A} (f : SSL -> A) c o r : p_runs (gets f) (mkCfg c o r) (f c) (mkCfg c o r).
Proof. intros s Hs. exists s. split; [|exact Hs]. unfold gets. now rewrite (proj1 Hs). Qed.

Lemma p_modify f c o r : p_runs (modify f) (mkCfg c o r) tt (mkCfg (f c) o r).
Proof. intros s (E & H). unfold modify. eexists. split; [reflexivity|]. split; [cbn; now rewrite E | exact H]. Qed.

Lemma p_modify_to f c c' o r : f c = c' -> p_runs (modify f) (mkCfg c o r) tt (mkCfg c' o r).
Proof. intros <-. apply p_modify. Qed.

Lemma p_require b x : b = true -> p_runs (require b) x tt x.
Proof. intros ->. apply p_ret. Qed.

Lemma p_some {A} (o : option A) a x : o = Some a -> p_runs (from_option o) x a x.
Proof. intros ->. apply p_ret. Qed.

(** An action whose reply may depend on what has been sent. *)
Lemma p_act_at a v x : is_read a = false -> payload a = [] -> (forall l, sent l = said x -> reply l a = v) -> p_runs (act a) x v x.
Proof.
  intros Hr Hp Hv s (E & Hs & Hd). unfold act. rewrite (Hv _ Hs). eexists. split; [reflexivity|]. unfold here. cbn [ssl log].
  split; [exact E|]. split; [rewrite sent_cons, Hp, app_nil_r; exact Hs | now rewrite got_other].
Qed.

Lemma p_act a v x : is_read a = false -> payload a = [] -> (forall l, reply l a = v) -> p_runs (act a) x v x.
Proof. intros Hr Hp Hv. apply p_act_at; auto. Qed.

Lemma p_run_at c i out x : (forall l, sent l = said x -> reply l (Run c i) = Some out) -> p_runs (run_circuit c i) x out x.
Proof.
  intros H. unfold run_circuit. eapply p_bind; [exact (p_act_at (Run c i) (Some out) x eq_refl eq_refl H) | apply p_ret].
Qed.

Lemma p_run c i out x : (forall l, reply l (Run c i) = Some out) -> p_runs (run_circuit c i) x out x.
Proof. intros H. apply p_run_at. auto. Qed.

Lemma p_write bs c o r : (forall l, reply l (SslWrite bs) = true) -> p_runs (ssl_write bs) (mkCfg c o r) tt (mkCfg c (o ++ bs) r).
Proof.
  intros Hw s (E & Hs & Hd). unfold ssl_write, bind, act. rewrite Hw. unfold require, ret. eexists. split; [reflexivity|].
  unfold here. cbn [ssl log]. split; [exact E|]. split; [rewrite sent_cons; cbn in *; now rewrite Hs | now rewrite got_other].
Qed.

(** One read of [bs]. *)
Lemma feed_read l bs r : skipn (got l) input = bs ++ r -> bs <> [] ->
  reply l (SslRead (size bs)) = Got bs /\ skipn (got (SslRead (size bs) :: l)) input = r.
Proof.
  intros E Hb. assert (L : (got l + N.to_nat (size bs) <= length input)%nat).
  { apply (f_equal (@length N)) in E. rewrite length_skipn, length_app in E. unfold size. rewrite Nat2N.id.
    destruct bs; [contradiction|]. cbn [length] in *. lia. }
  destruct (got_read l (size bs)) as [R G]; [unfold size; destruct bs; [contradiction | cbn; lia] | exact L|].
  rewrite R, G. unfold size. rewrite Nat2N.id, E, firstn_app, Nat.sub_diag, firstn_all, firstn_O, app_nil_r. split; [reflexivity|].
  rewrite Nat.add_comm, <- skipn_skipn, E, skipn_app, Nat.sub_diag, skipn_all. reflexivity.
Qed.

Lemma p_read_exact bs c o r : bs <> [] -> (0 < fuel)%nat ->
  p_runs (read_exact_blocking (size bs)) (mkCfg c o (bs ++ r)) bs (mkCfg c o r).
Proof.
  intros Hb Hf s (E & Hs & Hd). destruct (feed_read (log s) bs r Hd Hb) as [R G].
  unfold read_exact_blocking. destruct fuel as [|n]; [lia|]. cbn [read_loop].
  rewrite (proj2 (N.ltb_lt (size []) (size bs))) by (unfold size; destruct bs; [contradiction | cbn; lia]).
  change (size []) with 0. rewrite N.sub_0_r. unfold bind, act. rewrite R. cbn [app].
  exists (mkSt (ssl s) (SslRead (size bs) :: log s)). split.
  - destruct n; cbn [read_loop]; rewrite N.ltb_irrefl; reflexivity.
  - split; [exact E|]. split; [cbn [log]; now rewrite sent_cons, app_nil_r | exact G].
Qed.

Lemma p_header h c o r : Messaging.is_valid_header h = true -> (0 < fuel)%nat ->
  p_runs (is_correct_header h) (mkCfg c o (h :: r)) tt (mkCfg c o r).
Proof.
  intros Hh Hf. unfold is_correct_header. eapply p_bind; [exact (p_read_exact [h] c o r ltac:(discriminate) Hf)|].
  cbn [nth]. cbv zeta. eapply p_bind; apply p_require; [exact Hh | apply N.eqb_refl].
Qed.

Lemma p_quiet_throw h c o r : throw_state c = None -> p_runs (Circuits.maybe_throw h) (mkCfg c o r) tt (mkCfg c o r).
Proof. intros Hc. unfold Circuits.maybe_throw. eapply p_bind; [apply p_gets|]. rewrite Hc. apply p_ret. Qed.

(** *** Circuits *)

Lemma p_scoped {A} c (m : S A) x a y : p_runs m x a y -> p_runs (scoped (Some c) m) x a y.
Proof.
  intros H s Hs. destruct (H s Hs) as (s1 & E & H1). unfold scoped. rewrite E.
  assert (D : forall l, reply l (Shaking (DeleteCircuit c)) = tt) by (intros l; now destruct (reply l _)).
  destruct (p_act (Shaking (DeleteCircuit c)) tt y eq_refl eq_refl D s1 H1) as (s2 & E2 & H2).
  exists s2. split; [|exact H2]. unfold delete, shake, bind. now rewrite E2.
Qed.

Lemma p_shake (a : Shake) (v : ShakeReply a) x : (forall l, reply l (Shaking a) = v) -> p_runs (shake a) x v x.
Proof. intros H. exact (p_act (Shaking a) v x eq_refl eq_refl H). Qed.

Lemma p_read_once bs c o r : bs <> [] -> p_runs (ssl_read_once (size bs)) (mkCfg c o (bs ++ r)) bs (mkCfg c o r).
Proof.
  intros Hb s (E & Hs & Hd). destruct (feed_read (log s) bs r Hd Hb) as [R G]. unfold ssl_read_once, bind, act. rewrite R, N.eqb_refl.
  eexists. split; [reflexivity|]. split; [exact E|]. split; [cbn [log]; now rewrite sent_cons, app_nil_r | exact G].
Qed.

Lemma p_scoped_any {A} oc (m : S A) x a y : p_runs m x a y -> p_runs (scoped oc m) x a y.
Proof.
  intros H. destruct oc as [c|]; [now apply p_scoped|]. intros s Hs. destruct (H s Hs) as (s1 & E & H1).
  exists s1. split; [|exact H1]. unfold scoped. now rewrite E.
Qed.

Lemma p_take_any k c o r :
  p_runs (take k) (mkCfg c o r) (if pointer k c then Some k else None) (mkCfg (set_pointer k false c) o r).
Proof. unfold take. eapply p_bind; [apply p_gets|]. eapply p_bind; [apply p_modify | apply p_ret]. Qed.

Lemma p_take k c o r : pointer k c = true -> p_runs (take k) (mkCfg c o r) (Some k) (mkCfg (set_pointer k false c) o r).
Proof.
  intros H. pose proof (p_take_any k c o r) as T. now rewrite H in T.
Qed.

End Runs.

(** A call that reads nothing runs in every world. *)
Definition feed_none (W : World) : Feed W [].
Proof. refine {| got := fun _ => 0%nat |}; [intros l n Hn Hl; cbn in Hl; lia | reflexivity]. Defined.

(** A world that delivers [input]. *)
Definition heard (l : list Action) : N := fold_right (fun a n => match a with SslRead k => k + n | _ => n end) 0 l.

Definition feed_reply (input : list N) (l : list Action) (n : N) : ReadReply :=
  Got (firstn (N.to_nat n) (skipn (N.to_nat (heard l)) input)).

Definition feed_of (W : World) (input : list N) (H : forall l n, reply l (SslRead n) = feed_reply input l n) : Feed W input.
Proof.
  refine {| got := fun l => N.to_nat (heard l) |}.
  - intros l n Hn Hl. split; [apply H|]. cbn [heard fold_right]. rewrite N2Nat.inj_add. apply Nat.add_comm.
  - intros l a Ha. destruct a; try discriminate Ha; reflexivity.
Defined.

End PDial.

(** ** The verifier *)

Module VDial.
Import Server Handshake Records Run.

Definition is_write (a : Action) : bool := match a with AWrite _ => true | _ => false end.
Definition payload (a : Action) : list N := match a with AWrite bs => bs | _ => [] end.
Definition sent (l : list Action) : list N := flat_map payload (rev l).

Lemma v_sent_cons a l : sent (a :: l) = sent l ++ payload a.
Proof. unfold sent. cbn [rev]. rewrite flat_map_app. cbn. now rewrite app_nil_r. Qed.

Section Runs.
Context `{KL : KeyLib} {W : World} {F : Fuel} {input : list N} {St : Stream W input}.

(** The fields without the counters, the log and the read buffer. *)
Definition core (s : Server) : Server :=
  set_log [] (set_rounds [] (set_bandwidth [] (set_hs (set_buffer [] (hs s)) s))).

Record Cfg := mkCfg { fields : Server; said : list N; due : list N }.

Definition here (x : Cfg) (s : Server) : Prop :=
  core s = fields x /\ sent (log s) = said x /\ skipn (pos (log s)) input = due x.

Definition v_runs {A} (m : M A) (x : Cfg) (a : A) (y : Cfg) : Prop :=
  forall s, here x s -> exists s', m s = (s', Done a) /\ here y s'.

Lemma v_bind {A C} (m : M A) (k : A -> M C) x a y c z : v_runs m x a y -> v_runs (k a) y c z -> v_runs (bind m k) x c z.
Proof.
  intros Hm Hk s Hs. destruct (Hm s Hs) as (s1 & E & H1). destruct (Hk s1 H1) as (s2 & E2 & H2).
  exists s2. split; [|exact H2]. now rewrite (bind_done _ _ _ _ _ E).
Qed.

Lemma v_ret {A} (a : A) x : v_runs (ret a) x a x.
Proof. intros s Hs. now exists s. Qed.

Lemma v_gets {A} (g : Server -> A) k o r : (forall s, g (core s) = g s) -> v_runs (gets g) (mkCfg k o r) (g k) (mkCfg k o r).
Proof. intros Hg s Hs. exists s. split; [|exact Hs]. destruct Hs as [E _]. cbn in E. subst k. unfold gets. now rewrite Hg. Qed.

Lemma v_modify f k o r : (forall s, core (f s) = f (core s)) -> (forall s, log (f s) = log s) ->
  v_runs (modify f) (mkCfg k o r) tt (mkCfg (f k) o r).
Proof.
  intros Hf Hl s (E & H). eexists. split; [reflexivity|]. unfold here. rewrite Hl, Hf. split; [exact (f_equal f E) | exact H].
Qed.

Lemma v_require b x : b = true -> v_runs (require b) x tt x.
Proof. intros ->. apply v_ret. Qed.

Lemma v_track e n x : v_runs (track e n) x tt x.
Proof. intros s Hs. eexists. split; [reflexivity | exact Hs]. Qed.

Lemma v_track_rounds e n x : v_runs (track_rounds e n) x tt x.
Proof. intros s Hs. eexists. split; [reflexivity | exact Hs]. Qed.

(** An action whose reply is not a read, and of which nothing is known. *)
Lemma v_act_any {C} a (f : Reply a -> M C) x c y : is_read a = false -> is_write a = false ->
  (forall v, v_runs (f v) x c y) -> v_runs (bind (act a) f) x c y.
Proof.
  intros Hr Hw Hf s (E & Hs & Hd). unfold bind, act. apply Hf. split; [exact E|]. cbn [log set_log].
  split; [rewrite v_sent_cons; destruct a; try discriminate Hw; now rewrite app_nil_r | now rewrite pos_other].
Qed.

Lemma v_act {a} v x : is_read a = false -> is_write a = false -> (forall l, reply l a = v) -> v_runs (act a) x v x.
Proof.
  intros Hr Hw Hv s (E & Hs & Hd). unfold act. rewrite Hv. eexists. split; [reflexivity|]. split; [exact E|]. cbn [log set_log].
  split; [rewrite v_sent_cons; destruct a; try discriminate Hw; now rewrite app_nil_r | now rewrite pos_other].
Qed.

Lemma v_counter {C} c (f : N -> M C) k o r b y : has_circuit c k = true ->
  (forall n, v_runs (f n) (mkCfg k o r) b y) -> v_runs (bind (get_counter c) f) (mkCfg k o r) b y.
Proof.
  intros Hc Hf s Hs. assert (Hc' : has_circuit c s = true) by (rewrite <- Hc, <- (proj1 Hs : core s = k); reflexivity).
  unfold get_counter, deref, bind, gets. rewrite Hc'. unfold ret.
  exact (v_act_any (ACounter c) f (mkCfg k o r) b y eq_refl eq_refl Hf s Hs).
Qed.

Lemma v_round_counter {C} c (f : N -> M C) k o r b y : has_circuit c k = true ->
  (forall n, v_runs (f n) (mkCfg k o r) b y) -> v_runs (bind (get_round_counter c) f) (mkCfg k o r) b y.
Proof.
  intros Hc Hf s Hs. assert (Hc' : has_circuit c s = true) by (rewrite <- Hc, <- (proj1 Hs : core s = k); reflexivity).
  unfold get_round_counter, deref, bind, gets. rewrite Hc'. unfold ret.
  exact (v_act_any (ARoundCounter c) f (mkCfg k o r) b y eq_refl eq_refl Hf s Hs).
Qed.

Lemma v_track_circuit e c m n k o r : has_circuit c k = true -> v_runs (track_circuit e c m n) (mkCfg k o r) tt (mkCfg k o r).
Proof.
  intros Hc. unfold track_circuit. apply v_counter; [exact Hc|]. intros a. eapply v_bind; [apply v_track|].
  apply v_round_counter; [exact Hc|]. intros b. apply v_track_rounds.
Qed.

Lemma v_run_circuit i v x : (forall l, reply l (ARun i) = Some v) -> v_runs (run_circuit i) x v x.
Proof.
  intros Hv. unfold run_circuit. eapply v_bind; [apply (@v_act (ARun i) (Some v)); [reflexivity | reflexivity | exact Hv]|]. apply v_ret.
Qed.

Lemma v_write bs k o r : (forall l, reply l (AWrite bs) = true) -> 1 <= size bs <= SSL3_RT_MAX_PLAIN_LENGTH ->
  v_runs (socket_write bs) (mkCfg k o r) tt (mkCfg k (o ++ bs) r).
Proof.
  intros Hw Hb s (E & Hs & Hd). unfold socket_write.
  rewrite (proj2 (N.ltb_ge _ _)), (proj2 (N.eqb_neq _ _)) by lia. cbn [orb]. unfold bind, act. rewrite Hw. unfold require, ret.
  eexists. split; [reflexivity|]. split; [exact E|]. cbn [log set_log]. split; [rewrite v_sent_cons; cbn in *; now rewrite Hs | now rewrite pos_other].
Qed.

Lemma v_write_header h k o r : (forall l, reply l (AWrite [h]) = true) ->
  v_runs (write_single_header h) (mkCfg k o r) tt (mkCfg k (o ++ [h]) r).
Proof. intros Hw. apply v_write; [exact Hw | split; discriminate]. Qed.

Lemma v_goto st k o r : v_runs (goto st) (mkCfg k o r) tt (mkCfg (set_state st k) o r).
Proof. apply v_modify; reflexivity. Qed.

Lemma v_advance k o r : v_runs advance (mkCfg k o r) tt (mkCfg (set_state (next_state (state k)) k) o r).
Proof. unfold advance. eapply v_bind; [apply v_gets; reflexivity | apply v_goto]. Qed.

(** *** Reading *)

(** Into a buffer, where [store] puts what has been read so far. *)
Section Into.
Context (store : list N -> Server -> Server).
Context (store_core : forall bs s, core (store bs s) = store bs (core s)) (store_log : forall bs s, log (store bs s) = log s).
Context (store_more : forall a b s, store (a ++ b) (store a s) = store (a ++ b) s).

Lemma v_read_loop n len : forall acc bs k o r, bs <> [] -> size acc + size bs = len -> (length bs <= n)%nat ->
  v_runs (read_loop n store len acc) (mkCfg k o (bs ++ r)) (acc ++ bs) (mkCfg (store (acc ++ bs) k) o r).
Proof.
  induction n as [|n IH]; intros acc bs k o r Hb Hlen Hn; cbn [read_loop]; [destruct bs; [contradiction | cbn in Hn; lia]|].
  assert (Lb : (0 < length bs)%nat) by (destruct bs; [contradiction | cbn; lia]).
  rewrite (proj2 (N.ltb_lt _ _)) by (unfold size in *; lia). intros s (E & Hs & Hd). cbn [fields said due] in *.
  destruct (pos_read (log s) (len - size acc)) as (q & K0 & Kn & R & P);
    [unfold size in *; lia | eapply rest_left; [exact Hd | exact Hb]|].
  unfold bind, act, modify. rewrite R, Hd. assert (Kl : (q <= length bs)%nat) by (unfold size in *; lia).
  rewrite firstn_app. replace (q - length bs)%nat with 0%nat by lia. rewrite firstn_O, app_nil_r.
  set (s1 := store (acc ++ firstn q bs) (set_log (ARead (len - size acc) :: log s) s)).
  assert (H1 : here (mkCfg (store (acc ++ firstn q bs) k) o (skipn q bs ++ r)) s1).
  { unfold here, s1. cbn [fields said due]. rewrite store_log, store_core. split; [exact (f_equal (store _) E)|].
    cbn [log set_log]. split; [rewrite v_sent_cons, app_nil_r; exact Hs|].
    rewrite P, Nat.add_comm, <- skipn_skipn, Hd, skipn_app. replace (q - length bs)%nat with 0%nat by lia. reflexivity. }
  destruct (skipn q bs) as [|b rest] eqn:Eq.
  - assert (Ef : firstn q bs = bs) by (rewrite <- (firstn_skipn q bs) at 2; now rewrite Eq, app_nil_r). rewrite Ef in *.
    exists s1. split; [|exact H1]. destruct n; cbn [read_loop]; rewrite (proj2 (N.ltb_ge _ _)); try reflexivity;
      unfold size in *; rewrite length_app; lia.
  - replace (acc ++ bs) with ((acc ++ firstn q bs) ++ b :: rest) by (now rewrite <- app_assoc, <- Eq, firstn_skipn).
    assert (Lq : length (b :: rest) = (length bs - q)%nat) by (rewrite <- Eq; apply length_skipn).
    rewrite <- store_more. apply (IH _ (b :: rest) (store (acc ++ firstn q bs) k) o r); [discriminate | | lia | exact H1].
    unfold size in *. rewrite length_app, length_firstn, Lq. lia.
Qed.

Lemma v_read_into bs k o r : bs <> [] -> (length bs <= fuel)%nat ->
  v_runs (read_exact_into store (size bs)) (mkCfg k o (bs ++ r)) bs (mkCfg (store bs k) o r).
Proof. intros Hb Hf. exact (v_read_loop fuel (size bs) [] bs k o r Hb eq_refl Hf). Qed.

End Into.

Lemma v_read_exact bs k o r : (length bs <= fuel)%nat ->
  v_runs (read_exact_blocking (size bs)) (mkCfg k o (bs ++ r)) bs (mkCfg k o r).
Proof.
  intros Hf. destruct bs as [|b bs].
  - unfold read_exact_blocking, read_exact_into. destruct fuel; exact (v_ret [] _).
  - apply (v_read_into (fun _ s => s)); try reflexivity; [discriminate | exact Hf].
Qed.

Lemma v_read_header h k o r : Messaging.is_valid_header h = true -> (1 <= fuel)%nat ->
  v_runs read_single_header (mkCfg k o (h :: r)) h (mkCfg k o r).
Proof.
  intros Hh Hf. unfold read_single_header. eapply v_bind; [exact (v_read_exact [h] k o r Hf)|]. cbn [nth]. cbv zeta.
  eapply v_bind; [apply v_require; exact Hh | apply v_ret].
Qed.

Lemma v_expect h k o r : Messaging.is_valid_header h = true -> (1 <= fuel)%nat ->
  v_runs (expect_header h) (mkCfg k o (h :: r)) tt (mkCfg k o r).
Proof. intros Hh Hf. eapply v_bind; [now apply v_read_header|]. apply v_require, N.eqb_refl. Qed.

Lemma v_set_circuit c b k o r : v_runs (set_circuit c b) (mkCfg k o r) tt (mkCfg (fst (set_circuit c b k)) o r).
Proof. apply (v_modify (fun s => fst (set_circuit c b s))); reflexivity. Qed.

Lemma v_upd_hs f k o r : (forall x, f (set_buffer [] x) = set_buffer [] (f x)) ->
  v_runs (upd_hs f) (mkCfg k o r) tt (mkCfg (set_hs (f (hs k)) k) o r).
Proof.
  intros Hf. apply (v_modify (fun s => set_hs (f (hs s)) s)); [|reflexivity]. intros s. unfold core. cbn [hs set_hs set_log set_rounds set_bandwidth].
  now rewrite Hf.
Qed.

Lemma v_upd_keys f k o r : v_runs (upd_keys f) (mkCfg k o r) tt (mkCfg (set_keys (f (keys k)) k) o r).
Proof. apply (v_modify (fun s => set_keys (f (keys s)) s)); reflexivity. Qed.

(** A step of the server's loop. *)
Lemma v_loop n stop p st k o r y z : state k = st -> should_stop st stop = false ->
  v_runs (handler st p) (mkCfg k o r) tt z -> v_runs (run_loop n stop p) z tt y ->
  v_runs (run_loop (S n) stop p) (mkCfg k o r) tt y.
Proof.
  intros Hst Hs Hh Hl. cbn [run_loop]. eapply v_bind; [apply v_gets; reflexivity|]. cbn beta. rewrite Hst, Hs.
  eapply v_bind; [exact Hh | exact Hl].
Qed.

Lemma v_stop n stop p k o r : should_stop (state k) stop = true -> v_runs (run_loop n stop p) (mkCfg k o r) tt (mkCfg k o r).
Proof.
  intros Hs. destruct n; cbn [run_loop]; (eapply v_bind; [apply v_gets; reflexivity|]); cbn beta; rewrite Hs; apply v_ret.
Qed.

(** *** The flight of the server, in reads of any size *)

(** There is something to read as long as [input] is not used up. *)
Context (pending_ok : forall l, (reply l APending =? 0) = (length input <=? pos l)%nat).

Definition more (bs : list N) (r : Hs) : Hs := set_transcript (transcript r ++ bs) r.

Lemma firstn_overlay bs old : firstn (N.to_nat (size bs)) (overlay bs old) = bs.
Proof. unfold overlay, size. rewrite Nat2N.id. now apply firstn_exact. Qed.

Lemma v_transcript_loop n : forall bs k o, bs <> [] -> (length bs <= n)%nat ->
  v_runs (transcript_loop n) (mkCfg k o bs) tt (mkCfg (set_hs (more bs (hs k)) k) o []).
Proof.
  induction n as [|n IH]; intros bs k o Hb Hn; [destruct bs; [contradiction | cbn in Hn; lia]|].
  intros s (E & Hs & Hd). cbn [fields said due] in *. cbn [transcript_loop].
  assert (Hp : (pos (log s) < length input)%nat) by (eapply (rest_left _ bs []); [now rewrite app_nil_r | exact Hb]).
  destruct (pos_read (log s) buffer_size) as (q & K0 & Kn & R & P); [reflexivity | exact Hp|].
  unfold read_buffer_once, store_buffer, upd_hs, bind, act, modify, ret. rewrite R, Hd.
  assert (Lb : (pos (log s) + length bs = length input)%nat) by (rewrite <- Hd, length_skipn; lia).
  cbn [log set_log set_hs]. rewrite pending_ok, P. set (s2 := set_log _ _).
  assert (H2 : core s2 = set_hs (more (firstn q bs) (hs k)) k).
  { rewrite <- E. unfold s2, core, more. cbn -[overlay size firstn]. now rewrite firstn_overlay. }
  assert (L2 : log s2 = APending :: ARead buffer_size :: log s) by reflexivity.
  destruct (Nat.leb_spec (length input) (pos (log s) + q)) as [Hq|Hq]; cbn [negb].
  - rewrite (firstn_all2 bs) in H2 by lia. exists s2. split; [reflexivity|]. split; [exact H2|]. rewrite L2, !v_sent_cons, !app_nil_r.
    split; [exact Hs|]. rewrite pos_other, P by reflexivity. apply skipn_all2. exact Hq.
  - destruct (IH (skipn q bs) (set_hs (more (firstn q bs) (hs k)) k) o) with (s := s2) as (s' & E' & H').
    + intros E0. apply (f_equal (@length N)) in E0. rewrite length_skipn in E0. cbn in E0. lia.
    + rewrite length_skipn. lia.
    + split; [exact H2|]. rewrite L2, !v_sent_cons, !app_nil_r. split; [exact Hs|]. cbn [due].
      rewrite pos_other, P by reflexivity. now rewrite Nat.add_comm, <- skipn_skipn, Hd.
    + exists s'. split; [exact E'|]. unfold more in H'. cbn in H'. rewrite <- app_assoc, firstn_skipn in H'. exact H'.
Qed.

End Runs.

Definition stream_of (W : World) (input : list N) (H : forall l n, reply l (ARead n) = stream_read input l n) : Stream W input.
Proof.
  refine {| pos := fun l => N.to_nat (N.min (asked l) (size input)) |}.
  - intros l n. rewrite H. exact (@pos_read _ _ (stream_world_stream input) l n).
  - intros l a Ha. exact (@pos_other _ _ (stream_world_stream input) l a Ha).
Defined.

End VDial.
