(* ===== verification/SeedCommitment.v ===== *)
(** * The commitment to the mask seed, by both parties

    The end of the prover's [preprocess_circuits] against the verifier's
    [read_mask_commitments], and what happens when the prover preprocesses
    inside [three_party_handshake_comm]. *)

From S2P Require Import Prelude Messaging Util GHash Arrays CircuitWires KeyShare BlockMap ServerState ServerIO ServerHandshake ServerRecords ServerRun ServerLogic ServerWorld ServerStream.
From S2P Require Import Prover ProverState ProverCircuits ProverAttest ProverHandshake Preprocessing Dialogue.

Local Open Scope N_scope.

(** ** The prover's side *)

Module PSeed.
Import Session Channel Callbacks PDial.

Section Runs.
Context {W : World} {B : MaskConstants.BlockCipher} {aes : list N -> list N -> list N} {SC : SameCipher B aes}.
Context {input : list N} {Fd : Feed W input} (built : CircuitId -> bool).
Context (writes : forall l bs, reply l (SslWrite bs) = true).
Context (builds : forall l c w, reply l (Shaking (Build c w)) = built c).
Context (prepared : forall l c, reply l (Shaking (Preproc c)) = false).
Context (random : forall l, exists bs, reply l (RandBytes 16) = Some bs).

Lemma p_preproc_circuit k w c o r : p_runs (preproc_circuit k w) (mkCfg c o r) tt (mkCfg (set_pointer k (built k) c) o r).
Proof.
  unfold preproc_circuit. eapply p_bind; [exact (p_shake (Build k w) _ _ (fun l => builds l k w))|]. eapply p_bind; [apply p_modify|].
  destruct (built k); [|apply p_ret]. eapply p_bind; [exact (p_shake (Preproc k) _ _ (fun l => prepared l k))|]. now apply p_require.
Qed.

(** The message, for the seed and the randomness drawn. *)
Definition seed_message (c : SSL) : list N :=
  MessageHeaders.MASK_COMMITMENTS :: hirose aes (mask_seed_key c) (mask_seed c).

(** From [x], the call returns, with the commitment sent. *)
Definition commits (m : S unit) (x : Cfg) : Prop := forall s, here x s ->
  exists s', m s = (s', Done tt) /\ sent (log s') = said x ++ seed_message (ssl s') /\ skipn (got (log s')) input = due x.

Lemma commits_bind {A} (m : S A) (k : A -> S unit) x a c o r :
  p_runs m x a (mkCfg c o r) -> said x = o -> due x = r -> commits (k a) (mkCfg c o r) -> commits (bind m k) x.
Proof.
  intros Hm Ho Hr Hk s Hs. destruct (Hm s Hs) as (s1 & E & H1). destruct (Hk s1 H1) as (s2 & E2 & H2). exists s2. split.
  - unfold bind. now rewrite E.
  - rewrite Ho, Hr. exact H2.
Qed.

Lemma commits_seed c o r : surf_true_mode c = false -> commits Attest.commit_mask_seed (mkCfg c o r).
Proof.
  intros Hm s (E & Hs & Hd). cbn [fields said due] in *. unfold Attest.commit_mask_seed, gets at 1. unfold bind at 1. rewrite E, Hm.
  destruct (random (log s)) as [sd E1]. destruct (random (RandBytes 16 :: log s)) as [rd E2].
  unfold bind, act, modify, from_option, ssl_write, upd_cap, ret. cbn [ssl log]. rewrite E1. cbn [ssl log]. rewrite E2. cbn [ssl log].
  rewrite hirose_host. cbn [ssl log]. unfold bind, act, require, ret. cbn [ssl log]. rewrite writes.
  eexists. split; [reflexivity|]. cbn [ssl log]. split.
  - rewrite !sent_cons. cbn [payload]. now rewrite !app_nil_r, Hs.
  - rewrite !got_other by reflexivity. exact Hd.
Qed.

(** Preprocessing in the masked mode. *)
Lemma commits_preprocess env_t env_r c o r :
  (forall l, reply l (Shaking GetEnv) = (env_t, env_r)) -> Surf.mode_from_env env_t env_r = Some Surf.Masked ->
  verifier (ptrs c) = true -> is_server (exch c) = false -> should_make_circuits (pre c) = true -> handshake_circuit_a (pre c) = None ->
  commits preprocess_circuits (mkCfg c o r).
Proof.
  intros He Hm Hv Hs Hmk Ha. unfold preprocess_circuits.
  do 2 (eapply commits_bind; [apply p_gets | reflexivity | reflexivity|]). rewrite Hv, Hs.
  eapply commits_bind; [now apply p_require | reflexivity | reflexivity|].
  eapply commits_bind; [exact (p_shake _ _ _ He) | reflexivity | reflexivity|]. cbn [fst snd]. rewrite Hm.
  eapply commits_bind; [now apply p_some | reflexivity | reflexivity|].
  do 2 (eapply commits_bind; [apply p_modify | reflexivity | reflexivity|]).
  do 2 (eapply commits_bind; [apply p_gets | reflexivity | reflexivity|]). cbv beta.
  cbn [pre pointer set_surf_true_mode set_surf_mode]. rewrite Hmk, Ha. cbn [negb orb].
  do 8 (eapply commits_bind; [apply p_preproc_circuit | reflexivity | reflexivity|]).
  eapply commits_bind; [apply p_gets | reflexivity | reflexivity|]. cbn [surf_true_mode negb].
  eapply commits_bind; [apply p_preproc_circuit | reflexivity | reflexivity|].
  do 3 (eapply commits_bind; [apply p_preproc_circuit | reflexivity | reflexivity|]).
  eapply commits_bind; [apply p_gets | reflexivity | reflexivity|].
  eapply commits_bind; [apply p_ret | reflexivity | reflexivity|]. now apply commits_seed.
Qed.

End Runs.
End PSeed.

(** ** The verifier's side *)

Module VSeed.
Import Server Handshake Records Run VDial.

Section Runs.
Context `{KL : KeyLib} {W : World} {F : Fuel} {input : list N} {St : Stream W input}.

Definition store_mask (bs : list N) (s : Server) : Server :=
  set_att (set_mask_commitment (overlay bs (mask_commitment (att s))) (att s)) s.

Lemma store_mask_more a b s : store_mask (a ++ b) (store_mask a s) = store_mask (a ++ b) s.
Proof. unfold store_mask. cbn. now rewrite overlay_more. Qed.

Lemma v_mask d k o r : state k = MASK_COMMIT -> true_surf (conf k) = false -> length d = 32%nat -> (32 <= fuel)%nat ->
  v_runs read_mask_commitments (mkCfg k o (MessageHeaders.MASK_COMMITMENTS :: d ++ r)) tt
    (mkCfg (set_state READING_KS (store_mask d k)) o r).
Proof.
  intros Hs Ht Ld Hf. unfold read_mask_commitments. eapply v_bind; [apply v_gets; reflexivity|]. rewrite Ht.
  eapply v_bind; [apply v_expect; [reflexivity | lia]|].
  replace (N.of_nat MaskConstants.kCommitSize) with (size d) by (unfold size; now rewrite Ld).
  eapply v_bind; [exact (v_read_into store_mask (fun _ _ => eq_refl) (fun _ _ => eq_refl) store_mask_more d k o r
    ltac:(destruct d; discriminate) ltac:(lia))|].
  eapply v_bind; [apply v_track_rounds|]. eapply v_bind; [apply v_track|].
  change READING_KS with (next_state MASK_COMMIT). rewrite <- Hs. exact (v_advance _ _ _).
Qed.

(** Any other message is refused. *)
Lemma mask_refused h s r : true_surf (conf s) = false -> Messaging.is_valid_header h = true -> h <> MessageHeaders.MASK_COMMITMENTS ->
  skipn (pos (log s)) input = h :: r -> (1 <= fuel)%nat ->
  exists s', read_mask_commitments s = (s', Fail) /\ att s' = att s.
Proof.
  intros Ht Hh Hne Hd Hf.
  destruct (v_read_header h (core s) (sent (log s)) r Hh Hf s) as (s1 & E & H1); [now repeat split|].
  exists s1. split.
  - unfold read_mask_commitments. unfold bind at 1, gets at 1. rewrite Ht. unfold bind at 1, expect_header.
    rewrite (bind_done _ _ _ _ _ E). now rewrite (proj2 (N.eqb_neq _ _) Hne).
  - destruct H1 as (E1 & _). exact (f_equal att E1).
Qed.

End Runs.
End VSeed.

(** ** Both parties *)

Import Server Handshake Records Run.

(** What a call has sent. *)
Definition new_bytes {A} (m : Session.S A) (sp : Session.St) : list N :=
  skipn (length (PDial.sent (Session.log sp))) (PDial.sent (Session.log (fst (m sp)))).

(** Everything succeeds, in the masked mode, on a connection that has not been
    preprocessed. *)
Record Masking (W : Session.World) (built : CircuitId -> bool) (c : Session.SSL) : Prop := {
  mk_writes : forall l bs, Session.reply l (Session.SslWrite bs) = true;
  mk_builds : forall l k w, Session.reply l (Session.Shaking (Session.Build k w)) = built k;
  mk_prepared : forall l k, Session.reply l (Session.Shaking (Session.Preproc k)) = false;
  mk_random : forall l, exists bs, Session.reply l (Session.RandBytes 16) = Some bs;
  mk_env : exists t r, (forall l, Session.reply l (Session.Shaking Session.GetEnv) = (t, r)) /\ Surf.mode_from_env t r = Some Surf.Masked;
  mk_verifier : Session.verifier (Session.ptrs c) = true;
  mk_client : Session.is_server (Session.exch c) = false;
  mk_make : Session.should_make_circuits (Session.pre c) = true;
  mk_new : Session.handshake_circuit_a (Session.pre c) = None }.

(** The commitment to the mask seed.  In the masked mode, the prover's
    [preprocess_circuits] ends by sending one commitment, which the verifier
    reads and stores: it is the Hirose compression of the seed that the
    prover keeps under the randomness it keeps, and the verifier goes on to
    read key shares. *)
Theorem mask_seed_committed {W : Session.World} {B : MaskConstants.BlockCipher} {aes : list N -> list N -> list N} {SC : SameCipher B aes}
    `{KL : KeyLib} {Wv : World} {F : Fuel} {inv : list N} {St : Stream Wv inv}
    (built : CircuitId -> bool) (sp : Session.St) (sv : Server) (rest : list N) :
  Masking W built (Session.ssl sp) ->
  skipn (pos (log sv)) inv = new_bytes Callbacks.preprocess_circuits sp ++ rest ->
  state sv = MASK_COMMIT -> true_surf (conf sv) = false -> length (mask_commitment (att sv)) = 32%nat -> (32 <= fuel)%nat ->
  exists sp' sv',
    Callbacks.preprocess_circuits sp = (sp', Done tt) /\ read_mask_commitments sv = (sv', Done tt) /\
    mask_commitment (att sv') = hirose aes (Session.mask_seed_key (Session.ssl sp')) (Session.mask_seed (Session.ssl sp')) /\
    skipn (pos (log sv')) inv = rest /\ state sv' = READING_KS.
Proof.
  intros [M1 M2 M3 M4 (t & r & M5 & M6) M7 M8 M9 M10] Hin Hs Ht Lm Hf.
  destruct (PSeed.commits_preprocess (SC := SC) (Fd := PDial.feed_none W) built M1 M2 M3 M4 t r (Session.ssl sp) (PDial.sent (Session.log sp)) [] M5 M6 M7 M8 M9 M10 sp)
    as (sp' & E & S & _); [now repeat split|]. cbn [PDial.said] in S.
  unfold new_bytes in Hin. rewrite E in Hin. cbn [fst] in Hin. rewrite S, skipn_exact in Hin by reflexivity.
  unfold PSeed.seed_message in Hin. cbn [app] in Hin.
  set (d := hirose aes (Session.mask_seed_key (Session.ssl sp')) (Session.mask_seed (Session.ssl sp'))) in *. assert (Ld : length d = 32%nat) by apply hirose_arr.
  destruct (VSeed.v_mask d (VDial.core sv) (VDial.sent (log sv)) rest Hs Ht Ld Hf sv) as (sv' & E2 & Q1 & _ & Q2); [now repeat split|].
  exists sp', sv'. split; [exact E|]. split; [exact E2|]. split; [|split; [exact Q2|]].
  - transitivity (mask_commitment (att (VDial.core sv'))); [reflexivity|]. rewrite Q1.
    transitivity (d ++ skipn (length d) (mask_commitment (att sv))); [reflexivity|]. now rewrite skipn_all2, app_nil_r by lia.
  - exact (f_equal state Q1).
Qed.

(** A computation that sends nothing. *)
Definition mute {A} (m : Session.S A) : Prop := forall s, PDial.sent (Session.log (fst (m s))) = PDial.sent (Session.log s).

Lemma mute_bind {A C} (m : Session.S A) (k : A -> Session.S C) : mute m -> (forall a, mute (k a)) -> mute (Session.bind m k).
Proof.
  intros Hm Hk s. specialize (Hm s). unfold Session.bind. destruct (m s) as [s1 [a| | | |]]; cbn [fst] in *; try exact Hm.
  rewrite (Hk a s1). exact Hm.
Qed.

Lemma mute_act {W : Session.World} a : PDial.payload a = [] -> mute (Channel.act a).
Proof. intros H s. unfold Channel.act. cbn [fst Session.log]. now rewrite PDial.sent_cons, H, app_nil_r. Qed.

Lemma mute_pure {A} (m : Session.S A) : (forall s, Session.log (fst (m s)) = Session.log s) -> mute m.
Proof. intros H s. now rewrite H. Qed.

(** C34: preprocessing inside the handshake is not in step: a prover that has not
    preprocessed sends its key shares before the commitment to its mask seed,
    and the verifier, which waits for the commitment, refuses them.  The
    traffic of the preprocessing itself is apart from these messages. *)
Theorem inline_preprocessing_refused {W : Session.World} {B : MaskConstants.BlockCipher} {aes : list N -> list N -> list N}
    {SC : SameCipher B aes} `{KL : KeyLib} {Wv : World} {F : Fuel} {inv : list N} {St : Stream Wv inv}
    (built : CircuitId -> bool) (sp : Session.St) (sv : Server) (msg rest : list N) :
  let kb := Session.key_share_bytes (Session.exch (Session.ssl sp)) in
  Masking W built (Session.ssl sp) -> Messaging.pack_key_bytes MessageHeaders.COLLECT kb = Some msg ->
  skipn (pos (log sv)) inv = new_bytes Callbacks.three_party_handshake_comm sp ++ rest ->
  true_surf (conf sv) = false -> (1 <= fuel)%nat ->
  (exists d, new_bytes Callbacks.three_party_handshake_comm sp = msg ++ MessageHeaders.MASK_COMMITMENTS :: d) /\
  exists sv', read_mask_commitments sv = (sv', Fail) /\ mask_commitment (att sv') = mask_commitment (att sv).
Proof.
  intros kb [M1 M2 M3 M4 (t & r & M5 & M6) M7 M8 M9 M10] Hpack Hin Ht Hf.
  assert (X : exists d, PDial.sent (Session.log (fst (Callbacks.three_party_handshake_comm sp))) =
    PDial.sent (Session.log sp) ++ msg ++ MessageHeaders.MASK_COMMITMENTS :: d).
  { unfold Callbacks.three_party_handshake_comm. unfold Session.bind at 1 2, Session.gets at 1 2. rewrite M7, M8. cbn [negb andb].
    unfold Session.bind at 1, Session.require, Session.ret at 1. unfold Session.bind at 1, Session.upd_exch at 1, Session.modify at 1.
    set (s1 := Session.mkSt _ _). fold kb. rewrite Hpack. unfold Session.bind at 1, Session.from_option at 1, Session.ret at 1.
    destruct (PDial.p_write (Fd := PDial.feed_none W) msg (Session.ssl s1) (PDial.sent (Session.log s1)) [] (fun l => M1 l msg) s1)
      as (s2 & E2 & H2); [now repeat split|]. unfold Session.bind at 1. rewrite E2.
    destruct (PSeed.commits_preprocess (SC := SC) (Fd := PDial.feed_none W) built M1 M2 M3 M4 t r (Session.ssl s1)
      (PDial.sent (Session.log s1) ++ msg) [] M5 M6 M7 M8 M9 M10 s2 H2) as (s3 & E3 & S & _).
    unfold Session.bind at 1. rewrite E3. cbn [PDial.said] in S. eexists. rewrite <- app_assoc in S. change (Session.log s1) with (Session.log sp) in S.
    etransitivity; [|exact S]. match goal with |- PDial.sent (Session.log (fst (?m s3))) = _ => assert (Q : mute m) end; [|exact (Q s3)].
    repeat first [apply mute_bind; [|intros] | apply mute_act; reflexivity | apply mute_pure; reflexivity
      | match goal with
        | |- mute (if ?b then _ else _) => destruct b
        | |- mute (match ?o with Some _ => _ | None => _ end) => destruct o
        | |- mute (match ?p with (_, _) => _ end) => destruct p
        | |- mute (match ?g with Got _ => _ | _ => _ end) => destruct g
        end | progress unfold Callbacks.ssl_read_once, Session.from_option, Session.require, Circuits.maybe_throw, Session.upd_exch]. }
  destruct X as (d & X).
  assert (N : new_bytes Callbacks.three_party_handshake_comm sp = msg ++ MessageHeaders.MASK_COMMITMENTS :: d)
    by (unfold new_bytes; rewrite X; now apply skipn_exact).
  split; [now exists d|]. rewrite N in Hin. unfold Messaging.pack_key_bytes in Hpack.
  destruct (_ || _) in Hpack; [discriminate|]. apply some_inj in Hpack as <-. cbn [app] in Hin.
  destruct (VSeed.mask_refused (wrap 8 MessageHeaders.COLLECT) sv _ Ht eq_refl ltac:(discriminate) Hin Hf) as (sv' & E & A).
  exists sv'. split; [exact E | now rewrite A].
Qed.

(** ** Runs *)

Definition fresh_ssl : Session.SSL :=
  let c := zero_ssl Surf.Masked false in Session.set_exch (Session.set_key_share_bytes [0; 23; 0; 1; 4] (Session.exch c)) c.
Definition fresh : Session.St := Session.mkSt fresh_ssl [].

Lemma fresh_masking : Masking build_world (fun _ => true) fresh_ssl.
Proof.
  split; try reflexivity; [intros l; now eexists | exists None, None; split; reflexivity].
Qed.

Definition seed_input : list N := new_bytes (Callbacks.preprocess_circuits (W := build_world) (B := toy_cipher)) fresh.
Definition seed_server : @Server toy_lib := ready_server Surf.Masked MASK_COMMIT empty_att.

Lemma mask_seed_committed_witness :
  exists sp' sv',
    Callbacks.preprocess_circuits (W := build_world) (B := toy_cipher) fresh = (sp', Done tt) /\
    @read_mask_commitments toy_lib (stream_world (seed_input ++ [7])) toy_fuel seed_server = (sv', Done tt) /\
    mask_commitment (att sv') =
      hirose MaskConstants.xor_bytes (Session.mask_seed_key (Session.ssl sp')) (Session.mask_seed (Session.ssl sp')).
Proof.
  destruct (@mask_seed_committed build_world toy_cipher _ toy_same_cipher toy_lib (stream_world (seed_input ++ [7])) toy_fuel _
    (stream_world_stream _) (fun _ => true) fresh seed_server [7] fresh_masking) as (sp' & sv' & E1 & E2 & E3 & _);
    try reflexivity; [apply Nat.leb_le; reflexivity|].
  exists sp', sv'. exact (conj E1 (conj E2 E3)).
Defined.

Definition inline_input : list N :=
  new_bytes (Callbacks.three_party_handshake_comm (W := build_world) (B := toy_cipher)) fresh.

Lemma inline_preprocessing_refused_witness :
  (exists d, inline_input = [MessageHeaders.COLLECT; 0; 23; 0; 1; 4] ++ MessageHeaders.MASK_COMMITMENTS :: d) /\
  exists sv', @read_mask_commitments toy_lib (stream_world inline_input) toy_fuel seed_server = (sv', Fail) /\
    mask_commitment (att sv') = repeat 0 32.
Proof.
  apply (@inline_preprocessing_refused build_world toy_cipher _ toy_same_cipher toy_lib (stream_world inline_input) toy_fuel _
    (stream_world_stream _) (fun _ => true) fresh seed_server [MessageHeaders.COLLECT; 0; 23; 0; 1; 4] [] fresh_masking);
    try reflexivity. apply Nat.leb_le. reflexivity.
Defined.
