(* ===== verification/KeyAgreement.v ===== *)
(** * The exchange of key shares, by both parties

    The prover's calls around the ClientHello and the ServerHello
    ([three_party_handshake_comm] and
    [three_party_handshake_send_received_key_shares]) run against the
    verifier's loop from [READING_KS] to [ECTF_WAIT].  The origin server sees
    the sum of the two public keys; afterwards each party can compute one of
    two points whose sum is the point of the origin server. *)

From S2P Require Import Prelude Messaging Util CircuitWires BlockMap KeyShare ServerState ServerIO ServerHandshake ServerRecords ServerRun ServerLogic ServerWorld ServerStream.
From S2P Require Import Prover ProverState ProverCircuits ProverAttest ProverHandshake Preprocessing Dialogue.
From Stdlib Require Import List.
Import ListNotations ByteString Util.
#[local] Abbreviation length := List.length.
Local Open Scope N_scope.

(** ** Curves *)

(** The encoding of a multiple of the generator. *)
Definition octets {E : ECGroup} (k : N) : option (list N) :=
  match EC_POINT_mul k with Some P => EC_POINT_point2oct P | None => None end.

(** Documented behaviour of BoringSSL for a curve that the program supports:
    multiples of the generator add, [Generate] writes the public key of the
    private key, and [Decap] gives the coordinates of the multiple of the
    peer's point. *)
Class ECDH `{K : KeyLib} (group_id : N) (E : ECGroup) := {
  private_key : key_share -> N;
  coordinates : ec_point -> list N * list N;
  #[global] dh_points :: ECGroupLaws;
  dh_width : forall P Q bs cs, EC_POINT_point2oct P = Some bs -> EC_POINT_point2oct Q = Some cs -> length bs = length cs;
  dh_add : forall j k P Q R, EC_POINT_mul j = Some P -> EC_POINT_mul k = Some Q -> EC_POINT_mul (j + k) = Some R ->
    EC_POINT_add P Q = Some R;
  dh_curve : EC_GROUP_new_by_curve_name (get_nid_from_uint16 group_id) = Some E;
  dh_generate : forall draw s0 s bs, SSLKeyShare_Create draw group_id = Some s0 -> Generate s0 = Some (s, bs) ->
    GroupID s0 = group_id /\ GroupID s = group_id /\ octets (private_key s) = Some bs;
  dh_decap : forall s k bs R, GroupID s = group_id -> octets k = Some bs -> EC_POINT_mul (private_key s * k) = Some R ->
    Decap s bs = inl (coordinates R) }.

(** A group that the verifier's key shares accept. *)
Definition supported (group_id : N) : bool :=
  negb ((group_id =? KeyShare.SSL_CURVE_X25519) || (group_id =? KeyShare.SSL_GROUP_X25519_MLKEM768)
        || (group_id =? KeyShare.SSL_GROUP_X25519_KYBER768_DRAFT00)) && (group_id <? 2 ^ 16).

Definition frame (group_id : N) (bs : list N) : list N := CBB_add_u16 (CBB_add_u16 [] group_id) (size bs) ++ bs.

Lemma add_frame g bs : size bs < 2 ^ 16 -> CBB_add_u16_length_prefixed (CBB_add_u16 [] g) bs = Some (frame g bs).
Proof. intros H. unfold CBB_add_u16_length_prefixed. now rewrite (proj2 (N.ltb_lt _ _) H). Qed.

(** A frame is read back, whatever follows it. *)
Lemma read_frame g bs rest : g < 2 ^ 16 -> size bs < 2 ^ 16 ->
  exists r, CBS_get_u16 (frame g bs ++ rest) = Some (g, r) /\ CBS_get_u16_length_prefixed r = Some (bs, rest).
Proof.
  intros Hg Hs. unfold frame. cbn [CBB_add_u16 app CBS_get_u16]. rewrite u16_bytes by exact Hg. eexists. split; [reflexivity|].
  unfold CBS_get_u16_length_prefixed. cbn [CBS_get_u16]. rewrite u16_bytes by exact Hs. unfold CBS_get_bytes, size. rewrite Nat2N.id.
  rewrite (proj2 (Nat.leb_le _ _)) by (rewrite length_app; lia). now rewrite firstn_exact, skipn_exact by reflexivity.
Qed.

Lemma length_frame g bs : length (frame g bs) = (4 + length bs)%nat.
Proof. reflexivity. Qed.

(** ** One curve of the exchange *)

Section Legs.
Context `{K : KeyLib}.

Record Leg := mkLeg {
  group : N;
  curve : ECGroup;
  dh : ECDH group curve;
  prover_key : N;
  verifier_key : key_share;
  prover_octets : list N;
  verifier_octets : list N;
  joint_octets : list N }.

Definition verifier_private (x : Leg) : N := @private_key _ _ _ (dh x) (verifier_key x).

(** The verifier's key is what the library draws, the prover's public key is
    that of its private key, and the sum of the public keys is not the point
    at infinity. *)
Record LegOk (draw : N) (x : Leg) : Prop := {
  leg_supported : supported (group x) = true;
  leg_drawn : exists s0, SSLKeyShare_Create draw (group x) = Some s0 /\ Generate s0 = Some (verifier_key x, verifier_octets x);
  leg_prover : @octets (curve x) (prover_key x) = Some (prover_octets x);
  leg_joint : @octets (curve x) (prover_key x + verifier_private x) = Some (joint_octets x) }.

Definition joint_share (x : Leg) (ks : KeyShare.t) : KeyShare.t :=
  KeyShare.mk (frame (group x) (joint_octets x)) (frame (group x) (verifier_octets x)) (Some (verifier_key x))
    (KeyShare.out_secret ks) (KeyShare.out_other_secret ks).

Lemma octets_point {E : ECGroup} {L : ECGroupLaws} k bs : octets k = Some bs ->
  exists P t, EC_POINT_mul k = Some P /\ EC_POINT_point2oct P = Some bs /\ EC_POINT_oct2point bs = Some P /\ bs = 4 :: t /\ size bs < 2 ^ 16.
Proof.
  unfold octets. destruct (EC_POINT_mul k) as [P|] eqn:E1; [|discriminate]. intros E2.
  destruct (point2oct_total P) as (t & E3 & Hs). exists P, t. rewrite E2 in E3. injection E3 as ->.
  repeat split; auto. now apply oct2point_point2oct.
Qed.

Section One.
Context (draw : N) (x : Leg) (ok : LegOk draw x).

Lemma leg_group_ok : group x < 2 ^ 16.
Proof. destruct ok as [H _ _ _]. unfold supported in H. apply andb_prop in H as [_ H]. now apply N.ltb_lt. Qed.

Lemma leg_verifier : @octets (curve x) (verifier_private x) = Some (verifier_octets x).
Proof. destruct (leg_drawn _ _ ok) as (s0 & E1 & E2). apply (@dh_generate _ _ _ (dh x) _ _ _ _ E1 E2). Qed.

Lemma leg_sizes : size (prover_octets x) < 2 ^ 16 /\ size (verifier_octets x) < 2 ^ 16 /\ size (joint_octets x) < 2 ^ 16 /\
  length (prover_octets x) = length (joint_octets x).
Proof.
  pose proof (dh x) as D.
  destruct (octets_point _ _ (leg_prover _ _ ok)) as (P & ? & _ & P1 & _ & _ & P2), (octets_point _ _ leg_verifier) as (? & ? & _ & _ & _ & _ & Q2),
    (octets_point _ _ (leg_joint _ _ ok)) as (R & ? & _ & R1 & _ & _ & R2).
  repeat split; try assumption. exact (dh_width P R _ _ P1 R1).
Qed.

(** [create_new_share] on the prover's public key. *)
Lemma leg_create ks : KeyShare.create_new_share draw (group x) (prover_octets x) ks = (joint_share x ks, true).
Proof.
  pose proof (dh x) as D. destruct ok as [Hs (s0 & E1 & E2) _ _]. destruct (@dh_generate _ _ _ (dh x) _ _ _ _ E1 E2) as (G0 & G1 & _).
  destruct leg_sizes as (_ & Sv & Sj & _).
  destruct (octets_point _ _ (leg_prover _ _ ok)) as (P & tp & P1 & P2 & P3 & P4 & _), (octets_point _ _ leg_verifier) as (Q & tq & Q1 & Q2 & Q3 & Q4 & _),
    (octets_point _ _ (leg_joint _ _ ok)) as (R & ? & R1 & R2 & _).
  assert (Epk : KeyShare.create_new_public_key draw (group x) ks =
    (KeyShare.mk (KeyShare.additive_share ks) (frame (group x) (verifier_octets x)) (Some (verifier_key x)) (KeyShare.out_secret ks) (KeyShare.out_other_secret ks), true)).
  { unfold KeyShare.create_new_public_key. unfold supported in Hs. apply andb_prop in Hs as [Hs _]. apply negb_true_iff in Hs. rewrite Hs, E1.
    cbn [KeyShare.share]. unfold generate_public_key. rewrite E2, G0. unfold initialise_cbb_for_ec_point_data. now rewrite add_frame. }
  unfold KeyShare.create_new_share. rewrite Epk. cbn [negb].
  assert (Ea : KeyShare.add_peer_key (group x) (prover_octets x) (KeyShare.mk (KeyShare.additive_share ks) (frame (group x) (verifier_octets x)) (Some (verifier_key x)) (KeyShare.out_secret ks) (KeyShare.out_other_secret ks)) = Some (frame (group x) (joint_octets x))); [|now rewrite Ea].
  unfold KeyShare.add_peer_key, KeyShare.get_group_id. cbn [KeyShare.share KeyShare.share_public_key]. rewrite G1, (@dh_curve _ _ _ (dh x)), P3, P4. cbn [N.eqb negb].
  change (negb (4 =? POINT_CONVERSION_UNCOMPRESSED)) with false. cbv beta iota. unfold CBBToECPoint.
  rewrite (frame_roundtrip (group x) (verifier_octets x)) by (apply leg_group_ok || now apply add_frame). rewrite Q3, Q4.
  change (4 =? POINT_CONVERSION_UNCOMPRESSED) with true. cbv iota. rewrite N.eqb_refl. cbn [negb].
  rewrite (dh_add (verifier_private x) (prover_key x) Q P R Q1 P1 ltac:(now rewrite N.add_comm)).
  unfold ECPointToCBB. rewrite R2. now apply add_frame.
Qed.

End One.
End Legs.

(** The bytes of one or two curves. *)
Definition offer `{K : KeyLib} (f : Leg -> list N) (x : Leg) (oy : option Leg) : list N :=
  frame (group x) (f x) ++ match oy with Some y => frame (group y) (f y) | None => [] end.

Lemma unpack_message h bs : Messaging.is_valid_header h = true -> bs <> [] -> size bs <= SSL3_RT_MAX_PLAIN_LENGTH - 1 ->
  Messaging.unpack_key_bytes (h :: bs) = Some (h, bs).
Proof.
  intros Hh Hb Hs. assert (Hl : (1 <= length bs)%nat) by (destruct bs; [contradiction | cbn; lia]).
  unfold Messaging.unpack_key_bytes, Messaging.header_size, SSL3_RT_MAX_PLAIN_LENGTH in *. unfold size in *. cbn [length].
  rewrite (proj2 (N.eqb_neq _ _)), (proj2 (N.ltb_ge 16384 _)), (proj2 (N.ltb_ge _ (1 + 1))) by lia. cbn [orb CBS_get_u8]. rewrite Hh.
  unfold CBS_get_bytes. replace (N.to_nat (N.of_nat (S (length bs)) - 1)) with (length bs) by lia.
  now rewrite Nat.leb_refl, firstn_all.
Qed.

Lemma pack_message h bs : h < 256 -> bs <> [] -> size bs <= SSL3_RT_MAX_PLAIN_LENGTH - 1 -> Messaging.pack_key_bytes h bs = Some (h :: bs).
Proof.
  intros Hh Hb Hs. unfold Messaging.pack_key_bytes. rewrite (proj2 (N.eqb_neq _ _)) by (unfold size; destruct bs; [contradiction | discriminate]).
  rewrite (proj2 (N.ltb_ge _ _)) by exact Hs. cbn [orb]. now rewrite wrap_small.
Qed.

(** ** The verifier's side *)

Module VAgree.
Import Server Handshake Records Run VDial.

Section Runs.
Context `{K : KeyLib} {W : World} {F : Fuel} {input : list N} {St : Stream W input}.
Context (fuel_ok : (0 < fuel)%nat) (draw : N -> N) (drawn : forall l g, reply l (ADraw g) = draw g).

(** A message that fits a record comes in one read. *)
Definition whole (msg rest : list N) : Prop := forall l, skipn (pos l) input = msg ++ rest ->
  reply l (ARead buffer_size) = Got msg /\ skipn (pos (ARead buffer_size :: l)) input = rest.

Definition with_peer (bs : list N) (k : Server) : Server := set_hs (set_client_public_key bs (hs k)) k.

Lemma v_read_keyshare h bs k o r : whole (h :: bs) r -> Messaging.is_valid_header h = true -> bs <> [] -> size bs <= SSL3_RT_MAX_PLAIN_LENGTH - 1 ->
  v_runs read_keyshare (mkCfg k o ((h :: bs) ++ r)) h (mkCfg (with_peer bs k) o r).
Proof.
  intros Hw Hh Hb Hs s (E & Ho & Hd). cbn [fields said due] in *. destruct (Hw _ Hd) as [R P].
  unfold read_keyshare. destruct fuel as [|n]; [lia|]. cbn [read_buffer_loop].
  unfold bind, act. rewrite R. unfold store_buffer, upd_hs, modify, ret. rewrite unpack_message by assumption.
  eexists. split; [reflexivity|]. split; [unfold with_peer; rewrite <- E; reflexivity|]. cbn [log set_log set_hs].
  split; [now rewrite v_sent_cons, app_nil_r | exact P].
Qed.

Definition with_share (i : nat) (ks : KeyShare.t) (k : Server) : Server :=
  set_hs (set_key_shares (upd i ks (key_shares (hs k))) (hs k)) k.

Lemma v_new_share i x k o r : LegOk (draw (group x)) x ->
  v_runs (new_share_at i (group x) (prover_octets x)) (mkCfg k o r) tt (mkCfg (with_share i (joint_share x (key_share_at i k)) k) o r).
Proof.
  intros Ok. unfold new_share_at. eapply v_bind; [apply (@v_act _ _ _ _ (ADraw (group x)) (draw (group x))); [reflexivity | reflexivity | intros; apply drawn]|].
  eapply v_bind; [apply v_gets; reflexivity|]. cbv beta. rewrite (leg_create _ _ Ok). eapply v_bind; [apply v_upd_hs; reflexivity | now apply v_require].
Qed.

(** The fields after [create_new_share]. *)
Definition with_shares (x : Leg) (oy : option Leg) (k : Server) : Server :=
  let k := with_share 0 (joint_share x (key_share_at 0 k)) k in
  match oy with Some y => with_share 1 (joint_share y (key_share_at 1 k)) k | None => k end.

Lemma v_create x oy k o r : LegOk (draw (group x)) x -> (forall y, oy = Some y -> LegOk (draw (group y)) y) ->
  client_public_key (hs k) = offer prover_octets x oy -> state k = MAKING_KS ->
  v_runs create_new_share (mkCfg k o r) tt (mkCfg (set_state WRITING_KS (with_shares x oy k)) o r).
Proof.
  intros Ox Oy Ek Hs. unfold create_new_share. eapply v_bind; [apply v_gets; reflexivity|]. cbv beta. rewrite Ek. unfold offer.
  destruct (leg_sizes _ _ Ox) as (Sx & _).
  edestruct (read_frame (group x) (prover_octets x)) as (c & C1 & C2); [exact (leg_group_ok _ _ Ox) | exact Sx|]. rewrite C1, C2.
  eapply v_bind; [now apply v_new_share|]. destruct oy as [y|].
  - specialize (Oy y eq_refl). destruct (leg_sizes _ _ Oy) as (Sy & _).
    destruct (read_frame (group y) (prover_octets y) []) as (d & D1 & D2); [exact (leg_group_ok _ _ Oy) | exact Sy|]. rewrite app_nil_r in D1.
    rewrite length_frame. cbn [Nat.add Nat.eqb]. rewrite D1, D2. eapply v_bind; [now apply v_new_share|].
    eapply v_bind; [now apply v_require|]. change WRITING_KS with (next_state MAKING_KS). rewrite <- Hs. exact (v_advance _ _ _).
  - cbn [length Nat.eqb]. change WRITING_KS with (next_state MAKING_KS). rewrite <- Hs. exact (v_advance _ _ _).
Qed.

Definition sending (share : list N) (k : Server) : Server := set_state PSK_BINDER (set_hs (set_additive_share share (hs k)) k).

Lemma v_send share k o r : (forall l bs, reply l (AWrite bs) = true) -> get_additive_share k = share -> state k = WRITING_KS ->
  share <> [] -> size share <= SSL3_RT_MAX_PLAIN_LENGTH - 1 ->
  v_runs send_additive_share (mkCfg k o r) tt (mkCfg (sending share k) (o ++ MessageHeaders.OK :: share) r).
Proof.
  intros Hw Hk Hs Hb Hl. unfold send_additive_share. eapply v_bind; [apply v_gets; reflexivity|]. cbv beta. rewrite Hk.
  eapply v_bind; [apply v_upd_hs; reflexivity|]. rewrite pack_message by (reflexivity || assumption).
  eapply v_bind; [apply v_track_rounds|]. eapply v_bind; [apply v_track|].
  eapply v_bind; [apply v_write; [intros; apply Hw | unfold SSL3_RT_MAX_PLAIN_LENGTH, size in *; cbn [length]; lia]|].
  unfold sending. change PSK_BINDER with (next_state WRITING_KS). rewrite <- Hs. exact (v_advance _ _ _).
Qed.

(** [finish_tph] with the share of the origin server for curve [i]. *)
Definition finished (i : nat) (xy : list N * list N) (k : Server) : Server :=
  let ks := key_share_at i k in
  set_state WRITING_HS_RECV (with_share i (KeyShare.mk (KeyShare.additive_share ks) (KeyShare.share_public_key ks) (KeyShare.share ks) (fst xy) (snd xy))
    (set_hs (set_active_key_share i (hs k)) k)).

Lemma v_finish i g key bs xy k o r : client_public_key (hs k) = frame g bs -> g < 2 ^ 16 -> size bs < 2 ^ 16 ->
  find_share g k = Some i -> KeyShare.share (key_share_at i k) = Some key -> Decap key bs = inl xy ->
  v_runs finish_tph (mkCfg k o r) tt (mkCfg (finished i xy k) o r).
Proof.
  intros Ek Hg Hs Hf Hk Hd. unfold finish_tph. eapply v_bind; [apply v_gets; reflexivity|]. cbv beta. rewrite Ek.
  eapply v_bind; [now apply v_require|]. destruct (read_frame g bs [] Hg Hs) as (c & C1 & C2). rewrite app_nil_r in C1. rewrite C1, C2.
  eapply v_bind; [now apply v_require|]. eapply v_bind; [apply v_gets; reflexivity|]. cbv beta. rewrite Hf.
  eapply v_bind; [apply v_upd_hs; reflexivity|]. eapply v_bind; [apply v_gets; reflexivity|]. cbv beta.
  change (key_share_at i (set_hs (set_active_key_share i (hs k)) k)) with (key_share_at i k).
  unfold KeyShare.finish. rewrite Hk, Hd. destruct xy as [a b]. eapply v_bind; [apply v_upd_hs; reflexivity|].
  eapply v_bind; [now apply v_require|]. unfold finished. rewrite <- Hk. exact (v_goto WRITING_HS_RECV _ _ _).
Qed.

(** The curve that the origin server chose. *)
Definition chosen (x : Leg) (oy : option Leg) (i : nat) (z : Leg) : Prop :=
  i = 0%nat /\ z = x \/ i = 1%nat /\ oy = Some z /\ group x <> group z.

Section Facts.
Context (x : Leg) (oy : option Leg) (k : Server) (two : length (key_shares (hs k)) = 2%nat).

Lemma shares_sum : (oy = None -> KeyShare.additive_share (key_share_at 1 k) = []) ->
  get_additive_share (with_shares x oy k) = offer joint_octets x oy.
Proof.
  unfold get_additive_share, with_shares, offer, with_share, key_share_at. intros H.
  destruct (key_shares (hs k)) as [|a [|b [|? ?]]]; try discriminate two. destruct oy; [reflexivity|]. specialize (H eq_refl). cbn in H |- *. unfold KeyShare.get_additive_share. cbn. now rewrite H.
Qed.

Lemma shares_chosen i z d dy : LegOk d x -> (forall y, oy = Some y -> LegOk (dy y) y) -> chosen x oy i z ->
  KeyShare.share (key_share_at i (with_shares x oy k)) = Some (verifier_key z) /\ find_share (group z) (with_shares x oy k) = Some i.
Proof.
  assert (G : forall d w, LegOk d w -> GroupID (verifier_key w) = group w).
  { intros d' w [_ (s0 & E1 & E2) _ _]. apply (@dh_generate _ _ _ (dh w) _ _ _ _ E1 E2). }
  intros Ox Oy C. unfold find_share, with_shares, with_share, key_share_at.
  destruct (key_shares (hs k)) as [|a [|b [|? ?]]]; try discriminate two. destruct C as [[-> ->]|(-> & -> & Hne)].
  - destruct oy; cbn; unfold KeyShare.get_group_id; cbn; rewrite (G _ _ Ox), N.eqb_refl; auto.
  - specialize (Oy z eq_refl). cbn. unfold KeyShare.get_group_id. cbn.
    rewrite (G _ _ Ox), (G _ _ Oy), N.eqb_refl, (proj2 (N.eqb_neq _ _)) by exact Hne. auto.
Qed.

End Facts.

(** The fields at [ECTF_WAIT]. *)
Definition agreed (x : Leg) (oy : option Leg) (i : nat) (z : Leg) (bs : list N) (xy : list N * list N) (k : Server) : Server :=
  set_state ECTF_WAIT (finished i xy (set_state FINISHING_TPH (with_peer (frame (group z) bs) (set_state READING_SKS
    (sending (offer joint_octets x oy) (set_state WRITING_KS (with_shares x oy (set_state MAKING_KS (with_peer (offer prover_octets x oy) k))))))))).

Lemma offer_not_nil f x oy : offer f x oy <> [].
Proof. discriminate. Qed.

Lemma offer_length x oy : LegOk (draw (group x)) x -> (forall y, oy = Some y -> LegOk (draw (group y)) y) ->
  length (offer prover_octets x oy) = length (offer joint_octets x oy).
Proof.
  intros Ox Oy. destruct (leg_sizes _ _ Ox) as (_ & _ & _ & L). unfold offer. rewrite !length_app, !length_frame, L.
  destruct oy as [y|]; [|reflexivity]. destruct (leg_sizes _ _ (Oy y eq_refl)) as (_ & _ & _ & L'). now rewrite !length_frame, L'.
Qed.

Lemma v_agree p x oy i z bs xy k o :
  let first := MessageHeaders.COLLECT :: offer prover_octets x oy in
  let second := MessageHeaders.SERVER_KEY_SHARE :: frame (group z) bs in
  (forall l bs, reply l (AWrite bs) = true) -> (forall l, (length input <= pos l)%nat -> reply l APending = 0) ->
  whole first second -> whole second [] ->
  LegOk (draw (group x)) x -> (forall y, oy = Some y -> LegOk (draw (group y)) y) -> chosen x oy i z ->
  state k = READING_KS -> is_resumption_run (hs k) = false -> length (key_shares (hs k)) = 2%nat ->
  (oy = None -> KeyShare.additive_share (key_share_at 1 k) = []) ->
  size (offer prover_octets x oy) <= SSL3_RT_MAX_PLAIN_LENGTH - 1 -> size (frame (group z) bs) <= SSL3_RT_MAX_PLAIN_LENGTH - 1 ->
  Decap (verifier_key z) bs = inl xy ->
  v_runs (run_loop 7 ECTF_WAIT p) (mkCfg k o (first ++ second)) tt
    (mkCfg (agreed x oy i z bs xy k) (o ++ (MessageHeaders.OK :: offer joint_octets x oy) ++ [MessageHeaders.HS_RECV]) []).
Proof.
  intros first second Hw Hp W1 W2 Ox Oy C Hs Hr Two Hn S1 S2 Hd.
  assert (Sz : size bs < 2 ^ 16) by (unfold SSL3_RT_MAX_PLAIN_LENGTH, size in *; rewrite length_frame in S2; lia).
  assert (Gz : group z < 2 ^ 16) by (destruct C as [[_ ->]|(_ & E & _)]; eapply leg_group_ok; eauto).
  assert (Sj : size (offer joint_octets x oy) <= SSL3_RT_MAX_PLAIN_LENGTH - 1) by (unfold size in *; now rewrite <- offer_length).
  set (k1 := set_state MAKING_KS (with_peer (offer prover_octets x oy) k)).
  destruct (shares_chosen x oy k1 Two i z _ _ Ox Oy C) as [K1 K2].
  eapply v_loop; [exact Hs | reflexivity | cbn [handler]; unfold read_keyshare_after_handshake|].
  { eapply v_bind; [exact (v_read_keyshare _ _ k o second W1 eq_refl (offer_not_nil _ _ _) S1)|]. eapply v_bind; [now apply v_require|].
    eapply v_bind; [apply v_track_rounds|]. eapply v_bind; [apply v_gets; reflexivity|]. eapply v_bind; [apply v_track | apply v_goto]. }
  eapply v_loop; [reflexivity | reflexivity | exact (v_create x oy k1 _ _ Ox Oy eq_refl eq_refl)|].
  eapply v_loop; [reflexivity | reflexivity | apply (v_send (offer joint_octets x oy)); [exact Hw | now apply shares_sum | reflexivity | apply offer_not_nil | exact Sj]|].
  eapply v_loop; [reflexivity | reflexivity | cbn [handler]; unfold do_psk_binder; eapply v_bind; [apply v_gets; reflexivity|]|].
  { match goal with |- context [negb ?b] => replace b with false by (symmetry; destruct oy; exact Hr) end. cbn [negb]. apply v_advance. }
  eapply v_loop; [reflexivity | reflexivity | cbn [handler]; unfold read_sks_keyshare|].
  { rewrite <- (app_nil_r second). eapply v_bind; [exact (v_read_keyshare _ _ _ _ [] W2 eq_refl ltac:(discriminate) S2)|]. eapply v_bind; [now apply v_require|].
    eapply v_bind; [apply v_track_rounds|]. eapply v_bind; [apply v_gets; reflexivity|]. eapply v_bind; [apply v_track | apply v_advance]. }
  eapply v_loop; [reflexivity | reflexivity | apply (v_finish i (group z) (verifier_key z) bs xy); [reflexivity | exact Gz | exact Sz | destruct oy; exact K2 | destruct oy; exact K1 | exact Hd]|].
  eapply v_loop; [reflexivity | reflexivity | cbn [handler]; unfold write_hs_recv|].
  { eapply v_bind; [apply v_track_rounds|]. eapply v_bind; [apply v_track|]. eapply v_bind.
    - intros s (E & Ho & Hd'). cbn [due] in Hd'. unfold act.
      assert (Hl : (length input <= pos (log s))%nat) by (apply (f_equal (@length N)) in Hd'; rewrite length_skipn in Hd'; cbn in Hd'; lia).
      rewrite (Hp _ Hl). eexists. split; [reflexivity|]. split; [exact E|]. cbn [log set_log].
      split; [rewrite v_sent_cons, app_nil_r; exact Ho | now rewrite pos_other].
    - cbn [N.eqb negb]. eapply v_bind; [apply v_write_header; intros; apply Hw | apply v_advance]. }
  rewrite <- app_assoc. exact (v_stop 0 ECTF_WAIT p (agreed x oy i z bs xy k) _ _ eq_refl).
Qed.

End Runs.
End VAgree.

(** ** The prover's side *)

Module PAgree.
Import Session Channel Callbacks PDial.

Section Runs.
Context {W : World} {F : Fuel} {B : MaskConstants.BlockCipher} {input : list N} {Fd : Feed W input}.
Context (writes : forall l bs, reply l (SslWrite bs) = true) (fuel_ok : (0 < fuel)%nat).

Definition with_mode (m : Surf.Mode) (c : SSL) : SSL := set_surf_true_mode (Surf.is_capture m) (set_surf_mode m c).

(** The circuits are there already, or are not wanted. *)
Lemma p_preprocessed t r m c o d : (forall l, reply l (Shaking GetEnv) = (t, r)) -> Surf.mode_from_env t r = Some m ->
  verifier (ptrs c) = true -> is_server (exch c) = false -> negb (should_make_circuits (pre c)) || pointer HANDSHAKE_A c = true ->
  p_runs preprocess_circuits (mkCfg c o d) tt (mkCfg (with_mode m c) o d).
Proof.
  intros He Hm Hv Hs Hb. unfold preprocess_circuits. do 2 (eapply p_bind; [apply p_gets|]). cbv beta. rewrite Hv, Hs.
  eapply p_bind; [now apply p_require|]. eapply p_bind; [exact (p_shake GetEnv (t, r) _ He)|].
  eapply p_bind; [apply p_some; exact Hm|]. do 2 (eapply p_bind; [apply p_modify|]). do 2 (eapply p_bind; [apply p_gets|]). cbv beta.
  change (should_make_circuits (pre (with_mode m c))) with (should_make_circuits (pre c)).
  match goal with |- p_runs (if ?b then _ else _) _ _ _ => replace b with true by (symmetry; exact Hb) end. apply p_ret.
Qed.

Definition with_keys (m : Surf.Mode) (joint : list N) (c : SSL) : SSL :=
  let c := with_mode m (set_exch (set_key_store (key_share_bytes (exch c)) (exch c)) c) in
  set_exch (set_key_share_bytes joint (exch c)) c.

Lemma p_comm t r m joint c o d : (forall l, reply l (Shaking GetEnv) = (t, r)) -> Surf.mode_from_env t r = Some m ->
  verifier (ptrs c) = true -> is_server (exch c) = false -> negb (should_make_circuits (pre c)) || pointer HANDSHAKE_A c = true ->
  throw_state c = None -> key_share_bytes (exch c) <> [] -> length (key_share_bytes (exch c)) = length joint -> size joint <= SSL3_RT_MAX_PLAIN_LENGTH - 1 ->
  p_runs three_party_handshake_comm (mkCfg c o ((MessageHeaders.OK :: joint) ++ d)) tt
    (mkCfg (with_keys m joint c) (o ++ MessageHeaders.COLLECT :: key_share_bytes (exch c)) d).
Proof.
  intros He Hm Hv Hs Hb Ht Hk Hl Hz. unfold three_party_handshake_comm. do 2 (eapply p_bind; [apply p_gets|]). cbv beta. rewrite Hv, Hs.
  eapply p_bind; [now apply p_require|]. eapply p_bind; [apply p_modify|].
  eapply p_bind; [apply p_some, pack_message; [reflexivity | exact Hk | unfold size in *; now rewrite Hl]|].
  eapply p_bind; [apply p_write; intros; apply writes|]. eapply p_bind; [apply (p_preprocessed t r m); assumption|]. cbv beta.
  replace (size (MessageHeaders.COLLECT :: key_share_bytes (exch c))) with (size (MessageHeaders.OK :: joint)) by (unfold size; cbn [length]; now rewrite Hl).
  eapply p_bind; [apply p_read_once; discriminate|].
  eapply p_bind; [apply p_some, unpack_message; [reflexivity | intros ->; destruct (key_share_bytes (exch c)); [contradiction | discriminate] | exact Hz]|].
  cbv beta iota. eapply p_bind; [now apply p_require|]. eapply p_bind; [apply p_modify|]. now apply p_quiet_throw.
Qed.

Lemma p_forward g bs c o d : verifier (ptrs c) = true -> is_server (exch c) = false -> throw_state c = None -> bs <> [] ->
  size (frame g bs) <= SSL3_RT_MAX_PLAIN_LENGTH - 1 ->
  p_runs (three_party_handshake_send_received_key_shares g bs) (mkCfg c o (MessageHeaders.HS_RECV :: d)) tt
    (mkCfg c (o ++ MessageHeaders.SERVER_KEY_SHARE :: frame g bs) d).
Proof.
  intros Hv Hs Ht Hb Hz. assert (Sz : size bs < 2 ^ 16) by (unfold SSL3_RT_MAX_PLAIN_LENGTH, size in *; rewrite length_frame in Hz; lia).
  unfold three_party_handshake_send_received_key_shares. eapply p_bind; [apply p_gets|]. cbv beta. rewrite Hv.
  eapply p_bind; [now apply p_require|]. eapply p_bind; [apply p_require; unfold size; destruct bs; [contradiction | reflexivity]|].
  eapply p_bind; [apply p_gets|]. cbv beta. rewrite Hs. eapply p_bind; [now apply p_require|].
  eapply p_bind; [apply p_some; now apply add_frame|]. eapply p_bind; [apply p_some, pack_message; [reflexivity | discriminate | exact Hz]|].
  eapply p_bind; [apply p_write; intros; apply writes|]. eapply p_bind; [now apply p_header|].
  unfold maybe_throw_only. eapply p_bind; [apply p_gets|]. cbv beta. rewrite Ht. apply p_ret.
Qed.

Lemma p_exchange t r m joint g bs c o d : (forall l, reply l (Shaking GetEnv) = (t, r)) -> Surf.mode_from_env t r = Some m ->
  verifier (ptrs c) = true -> is_server (exch c) = false -> negb (should_make_circuits (pre c)) || pointer HANDSHAKE_A c = true ->
  throw_state c = None -> key_share_bytes (exch c) <> [] -> length (key_share_bytes (exch c)) = length joint -> size joint <= SSL3_RT_MAX_PLAIN_LENGTH - 1 ->
  bs <> [] -> size (frame g bs) <= SSL3_RT_MAX_PLAIN_LENGTH - 1 ->
  p_runs (three_party_handshake_comm ;; three_party_handshake_send_received_key_shares g bs)
    (mkCfg c o ((MessageHeaders.OK :: joint) ++ MessageHeaders.HS_RECV :: d)) tt
    (mkCfg (with_keys m joint c) ((o ++ MessageHeaders.COLLECT :: key_share_bytes (exch c)) ++ MessageHeaders.SERVER_KEY_SHARE :: frame g bs) d).
Proof.
  intros He Hm Hv Hs Hb Ht Hk Hl Hz Hne Hf. eapply p_bind; [now apply (p_comm t r m) | now apply p_forward].
Qed.

End Runs.
End PAgree.

(** ** Both parties *)

Import Server Handshake Run.

Section Joint.
Context `{K : KeyLib}.

(** The worlds of a run: nothing is lost, a message comes in one read, the
    library draws the verifier's keys, and the environment gives a mode. *)
Record AgreeRun (Wp : Session.World) (Wv : World) {inv : list N} {St : Stream Wv inv} (draw : N -> N) (first second : list N) : Prop := {
  ag_writes : forall l bs, @Session.reply Wp l (Session.SslWrite bs) = true;
  ag_mode : exists t r m, (forall l, @Session.reply Wp l (Session.Shaking Session.GetEnv) = (t, r)) /\ Surf.mode_from_env t r = Some m;
  ag_answers : forall l bs, @reply Wv l (AWrite bs) = true;
  ag_pending : forall l, (length inv <= pos l)%nat -> @reply Wv l APending = 0;
  ag_drawn : forall l g, @reply Wv l (ADraw g) = draw g;
  ag_whole : VAgree.whole first second /\ VAgree.whole second [] }.

(** The prover has its key shares and its circuits, the verifier waits for
    the shares in a full session. *)
Record AgreeReady (c : Session.SSL) (k : Server) (x : Leg) (oy : option Leg) : Prop := {
  agr_verifier : Session.verifier (Session.ptrs c) = true;
  agr_client : Session.is_server (Session.exch c) = false;
  agr_circuits : negb (Session.should_make_circuits (Session.pre c)) || Callbacks.pointer HANDSHAKE_A c = true;
  agr_throw : Session.throw_state c = None;
  agr_bytes : Session.key_share_bytes (Session.exch c) = offer prover_octets x oy;
  agr_state : state k = READING_KS;
  agr_full : is_resumption_run (hs k) = false;
  agr_two : length (key_shares (hs k)) = 2%nat;
  agr_one : oy = None -> KeyShare.additive_share (key_share_at 1 k) = [] }.

(** The two points of the parties add up to the point of the origin server. *)
Lemma points_add (z : Leg) (s : N) P Q R :
  @EC_POINT_mul (curve z) (prover_key z * s) = Some P -> @EC_POINT_mul (curve z) (verifier_private z * s) = Some Q ->
  @EC_POINT_mul (curve z) ((prover_key z + verifier_private z) * s) = Some R -> EC_POINT_add P Q = Some R.
Proof. intros HP HQ HR. pose proof (dh z) as D. apply (dh_add _ _ _ _ _ HP HQ). now rewrite <- N.mul_add_distr_r. Qed.

(** ... which computes it from the joint public key. *)
Lemma origin_point draw (z : Leg) (o : key_share) R : LegOk draw z -> GroupID o = group z ->
  @EC_POINT_mul (curve z) ((prover_key z + verifier_private z) * @private_key _ _ _ (dh z) o) = Some R ->
  Decap o (joint_octets z) = inl (@coordinates _ _ _ (dh z) R).
Proof.
  intros Ok Ho HR. apply (@dh_decap _ _ _ (dh z) o (prover_key z + verifier_private z)); [exact Ho | exact (leg_joint _ _ Ok)|].
  now rewrite N.mul_comm.
Qed.

Definition secrets (ks : KeyShare.t) : list N * list N := (KeyShare.get_x_secret ks, KeyShare.get_y_secret ks).

(** The verifier's share after [agreed]. *)
Lemma agreed_secrets x oy i z bs xy k : length (key_shares (hs k)) = 2%nat -> VAgree.chosen x oy i z ->
  secrets (key_share_at i (VAgree.agreed x oy i z bs xy k)) = xy.
Proof.
  intros Two C. unfold secrets, VAgree.agreed, VAgree.finished, VAgree.with_shares, VAgree.with_share, key_share_at.
  cbn [hs VAgree.sending VAgree.with_peer set_state set_hs set_additive_share set_client_public_key key_shares set_key_shares set_active_key_share].
  destruct (key_shares (hs k)) as [|a [|b [|? ?]]]; try discriminate Two. destruct xy, C as [[-> ->]|(-> & -> & _)]; [destruct oy|]; reflexivity.
Qed.

End Joint.

(** C4: the joint key exchange.  The prover's calls around ClientHello and
    ServerHello and the verifier's loop from [READING_KS] to [ECTF_WAIT], each
    reading what the other writes, both return, for one curve or two.  The
    ClientHello then carries, for each curve, the sum of the two parties'
    public keys; the verifier has the coordinates of its multiple of the
    origin server's key, on the curve that the origin server chose.  The
    prover's multiple and the verifier's add up to the point that the origin
    server computes from the joint key. *)
Theorem joint_key_exchange `{K : KeyLib} {Wp : Session.World} {Wv : World} {F : Fuel} {B : MaskConstants.BlockCipher} {inp inv : list N}
    {Fd : PDial.Feed Wp inp} {St : Stream Wv inv} (sp : Session.St) (sv : Server) (preproc : bool) (draw : N -> N)
    (x : Leg) (oy : option Leg) (i : nat) (z : Leg) (origin : key_share) (bs rest : list N) (Q : @ec_point (curve z)) :
  let c := Session.ssl sp in
  let s := @private_key _ _ _ (dh z) origin in
  let first := MessageHeaders.COLLECT :: offer prover_octets x oy in
  let second := MessageHeaders.SERVER_KEY_SHARE :: frame (group z) bs in
  let answer := MessageHeaders.OK :: offer joint_octets x oy in
  AgreeRun Wp Wv draw first second -> AgreeReady c sv x oy ->
  LegOk (draw (group x)) x -> (forall y, oy = Some y -> LegOk (draw (group y)) y) -> VAgree.chosen x oy i z ->
  GroupID origin = group z -> @octets (curve z) s = Some bs -> @EC_POINT_mul (curve z) (verifier_private z * s) = Some Q ->
  size first <= SSL3_RT_MAX_PLAIN_LENGTH -> size second <= SSL3_RT_MAX_PLAIN_LENGTH ->
  skipn (PDial.got (Session.log sp)) inp = answer ++ MessageHeaders.HS_RECV :: rest ->
  skipn (pos (log sv)) inv = first ++ second -> (0 < fuel)%nat ->
  exists sp' sv',
    (Callbacks.three_party_handshake_comm ;; Callbacks.three_party_handshake_send_received_key_shares (group z) bs)%session sp = (sp', Done tt) /\
    run_loop 7 ECTF_WAIT preproc sv = (sv', Done tt) /\
    PDial.sent (Session.log sp') = PDial.sent (Session.log sp) ++ first ++ second /\
    VDial.sent (log sv') = VDial.sent (log sv) ++ answer ++ [MessageHeaders.HS_RECV] /\
    Session.key_share_bytes (Session.exch (Session.ssl sp')) = offer joint_octets x oy /\
    state sv' = ECTF_WAIT /\ active_key_share (hs sv') = i /\
    secrets (key_share_at i sv') = @coordinates _ _ _ (dh z) Q /\
    (forall P R, @EC_POINT_mul (curve z) (prover_key z * s) = Some P ->
       @EC_POINT_mul (curve z) ((prover_key z + verifier_private z) * s) = Some R ->
       EC_POINT_add P Q = Some R /\ Decap origin (joint_octets z) = inl (@coordinates _ _ _ (dh z) R)).
Proof.
  intros c s first second answer [R1 (t & r & m & R2 & R3) V1 V2 V3 [W1 W2]] [G1 G2 G3 G4 G5 K1 K2 K3 K4] Ox Oy C Ho Hb HQ S1 S2 Ep Ev Hf.
  assert (T1 : size (offer prover_octets x oy) <= SSL3_RT_MAX_PLAIN_LENGTH - 1) by (unfold first, SSL3_RT_MAX_PLAIN_LENGTH, size in *; cbn [length] in *; lia).
  assert (T2 : size (frame (group z) bs) <= SSL3_RT_MAX_PLAIN_LENGTH - 1) by (unfold second, SSL3_RT_MAX_PLAIN_LENGTH, size in *; cbn [length] in *; lia).
  assert (L : length (offer prover_octets x oy) = length (offer joint_octets x oy)) by now apply (VAgree.offer_length draw).
  assert (T3 : size (offer joint_octets x oy) <= SSL3_RT_MAX_PLAIN_LENGTH - 1) by (unfold size in *; now rewrite <- L).
  assert (exists d, LegOk d z /\ GroupID (verifier_key z) = group z) as (d & Oz & Gz).
  { assert (exists d, LegOk d z) as (d & Oz) by (destruct C as [[_ ->]|(_ & E & _)]; eauto). exists d. split; [exact Oz|].
    destruct Oz as [_ (s0 & E1 & E2) _ _]. apply (@dh_generate _ _ _ (dh z) _ _ _ _ E1 E2). }
  pose proof (@dh_decap _ _ _ (dh z) (verifier_key z) s bs Q Gz Hb HQ) as Hd.
  assert (bs <> []) as Hne. { pose proof (dh z) as D. destruct (octets_point _ _ Hb) as (? & ? & _ & _ & _ & -> & _). discriminate. }
  assert (Hp : PDial.here (PDial.mkCfg c (PDial.sent (Session.log sp)) (answer ++ MessageHeaders.HS_RECV :: rest)) sp) by now repeat split.
  assert (Hv : VDial.here (VDial.mkCfg (VDial.core sv) (VDial.sent (log sv)) (first ++ second)) sv) by now repeat split.
  destruct (VAgree.v_agree Hf draw V3 preproc x oy i z bs _ (VDial.core sv) _ V1 V2 W1 W2 Ox Oy C K1 K2 K3 K4 T1 T2 Hd sv Hv)
    as (sv' & E2 & Q1 & Q2 & _). cbn [VDial.fields VDial.said] in Q1, Q2.
  destruct (PAgree.p_exchange R1 Hf t r m (offer joint_octets x oy) (group z) bs c (PDial.sent (Session.log sp)) rest R2 R3 G1 G2 G3 G4
    ltac:(now rewrite G5) ltac:(now rewrite G5) T3 Hne T2 sp Hp) as (sp' & E1 & P1 & P2 & _).
  exists sp', sv'. cbn [PDial.fields PDial.said] in P1, P2. rewrite G5, <- app_assoc in P2.
  assert (Ehs : forall (A : Type) (f : Hs -> A), (forall h b, f (set_buffer b h) = f h) -> f (hs sv') = f (hs (VAgree.agreed x oy i z bs (@coordinates _ _ _ (dh z) Q) (VDial.core sv)))).
  { intros A f Hfb. rewrite <- Q1. unfold VDial.core. cbn [hs set_log set_rounds set_bandwidth set_hs]. now rewrite Hfb. }
  repeat (split; [assumption|]). split; [rewrite P1; reflexivity|]. split; [exact (f_equal state Q1)|].
  split; [rewrite (Ehs _ active_key_share); reflexivity|]. split.
  + unfold key_share_at. rewrite (Ehs _ (fun h => nth i (key_shares h) KeyShare.empty)) by reflexivity. now apply agreed_secrets.
  + intros P R HP HR. split; [exact (points_add z s P Q R HP HQ HR) | exact (origin_point d z origin R Oz Ho HR)].
Qed.

(** ** A run over two curves *)

Module AgreeExample.

(** Two records: a read does not go past the end of a record. *)
Section Paced.
Context (first second : list N).

Definition left_at (p : nat) : nat := (if p <? length first then length first - p else length first + length second - p)%nat.
Definition step_at (p : nat) (n : N) : nat := Nat.min (N.to_nat n) (left_at p).
Definition at_log (l : list Action) : nat :=
  fold_right (fun a p => match a with ARead n => p + step_at p n | _ => p end)%nat 0%nat l.

Definition paced_world : World := fun l a =>
  match a as a return Reply a with
  | ARead n => match firstn (step_at (at_log l) n) (skipn (at_log l) (first ++ second)) with [] => Closed | bs => Got bs end
  | a => stream_world [] l a
  end.

Definition paced_stream : Stream paced_world (first ++ second).
Proof.
  refine {| pos := at_log |}.
  - intros l n Hn Hp. exists (step_at (at_log l) n). cbn [reply paced_world]. rewrite length_app in Hp.
    assert (L : (0 < step_at (at_log l) n)%nat).
    { unfold step_at, left_at. destruct (Nat.ltb_spec (at_log l) (length first)); lia. }
    split; [exact L|]. split; [unfold step_at; lia|]. split; [|reflexivity].
    destruct (firstn _ _) as [|b r] eqn:E; [|reflexivity].
    apply (f_equal (@length N)) in E. rewrite length_firstn, length_skipn, length_app in E. cbn in E. lia.
  - intros l a Ha. destruct a; try discriminate Ha; reflexivity.
Defined.

Lemma paced_whole msg rest p : (p = 0%nat /\ msg = first /\ rest = second \/ p = length first /\ msg = second /\ rest = []) ->
  size first <= buffer_size -> size second <= buffer_size -> msg <> [] -> second <> [] ->
  firstn (step_at p buffer_size) (skipn p (first ++ second)) = msg /\ skipn (p + step_at p buffer_size) (first ++ second) = rest.
Proof.
  intros C S1 S2 Hm Hs. unfold size in S1, S2.
  assert (L1 : msg = first -> (0 < length first)%nat) by (intros <-; destruct msg; [contradiction | cbn; lia]).
  unfold step_at, left_at. destruct C as [(-> & -> & ->)|(-> & -> & ->)].
  - rewrite (proj2 (Nat.ltb_lt _ _)), Nat.sub_0_r, Nat.min_r by (auto || lia). cbn [skipn Nat.add]. now rewrite firstn_exact, skipn_exact.
  - rewrite Nat.ltb_irrefl, Nat.min_r by lia. rewrite skipn_exact by reflexivity. rewrite firstn_all2 by lia. split; [reflexivity|].
    apply skipn_all2. rewrite length_app. lia.
Qed.

Lemma at_log_bound l : (at_log l <= length first + length second)%nat.
Proof.
  induction l as [|a l IH]; [cbn; lia|]. destruct a; try exact IH. cbn [at_log fold_right]. fold (at_log l).
  unfold step_at, left_at. destruct (Nat.ltb_spec (at_log l) (length first)); lia.
Qed.

Lemma whole_first : 0 < size first <= buffer_size -> 0 < size second <= buffer_size ->
  @VAgree.whole paced_world _ paced_stream first second /\ @VAgree.whole paced_world _ paced_stream second [].
Proof.
  intros H1 H2. unfold size in H1, H2. assert (N1 : first <> []) by (intros E; rewrite E in H1; cbn in H1; lia).
  assert (N2 : second <> []) by (intros E; rewrite E in H2; cbn in H2; lia).
  assert (P : forall l (t : list N), skipn (at_log l) (first ++ second) = t -> (at_log l + length t = length first + length second)%nat).
  { intros l t <-. pose proof (at_log_bound l). rewrite length_skipn, length_app. lia. }
  split; intros l E; cbn [pos paced_stream] in *; specialize (P l _ E); rewrite length_app in P; cbn [length] in P.
  - destruct (paced_whole first second (at_log l)) as [A D]; [left; repeat split; lia | unfold size; lia | unfold size; lia | assumption..|].
    cbn [reply paced_world]. rewrite A. split; [destruct first; [contradiction | reflexivity] | exact D].
  - destruct (paced_whole second [] (at_log l)) as [A D]; [right; repeat split; lia | unfold size; lia | unfold size; lia | assumption..|].
    cbn [reply paced_world]. rewrite A. split; [destruct second; [contradiction | reflexivity] | exact D].
Qed.

End Paced.

Definition toy_dh (g : N) : @ECDH toy_lib g Z7.
Proof.
  refine {| private_key := fun s : @key_share (@kl_share toy_lib) => snd s; coordinates := fun P : @ec_point Z7 => ([P], [0]); dh_points := Z7_laws |}.
  - intros P Q bs cs E1 E2. injection E1 as <-. injection E2 as <-. reflexivity.
  - intros j k P Q R E1 E2 E3. injection E1 as <-. injection E2 as <-. injection E3 as <-. cbn. f_equal. symmetry. now apply N.Div0.add_mod.
  - reflexivity.
  - intros draw s0 s bs E1 E2. injection E1 as <-. injection E2 as <- <-. repeat split.
  - intros s k bs R Hg E1 E2. injection E1 as <-. injection E2 as <-. cbn. now rewrite N.Div0.mul_mod_idemp_r.
Defined.

Definition leg (g : N) : @Leg toy_lib := @mkLeg toy_lib g Z7 (toy_dh g) 2 (g, 1) [4; 2] [4; 1] [4; 3].

Lemma leg_ok g : supported g = true -> LegOk 1 (leg g).
Proof. intros H. split; [exact H | now exists (g, 1) | reflexivity | reflexivity]. Qed.

Definition x : @Leg toy_lib := leg 23.
Definition y : @Leg toy_lib := leg 24.
Definition origin : @key_share toy_share := (24, 5).

Definition first : list N := MessageHeaders.COLLECT :: offer prover_octets x (Some y).
Definition second : list N := MessageHeaders.SERVER_KEY_SHARE :: frame 24 [4; 5].
Definition answer : list N := MessageHeaders.OK :: offer joint_octets x (Some y).

Definition prover_world : Session.World := fun l a =>
  match a as a return Session.Reply a with
  | Session.SslRead n => PDial.feed_reply (answer ++ [MessageHeaders.HS_RECV]) l n
  | a => build_world l a
  end.

Definition ssl : Session.SSL :=
  let c := zero_ssl Surf.Masked false in
  let c := Session.set_pre (Session.set_handshake_circuit_a (Some HANDSHAKE_A) (Session.pre c)) c in
  Session.set_exch (Session.set_key_share_bytes (offer prover_octets x (Some y)) (Session.exch c)) c.
Definition server : @Server toy_lib := ready_server Surf.Masked READING_KS empty_att.

Definition verifier_world : World := paced_world first second.
#[local] Instance feed : PDial.Feed prover_world (answer ++ [MessageHeaders.HS_RECV]) := PDial.feed_of _ _ (fun _ _ => eq_refl).
#[local] Instance stream : Stream verifier_world (first ++ second) := paced_stream first second.

Lemma agree_run : AgreeRun prover_world verifier_world (fun _ => 1) first second.
Proof.
  split; try reflexivity.
  - exists None, None. eexists. split; reflexivity.
  - apply whole_first; split; easy.
Qed.

Lemma agree_ready : AgreeReady ssl server x (Some y).
Proof. split; reflexivity || discriminate. Qed.

End AgreeExample.

Lemma joint_key_exchange_witness :
  exists sp' sv',
    (Callbacks.three_party_handshake_comm (W := AgreeExample.prover_world) (B := toy_cipher) ;;
     Callbacks.three_party_handshake_send_received_key_shares (W := AgreeExample.prover_world) (F := toy_fuel) 24 [4; 5])%session
       (Session.mkSt AgreeExample.ssl []) = (sp', Done tt) /\
    @run_loop toy_lib AgreeExample.verifier_world toy_fuel 7 ECTF_WAIT true AgreeExample.server = (sv', Done tt) /\
    Session.key_share_bytes (Session.exch (Session.ssl sp')) = offer joint_octets AgreeExample.x (Some AgreeExample.y) /\
    active_key_share (hs sv') = 1%nat /\ secrets (key_share_at 1 sv') = ([5], [0]) /\
    @Decap toy_share AgreeExample.origin [4; 3] = inl ([1], [0]).
Proof.
  destruct (@joint_key_exchange toy_lib AgreeExample.prover_world AgreeExample.verifier_world toy_fuel toy_cipher _ _ AgreeExample.feed AgreeExample.stream
    (Session.mkSt AgreeExample.ssl []) AgreeExample.server true (fun _ => 1) AgreeExample.x (Some AgreeExample.y) 1 AgreeExample.y
    AgreeExample.origin [4; 5] [] 5 AgreeExample.agree_run AgreeExample.agree_ready (AgreeExample.leg_ok 23 eq_refl))
    as (sp' & sv' & E1 & E2 & _ & _ & E3 & _ & E4 & E5 & E6).
  - intros w E. injection E as <-. now apply AgreeExample.leg_ok.
  - right. repeat split. discriminate.
  - reflexivity.
  - reflexivity.
  - reflexivity.
  - discriminate.
  - discriminate.
  - reflexivity.
  - reflexivity.
  - exact (Nat.lt_0_succ _).
  - exists sp', sv'. repeat (split; [assumption|]). exact (proj2 (E6 3 1 eq_refl eq_refl)).
Defined.
