(* ===== verification/HandshakeKeys.v ===== *)
(** * The secrets of the handshake, by both parties

    The prover's calls from [do_read_server_hello] run against the verifier's
    loop from [ECTF_WAIT] to [DERIVE_TS]: the conversion of the shared point,
    the handshake circuit, the commitment to the server's flight and the
    release of the verifier's halves. *)

From Stdlib Require Import String.
From S2P Require Import Prelude Messaging Util GHash Arrays CircuitWires Sha256 CircuitHkdf CircuitKeys KeyDerive BlockMap KeyShare ServerState ServerIO ServerHandshake ServerRecords ServerRun ServerLogic ServerProgress ServerVerify ServerWorld ServerStream.
From S2P Require Import Prover ProverProofs ProverState ProverCircuits ProverAttest ProverHandshake Preprocessing Dialogue.
From Stdlib Require Import List.
Import ListNotations ByteString.
#[local] Abbreviation length := List.length.
Local Open Scope N_scope.

(** ** The prover's side *)

Module PHello.
Import Session Channel Callbacks PDial.

(** The field updates of [store_handshake]. *)
Definition stored (o : KeyDerivation.HandshakeCircuitOut) (c : SSL) : SSL :=
  let r := shares c in
  set_server (set_key_share (KeyDerivation.hs_server_key_share o) (server c))
    (set_shares (mkShares (copy_iv (KeyDerivation.hs_iv o) (shs_iv r)) (KeyDerivation.SHTS_share o) (KeyDerivation.CHTS_share o)
       (KeyDerivation.MS_share o) (KeyDerivation.dHS_share o) (KeyDerivation.fk_s o) (rms_share r) (psk_share r)
       (client_handshake_secret r) (server_handshake_secret r)) c).

(** The share of the PSK that goes into the circuit. *)
Definition psk_in (c : SSL) : list N := if session_reused (exch c) then psk_share (shares c) else repeat 0 16.

Definition mode_byte (c : SSL) : N :=
  if session_reused (exch c) then MessageHeaders.HS_MODE_RESUMED else MessageHeaders.HS_MODE_FULL.

Definition with_x (x : list N) (c : SSL) : SSL := set_exch (set_x_key_store x (exch c)) c.

Section Runs.
Context {W : World} {F : Fuel} {B : MaskConstants.BlockCipher} {input : list N} {Fd : Feed W input}.
Context (writes : forall l bs, reply l (SslWrite bs) = true) (fuel_ok : (0 < fuel)%nat).

(** The conversion, with the P-256 circuit. *)
Definition chosen (c : SSL) : SSL :=
  set_pre (mkPre (should_make_circuits (pre c)) (ks_circuit (pre c)) (handshake_circuit_b (pre c)) (handshake_circuit_a (pre c)) (made (pre c))) c.

Lemma p_delete circuit y : p_runs (delete circuit) y tt y.
Proof.
  destruct circuit as [d|]; [|apply p_ret]. unfold delete.
  eapply p_bind; [apply (p_shake (DeleteCircuit d) tt); intros l; now destruct (reply l _) | apply p_ret].
Qed.

Lemma p_ectf secret x c o r :
  (forall l, reply l (Shaking (DoEctf secret (y_key_store (exch c)) (group_id (exch c)))) = Some x) ->
  secret <> [] -> is_server (exch c) = false -> verifier (ptrs c) = true -> throw_state c = None ->
  should_make_circuits (pre c) = true -> group_id (exch c) = Util.SSL_CURVE_SECP256R1 ->
  p_runs (derive_handshake_secret secret) (mkCfg c o (MessageHeaders.ECTF_DONE :: r)) tt
    (mkCfg (chosen (with_x x c)) (o ++ [mode_byte c; MessageHeaders.DO_ECTF]) r).
Proof.
  intros Hx Hs Hsrv Hv Ht Hm Hg. unfold derive_handshake_secret. do 2 (eapply p_bind; [apply p_gets|]).
  rewrite Hsrv, Hv. eapply p_bind; [apply p_require; destruct secret; [contradiction | reflexivity]|]. cbv zeta.
  eapply p_bind; [apply p_write; intros; apply writes|]. eapply p_bind; [exact (p_shake _ _ _ Hx)|].
  eapply p_bind; [now apply p_some|]. eapply p_bind; [apply p_modify|]. eapply p_bind; [apply p_gets|].
  cbn [pre set_exch]. rewrite Hm. eapply p_bind.
  - unfold choose_circuit. rewrite Hg. eapply p_bind; [apply p_gets|]. cbv beta. rewrite N.eqb_refl.
    do 2 (eapply p_bind; [apply p_modify|]). apply p_delete.
  - eapply p_bind; [apply p_header; [reflexivity | exact fuel_ok]|]. apply p_quiet_throw. exact Ht.
Qed.

Lemma p_store out c o r : p_runs (store_handshake out) (mkCfg c o r) tt (mkCfg (stored out c) o r).
Proof. unfold store_handshake. do 6 (eapply p_bind; [apply p_modify|]). now apply p_modify_to. Qed.

Definition no_circuit (c : SSL) : SSL := set_pre (set_ks_circuit None (pre c)) c.

(** The handshake circuit. *)
Lemma p_handshake_keys secret h mask out c o r :
  let input := {| KeyDerivation.hs_hash := h; KeyDerivation.hs_key_share := x_key_store (exch c); KeyDerivation.hs_psk_share := psk_in c |} in
  (forall l, reply l (Shaking GetHash) = Some h) -> (forall l, reply l (RandomBytes 96) = mask) ->
  (forall l, reply l (Run (derive_hs 256) (KeyDerivation.pack_handshake false input mask)) = Some out) ->
  secret <> [] -> is_server (exch c) = false -> verifier (ptrs c) = true -> throw_state c = None ->
  unsupported (group_id (exch c)) = false -> ks_circuit (pre c) = Some HANDSHAKE_A ->
  p_runs (derive_handshake_keys secret) (mkCfg c o (MessageHeaders.KS_DONE :: r)) tt
    (mkCfg (stored (KeyDerivation.handshake_out false mask out) (no_circuit c)) o r).
Proof.
  intros i Hh Hr Hrun Hs Hsrv Hv Ht Hu Hk. unfold derive_handshake_keys. do 2 (eapply p_bind; [apply p_gets|]).
  rewrite Hsrv, Hv. eapply p_bind; [apply p_require; destruct secret; [contradiction | reflexivity]|].
  rewrite Hu. eapply p_bind; [now apply p_require|].
  eapply p_bind; [exact (p_shake _ _ _ Hh)|]. eapply p_bind; [now apply p_some|].
  eapply p_bind; [apply p_gets|]. cbv zeta. eapply p_bind; [apply p_gets|]. cbv beta. rewrite Hk.
  eapply p_bind; [apply p_modify|]. apply p_scoped. eapply p_bind.
  - unfold run_handshake_circuit. eapply p_bind; [now apply p_some|]. cbn [field_size]. eapply p_bind; [now apply p_require|].
    eapply p_bind; [apply (p_act (RandomBytes 96) mask); [reflexivity | reflexivity | exact Hr]|].
    eapply p_bind; [apply (p_run _ _ _ _ Hrun) | apply p_ret].
  - eapply p_bind; [apply p_store|]. eapply p_bind; [apply p_header; [reflexivity | exact fuel_ok]|]. apply p_quiet_throw. exact Ht.
Qed.

(** The verifier's halves. *)
Definition combined (cs ss : list N) (c : SSL) : SSL :=
  set_shares (set_server_handshake_secret (shts_share (shares c) ++ ss)
    (set_client_handshake_secret (chts_share (shares c) ++ cs) (shares c))) c.

Lemma p_combine cs ss c o r : length cs = 16%nat -> length ss = 16%nat ->
  p_runs (combine_shares (MessageHeaders.CERTIFICATE_CTX_RECV :: cs ++ ss)) (mkCfg c o r) tt (mkCfg (combined cs ss c) o r).
Proof.
  intros Lc Ls. unfold combine_shares. do 2 (eapply p_bind; [apply p_require; reflexivity|]). eapply p_bind; [apply p_gets|].
  change (KeyDerivation.sub 1 16 (_ :: cs ++ ss)) with (KeyDerivation.sub 0 16 (cs ++ ss)).
  change (KeyDerivation.sub 17 16 (_ :: cs ++ ss)) with (KeyDerivation.sub (16 + 0) 16 (cs ++ ss)).
  rewrite sub_head, (sub_skip 16 0), sub_all by assumption. eapply p_bind; [apply p_modify | now apply p_modify_to].
Qed.

Lemma p_halves cs ss c o r : length cs = 16%nat -> length ss = 16%nat ->
  p_runs (buf_in <- ssl_read_once 33 ;; combine_shares buf_in)%session
    (mkCfg c o (MessageHeaders.CERTIFICATE_CTX_RECV :: cs ++ ss ++ r)) tt (mkCfg (combined cs ss c) o r).
Proof.
  intros Lc Ls. eapply p_bind; [|now apply p_combine].
  assert (L : 33 = size (MessageHeaders.CERTIFICATE_CTX_RECV :: cs ++ ss)) by (unfold size; cbn [length]; rewrite length_app, Lc, Ls; reflexivity).
  rewrite app_assoc, L. exact (p_read_once (MessageHeaders.CERTIFICATE_CTX_RECV :: cs ++ ss) c o r ltac:(discriminate)).
Qed.

(** The message of [commit_to_server_certificate]. *)
Definition flight (len : N) (span share : list N) : list N :=
  MessageHeaders.CERTIFICATE_CTX_SEND :: EncryptRequest.be_bytes 8 len ++ span ++ SHA2.sha256 share.

Definition flight_message (len : N) (span : list N) (c : SSL) : list N :=
  if session_reused (exch c) then [] else flight len span (key_share (server c)).

Definition hello_fields (x : list N) (out : KeyDerivation.HandshakeCircuitOut) (cs ss : list N) (c : SSL) : SSL :=
  combined cs ss (stored out (no_circuit (chosen (with_x x c)))).

Lemma p_hello secret x h mask out len span cs ss c o r :
  let i := {| KeyDerivation.hs_hash := h; KeyDerivation.hs_key_share := x; KeyDerivation.hs_psk_share := psk_in c |} in
  let c1 := stored (KeyDerivation.handshake_out false mask out) (no_circuit (chosen (with_x x c))) in
  (forall l, reply l (Shaking (DoEctf secret (y_key_store (exch c)) (group_id (exch c)))) = Some x) ->
  (forall l, reply l (Shaking HashMessage) = true) -> (forall l, reply l (Shaking GetHash) = Some h) ->
  (forall l, reply l (RandomBytes 96) = mask) -> (forall l, reply l (Shaking GetReadBuffer) = (len, span)) ->
  (forall l, reply l (Run (derive_hs 256) (KeyDerivation.pack_handshake false i mask)) = Some out) ->
  secret <> [] -> is_server (exch c) = false -> verifier (ptrs c) = true -> throw_state c = None ->
  should_make_circuits (pre c) = true -> group_id (exch c) = Util.SSL_CURVE_SECP256R1 ->
  handshake_circuit_a (pre c) = Some HANDSHAKE_A ->
  length cs = 16%nat -> length ss = 16%nat ->
  p_runs (server_hello_secrets secret)
    (mkCfg c o (MessageHeaders.ECTF_DONE :: MessageHeaders.KS_DONE :: MessageHeaders.CERTIFICATE_CTX_RECV :: cs ++ ss ++ r)) tt
    (mkCfg (combined cs ss c1) (o ++ [mode_byte c; MessageHeaders.DO_ECTF] ++ flight_message len span c1) r).
Proof.
  intros i c1 Hx Hm Hh Hr Hf Hrun Hs Hsrv Hv Ht Hmk Hg Ha Lc Ls. unfold server_hello_secrets.
  eapply p_bind; [now apply p_ectf|]. eapply p_bind; [exact (p_shake _ _ _ Hm)|].
  eapply p_bind; [now apply p_require|].
  eapply p_bind; [apply (p_handshake_keys secret h mask out); try assumption; cbn; now rewrite Hg|].
  do 2 (eapply p_bind; [apply p_gets|]). fold c1.
  change (verifier (ptrs c1)) with (verifier (ptrs c)). rewrite Hv. unfold flight_message.
  destruct (session_reused (exch c1)) eqn:Er; cbn [andb negb].
  - eapply p_bind; [apply p_ret|]. unfold combine_handshake_secret_shares. eapply p_bind; [apply p_gets|].
    eapply p_bind; [apply p_require; exact Hv|]. rewrite app_nil_r. now apply p_halves.
  - eapply p_bind; [|apply p_ret]. unfold commit_to_server_certificate. eapply p_bind; [apply p_gets|].
    eapply p_bind; [apply p_require; exact Hv|]. eapply p_bind; [apply p_gets|].
    eapply p_bind; [exact (p_shake _ _ _ Hf)|]. cbv beta iota.
    eapply p_bind; [apply p_write; intros; apply writes|]. rewrite (app_assoc o). now apply p_halves.
Qed.

End Runs.
End PHello.

(** ** The verifier's side *)

Module VHello.
Import Server Handshake Records Run VDial.

Section Runs.
Context `{KL : KeyLib} {W : World} {F : Fuel} {input : list N} {St : Stream W input}.
Context (writes : forall l bs, reply l (AWrite bs) = true) (fuel_ok : (8 <= fuel)%nat).

Definition active (k : Server) : KeyShare.t := key_share_at (active_key_share (hs k)) k.

(** After the conversion. *)
Definition converted (resumed : bool) (x : list N) (k : Server) : Server :=
  set_state ECTF_DONE (set_hs (set_x_secret x (set_resumed_handshake resumed (hs k))) k).

Lemma v_ectf (resumed : bool) x n r k o rest :
  (forall l, reply l (AEctf (KeyShare.get_x_secret (active k)) (KeyShare.get_y_secret (active k)) (KeyShare.get_group_id (active k)))
     = Some (x, n, r)) ->
  state k = ECTF_WAIT ->
  v_runs do_ectf (mkCfg k o ((if resumed then MessageHeaders.HS_MODE_RESUMED else MessageHeaders.HS_MODE_FULL) :: MessageHeaders.DO_ECTF :: rest))
    tt (mkCfg (converted resumed x k) o rest).
Proof.
  intros Hx Hs. unfold do_ectf.
  eapply v_bind; [apply v_read_header; [now destruct resumed | lia]|].
  eapply v_bind; [apply v_require; now destruct resumed|].
  eapply v_bind; [apply v_upd_hs; reflexivity|]. eapply v_bind; [apply v_track|].
  eapply v_bind; [apply v_expect; [reflexivity | lia]|]. eapply v_bind; [apply v_gets; reflexivity|]. cbv beta.
  eapply v_bind; [apply (@v_act _ _ _ _ (AEctf _ _ _) (Some (x, n, r))); [reflexivity | reflexivity | exact Hx]|]. cbv beta iota.
  eapply v_bind; [apply v_upd_hs; reflexivity|]. eapply v_bind; [apply v_track|]. eapply v_bind; [apply v_track_rounds|].
  replace (converted resumed x k) with (set_state (next_state ECTF_WAIT) (set_hs (set_x_secret x (set_resumed_handshake resumed (hs k))) k)) by reflexivity.
  rewrite <- Hs. destruct resumed; exact (v_advance _ _ _).
Qed.

Lemma v_answer e h k o r : (forall l, reply l (AWrite [h]) = true) ->
  v_runs (track_rounds e 1 ;; track e 1 ;; write_single_header h ;; advance) (mkCfg k o r) tt
    (mkCfg (set_state (next_state (state k)) k) (o ++ [h]) r).
Proof.
  intros Hw. eapply v_bind; [apply v_track_rounds|]. eapply v_bind; [apply v_track|].
  eapply v_bind; [now apply v_write_header | apply v_advance].
Qed.

Definition psk_in (k : Server) : list N := if resumed_handshake (hs k) then PSK_share (keys k) else repeat 0 16.

Definition scheduled (out : HandshakeOut) (k : Server) : Server :=
  set_state KS_DONE (fst (set_circuit HANDSHAKE_A false (set_keys (set_handshake_key_shares out (keys k)) k))).

Lemma v_do_ks out k o r :
  (forall l, reply l (ARun (InHandshake 0 (x_secret (hs k)) (psk_in k))) = Some out) ->
  state k = KS_WAIT -> active_key_share (hs k) = 0%nat -> has_circuit HANDSHAKE_A k = true ->
  v_runs do_ks (mkCfg k o r) tt (mkCfg (scheduled out k) o r).
Proof.
  intros Hout Hs Ha Hc. unfold do_ks. do 3 (eapply v_bind; [apply v_gets; reflexivity|]). cbv beta zeta. rewrite Ha.
  apply v_counter; [exact Hc|]. intros m. apply v_round_counter; [exact Hc|]. intros n.
  eapply v_bind; [apply (v_run_circuit (InHandshake 0 (x_secret (hs k)) (psk_in k)) out); exact Hout|].
  eapply v_bind; [apply v_upd_keys|]. eapply v_bind; [apply v_track_circuit; exact Hc|].
  eapply v_bind; [apply v_set_circuit|]. unfold scheduled. change KS_DONE with (next_state KS_WAIT). rewrite <- Hs. exact (v_advance _ _ _).
Qed.

Context (pending_ok : forall l, (reply l APending =? 0) = (length input <=? pos l)%nat).

(** After the wait for the flight. *)
Definition committed (span comm : list N) (k : Server) : Server :=
  set_state CERT_RECV (set_hs (set_transcript (transcript (hs k) ++ span) (set_server_key_comm comm (hs k))) k).

Lemma v_read_u64 v k o r : v < 2 ^ 64 ->
  v_runs read_single_u64 (mkCfg k o (EncryptRequest.be_bytes 8 v ++ r)) v (mkCfg k o r).
Proof.
  intros Hv. unfold read_single_u64. eapply v_bind.
  - assert (L : 8 = size (EncryptRequest.be_bytes 8 v)) by (unfold size; now rewrite length_be_bytes). rewrite L.
    apply v_read_exact. rewrite length_be_bytes. exact fuel_ok.
  - rewrite u64_roundtrip by exact Hv. apply v_ret.
Qed.

Lemma v_cert_full len span comm k o :
  state k = CERT_WAIT -> resumed_handshake (hs k) = false -> length comm = 32%nat ->
  size (transcript (hs k)) + len <= max_size -> (length span + 32 <= fuel)%nat ->
  v_runs do_cert_wait (mkCfg k o (MessageHeaders.CERTIFICATE_CTX_SEND :: EncryptRequest.be_bytes 8 len ++ span ++ comm)) tt
    (mkCfg (committed span comm k) o []).
Proof.
  intros Hs Hr Lc Hm Hf. assert (Hlen : size (transcript (hs k)) + len < 2 ^ 64) by (eapply N.le_lt_trans; [exact Hm | reflexivity]).
  unfold do_cert_wait. eapply v_bind; [apply v_gets; reflexivity|]. rewrite Hr. eapply v_bind.
  - unfold read_transcript_data. eapply v_bind; [apply v_expect; [reflexivity | lia]|].
    eapply v_bind; [apply v_ret|]. eapply v_bind; [apply v_read_u64; lia|]. cbv beta.
    eapply v_bind; [apply v_ret|]. eapply v_bind; [apply v_gets; reflexivity|]. cbv beta.
    rewrite wrap_small, (proj2 (N.ltb_ge _ _)) by assumption.
    apply v_transcript_loop; [exact pending_ok | | rewrite length_app; lia].
    intros E. apply (f_equal (@length N)) in E. rewrite length_app, Lc in E. cbn in E. lia.
  - eapply v_bind; [apply v_gets; reflexivity|]. cbv beta. cbn [hs set_hs more transcript set_transcript].
    assert (L : length (transcript (hs k) ++ span ++ comm) = (length (transcript (hs k) ++ span) + 32)%nat) by (rewrite app_assoc, length_app, Lc; reflexivity).
    eapply v_bind; [apply v_require, N.leb_le; unfold size; rewrite L; lia|].
    eapply v_bind; [apply v_upd_hs; reflexivity|]. eapply v_bind; [apply v_track_rounds|]. eapply v_bind; [apply v_track|].
    eapply v_bind; [apply v_upd_hs; reflexivity|]. rewrite L, Nat.add_sub, app_assoc, skipn_exact, firstn_exact by reflexivity.
    unfold committed. change CERT_RECV with (next_state CERT_WAIT). rewrite <- Hs. exact (v_advance _ _ _).
Qed.

Lemma v_cert_resumed k o r : state k = CERT_WAIT -> resumed_handshake (hs k) = true ->
  v_runs do_cert_wait (mkCfg k o r) tt (mkCfg (set_state CERT_RECV k) o r).
Proof.
  intros Hs Hr. unfold do_cert_wait. eapply v_bind; [apply v_gets; reflexivity|]. rewrite Hr.
  change CERT_RECV with (next_state CERT_WAIT). rewrite <- Hs. apply v_advance.
Qed.

Lemma v_cert_recv k o r : state k = CERT_RECV ->
  length (CHTS_share (handshake_key_shares (keys k))) = 16%nat -> length (SHTS_share (handshake_key_shares (keys k))) = 16%nat ->
  v_runs write_cert_recv (mkCfg k o r) tt
    (mkCfg (set_state DERIVE_TS k) (o ++ MessageHeaders.CERTIFICATE_CTX_RECV ::
       CHTS_share (handshake_key_shares (keys k)) ++ SHTS_share (handshake_key_shares (keys k))) r).
Proof.
  intros Hs Lc Ls. unfold write_cert_recv. eapply v_bind; [apply v_gets; reflexivity|]. cbv beta zeta.
  eapply v_bind; [apply v_write; [intros; apply writes|]|].
  { unfold size. cbn [length]. rewrite length_app, Lc, Ls. split; discriminate. }
  eapply v_bind; [apply v_track_rounds|]. eapply v_bind; [apply v_track|].
  change DERIVE_TS with (next_state CERT_RECV). rewrite <- Hs. apply v_advance.
Qed.

(** From [ECTF_WAIT] to [CERT_RECV], where the flight and the commitment are
    stored, and on to [DERIVE_TS], where the halves are sent. *)
Definition flight_fields (resumed : bool) (x : list N) (out : HandshakeOut) (span comm : list N) (k : Server) : Server :=
  let h := set_x_secret x (set_resumed_handshake resumed (hs k)) in
  set_state CERT_RECV (fst (set_circuit HANDSHAKE_A false (set_keys (set_handshake_key_shares out (keys k))
    (set_hs (if resumed then h else set_transcript (transcript h ++ span) (set_server_key_comm comm h)) k)))).

Definition hello_fields (resumed : bool) (x : list N) (out : HandshakeOut) (span comm : list N) (k : Server) : Server :=
  set_state DERIVE_TS (flight_fields resumed x out span comm k).

Lemma v_flight p (resumed : bool) x n r out len span comm k o :
  let ks := active k in
  (forall l, reply l (AEctf (KeyShare.get_x_secret ks) (KeyShare.get_y_secret ks) (KeyShare.get_group_id ks)) = Some (x, n, r)) ->
  (forall l, reply l (ARun (InHandshake 0 x (if resumed then PSK_share (keys k) else repeat 0 16))) = Some out) ->
  state k = ECTF_WAIT -> active_key_share (hs k) = 0%nat -> has_circuit HANDSHAKE_A k = true -> length comm = 32%nat ->
  size (transcript (hs k)) + len <= max_size -> (length span + 32 <= fuel)%nat ->
  v_runs (run_loop 5 CERT_RECV p)
    (mkCfg k o ((if resumed then MessageHeaders.HS_MODE_RESUMED else MessageHeaders.HS_MODE_FULL) :: MessageHeaders.DO_ECTF ::
      if resumed then [] else MessageHeaders.CERTIFICATE_CTX_SEND :: EncryptRequest.be_bytes 8 len ++ span ++ comm)) tt
    (mkCfg (flight_fields resumed x out span comm k) (o ++ [MessageHeaders.ECTF_DONE; MessageHeaders.KS_DONE]) []).
Proof.
  intros ks Hx Hout Hs Ha Hc Lm Hm Hf.
  eapply v_loop; [exact Hs | reflexivity | exact (v_ectf resumed x n r k _ _ Hx Hs)|].
  eapply v_loop; [reflexivity | reflexivity | apply v_answer; intros; apply writes|].
  eapply v_loop; [reflexivity | reflexivity | apply (v_do_ks out); [exact Hout | reflexivity | exact Ha | exact Hc]|].
  eapply v_loop; [reflexivity | reflexivity | apply v_answer; intros; apply writes|]. destruct resumed.
  - eapply v_loop; [reflexivity | reflexivity | apply v_cert_resumed; reflexivity|].
    rewrite <- !app_assoc. apply (v_stop 0 CERT_RECV p (flight_fields true x out span comm k)). reflexivity.
  - eapply v_loop; [reflexivity | reflexivity | apply v_cert_full; [reflexivity | reflexivity | exact Lm | exact Hm | exact Hf]|].
    rewrite <- !app_assoc. apply (v_stop 0 CERT_RECV p (flight_fields false x out span comm k)). reflexivity.
Qed.

Lemma v_release p (resumed : bool) x out span comm k o :
  length (CHTS_share out) = 16%nat -> length (SHTS_share out) = 16%nat ->
  v_runs (run_loop 1 DERIVE_TS p) (mkCfg (flight_fields resumed x out span comm k) o []) tt
    (mkCfg (hello_fields resumed x out span comm k) (o ++ MessageHeaders.CERTIFICATE_CTX_RECV :: CHTS_share out ++ SHTS_share out) []).
Proof.
  intros Lc Ls. eapply v_loop; [reflexivity | reflexivity | apply v_cert_recv; [reflexivity | exact Lc | exact Ls]|].
  apply (v_stop 0 DERIVE_TS p (hello_fields resumed x out span comm k)). reflexivity.
Qed.

End Runs.
End VHello.

(** ** Both parties *)

Import Server Handshake Records Run CircuitSynthesis KeyCircuits.

Section Joint.
Context {sc : Sha256Circuit} {sok : Sha256Ok sc} {ma : ModAdder} (p : N) {maok : ModAdderOk ma 256 p}.
Context `{KL : KeyLib} (Wp : Session.World) (Wv : World).

Section Inputs.
Variables (c : Session.SSL) (k : Server) (h xA xB mA mB : list N).

Let resumed := Session.session_reused (Session.exch c).

Definition in_p := {| KeyDerivation.hs_hash := h; KeyDerivation.hs_key_share := xA; KeyDerivation.hs_psk_share := PHello.psk_in c |}.
Definition psk_v : list N := if resumed then PSK_share (keys k) else repeat 0 16.
Definition in_v := {| KeyDerivation.hs_hash := []; KeyDerivation.hs_key_share := xB; KeyDerivation.hs_psk_share := psk_v |}.

(** The output of the circuit on both inputs, and what the parties keep. *)
Definition hello_out : list N :=
  Wires.exec (ProduceCombinedCircuit 256 p) 220 (KeyDerivation.pack_handshake false in_p mA) (KeyDerivation.pack_handshake true in_v mB).
Definition out_p := KeyDerivation.handshake_out false mA hello_out.
Definition out_v := KeyDerivation.handshake_out true mB hello_out.

(** The handshake secret of RFC 8446. *)
Definition hello_secret : list N :=
  Schedule.handshake_secret (PHello.psk_in c ++ psk_v) (SHA2.be_bytes 32 ((NIST.be_int xA + NIST.be_int xB) mod p)).

(** What one sends is what the other reads. *)
Definition to_verifier (len : N) (span : list N) : list N :=
  PHello.mode_byte c :: MessageHeaders.DO_ECTF ::
  if resumed then [] else PHello.flight len span (KeyDerivation.hs_server_key_share out_p).
Definition to_prover : list N :=
  MessageHeaders.ECTF_DONE :: MessageHeaders.KS_DONE :: MessageHeaders.CERTIFICATE_CTX_RECV ::
  KeyDerivation.CHTS_share out_v ++ KeyDerivation.SHTS_share out_v.

Lemma hello_shares :
  arr 16 (PHello.psk_in c) -> arr 16 psk_v -> arr 32 h -> arr 96 mA -> arr 96 mB -> arr 32 xA -> arr 32 xB ->
  NIST.be_int xA < p -> NIST.be_int xB < p ->
  let shts := Schedule.derive_secret hello_secret "s hs traffic" h in
  KeyDerivation.CHTS_share out_p ++ KeyDerivation.CHTS_share out_v = Schedule.derive_secret hello_secret "c hs traffic" h /\
  KeyDerivation.SHTS_share out_p ++ KeyDerivation.SHTS_share out_v = shts /\
  KeyDerivation.MS_share out_p ++ KeyDerivation.MS_share out_v = Schedule.master_secret hello_secret /\
  KeyDerivation.fk_s out_p = Schedule.finished_key shts /\ KeyDerivation.hs_iv out_p = Schedule.traffic_iv shts /\
  KeyDerivation.hs_server_key_share out_p = MaskConstants.xor_bytes (KeyDerivation.sub 80 16 mA) (Schedule.traffic_key shts).
Proof.
  intros HpA HpB Hh HmA HmB HxA HxB La Lb.
  destruct (handshake_secrets_joined (ma := ma) 32 p (maok := maok) (PHello.psk_in c) psk_v h [] mA mB xA xB (or_introl eq_refl)
    HpA HpB Hh HmA HmB HxA HxB La Lb) as (oA & oB & EA & EB & _ & H1 & H2 & _ & H3 & H4 & _ & H5 & _ & H6 & _).
  assert (A : oA = out_p) by (symmetry; apply some_inj; exact EA). assert (B : oB = out_v) by (symmetry; apply some_inj; exact EB).
  subst oA oB. repeat (split; [assumption|]). assumption.
Qed.

End Inputs.

(** What the two worlds answer in this part of the handshake: randomness, the
    transcript, the conversion's result for each party, the circuit run on
    both inputs; messages are accepted. *)
Record HelloRun {inv : list N} {St : Stream Wv inv} (c : Session.SSL) (k : Server) (secret h xA xB mA mB span : list N) (len : N) : Prop := {
  p_writes : forall l bs, @Session.reply Wp l (Session.SslWrite bs) = true;
  p_converts : forall l, @Session.reply Wp l (Session.Shaking (Session.DoEctf secret
    (Session.y_key_store (Session.exch c)) (Session.group_id (Session.exch c)))) = Some xA;
  p_hashes : forall l, @Session.reply Wp l (Session.Shaking Session.HashMessage) = true;
  p_hash : forall l, @Session.reply Wp l (Session.Shaking Session.GetHash) = Some h;
  p_mask : forall l, @Session.reply Wp l (Session.RandomBytes 96) = mA;
  p_flight : forall l, @Session.reply Wp l (Session.Shaking Session.GetReadBuffer) = (len, span);
  p_circuit : forall l, @Session.reply Wp l (Session.Run (Session.derive_hs 256)
    (KeyDerivation.pack_handshake false (in_p c h xA) mA)) = Some (hello_out c k h xA xB mA mB);
  v_writes : forall l bs, @reply Wv l (AWrite bs) = true;
  v_pending : forall l, (@reply Wv l APending =? 0) = (length inv <=? pos l)%nat;
  v_converts : exists n r, forall l, let ks := VHello.active k in @reply Wv l
    (AEctf (KeyShare.get_x_secret ks) (KeyShare.get_y_secret ks) (KeyShare.get_group_id ks)) = Some (xB, n, r);
  v_circuit : forall l, @reply Wv l (ARun (InHandshake 0 xB (psk_v c k))) =
    let o := out_v c k h xA xB mA mB in
    Some (mkHandshakeOut (KeyDerivation.CHTS_share o) (KeyDerivation.SHTS_share o) (KeyDerivation.MS_share o)) }.

(** The state the parties are in when the server's hello has arrived. *)
Record HelloReady (c : Session.SSL) (k : Server) : Prop := {
  ready_verifier : Session.verifier (Session.ptrs c) = true;
  ready_client : Session.is_server (Session.exch c) = false;
  ready_throw : Session.throw_state c = None;
  ready_make : Session.should_make_circuits (Session.pre c) = true;
  ready_group : Session.group_id (Session.exch c) = Util.SSL_CURVE_SECP256R1;
  ready_a : Session.handshake_circuit_a (Session.pre c) = Some HANDSHAKE_A;
  ready_iv : (4 <= length (Session.shs_iv (Session.shares c)))%nat;
  ready_psk : arr 16 (PHello.psk_in c) /\ arr 16 (psk_v c k);
  ready_state : state k = ECTF_WAIT;
  ready_active : active_key_share (hs k) = 0%nat;
  ready_circuit : has_circuit HANDSHAKE_A k = true }.

End Joint.

(** C5: from the server's hello to the keys of the handshake, for a server that
    chose P-256 where it is the first share that was offered (alone or with
    P-384), which is the only circuit the verifier builds.  The prover's calls
    in [do_read_server_hello] and the verifier's loop from [ECTF_WAIT] to
    [DERIVE_TS], each reading what the other writes, both return, in a full
    and in a resumed handshake.  The prover then holds the client's and the
    server's handshake traffic secret of RFC 8446 for the joint x coordinate,
    PSK and transcript, the server's finished key and IV; the parties hold the
    halves of the master secret; neither has the circuit any more.  The
    verifier's loop comes through [CERT_RECV]: there it has sent nothing but
    its two acknowledgements, and in a full handshake it has stored the flight
    and the commitment to the prover's share of the server's key; it sends its
    halves only in the round after. *)
Theorem handshake_secrets_delivered {sc : Sha256Circuit} {sok : Sha256Ok sc} {ma : ModAdder} (p : N) {maok : ModAdderOk ma 256 p}
    `{KL : KeyLib} {Wp : Session.World} {Wv : World} {F : Fuel} {B : MaskConstants.BlockCipher} {inp inv : list N}
    {Fd : PDial.Feed Wp inp} {St : Stream Wv inv} (sp : Session.St) (sv : Server) (preproc : bool)
    (secret h xA xB mA mB span rest : list N) (len : N) :
  let c := Session.ssl sp in
  let hs_secret := hello_secret p c sv xA xB in
  let shts := Schedule.derive_secret hs_secret "s hs traffic" h in
  let msg_p := to_prover p c sv h xA xB mA mB in
  let msg_v := to_verifier p c sv h xA xB mA mB len span in
  HelloRun p Wp Wv c sv secret h xA xB mA mB span len -> HelloReady c sv ->
  arr 32 h -> arr 96 mA -> arr 96 mB -> arr 32 xA -> arr 32 xB -> NIST.be_int xA < p -> NIST.be_int xB < p -> secret <> [] ->
  skipn (PDial.got (Session.log sp)) inp = msg_p ++ rest -> skipn (pos (log sv)) inv = msg_v ->
  size (transcript (hs sv)) + len <= max_size -> (length span + 32 <= fuel)%nat ->
  exists sp' sm sv',
    Callbacks.server_hello_secrets secret sp = (sp', Done tt) /\ run_loop 6 DERIVE_TS preproc sv = (sv', Done tt) /\
    run_loop 5 CERT_RECV preproc sv = (sm, Done tt) /\ run_loop 1 DERIVE_TS preproc sm = (sv', Done tt) /\
    VDial.sent (log sm) = VDial.sent (log sv) ++ [MessageHeaders.ECTF_DONE; MessageHeaders.KS_DONE] /\
    (Session.session_reused (Session.exch c) = false ->
       transcript (hs sm) = transcript (hs sv) ++ span /\
       server_key_comm (hs sm) = SHA2.sha256 (MaskConstants.xor_bytes (KeyDerivation.sub 80 16 mA) (Schedule.traffic_key shts))) /\
    PDial.sent (Session.log sp') = PDial.sent (Session.log sp) ++ msg_v /\ VDial.sent (log sv') = VDial.sent (log sv) ++ msg_p /\
    (let r := Session.shares (Session.ssl sp') in
     Session.client_handshake_secret r = Schedule.derive_secret hs_secret "c hs traffic" h /\
     Session.server_handshake_secret r = shts /\
     Session.fk_s r = Schedule.finished_key shts /\ skipn 4 (Session.shs_iv r) = Schedule.traffic_iv shts /\
     Session.ms_share r ++ MS_share (handshake_key_shares (keys sv')) = Schedule.master_secret hs_secret) /\
    Session.ks_circuit (Session.pre (Session.ssl sp')) = None /\ has_circuit HANDSHAKE_A sv' = false /\ state sv' = DERIVE_TS /\
    (Session.session_reused (Session.exch c) = false ->
       transcript (hs sv') = transcript (hs sv) ++ span /\
       server_key_comm (hs sv') = SHA2.sha256 (MaskConstants.xor_bytes (KeyDerivation.sub 80 16 mA) (Schedule.traffic_key shts))).
Proof.
  intros c hs_secret shts msg_p msg_v R G Hh HmA HmB HxA HxB La Lb Hs Ep Ev Hm Hf.
  assert (F0 : (0 < fuel)%nat) by lia. assert (F8 : (8 <= fuel)%nat) by lia.
  destruct R as [R1 R2 R3 R4 R5 R6 R7 V1 V2 (n & r & V3) V4]. destruct G as [G1 G2 G3 G4 G5 G6 G8 [G9 G9'] K1 K2 K3].
  pose proof (hello_shares p c sv h xA xB mA mB G9 G9' Hh HmA HmB HxA HxB La Lb) as (S1 & S2 & S3 & S4 & S5 & S6).
  set (oA := out_p p c sv h xA xB mA mB) in *. set (oB := out_v p c sv h xA xB mA mB) in *.
  assert (Lc : length (KeyDerivation.CHTS_share oB) = 16%nat) by reflexivity.
  assert (Ls : length (KeyDerivation.SHTS_share oB) = 16%nat) by reflexivity.
  assert (Hp : PDial.here (PDial.mkCfg c (PDial.sent (Session.log sp)) (msg_p ++ rest)) sp) by now repeat split.
  assert (Hv : VDial.here (VDial.mkCfg (VDial.core sv) (VDial.sent (log sv)) msg_v) sv) by now repeat split.
  unfold msg_p, to_prover in Hp. fold oB in Hp. cbn [app] in Hp. rewrite <- app_assoc in Hp.
  destruct (PHello.p_hello R1 F0 secret xA h mA _ len span _ _ c _ rest R2 R3 R4 R5 R6 R7 Hs G2 G1 G3 G4 G5 G6 Lc Ls sp Hp)
    as (sp' & E1 & P1 & P2 & _).
  set (out := mkHandshakeOut (KeyDerivation.CHTS_share oB) (KeyDerivation.SHTS_share oB) (KeyDerivation.MS_share oB)) in *.
  assert (Lm : length (SHA2.sha256 (KeyDerivation.hs_server_key_share oA)) = 32%nat) by apply sha256_arr.
  pose proof (VHello.v_flight V1 F8 V2 preproc (Session.session_reused (Session.exch c)) xB n r out len span _
    (VDial.core sv) (VDial.sent (log sv)) V3 V4 K1 K2 K3 Lm Hm Hf sv Hv) as (sm & Em & Hm').
  pose proof (VHello.v_release V1 preproc _ _ out span _ (VDial.core sv) _ Lc Ls sm Hm') as (sv' & Er & Q1 & Q2 & _).
  pose proof (run_loop_cut CERT_RECV DERIVE_TS preproc 1 ltac:(discriminate) 5 sv sm sv' Em Er) as E2. destruct Hm' as (M1 & M2 & _).
  cbn [PDial.fields PDial.said VDial.fields VDial.said] in *. exists sp', sm, sv'. split; [exact E1|]. split; [exact E2|].
  split; [exact Em|]. split; [exact Er|]. split; [exact M2|]. split.
  { assert (H1 : transcript (hs sm) = transcript (hs (VDial.core sm))) by reflexivity.
    assert (H2 : server_key_comm (hs sm) = server_key_comm (hs (VDial.core sm))) by reflexivity.
    rewrite M1 in H1, H2. rewrite H1, H2. intros Hr. unfold VHello.flight_fields. rewrite Hr.
    split; [reflexivity | exact (f_equal SHA2.sha256 S6)]. }
  rewrite <- app_assoc in Q2.
  split; [exact P2|]. split; [exact Q2|].
  assert (K : keys sv' = keys (VDial.core sv')) by reflexivity. assert (X : has_circuit HANDSHAKE_A sv' = has_circuit HANDSHAKE_A (VDial.core sv')) by reflexivity.
  assert (T : state sv' = state (VDial.core sv')) by reflexivity.
  assert (H1 : transcript (hs sv') = transcript (hs (VDial.core sv'))) by reflexivity.
  assert (H2 : server_key_comm (hs sv') = server_key_comm (hs (VDial.core sv'))) by reflexivity.
  rewrite Q1 in K, X, T, H1, H2. rewrite P1, K, X, T, H1, H2. split.
  { cbv zeta. split; [exact S1|]. split; [exact S2|]. split; [exact S4|]. split; [|exact S3].
    transitivity (KeyDerivation.hs_iv oA); [|exact S5]. apply (skipn_exact 4). now apply firstn_length_le. }
  split; [reflexivity|]. split; [apply Preprocessing.has_circuit_set|]. split; [reflexivity|].
  intros Hr. unfold VHello.hello_fields, VHello.flight_fields. rewrite Hr. split; [reflexivity|]. exact (f_equal SHA2.sha256 S6).
Qed.

(** ** A run *)

Module HelloExample.

Definition span : list N := [22; 3; 3].
Definition h : list N := repeat 3 32.
Definition xA : list N := SHA2.be_bytes 32 5.
Definition xB : list N := SHA2.be_bytes 32 7.
Definition mA : list N := repeat 4 96.
Definition mB : list N := repeat 5 96.

Definition ssl : Session.SSL :=
  let c := zero_ssl Surf.Masked false in
  Session.set_pre (Session.set_handshake_circuit_a (Some HANDSHAKE_A) (Session.set_handshake_circuit_b (Some HANDSHAKE_B) (Session.pre c))) c.
Definition server : @Server toy_lib := ready_server Surf.Masked ECTF_WAIT empty_att.

#[local] Instance adder : ModAdder := reference_adder 256.
#[local] Instance fuel_enough : Fuel := toy_fuel.

Definition out : list N := hello_out (sc := reference_sha) P256 ssl server h xA xB mA mB.
Definition input_p : list N := to_prover (sc := reference_sha) P256 ssl server h xA xB mA mB.
Definition input_v : list N := to_verifier (sc := reference_sha) P256 ssl server h xA xB mA mB 3 span.

Definition prover_world : Session.World := fun l a =>
  match a as a return Session.Reply a with
  | Session.SslRead n => PDial.feed_reply input_p l n
  | Session.RandomBytes n => repeat 4 n
  | Session.Run _ _ => Some out
  | Session.Shaking (Session.DoEctf _ _ _) => Some xA
  | Session.Shaking Session.GetHash => Some h
  | Session.Shaking Session.GetReadBuffer => (3, span)
  | a => build_world l a
  end.

Definition decode (i : CircuitIn) : CircuitOut i :=
  match i as i return CircuitOut i with
  | InHandshake _ _ _ =>
      let o := KeyDerivation.handshake_out true mB out in
      mkHandshakeOut (KeyDerivation.CHTS_share o) (KeyDerivation.SHTS_share o) (KeyDerivation.MS_share o)
  | i => toy_circuit i
  end.

Definition verifier_world : World := fun l a =>
  match a as a return Reply a with
  | ARun i => Some (decode i)
  | AEctf _ _ _ => Some (xB, 1, 1)
  | APending => if (length input_v <=? N.to_nat (N.min (asked l) (size input_v)))%nat then 0 else 1
  | a => stream_world input_v l a
  end.

#[local] Instance feed : PDial.Feed prover_world input_p := PDial.feed_of _ _ (fun _ _ => eq_refl).
#[local] Instance stream : Stream verifier_world input_v := VDial.stream_of _ _ (fun _ _ => eq_refl).

Lemma hello_run : HelloRun (sc := reference_sha) P256 prover_world verifier_world ssl server [1] h xA xB mA mB span 3.
Proof.
  split; try reflexivity.
  - intros l. unfold reply, verifier_world, pos, stream, VDial.stream_of. now destruct (length input_v <=? _)%nat.
  - now exists 1, 1.
Qed.

Lemma hello_ready : HelloReady ssl server.
Proof. split; try reflexivity; [apply Nat.leb_le; reflexivity|]. split; apply (arr_repeat 16). Qed.

End HelloExample.

Lemma handshake_secrets_delivered_witness :
  exists sp' sm sv',
    Callbacks.server_hello_secrets (W := HelloExample.prover_world) (F := toy_fuel)
      [1] (Session.mkSt HelloExample.ssl []) = (sp', Done tt) /\
    @run_loop toy_lib HelloExample.verifier_world toy_fuel 5 CERT_RECV true HelloExample.server = (sm, Done tt) /\
    @run_loop toy_lib HelloExample.verifier_world toy_fuel 1 DERIVE_TS true sm = (sv', Done tt) /\
    Session.client_handshake_secret (Session.shares (Session.ssl sp')) =
      Schedule.derive_secret (hello_secret P256 HelloExample.ssl HelloExample.server HelloExample.xA HelloExample.xB) "c hs traffic"
        HelloExample.h.
Proof.
  destruct (@handshake_secrets_delivered reference_sha _ HelloExample.adder P256 (reference_adds 256 P256 eq_refl) toy_lib
    HelloExample.prover_world HelloExample.verifier_world toy_fuel toy_cipher _ _ HelloExample.feed HelloExample.stream
    (Session.mkSt HelloExample.ssl []) HelloExample.server true [1] HelloExample.h HelloExample.xA HelloExample.xB
    HelloExample.mA HelloExample.mB HelloExample.span [] 3 HelloExample.hello_run HelloExample.hello_ready
    (arr_const 32 3 eq_refl) (arr_const 96 4 eq_refl) (arr_const 96 5 eq_refl) (be_bytes_arr 32 5) (be_bytes_arr 32 7))
    as (sp' & sm & sv' & E1 & E2 & Em & Er & _ & _ & _ & _ & (E3 & _) & _).
  - reflexivity.
  - reflexivity.
  - discriminate.
  - symmetry. apply app_nil_r.
  - reflexivity.
  - discriminate.
  - apply Nat.leb_le. reflexivity.
  - exists sp', sm, sv'. exact (conj E1 (conj Em (conj Er E3))).
Defined.
