(* ===== verification/TrafficKeys.v ===== *)
(** * The traffic keys, by both parties

    The prover's calls from [do_read_server_finished] run against the
    verifier's loop from [DERIVE_TS] to [DERIVE_RES]: the traffic circuit and
    the shares of the powers of both hash keys.  What they leave is what the
    record layer starts from. *)

From Stdlib Require Import String.
From S2P Require Import Prelude Block128 FieldCode F2128MtA F2128Shares F2128Powers F2128Claims Messaging Util GHash Arrays CircuitWires CircuitGcm Sha256 CircuitHkdf CircuitKeys KeyDerive BlockMap KeyShare ServerState ServerIO ServerHandshake ServerRecords ServerRun ServerLogic ServerVerify ServerWorld ServerStream.
From S2P Require Import Prover ProverProofs ProverState ProverCircuits ProverShares ProverAttest ProverHandshake Preprocessing Dialogue.
From Stdlib Require Import List.
Import ListNotations ByteString.
#[local] Abbreviation length := List.length.
Local Open Scope N_scope.

(** ** The prover's side *)

Module PFinished.
Import Session Channel Callbacks PDial.

(** The field updates of [store_traffic]. *)
Definition stored (o : KeyDerivation.TrafficCircuitOut) (c : SSL) : SSL :=
  set_server (mkDir (KeyDerivation.SATS_share o) (KeyDerivation.server_key_share o)
      (copy_iv (KeyDerivation.server_iv o) (iv (server c))) (gcm_share (server c)))
    (set_client (mkDir (KeyDerivation.CATS_share o) (KeyDerivation.client_key_share o)
      (copy_iv (KeyDerivation.client_iv o) (iv (client c))) (gcm_share (client c))) c).

Definition with_powers (pc ps : list N) (c : SSL) : SSL :=
  let c := set_server (set_gcm_share ps (server c)) (set_client (set_gcm_share pc (client c)) c) in
  if Handshake.is_rotate (surf_mode c) then c else set_ptrs (set_gcm_circuit false (ptrs c)) c.

Lemma with_powers_fields pc ps c : client (with_powers pc ps c) = set_gcm_share pc (client c) /\
  server (with_powers pc ps c) = set_gcm_share ps (server c) /\ pre (with_powers pc ps c) = pre c.
Proof. unfold with_powers. cbv zeta. now destruct (Handshake.is_rotate _). Qed.

(** The bandwidth message. *)
Definition bandwidth_bytes (n : N) : list N := tabulate 8 (fun i => wrap 8 (N.shiftr n (8 * N.of_nat i))).

Section Runs.
Context {W : World} {F : Fuel} {B : MaskConstants.BlockCipher} {input : list N} {Fd : Feed W input}.
Context (writes : forall l bs, reply l (SslWrite bs) = true) (fuel_ok : (0 < fuel)%nat).

Lemma p_traffic h mask out c o r :
  let i := {| KeyDerivation.ts_hash := h; KeyDerivation.ts_ms_share := ms_share (shares c) |} in
  (forall l, reply l (Shaking GetHash) = Some h) -> (forall l, reply l (RandomBytes 64) = mask) ->
  (forall l, reply l (Run derive_ts_key (KeyDerivation.pack_traffic false i mask)) = Some out) ->
  verifier (ptrs c) = true -> pointer TRAFFIC c = true -> throw_state c = None ->
  p_runs derive_traffic_keys (mkCfg c o r) tt
    (mkCfg (stored (KeyDerivation.traffic_out false mask out) (set_pointer TRAFFIC false c)) (o ++ [MessageHeaders.DERIVE_TS]) r).
Proof.
  intros i Hh Hm Hrun Hv Hp Ht. unfold derive_traffic_keys. eapply p_bind; [apply p_gets|]. rewrite Hv.
  eapply p_bind; [now apply p_require|]. eapply p_bind; [apply p_write; intros; apply writes|]. eapply p_bind; [apply p_gets|].
  eapply p_bind; [exact (p_shake _ _ _ Hh)|]. eapply p_bind; [now apply p_some|]. eapply p_bind; [now apply p_take|].
  apply p_scoped. eapply p_bind.
  - unfold run_traffic_circuit. eapply p_bind; [now apply p_some|].
    eapply p_bind; [exact (p_act (RandomBytes 64) mask _ eq_refl eq_refl Hm)|].
    eapply p_bind; [exact (p_run _ _ _ _ Hrun) | apply p_ret].
  - eapply p_bind; [unfold store_traffic; do 5 (eapply p_bind; [apply p_modify|]); apply p_modify_to; reflexivity|].
    now apply p_quiet_throw.
Qed.

Lemma p_make_gcm_share ka mask x powers n c o r :
  (forall l, sent l = o -> reply l (RandomBytes 16) = mask) ->
  (forall l, sent l = o -> reply l (Run Session.derive_gcm_shares (Circuits.pack_gcm_share ka mask)) = Some x) ->
  (forall l, sent l = o -> reply l (GenerateShares false (Circuits.mta_input false mask x)) = Some (powers, n)) ->
  p_runs (Circuits.make_gcm_share true false ka) (mkCfg c o r) (powers_of_blocks powers) (mkCfg c (o ++ bandwidth_bytes n) r).
Proof.
  intros Hm Hx Hg. unfold Circuits.make_gcm_share.
  eapply p_bind; [exact (p_act_at (RandomBytes 16) mask (mkCfg c o r) eq_refl eq_refl Hm)|].
  eapply p_bind; [exact (p_run_at _ _ _ (mkCfg c o r) Hx)|].
  eapply p_bind; [exact (p_act_at (GenerateShares false _) (Some (powers, n)) (mkCfg c o r) eq_refl eq_refl Hg)|]. cbv iota beta.
  eapply p_bind; [exact (p_write (bandwidth_bytes n) c o r (fun l => writes l _)) | apply p_ret].
Qed.

Lemma p_gcm_shares mc ms xc xs qc qs nc ns c o r :
  let o1 := o ++ [MessageHeaders.GCM_SHARE_START] in
  let o2 := o1 ++ bandwidth_bytes nc in
  (forall l, sent l = o1 -> reply l (RandomBytes 16) = mc) -> (forall l, sent l = o2 -> reply l (RandomBytes 16) = ms) ->
  (forall l, sent l = o1 -> reply l (Run Session.derive_gcm_shares (Circuits.pack_gcm_share (key_share (client c)) mc)) = Some xc) ->
  (forall l, sent l = o2 -> reply l (Run Session.derive_gcm_shares (Circuits.pack_gcm_share (key_share (server c)) ms)) = Some xs) ->
  (forall l, sent l = o1 -> reply l (GenerateShares false (Circuits.mta_input false mc xc)) = Some (qc, nc)) ->
  (forall l, sent l = o2 -> reply l (GenerateShares false (Circuits.mta_input false ms xs)) = Some (qs, ns)) ->
  verifier (ptrs c) = true -> gcm_circuit (ptrs c) = true -> throw_state c = None ->
  p_runs Circuits.derive_gcm_shares (mkCfg c o (MessageHeaders.GCM_SHARE_DONE :: r)) tt
    (mkCfg (with_powers (powers_of_blocks qc) (powers_of_blocks qs) c) (o2 ++ bandwidth_bytes ns) r).
Proof.
  intros o1 o2 Hmc Hms Hxc Hxs Hqc Hqs Hv Hg Ht. unfold Circuits.derive_gcm_shares.
  eapply p_bind; [apply p_gets|]. rewrite Hv, Hg. eapply p_bind; [now apply p_require|].
  eapply p_bind; [apply p_write; intros; apply writes|]. fold o1. eapply p_bind; [apply p_gets|]. cbv beta.
  eapply p_bind; [exact (p_make_gcm_share _ mc xc qc nc c o1 _ Hmc Hxc Hqc)|]. fold o2.
  eapply p_bind; [apply p_modify|]. eapply p_bind; [apply p_gets|]. cbv beta.
  eapply p_bind; [exact (p_make_gcm_share _ ms xs qs ns _ o2 _ Hms Hxs Hqs)|].
  eapply p_bind; [apply p_modify|]. eapply p_bind; [apply p_gets|]. cbv beta. unfold with_powers.
  cbn [surf_mode set_server set_client].
  destruct (Handshake.is_rotate (surf_mode c)); (eapply p_bind; [apply p_ret || apply p_modify|]);
    (eapply p_bind; [apply p_header; [reflexivity | exact fuel_ok]|]); now apply p_quiet_throw.
Qed.

(** All calls; [heads] goes before the two bandwidth messages. *)
Definition heads : list N := [MessageHeaders.DERIVE_TS; MessageHeaders.GCM_SHARE_START].

Lemma p_finished h mask out mc ms xc xs qc qs nc ns c o r :
  let i := {| KeyDerivation.ts_hash := h; KeyDerivation.ts_ms_share := ms_share (shares c) |} in
  let t := KeyDerivation.traffic_out false mask out in
  (forall l, reply l (Shaking GetHash) = Some h) -> (forall l, reply l (Shaking AdvanceSchedule) = true) ->
  (forall l, reply l (RandomBytes 64) = mask) ->
  (forall l, reply l (Run derive_ts_key (KeyDerivation.pack_traffic false i mask)) = Some out) ->
  (forall l, sent l = o ++ heads -> reply l (RandomBytes 16) = mc) ->
  (forall l, sent l = o ++ heads ++ bandwidth_bytes nc -> reply l (RandomBytes 16) = ms) ->
  (forall l, sent l = o ++ heads -> reply l (Run Session.derive_gcm_shares (Circuits.pack_gcm_share (KeyDerivation.client_key_share t) mc)) = Some xc) ->
  (forall l, sent l = o ++ heads ++ bandwidth_bytes nc -> reply l (Run Session.derive_gcm_shares (Circuits.pack_gcm_share (KeyDerivation.server_key_share t) ms)) = Some xs) ->
  (forall l, sent l = o ++ heads -> reply l (GenerateShares false (Circuits.mta_input false mc xc)) = Some (qc, nc)) ->
  (forall l, sent l = o ++ heads ++ bandwidth_bytes nc -> reply l (GenerateShares false (Circuits.mta_input false ms xs)) = Some (qs, ns)) ->
  verifier (ptrs c) = true -> pointer TRAFFIC c = true -> gcm_circuit (ptrs c) = true -> throw_state c = None ->
  p_runs server_finished_secrets (mkCfg c o (MessageHeaders.GCM_SHARE_DONE :: r)) tt
    (mkCfg (with_powers (powers_of_blocks qc) (powers_of_blocks qs) (stored t (set_pointer TRAFFIC false c)))
      (o ++ heads ++ bandwidth_bytes nc ++ bandwidth_bytes ns) r).
Proof.
  intros i t Hh Ha Hm Hrun Hmc Hms Hxc Hxs Hqc Hqs Hv Hp Hg Ht. unfold server_finished_secrets.
  replace (o ++ heads ++ bandwidth_bytes nc ++ bandwidth_bytes ns) with
    ((((o ++ [MessageHeaders.DERIVE_TS]) ++ [MessageHeaders.GCM_SHARE_START]) ++ bandwidth_bytes nc) ++ bandwidth_bytes ns)
    by (now rewrite <- !app_assoc).
  eapply p_bind; [exact (p_traffic h mask out c o _ Hh Hm Hrun Hv Hp Ht)|]. eapply p_bind; [exact (p_shake _ _ _ Ha)|].
  eapply p_bind; [now apply p_require|]. eapply p_bind; [apply p_gets|]. cbn [ptrs set_server set_client stored set_pre set_pointer].
  rewrite Hv. assert (O1 : (o ++ [MessageHeaders.DERIVE_TS]) ++ [MessageHeaders.GCM_SHARE_START] = o ++ heads) by now rewrite <- app_assoc.
  apply (p_gcm_shares mc ms xc xs); try assumption; rewrite O1, <- ?app_assoc; assumption.
Qed.

End Runs.
End PFinished.

(** ** The verifier's side *)

Module VFinished.
Import Server Handshake Records Run VDial.

Section Runs.
Context `{KL : KeyLib} {W : World} {F : Fuel} {input : list N} {St : Stream W input}.
Context (writes : forall l bs, reply l (AWrite bs) = true) (fuel_ok : (1 <= fuel)%nat).

Definition stored (out : TrafficOut) (k : Server) : Server :=
  set_state GCM_SHARE_DERIVE (set_keys (set_traffic_key_shares out (keys k)) k).

Lemma v_derive_ts out k o r :
  (forall l, reply l (ARun (InTraffic (MS_share (handshake_key_shares (keys k))))) = Some out) ->
  state k = DERIVE_TS -> has_circuit TRAFFIC k = true ->
  v_runs derive_ts (mkCfg k o (MessageHeaders.DERIVE_TS :: r)) tt (mkCfg (stored out k) o r).
Proof.
  intros Hout Hs Hc. unfold derive_ts. eapply v_bind; [now apply v_expect|]. eapply v_bind; [apply v_gets; reflexivity|]. cbv beta.
  apply v_counter; [exact Hc|]. intros m. apply v_round_counter; [exact Hc|]. intros n.
  eapply v_bind; [exact (v_run_circuit _ _ _ Hout)|]. eapply v_bind; [apply v_upd_keys|].
  eapply v_bind; [now apply v_track_circuit|]. unfold stored. change GCM_SHARE_DERIVE with (next_state DERIVE_TS).
  rewrite <- Hs. exact (v_advance _ _ _).
Qed.

Definition with_powers (pc ps : list N) (k : Server) : Server :=
  set_state GCM_SHARE_DONE (set_keys (set_server_gcm_powers ps (set_client_gcm_powers pc (keys k))) k).

Lemma v_make_gcm_share key powers n x : (forall l, reply l (AMakeGCM key) = Some (powers, n)) ->
  v_runs (make_gcm_share key) x (powers, n) x.
Proof.
  intros H. unfold make_gcm_share.
  eapply v_bind; [exact (@v_act _ _ _ _ (AMakeGCM key) (Some (powers, n)) x eq_refl eq_refl H) | apply v_ret].
Qed.

Lemma v_gcm_shares pc ps nc ns k o r :
  (forall l, reply l (AMakeGCM (client_key_share (traffic_key_shares (keys k)))) = Some (pc, nc)) ->
  (forall l, reply l (AMakeGCM (server_key_share (traffic_key_shares (keys k)))) = Some (ps, ns)) ->
  state k = GCM_SHARE_DERIVE -> has_circuit GCM_SHARE k = true ->
  v_runs derive_gcm_shares (mkCfg k o (MessageHeaders.GCM_SHARE_START :: r)) tt (mkCfg (with_powers pc ps k) o r).
Proof.
  intros Hpc Hps Hs Hc. unfold derive_gcm_shares. eapply v_bind; [now apply v_expect|].
  apply v_round_counter; [exact Hc|]. intros m. eapply v_bind; [apply v_gets; reflexivity|]. cbv beta.
  eapply v_bind; [exact (v_make_gcm_share _ _ _ _ Hpc)|]. cbv iota beta. eapply v_bind; [apply v_upd_keys|].
  eapply v_bind; [exact (v_make_gcm_share _ _ _ _ Hps)|]. cbv iota beta. eapply v_bind; [apply v_upd_keys|].
  apply v_round_counter; [exact Hc|]. intros n. eapply v_bind; [apply v_track_rounds|]. eapply v_bind; [apply v_track|].
  unfold with_powers. change GCM_SHARE_DONE with (next_state GCM_SHARE_DERIVE). rewrite <- Hs. exact (v_advance _ _ _).
Qed.

(** From [DERIVE_TS] to [DERIVE_RES]. *)
Definition finished_fields (out : TrafficOut) (pc ps : list N) (k : Server) : Server :=
  set_state DERIVE_RES (with_powers pc ps (stored out k)).

Lemma v_finished p out pc ps nc ns k o r :
  (forall l, reply l (ARun (InTraffic (MS_share (handshake_key_shares (keys k))))) = Some out) ->
  (forall l, reply l (AMakeGCM (client_key_share out)) = Some (pc, nc)) ->
  (forall l, reply l (AMakeGCM (server_key_share out)) = Some (ps, ns)) ->
  state k = DERIVE_TS -> has_circuit TRAFFIC k = true -> has_circuit GCM_SHARE k = true ->
  v_runs (run_loop 3 DERIVE_RES p) (mkCfg k o (MessageHeaders.DERIVE_TS :: MessageHeaders.GCM_SHARE_START :: r)) tt
    (mkCfg (finished_fields out pc ps k) (o ++ [MessageHeaders.GCM_SHARE_DONE]) r).
Proof.
  intros Hout Hpc Hps Hs Ht Hg.
  eapply v_loop; [exact Hs | reflexivity | now apply (v_derive_ts out)|].
  eapply v_loop; [reflexivity | reflexivity | exact (v_gcm_shares pc ps nc ns (stored out k) o r Hpc Hps eq_refl Hg)|].
  eapply v_loop; [reflexivity | reflexivity | |apply (v_stop 0 DERIVE_RES p (finished_fields out pc ps k)); reflexivity].
  eapply v_bind; [apply v_write_header; intros; apply writes | exact (v_advance _ _ _)].
Qed.

End Runs.
End VFinished.

(** ** Both parties *)

Import Server Handshake Records Run CircuitSynthesis KeyCircuits.

Lemma exec_arr C n a b : arr n (Wires.exec C n a b).
Proof. unfold Wires.exec, Wires.post_proc. apply arr_tabulate. intros i _. cbn [List.seq fold_left]. apply wrap_lt. Qed.

Section Inputs.
Context {sc : Sha256Circuit} {sok : Sha256Ok sc} `{KL : KeyLib} (c : Session.SSL) (k : Server) (h mA mB : list N).

Definition ts_in_p := {| KeyDerivation.ts_hash := h; KeyDerivation.ts_ms_share := Session.ms_share (Session.shares c) |}.
Definition ts_in_v := {| KeyDerivation.ts_hash := []; KeyDerivation.ts_ms_share := MS_share (handshake_key_shares (keys k)) |}.

(** The output of the circuit on both inputs, and what the parties keep. *)
Definition ts_output : list N :=
  Wires.exec ProduceCombinedTrafficCircuits 120 (KeyDerivation.pack_traffic false ts_in_p mA) (KeyDerivation.pack_traffic true ts_in_v mB).
Definition ts_p := KeyDerivation.traffic_out false mA ts_output.
Definition ts_v := KeyDerivation.traffic_out true mB ts_output.
Definition ts_kept : TrafficOut :=
  mkTrafficOut (KeyDerivation.client_key_share ts_v) (KeyDerivation.client_iv ts_v) (KeyDerivation.server_key_share ts_v)
    (KeyDerivation.server_iv ts_v) (KeyDerivation.CATS_share ts_v) (KeyDerivation.SATS_share ts_v).

Definition master : list N := Session.ms_share (Session.shares c) ++ MS_share (handshake_key_shares (keys k)).

Lemma ts_shares :
  arr 16 (Session.ms_share (Session.shares c)) -> arr 16 (MS_share (handshake_key_shares (keys k))) -> arr 32 h -> arr 64 mA -> arr 64 mB ->
  let cats := Schedule.derive_secret master "c ap traffic" h in
  let sats := Schedule.derive_secret master "s ap traffic" h in
  KeyDerivation.CATS_share ts_p ++ CATS_share ts_kept = cats /\ KeyDerivation.SATS_share ts_p ++ SATS_share ts_kept = sats /\
  MaskConstants.xor_bytes (KeyDerivation.client_key_share ts_p) (client_key_share ts_kept) = Schedule.traffic_key cats /\
  MaskConstants.xor_bytes (KeyDerivation.server_key_share ts_p) (server_key_share ts_kept) = Schedule.traffic_key sats /\
  KeyDerivation.client_iv ts_p = Schedule.traffic_iv cats /\ client_iv ts_kept = Schedule.traffic_iv cats /\
  KeyDerivation.server_iv ts_p = Schedule.traffic_iv sats /\ server_iv ts_kept = Schedule.traffic_iv sats.
Proof.
  intros HA HB Hh HmA HmB.
  destruct (traffic_secrets_joined _ _ h [] mA mB HA HB Hh HmA HmB) as (oA & oB & EA & EB & H).
  assert (A : oA = ts_p) by (symmetry; apply some_inj; exact EA). assert (B : oB = ts_v) by (symmetry; apply some_inj; exact EB).
  subst oA oB. exact H.
Qed.

Lemma ts_key_arrs : arr 64 mA ->
  arr 16 (KeyDerivation.client_key_share ts_p) /\ arr 16 (KeyDerivation.server_key_share ts_p) /\
  arr 16 (client_key_share ts_kept) /\ arr 16 (server_key_share ts_kept).
Proof.
  intros HmA. repeat split; first [apply (sub_arr _ _ 64 mA HmA) | apply (sub_arr _ _ 120 _ (exec_arr _ _ _ _))]; lia.
Qed.

End Inputs.

(** What the two parties draw for one [make_gcm_share], and its result. *)
Record Draws := mkDraws {
  mask_p : list N; mask_v : list N; mta_tape : F2128_MTA.Tape; blocks_p : list N; blocks_v : list N; spent_p : N; spent_v : N }.

Section Powers.
Context {bf : Wires.BristolAES} {aes : list N -> list N -> list N} {Bok : BristolOk bf aes} {ot : F2128_MTA.OTChannel}.
Context (ot_ok : F2128_MTA.OTCorrect) (Wp : Session.World) (Wv : World).

(** Both calls of [make_gcm_share]: the prover's, when it has sent [said], on
    the key share [ka], the verifier's on [kb]. *)
Record PowerRun (said ka kb : list N) (d : Draws) : Prop := {
  x := Wires.exec GcmCircuit.DeriveGCMMultiplicativeShares 16 (Circuits.pack_gcm_share ka (mask_p d)) (Circuits.pack_gcm_share kb (mask_v d));
  masks_ok : arr 16 (mask_p d) /\ arr 16 (mask_v d) /\ F2128.arr_to_block (mask_v d) <> 0;
  tape_ok : TapeOk (mta_tape d);
  masked : forall l, PDial.sent l = said -> @Session.reply Wp l (Session.RandomBytes 16) = mask_p d;
  multiplied : forall l, PDial.sent l = said -> @Session.reply Wp l (Session.Run Session.derive_gcm_shares (Circuits.pack_gcm_share ka (mask_p d))) = Some x;
  converted : F2128_MTA.generate_shares_batched (mta_tape d) (Circuits.mta_input false (mask_p d) x) (Circuits.mta_input true (mask_v d) x)
    = Some (blocks_p d, blocks_v d);
  generated_p : forall l, PDial.sent l = said -> @Session.reply Wp l (Session.GenerateShares false (Circuits.mta_input false (mask_p d) x)) = Some (blocks_p d, spent_p d);
  generated_v : forall l, @reply Wv l (AMakeGCM kb) = Some (powers_of_blocks (blocks_v d), spent_v d) }.

Lemma power_run said ka kb d : arr 16 ka -> arr 16 kb -> PowerRun said ka kb d ->
  power_shares (hash_key (aes := aes) (MaskConstants.xor_bytes ka kb)) (powers_of_blocks (blocks_p d)) (powers_of_blocks (blocks_v d)).
Proof.
  intros Ha Hb [x (Ma & Mb & M0) Ht _ _ Hc _ _].
  destruct (factors_hash_key (aes := aes) ka (mask_p d) kb (mask_v d) Ha Ma Hb Mb M0) as (Bp & Bv & E). rewrite <- E.
  exact (batched_powers ot_ok (mta_tape d) _ _ _ _ Ht Bp Bv Hc).
Qed.

End Powers.

(** What the two worlds answer: the transcript, randomness, the traffic
    circuit on both inputs, and both runs for the powers. *)
Record FinishedRun {bf : Wires.BristolAES} {ot : F2128_MTA.OTChannel} {sc : Sha256Circuit} `{KL : KeyLib} (Wp : Session.World) (Wv : World)
    (c : Session.SSL) (k : Server) (said h mA mB : list N) (dc ds : Draws) : Prop := {
  f_p_writes : forall l bs, @Session.reply Wp l (Session.SslWrite bs) = true;
  f_v_writes : forall l bs, @reply Wv l (AWrite bs) = true;
  f_hash : forall l, @Session.reply Wp l (Session.Shaking Session.GetHash) = Some h;
  f_advance : forall l, @Session.reply Wp l (Session.Shaking Session.AdvanceSchedule) = true;
  f_mask : forall l, @Session.reply Wp l (Session.RandomBytes 64) = mA;
  f_p_circuit : forall l, @Session.reply Wp l (Session.Run Session.derive_ts_key
    (KeyDerivation.pack_traffic false (ts_in_p c h) mA)) = Some (ts_output c k h mA mB);
  f_v_circuit : forall l, @reply Wv l (ARun (InTraffic (MS_share (handshake_key_shares (keys k))))) = Some (ts_kept c k h mA mB);
  f_client : PowerRun Wp Wv (said ++ PFinished.heads)
    (KeyDerivation.client_key_share (ts_p c k h mA mB)) (client_key_share (ts_kept c k h mA mB)) dc;
  f_server : PowerRun Wp Wv (said ++ PFinished.heads ++ PFinished.bandwidth_bytes (spent_p dc))
    (KeyDerivation.server_key_share (ts_p c k h mA mB)) (server_key_share (ts_kept c k h mA mB)) ds }.

Record FinishedReady `{KL : KeyLib} (c : Session.SSL) (k : Server) : Prop := {
  fin_verifier : Session.verifier (Session.ptrs c) = true;
  fin_throw : Session.throw_state c = None;
  fin_traffic : Callbacks.pointer TRAFFIC c = true;
  fin_gcm : Session.gcm_circuit (Session.ptrs c) = true;
  fin_ivs : (4 <= length (Session.iv (Session.client c)))%nat /\ (4 <= length (Session.iv (Session.server c)))%nat;
  fin_ms : arr 16 (Session.ms_share (Session.shares c)) /\ arr 16 (MS_share (handshake_key_shares (keys k)));
  fin_state : state k = DERIVE_TS;
  fin_circuits : has_circuit TRAFFIC k = true /\ has_circuit GCM_SHARE k = true }.

(** C6: from the server's Finished to the record layer.  The prover's calls in
    [do_read_server_finished] and the verifier's loop from [DERIVE_TS] to
    [DERIVE_RES] both return in an honest run, in which the verifier's masks
    are not zero and the conversions to shares of the powers are accepted on
    both sides.  In each direction the parties then hold the
    halves of the application traffic secret of RFC 8446 for the joint master
    secret and the transcript, shares whose exclusive or is the traffic key,
    the same IV, and shares of the powers of the hash key of that key, which
    is what the verification of records starts from. *)
Theorem traffic_keys_paired {bf : Wires.BristolAES} {aes : list N -> list N -> list N} {Bok : BristolOk bf aes}
    {ot : F2128_MTA.OTChannel} (ot_ok : F2128_MTA.OTCorrect) {sc : Sha256Circuit} {sok : Sha256Ok sc}
    `{KL : KeyLib} {Wp : Session.World} {Wv : World} {F : Fuel} {B : MaskConstants.BlockCipher} {inp inv : list N}
    {Fd : PDial.Feed Wp inp} {St : Stream Wv inv} (sp : Session.St) (sv : Server) (preproc : bool)
    (h mA mB rest_p rest_v : list N) (dc ds : Draws) :
  let c := Session.ssl sp in
  let cats := Schedule.derive_secret (master c sv) "c ap traffic" h in
  let sats := Schedule.derive_secret (master c sv) "s ap traffic" h in
  FinishedRun Wp Wv c sv (PDial.sent (Session.log sp)) h mA mB dc ds -> FinishedReady c sv -> arr 32 h -> arr 64 mA -> arr 64 mB ->
  skipn (PDial.got (Session.log sp)) inp = MessageHeaders.GCM_SHARE_DONE :: rest_p ->
  skipn (pos (log sv)) inv = PFinished.heads ++ rest_v -> (1 <= fuel)%nat ->
  exists sp' sv',
    Callbacks.server_finished_secrets sp = (sp', Done tt) /\ run_loop 3 DERIVE_RES preproc sv = (sv', Done tt) /\
    PDial.sent (Session.log sp') = PDial.sent (Session.log sp) ++ PFinished.heads ++
      PFinished.bandwidth_bytes (spent_p dc) ++ PFinished.bandwidth_bytes (spent_p ds) /\
    VDial.sent (log sv') = VDial.sent (log sv) ++ [MessageHeaders.GCM_SHARE_DONE] /\
    (let pc := Session.client (Session.ssl sp') in let ps := Session.server (Session.ssl sp') in
     let v := traffic_key_shares (keys sv') in
     Session.ats_share pc ++ CATS_share v = cats /\ Session.ats_share ps ++ SATS_share v = sats /\
     MaskConstants.xor_bytes (Session.key_share pc) (client_key_share v) = Schedule.traffic_key cats /\
     MaskConstants.xor_bytes (Session.key_share ps) (server_key_share v) = Schedule.traffic_key sats /\
     skipn 4 (Session.iv pc) = Schedule.traffic_iv cats /\ client_iv v = Schedule.traffic_iv cats /\
     skipn 4 (Session.iv ps) = Schedule.traffic_iv sats /\ server_iv v = Schedule.traffic_iv sats /\
     power_shares (hash_key (aes := aes) (Schedule.traffic_key cats)) (Session.gcm_share pc) (client_gcm_powers (keys sv')) /\
     power_shares (hash_key (aes := aes) (Schedule.traffic_key sats)) (Session.gcm_share ps) (server_gcm_powers (keys sv'))) /\
    Callbacks.pointer TRAFFIC (Session.ssl sp') = false /\ state sv' = DERIVE_RES.
Proof.
  intros c cats sats R G Hh HmA HmB Ep Ev Hf. assert (F0 : (0 < fuel)%nat) by lia.
  destruct R as [R1 V1 R2 R3 R4 R5 V2 Rc Rs]. destruct G as [G1 G2 G3 G4 [G5 G5'] [G6 G6'] K1 [K2 K3]].
  pose proof (ts_shares c sv h mA mB G6 G6' Hh HmA HmB) as (S1 & S2 & S3 & S4 & S5 & S6 & S7 & S8).
  destruct (ts_key_arrs c sv h mA mB HmA) as (A1 & A2 & A3 & A4).
  pose proof (power_run ot_ok Wp Wv _ _ _ dc A1 A3 Rc) as Pc. pose proof (power_run ot_ok Wp Wv _ _ _ ds A2 A4 Rs) as Ps.
  cbv zeta in *. rewrite S3 in Pc. rewrite S4 in Ps.
  assert (Hp : PDial.here (PDial.mkCfg c (PDial.sent (Session.log sp)) (MessageHeaders.GCM_SHARE_DONE :: rest_p)) sp) by now repeat split.
  assert (Hv : VDial.here (VDial.mkCfg (VDial.core sv) (VDial.sent (log sv)) (PFinished.heads ++ rest_v)) sv) by now repeat split.
  destruct Rc as [xc _ _ Mc Xc _ Gc Vc]. destruct Rs as [xs _ _ Ms Xs _ Gs Vs].
  destruct (PFinished.p_finished R1 F0 h mA _ _ _ xc xs _ _ _ _ c _ rest_p R2 R3 R4 R5 Mc Ms Xc Xs Gc Gs G1 G3 G4 G2 sp Hp) as (sp' & E1 & P1 & P2 & _).
  destruct (VFinished.v_finished V1 Hf preproc _ _ _ _ _ (VDial.core sv) _ rest_v V2 Vc Vs K1 K2 K3 sv Hv) as (sv' & E2 & Q1 & Q2 & _).
  cbn [PDial.fields PDial.said VDial.fields VDial.said] in *. exists sp', sv'.
  split; [exact E1|]. split; [exact E2|]. split; [exact P2|]. split; [exact Q2|].
  assert (K : keys sv' = keys (VDial.core sv')) by reflexivity. assert (T : state sv' = state (VDial.core sv')) by reflexivity.
  rewrite Q1 in K, T. rewrite P1, K, T.
  edestruct PFinished.with_powers_fields as (-> & -> & Q3). cbv zeta.
  assert (I : forall iv d, (4 <= length d)%nat -> skipn 4 (Callbacks.copy_iv iv d) = iv)
    by (intros iv d H; apply (skipn_exact 4); now apply firstn_length_le).
  split; [|split; [|reflexivity]].
  - split; [exact S1|]. split; [exact S2|]. split; [exact S3|]. split; [exact S4|].
    split; [refine (eq_trans _ S5); now apply I|]. split; [exact S6|]. split; [refine (eq_trans _ S7); now apply I|]. split; [exact S8|].
    split; [exact Pc | exact Ps].
  - unfold Callbacks.pointer. rewrite Q3. exact (pointer_set TRAFFIC TRAFFIC false c).
Qed.

(** ** A run *)

Lemma xor_bytes_self a : MaskConstants.xor_bytes a a = repeat 0 16.
Proof. unfold MaskConstants.xor_bytes, tabulate. cbn [List.seq map]. now rewrite !N.lxor_nilpotent. Qed.

Module FinishedExample.

Definition h : list N := repeat 3 32.
Definition mB : list N := repeat 5 64.

Definition ssl : Session.SSL :=
  let c := zero_ssl Surf.Masked false in
  Session.set_pre (Session.set_made [TRAFFIC] (Session.pre c)) c.
Definition server : @Server toy_lib :=
  let s := ready_server Surf.Masked DERIVE_TS empty_att in
  set_keys (set_handshake_key_shares (mkHandshakeOut [] [] (repeat 2 16)) (keys s)) s.

Definition ckey : list N := Schedule.traffic_key (Schedule.derive_secret (master ssl server) "c ap traffic" h).
Definition skey : list N := Schedule.traffic_key (Schedule.derive_secret (master ssl server) "s ap traffic" h).

(** The prover's masks leave the verifier with the zero block and the block of ones. *)
Definition ones : list N := repeat 1 16.
Definition mA : list N := ckey ++ MaskConstants.xor_bytes skey ones ++ repeat 4 32.

#[local] Existing Instance toy_bristol.
#[local] Existing Instance ideal_ot.

Definition outp := ts_p (sc := reference_sha) ssl server h mA mB.
Definition kept := ts_kept (sc := reference_sha) ssl server h mA mB.

Definition product (ka kb : list N) : list N :=
  Wires.exec GcmCircuit.DeriveGCMMultiplicativeShares 16 (Circuits.pack_gcm_share ka toy_mask) (Circuits.pack_gcm_share kb toy_key).
Definition powers (ka kb : list N) : list N * list N :=
  shares_of (F2128_MTA.generate_shares_batched simple_tape
    (Circuits.mta_input false toy_mask (product ka kb)) (Circuits.mta_input true toy_key (product ka kb))).

Lemma runs_mta p_in v_in : exists r, F2128_MTA.generate_shares_batched simple_tape p_in v_in = Some r.
Proof. rewrite generate_shares_batched_eq, simple_consistent. eexists. reflexivity. Qed.

Lemma converts ka kb :
  F2128_MTA.generate_shares_batched simple_tape (Circuits.mta_input false toy_mask (product ka kb))
    (Circuits.mta_input true toy_key (product ka kb)) = Some (fst (powers ka kb), snd (powers ka kb)).
Proof. unfold powers. destruct (runs_mta (Circuits.mta_input false toy_mask (product ka kb)) (Circuits.mta_input true toy_key (product ka kb))) as [r E]. exact (shares_of_some _ _ E). Qed.

Definition draws (ka kb : list N) : Draws :=
  mkDraws toy_mask toy_key simple_tape (fst (powers ka kb)) (snd (powers ka kb)) 0 1.

Definition kc_p := KeyDerivation.client_key_share outp.
Definition ks_p := KeyDerivation.server_key_share outp.
Definition kc_v := client_key_share kept.
Definition ks_v := server_key_share kept.

Definition input_p : list N := [MessageHeaders.GCM_SHARE_DONE].
Definition input_v : list N := PFinished.heads.

Definition first_call (l : list Session.Action) : bool := (length (PDial.sent l) <=? 2)%nat.

Definition prover_world : Session.World := fun l a =>
  match a as a return Session.Reply a with
  | Session.SslRead n => PDial.feed_reply input_p l n
  | Session.RandomBytes n => if (n =? 64)%nat then mA else toy_mask
  | Session.Run Session.derive_ts_key _ => Some (ts_output (sc := reference_sha) ssl server h mA mB)
  | Session.Run _ _ => Some (if first_call l then product kc_p kc_v else product ks_p ks_v)
  | Session.GenerateShares _ _ => Some (fst (if first_call l then powers kc_p kc_v else powers ks_p ks_v), 0)
  | Session.Shaking Session.GetHash => Some h
  | a => build_world l a
  end.

Definition verifier_world : World := fun l a =>
  match a as a return Reply a with
  | ARun (InTraffic _) => Some kept
  | AMakeGCM kb => Some (powers_of_blocks (snd (if kb.[0] =? 0 then powers kc_p kc_v else powers ks_p ks_v)), 1)
  | a => stream_world input_v l a
  end.

#[local] Instance feed : PDial.Feed prover_world input_p := PDial.feed_of _ _ (fun _ _ => eq_refl).
#[local] Instance stream : Stream verifier_world input_v := VDial.stream_of _ _ (fun _ _ => eq_refl).

#[local] Opaque Wires.exec KDF.expand_label MaskConstants.xor_bytes F2128_MTA.generate_shares_batched.

Lemma keys_arr : arr 16 ckey /\ arr 16 skey.
Proof. split; apply expand_label_arr. Qed.

Lemma mA_arr : arr 64 mA.
Proof.
  exact (arr_app 16 48 _ _ (proj1 keys_arr) (arr_app 16 32 _ _ (xor_bytes_arr skey ones) (arr_const 32 4 eq_refl))).
Qed.

Lemma shares_p : kc_p = ckey /\ ks_p = MaskConstants.xor_bytes skey ones.
Proof.
  destruct keys_arr as [[Lc _] _]. destruct (xor_bytes_arr skey ones) as [Lx _].
  change (KeyDerivation.sub 0 16 mA = ckey /\ KeyDerivation.sub (16 + 0) 16 mA = MaskConstants.xor_bytes skey ones).
  unfold mA. rewrite (sub_skip 16 0 16 ckey _ Lc). exact (conj (sub_head 16 ckey _ Lc) (sub_head 16 _ _ Lx)).
Qed.

Lemma shares_v : kc_v = repeat 0 16 /\ ks_v = ones.
Proof.
  pose proof (ts_shares (sc := reference_sha) ssl server h mA mB (arr_repeat 16) (arr_const 16 2 eq_refl) (arr_const 32 3 eq_refl)
    mA_arr (arr_const 64 5 eq_refl)) as (_ & _ & Sc & Ss & _).
  destruct (ts_key_arrs (sc := reference_sha) ssl server h mA mB mA_arr) as ((_ & B1) & (_ & B2) & A3 & A4).
  change (MaskConstants.xor_bytes kc_p kc_v = ckey) in Sc. change (MaskConstants.xor_bytes ks_p ks_v = skey) in Ss.
  change (bytes kc_p) in B1. change (bytes ks_p) in B2. change (arr 16 kc_v) in A3. change (arr 16 ks_v) in A4.
  destruct shares_p as [Ec Es]. split.
  - rewrite <- (xor_bytes_cancel kc_p kc_v B1 A3), Sc, Ec. apply xor_bytes_self.
  - rewrite <- (xor_bytes_cancel ks_p ks_v B2 A4), Ss, Es, xor_bytes_comm.
    apply xor_bytes_cancel; [apply keys_arr | now apply arr_const].
Qed.

Lemma masks_fine : arr 16 toy_mask /\ arr 16 toy_key /\ F2128.arr_to_block toy_key <> 0.
Proof. split; [now apply arr_const|]. split; [split; [reflexivity | repeat constructor] | discriminate]. Qed.

Lemma run_of said ka kb : (forall l, PDial.sent l = said -> (if first_call l then (kc_p, kc_v) else (ks_p, ks_v)) = (ka, kb)) ->
  (if kb.[0] =? 0 then powers kc_p kc_v else powers ks_p ks_v) = powers ka kb -> PowerRun prover_world verifier_world said ka kb (draws ka kb).
Proof.
  intros Hl Hv. split.
  - exact masks_fine.
  - exact simple_tape_ok.
  - intros l _. exact eq_refl.
  - intros l E. specialize (Hl l E). unfold Session.reply, prover_world. destruct (first_call l); injection Hl as <- <-; exact eq_refl.
  - exact (converts ka kb).
  - intros l E. specialize (Hl l E). unfold Session.reply, prover_world. destruct (first_call l); injection Hl as <- <-; exact eq_refl.
  - intros l. unfold reply, verifier_world. rewrite Hv. exact eq_refl.
Qed.

Lemma finished_run : FinishedRun (sc := reference_sha) prover_world verifier_world ssl server [] h mA mB (draws kc_p kc_v) (draws ks_p ks_v).
Proof.
  destruct shares_v as [Ec Es]. split; try reflexivity.
  - apply (run_of _ kc_p kc_v); [|rewrite Ec at 1; reflexivity]. intros l E. unfold first_call. rewrite E. reflexivity.
  - apply (run_of _ ks_p ks_v); [|rewrite Es at 1; reflexivity]. intros l E. unfold first_call. rewrite E. reflexivity.
Qed.

Lemma finished_ready : FinishedReady ssl server.
Proof.
  split; try reflexivity; [split; apply Nat.leb_le; reflexivity | | split; reflexivity].
  split; [apply (arr_repeat 16) | now apply arr_const].
Qed.

End FinishedExample.

Lemma traffic_keys_paired_witness :
  exists sp' sv',
    Callbacks.server_finished_secrets (W := FinishedExample.prover_world) (F := toy_fuel)
      (Session.mkSt FinishedExample.ssl []) = (sp', Done tt) /\
    @run_loop toy_lib FinishedExample.verifier_world toy_fuel 3 DERIVE_RES true FinishedExample.server = (sv', Done tt) /\
    MaskConstants.xor_bytes (Session.key_share (Session.server (Session.ssl sp'))) (server_key_share (traffic_key_shares (keys sv'))) =
      FinishedExample.skey.
Proof.
  destruct (@traffic_keys_paired toy_bristol _ toy_bristol_ok ideal_ot ideal_ot_correct reference_sha _ toy_lib
    FinishedExample.prover_world FinishedExample.verifier_world toy_fuel toy_cipher _ _ FinishedExample.feed FinishedExample.stream
    (Session.mkSt FinishedExample.ssl []) FinishedExample.server true FinishedExample.h FinishedExample.mA FinishedExample.mB [] [] _ _
    FinishedExample.finished_run FinishedExample.finished_ready (arr_const 32 3 eq_refl) FinishedExample.mA_arr (arr_const 64 5 eq_refl))
    as (sp' & sv' & E1 & E2 & _ & _ & (_ & _ & _ & E3 & _) & _).
  - reflexivity.
  - reflexivity.
  - apply Nat.leb_le. reflexivity.
  - exists sp', sv'. exact (conj E1 (conj E2 E3)).
Defined.
