(* ===== verification/ResumptionKeys.v ===== *)
(** * Resumption, by both parties

    The prover's calls from [do_complete_second_flight] and from the arrival
    of a ticket run against the verifier's loop from [DERIVE_RES] to
    [SHUTDOWN]; and, in the next session, the two calls that give the binder
    of the offered PSK. *)

From Stdlib Require Import String.
From S2P Require Import Prelude Messaging Util GHash Arrays CircuitWires CircuitRecords Sha256 CircuitHkdf CircuitKeys KeyDerive BlockMap KeyShare ServerState ServerIO ServerHandshake ServerRecords ServerRun ServerLogic ServerWorld ServerStream.
From S2P Require Import Prover ProverState ProverCircuits ProverAttest ProverHandshake Preprocessing Dialogue.
From Stdlib Require Import List.
Import ListNotations ByteString.
#[local] Abbreviation length := List.length.
Local Open Scope N_scope.

(** ** The prover's side *)

Module PTicket.
Import Session Channel Callbacks PDial.

Definition with_rms (v : list N) (c : SSL) : SSL := set_shares (set_rms_share v (shares c)) c.
Definition with_psk (v : list N) (c : SSL) : SSL := set_shares (set_psk_share v (shares c)) c.
Definition with_nonce (v : list N) (c : SSL) : SSL := set_exch (set_ticket_nonce v (exch c)) c.
Definition no_psk_circuits (c : SSL) : SSL :=
  set_pointer PSK_0 false (set_pointer PSK_8 false (set_pointer PSK_1 false c)).

Section Runs.
Context {W : World} {F : Fuel} {input : list N} {Fd : Feed W input}.
Context (writes : forall l bs, reply l (SslWrite bs) = true) (fuel_ok : (0 < fuel)%nat).

Lemma p_resumption h mask out c o r :
  let i := {| KeyDerivation.res_hash := h; KeyDerivation.res_ms_share := ms_share (shares c) |} in
  let o1 := o ++ [MessageHeaders.DERIVE_RES] in
  (forall l, reply l (Shaking GetHash) = Some h) -> (forall l, sent l = o1 -> reply l (RandomBytes 16) = mask) ->
  (forall l, reply l (Run derive_rms_key (KeyDerivation.pack_resumption false i mask)) = Some out) ->
  is_server (exch c) = false -> verifier (ptrs c) = true -> pointer RESUMPTION c = true -> throw_state c = None ->
  p_runs derive_resumption_keys (mkCfg c o (MessageHeaders.RES_DONE :: r)) tt
    (mkCfg (with_rms (KeyDerivation.RMS_share (KeyDerivation.resumption_out false mask out)) (set_pointer RESUMPTION false c)) o1 r).
Proof.
  intros i o1 Hh Hm Hrun Hs Hv Hp Ht. unfold derive_resumption_keys. do 2 (eapply p_bind; [apply p_gets|]). rewrite Hs, Hv.
  eapply p_bind; [now apply p_require|]. eapply p_bind; [apply p_write; intros; apply writes|]. eapply p_bind; [apply p_gets|].
  eapply p_bind; [exact (p_shake _ _ _ Hh)|]. eapply p_bind; [now apply p_some|]. eapply p_bind; [now apply p_take|].
  apply p_scoped. eapply p_bind.
  - unfold run_resumption_circuit. eapply p_bind; [now apply p_some|].
    eapply p_bind; [exact (p_act_at (RandomBytes 16) mask (mkCfg _ o1 _) eq_refl eq_refl Hm)|].
    eapply p_bind; [exact (p_run _ _ _ _ Hrun) | apply p_ret].
  - eapply p_bind; [apply p_modify|]. eapply p_bind; [apply p_header; [reflexivity | exact fuel_ok]|]. apply p_quiet_throw. exact Ht.
Qed.

Lemma p_install kl il c o r :
  (forall l, reply l (Shaking AeadLengths) = Some (Some (kl, il))) -> (kl <= 16)%nat -> (il <= 12)%nat ->
  (forall l k v, reply l (CreateContext k v) = true) -> (forall l k v, reply l (SetWriteState k v) = true) ->
  (forall l k v, reply l (Shaking (SetReadState k v)) = true) ->
  p_runs install_3p_traffic_keys (mkCfg c o r) tt (mkCfg c o r).
Proof.
  intros Hl Hk Hi Hc Hw Hr. unfold install_3p_traffic_keys. do 2 (eapply p_bind; [apply p_gets|]).
  eapply p_bind; [exact (p_shake _ _ _ Hl)|]. cbv iota. eapply p_bind; [now apply p_some|]. cbv iota beta.
  rewrite (proj2 (Nat.leb_le kl 16) Hk), (proj2 (Nat.leb_le il 12) Hi). cbn [andb negb]. cbv zeta.
  do 2 (eapply p_bind; [exact (p_act (CreateContext _ _) true _ eq_refl eq_refl (fun l => Hc l _ _))|]; eapply p_bind; [now apply p_require|]).
  eapply p_bind; [exact (p_act (SetWriteState _ _) true _ eq_refl eq_refl (fun l => Hw l _ _))|]. eapply p_bind; [now apply p_require|].
  eapply p_bind; [exact (p_shake (SetReadState _ _) true _ (fun l => Hr l _ _))|]. now apply p_require.
Qed.

(** The circuit for the width of the nonce. *)
Definition psk_circuit (width : nat) : CircuitId := match width with 0 => PSK_0 | 1 => PSK_1 | _ => PSK_8 end%nat.

Lemma p_psk header mask out c o r :
  let nonce := ticket_nonce (exch c) in
  let i := {| KeyDerivation.psk_rms_share := rms_share (shares c); KeyDerivation.ticket_nonce := nonce |} in
  let o1 := o ++ [header] in
  psk_header (length nonce) = Some header -> (forall l, sent l = o1 -> reply l (RandomBytes 16) = mask) ->
  (forall l, reply l (Run (derive_psk_key (length nonce)) (KeyDerivation.pack_psk false i mask)) = Some out) ->
  is_server (exch c) = false -> verifier (ptrs c) = true -> pointer (psk_circuit (length nonce)) c = true -> throw_state c = None ->
  p_runs derive_psk_keys (mkCfg c o (MessageHeaders.PSK_DONE :: r)) tt
    (mkCfg (with_psk (KeyDerivation.PSK_share (KeyDerivation.psk_out false mask out)) (no_psk_circuits c)) o1 r).
Proof.
  intros nonce i o1 Hw Hm Hrun Hs Hv Hp Ht. unfold derive_psk_keys. do 2 (eapply p_bind; [apply p_gets|]). rewrite Hs, Hv.
  eapply p_bind; [now apply p_require|]. eapply p_bind; [apply p_gets|]. cbv beta.
  assert (Have : pointer PSK_1 c || pointer PSK_8 c || pointer PSK_0 c = true).
  { unfold psk_circuit in Hp. destruct (length nonce) as [|[|n]]; rewrite Hp, ?orb_true_r; reflexivity. }
  rewrite Have. cbn [negb]. cbv zeta. eapply p_bind; [apply p_some; exact Hw|]. eapply p_bind; [apply p_write; intros; apply writes|].
  do 3 (eapply p_bind; [apply p_take_any|]). fold (no_psk_circuits c). do 3 apply p_scoped_any. eapply p_bind; [apply p_gets|].
  cbv beta. rewrite !pointer_set. cbn [CircuitId_eqb]. eapply p_bind.
  - unfold run_psk_circuit. eapply p_bind; [apply (p_some _ (psk_circuit (length nonce)))|].
    + fold nonce. unfold psk_circuit in *. destruct (length nonce) as [|[|n]]; rewrite Hp; reflexivity.
    + eapply p_bind; [exact (p_act_at (RandomBytes 16) mask (mkCfg _ o1 _) eq_refl eq_refl Hm)|].
      eapply p_bind; [exact (p_run _ _ _ _ Hrun) | apply p_ret].
  - eapply p_bind; [apply p_modify|]. eapply p_bind; [apply p_header; [reflexivity | exact fuel_ok]|]. apply p_quiet_throw. exact Ht.
Qed.

(** Second flight and first ticket. *)
Definition ticket_fields (rms psk nonce : list N) (c : SSL) : SSL :=
  with_psk psk (no_psk_circuits (with_nonce nonce (with_rms rms (set_pointer RESUMPTION false c)))).

Lemma p_ticket h mask res nonce header mask' out kl il c o r :
  let rms := KeyDerivation.RMS_share (KeyDerivation.resumption_out false mask res) in
  let psk := KeyDerivation.PSK_share (KeyDerivation.psk_out false mask' out) in
  (forall l, reply l (Shaking GetHash) = Some h) ->
  (forall l, sent l = o ++ [MessageHeaders.DERIVE_RES] -> reply l (RandomBytes 16) = mask) ->
  (forall l, sent l = o ++ [MessageHeaders.DERIVE_RES; header] -> reply l (RandomBytes 16) = mask') ->
  (forall l, reply l (Run derive_rms_key (KeyDerivation.pack_resumption false
    {| KeyDerivation.res_hash := h; KeyDerivation.res_ms_share := ms_share (shares c) |} mask)) = Some res) ->
  (forall l, reply l (Run (derive_psk_key (length nonce)) (KeyDerivation.pack_psk false
    {| KeyDerivation.psk_rms_share := rms; KeyDerivation.ticket_nonce := nonce |} mask')) = Some out) ->
  (forall l, reply l (Shaking AeadLengths) = Some (Some (kl, il))) -> (kl <= 16)%nat -> (il <= 12)%nat ->
  (forall l k v, reply l (CreateContext k v) = true /\ reply l (SetWriteState k v) = true /\ reply l (Shaking (SetReadState k v)) = true) ->
  psk_header (length nonce) = Some header -> is_server (exch c) = false -> verifier (ptrs c) = true -> throw_state c = None ->
  pointer RESUMPTION c = true -> pointer (psk_circuit (length nonce)) c = true ->
  p_runs (second_flight_secrets ;; session_with_ticket nonce)%session
    (mkCfg c o (MessageHeaders.RES_DONE :: MessageHeaders.PSK_DONE :: r)) psk
    (mkCfg (ticket_fields rms psk nonce c) (o ++ [MessageHeaders.DERIVE_RES; header]) r).
Proof.
  intros rms psk Hh Hm Hm' Hres Hout Hl Hk Hi Hcx Hw Hs Hv Ht Pr Pp. eapply p_bind.
  - unfold second_flight_secrets. eapply p_bind; [apply p_gets|]. rewrite Hv. eapply p_bind; [now apply (p_resumption h mask res)|].
    apply (p_install kl il); [exact Hl | exact Hk | exact Hi | | |]; intros l k v; apply Hcx.
  - unfold session_with_ticket. eapply p_bind; [apply p_modify|].
    replace (o ++ [MessageHeaders.DERIVE_RES; header]) with ((o ++ [MessageHeaders.DERIVE_RES]) ++ [header]) in * by now rewrite <- app_assoc.
    set (c1 := with_nonce nonce (with_rms rms (set_pointer RESUMPTION false c))).
    assert (P1 : pointer (psk_circuit (length nonce)) c1 = true).
    { transitivity (pointer (psk_circuit (length nonce)) (set_pointer RESUMPTION false c)).
      - unfold psk_circuit. now destruct (length nonce) as [|[|n]].
      - rewrite pointer_set. unfold psk_circuit in *. now destruct (length nonce) as [|[|n]]. }
    eapply p_bind; [exact (p_psk header mask' out c1 _ r Hw Hm' Hout Hs Hv P1 Ht)|].
    exact (p_gets (fun c => psk_share (shares c)) (ticket_fields rms psk nonce c) _ r).
Qed.

(** Without circuits there is nothing to derive. *)
Lemma psk_twice s : is_server (exch (ssl s)) = false -> verifier (ptrs (ssl s)) = true ->
  pointer PSK_1 (ssl s) = false -> pointer PSK_8 (ssl s) = false -> pointer PSK_0 (ssl s) = false -> derive_psk_keys s = (s, Done tt).
Proof.
  intros Hs Hv H1 H8 H0. unfold derive_psk_keys, bind at 1 2, gets at 1 2. rewrite Hs, Hv. unfold bind at 1, require, ret at 1.
  unfold bind at 1, gets at 1. cbn [negb andb]. now rewrite H1, H8, H0.
Qed.

Lemma no_psk_pointers rms psk nonce nonce' c k : In k [PSK_1; PSK_8; PSK_0] ->
  pointer k (with_nonce nonce' (ticket_fields rms psk nonce c)) = false.
Proof.
  intros Hk. transitivity (pointer k (no_psk_circuits (with_nonce nonce (with_rms rms (set_pointer RESUMPTION false c))))).
  - destruct Hk as [<-|[<-|[<-|[]]]]; reflexivity.
  - unfold no_psk_circuits. rewrite !pointer_set. destruct Hk as [<-|[<-|[<-|[]]]]; reflexivity.
Qed.

(** A further ticket. *)
Lemma second_ticket rms psk nonce c nonce' s : ssl s = ticket_fields rms psk nonce c ->
  is_server (exch c) = false -> verifier (ptrs c) = true ->
  exists s', session_with_ticket nonce' s = (s', Done psk) /\ log s' = log s /\ shares (ssl s') = shares (ssl s).
Proof.
  intros E Hs Hv. set (s1 := mkSt (with_nonce nonce' (ssl s)) (log s)).
  assert (P : forall k, In k [PSK_1; PSK_8; PSK_0] -> pointer k (ssl s1) = false)
    by (intros k Hk; unfold s1; cbn [ssl]; rewrite E; now apply no_psk_pointers).
  assert (T : derive_psk_keys s1 = (s1, Done tt)).
  { apply psk_twice; try (apply P; cbn; auto); unfold s1; cbn [ssl]; rewrite E; assumption. }
  exists s1. split; [|split; reflexivity]. unfold session_with_ticket, upd_exch, modify. unfold bind at 1.
  fold (with_nonce nonce' (ssl s)). fold s1. unfold bind at 1. rewrite T. unfold gets, s1. cbn [ssl]. now rewrite E.
Qed.

End Runs.
End PTicket.

(** ** The verifier's side *)

Module VTicket.
Import Server Handshake Records Run VDial.

Section Runs.
Context `{KL : KeyLib} {W : World} {F : Fuel} {input : list N} {St : Stream W input}.
Context (writes : forall l bs, reply l (AWrite bs) = true) (fuel_ok : (1 <= fuel)%nat).

Definition with_rms (rms : list N) (k : Server) : Server := set_state RES_DONE (set_keys (set_RMS_share rms (keys k)) k).

Lemma v_derive_res rms k o r :
  (forall l, reply l (ARun (InResumption (MS_share (handshake_key_shares (keys k))))) = Some rms) ->
  state k = DERIVE_RES -> has_circuit RESUMPTION k = true ->
  v_runs derive_res (mkCfg k o (MessageHeaders.DERIVE_RES :: r)) tt (mkCfg (with_rms rms k) o r).
Proof.
  intros Hout Hs Hc. unfold derive_res. eapply v_bind; [now apply v_expect|]. eapply v_bind; [apply v_gets; reflexivity|]. cbv beta.
  apply v_counter; [exact Hc|]. intros m. apply v_round_counter; [exact Hc|]. intros n.
  eapply v_bind; [exact (v_run_circuit _ _ _ Hout)|]. eapply v_bind; [apply v_upd_keys|].
  eapply v_bind; [now apply v_track_circuit|]. unfold with_rms. change RES_DONE with (next_state DERIVE_RES).
  rewrite <- Hs. exact (v_advance _ _ _).
Qed.

Lemma v_drain h k o r : Messaging.is_valid_header h = true -> request_handler h = None ->
  v_runs read_header_draining_encryption (mkCfg k o (h :: r)) h (mkCfg k o r).
Proof.
  intros Hh Hn. unfold read_header_draining_encryption. replace (drain_loop fuel) with (drain_loop (S (Nat.pred fuel))) by (f_equal; lia). cbn [drain_loop].
  eapply v_bind; [apply v_read_header; [exact Hh | exact fuel_ok]|]. rewrite Hn. apply v_ret.
Qed.

Definition with_psk (psk : list N) (k : Server) : Server :=
  set_state PSK_DONE (set_keys (set_PSK_share psk (keys k)) (set_hs (set_psk_skipped false (hs k)) k)).

Definition psk_request (h : N) : Prop :=
  h = MessageHeaders.DERIVE_PSK \/ h = MessageHeaders.DERIVE_PSK_8 \/ h = MessageHeaders.DERIVE_PSK_0.

Lemma v_derive_psk h psk k o r : psk_request h ->
  (forall l, reply l (ARun (InPsk (psk_circuit_for h) (RMS_share (keys k)))) = Some psk) ->
  state k = DERIVE_PSK -> has_circuit (psk_circuit_for h) k = true ->
  v_runs derive_psk (mkCfg k o (h :: r)) tt (mkCfg (with_psk psk k) o r).
Proof.
  intros Hh Hout Hs Hc. unfold derive_psk. eapply v_bind; [apply v_upd_hs; reflexivity|].
  eapply v_bind; [apply (v_drain h); destruct Hh as [->|[->| ->]]; reflexivity|].
  replace (h =? MessageHeaders.PSK_SKIP) with false by (destruct Hh as [->|[->| ->]]; reflexivity).
  eapply v_bind; [apply v_require; destruct Hh as [->|[->| ->]]; reflexivity|]. cbv zeta.
  eapply v_bind; [apply v_gets; reflexivity|]. cbv beta. eapply v_bind; [apply v_require; exact Hc|].
  apply v_counter; [exact Hc|]. intros m. apply v_round_counter; [exact Hc|]. intros n.
  eapply v_bind; [apply v_gets; reflexivity|]. cbv beta. eapply v_bind; [exact (v_run_circuit _ _ _ Hout)|].
  eapply v_bind; [apply v_upd_keys|]. eapply v_bind; [now apply v_track_circuit|]. unfold with_psk.
  change PSK_DONE with (next_state DERIVE_PSK). rewrite <- Hs. exact (v_advance _ _ _).
Qed.

(** From [DERIVE_RES] to [SHUTDOWN]. *)
Definition ticket_fields (rms psk : list N) (k : Server) : Server :=
  set_state SHUTDOWN (with_psk psk (with_rms rms k)).

Lemma v_ticket p h rms psk k o r : psk_request h ->
  (forall l, reply l (ARun (InResumption (MS_share (handshake_key_shares (keys k))))) = Some rms) ->
  (forall l, reply l (ARun (InPsk (psk_circuit_for h) rms)) = Some psk) ->
  state k = DERIVE_RES -> has_circuit RESUMPTION k = true -> has_circuit (psk_circuit_for h) k = true ->
  v_runs (run_loop 4 SHUTDOWN p) (mkCfg k o (MessageHeaders.DERIVE_RES :: h :: r)) tt
    (mkCfg (ticket_fields rms psk k) (o ++ [MessageHeaders.RES_DONE; MessageHeaders.PSK_DONE]) r).
Proof.
  intros Hh Hr Hp Hs Cr Cp. eapply v_loop; [exact Hs | reflexivity | now apply (v_derive_res rms)|].
  eapply v_loop; [reflexivity | reflexivity | eapply v_bind; [apply v_write_header; intros; apply writes | exact (v_advance _ _ _)]|].
  eapply v_loop; [reflexivity | reflexivity | exact (v_derive_psk h psk (set_state DERIVE_PSK (with_rms rms k)) _ r Hh Hp eq_refl Cp)|].
  replace (o ++ [MessageHeaders.RES_DONE; MessageHeaders.PSK_DONE]) with ((o ++ [MessageHeaders.RES_DONE]) ++ [MessageHeaders.PSK_DONE])
    by now rewrite <- app_assoc.
  eapply v_loop; [reflexivity | reflexivity | | apply (v_stop 0 SHUTDOWN p (ticket_fields rms psk k)); reflexivity].
  unfold handler, write_completed_psk. eapply v_bind; [apply v_gets; reflexivity|]. cbn [psk_skipped hs with_psk set_state set_keys set_hs set_psk_skipped].
  eapply v_bind; [apply v_write_header; intros; apply writes | exact (v_advance _ _ _)].
Qed.

(** The binder. *)
Lemma v_binder k o r : (forall l, reply l (ARun (InBinder (PSK_share (keys k)))) = Some tt) ->
  state k = PSK_BINDER -> is_resumption_run (hs k) = true -> has_circuit BINDER k = true ->
  v_runs do_psk_binder (mkCfg k o (MessageHeaders.DERIVE_BINDER :: r)) tt
    (mkCfg (set_state READING_SKS (fst (set_circuit BINDER false k))) o r).
Proof.
  intros Hout Hs Hr Hc. unfold do_psk_binder. eapply v_bind; [apply v_gets; reflexivity|]. rewrite Hr. cbn [negb].
  eapply v_bind; [now apply v_expect|]. eapply v_bind; [apply v_track_rounds|]. eapply v_bind; [apply v_track|].
  eapply v_bind; [apply v_gets; reflexivity|]. cbv beta. eapply v_bind; [apply v_gets; reflexivity|]. cbv beta. rewrite Hc.
  eapply v_bind; [now apply v_require|]. apply v_counter; [exact Hc|]. intros m. apply v_round_counter; [exact Hc|]. intros n.
  eapply v_bind; [exact (v_run_circuit _ _ _ Hout)|]. eapply v_bind; [now apply v_track_circuit|].
  eapply v_bind; [apply v_set_circuit|]. change READING_SKS with (next_state PSK_BINDER). rewrite <- Hs. exact (v_advance _ _ _).
Qed.

End Runs.
End VTicket.

(** ** Both parties *)

Import Server Handshake Records Run CircuitSynthesis KeyCircuits.

Section Inputs.
Context {sc : Sha256Circuit} {sok : Sha256Ok sc} `{KL : KeyLib} (c : Session.SSL) (k : Server) (h mA mB nonce qA qB : list N).

Definition res_in_p := {| KeyDerivation.res_hash := h; KeyDerivation.res_ms_share := Session.ms_share (Session.shares c) |}.
Definition res_in_v := {| KeyDerivation.res_hash := []; KeyDerivation.res_ms_share := MS_share (handshake_key_shares (keys k)) |}.
Definition res_output : list N :=
  Wires.exec ProduceCombinedRMS 32 (KeyDerivation.pack_resumption false res_in_p mA) (KeyDerivation.pack_resumption true res_in_v mB).
Definition rms_p : list N := KeyDerivation.RMS_share (KeyDerivation.resumption_out false mA res_output).
Definition rms_v : list N := KeyDerivation.RMS_share (KeyDerivation.resumption_out true mB res_output).

Definition psk_in_p := {| KeyDerivation.psk_rms_share := rms_p; KeyDerivation.ticket_nonce := nonce |}.
Definition psk_in_v := {| KeyDerivation.psk_rms_share := rms_v; KeyDerivation.ticket_nonce := repeat 0 (length nonce) |}.
Definition psk_output : list N :=
  Wires.exec (ProduceCombinedPSK (length nonce)) 32 (KeyDerivation.pack_psk false psk_in_p qA) (KeyDerivation.pack_psk true psk_in_v qB).
Definition psk_p : list N := KeyDerivation.PSK_share (KeyDerivation.psk_out false qA psk_output).
Definition psk_v : list N := KeyDerivation.PSK_share (KeyDerivation.psk_out true qB psk_output).

(** The PSK of the ticket by RFC 8446. *)
Definition ticket_secret : list N :=
  Schedule.ticket_psk (Schedule.derive_secret (Session.ms_share (Session.shares c) ++ MS_share (handshake_key_shares (keys k)))
    "res master" h) nonce.

Lemma ticket_shares :
  arr 16 (Session.ms_share (Session.shares c)) -> arr 16 (MS_share (handshake_key_shares (keys k))) -> arr 32 h ->
  arr 16 mA -> arr 16 mB -> bytes nonce -> size nonce < 256 -> arr 16 qA -> arr 16 qB -> psk_p ++ psk_v = ticket_secret.
Proof.
  intros HA HB Hh HmA HmB Bn Sn HqA HqB.
  destruct (resumption_chain _ _ h [] mA mB nonce (repeat 0 (length nonce)) qA qB (repeat 0 32) [] HA HB Hh HmA HmB Bn Sn (repeat_length _ _)
    HqA HqB (arr_repeat 32)) as (rA & rB & pA & pB & b & E1 & E2 & [E3 E4] & H & _).
  apply some_inj in E1. apply some_inj in E2. subst rA rB. apply some_inj in E3. apply some_inj in E4. subst pA pB. exact H.
Qed.

End Inputs.

(** What the two worlds answer from the client's Finished to the ticket. *)
Record TicketRun {sc : Sha256Circuit} `{KL : KeyLib} (Wp : Session.World) (Wv : World) (c : Session.SSL) (k : Server)
    (said h mA mB nonce qA qB : list N) (header : N) : Prop := {
  t_p_writes : forall l bs, @Session.reply Wp l (Session.SslWrite bs) = true;
  t_v_writes : forall l bs, @reply Wv l (AWrite bs) = true;
  t_hash : forall l, @Session.reply Wp l (Session.Shaking Session.GetHash) = Some h;
  t_mask : forall l, PDial.sent l = said ++ [MessageHeaders.DERIVE_RES] -> @Session.reply Wp l (Session.RandomBytes 16) = mA;
  t_mask' : forall l, PDial.sent l = said ++ [MessageHeaders.DERIVE_RES; header] -> @Session.reply Wp l (Session.RandomBytes 16) = qA;
  t_p_rms : forall l, @Session.reply Wp l (Session.Run Session.derive_rms_key
    (KeyDerivation.pack_resumption false (res_in_p c h) mA)) = Some (res_output c k h mA mB);
  t_v_rms : forall l, @reply Wv l (ARun (InResumption (MS_share (handshake_key_shares (keys k))))) = Some (rms_v c k h mA mB);
  t_p_psk : forall l, @Session.reply Wp l (Session.Run (Session.derive_psk_key (length nonce))
    (KeyDerivation.pack_psk false (psk_in_p c k h mA mB nonce) qA)) = Some (psk_output c k h mA mB nonce qA qB);
  t_v_psk : forall l, @reply Wv l (ARun (InPsk (PTicket.psk_circuit (length nonce)) (rms_v c k h mA mB))) =
    Some (psk_v c k h mA mB nonce qA qB);
  t_lengths : exists kl il, (kl <= 16)%nat /\ (il <= 12)%nat /\
    forall l, @Session.reply Wp l (Session.Shaking Session.AeadLengths) = Some (Some (kl, il));
  t_contexts : forall l key iv, @Session.reply Wp l (Session.CreateContext key iv) = true /\
    @Session.reply Wp l (Session.SetWriteState key iv) = true /\ @Session.reply Wp l (Session.Shaking (Session.SetReadState key iv)) = true }.

Record TicketReady `{KL : KeyLib} (c : Session.SSL) (k : Server) (width : nat) : Prop := {
  tk_client : Session.is_server (Session.exch c) = false;
  tk_verifier : Session.verifier (Session.ptrs c) = true;
  tk_throw : Session.throw_state c = None;
  tk_p_circuits : Callbacks.pointer RESUMPTION c = true /\ Callbacks.pointer (PTicket.psk_circuit width) c = true;
  tk_ms : arr 16 (Session.ms_share (Session.shares c)) /\ arr 16 (MS_share (handshake_key_shares (keys k)));
  tk_state : state k = DERIVE_RES;
  tk_v_circuits : has_circuit RESUMPTION k = true /\ has_circuit (PTicket.psk_circuit width) k = true }.

(** Both sides choose the circuit by the width of the nonce. *)
Lemma psk_widths width header : Callbacks.psk_header width = Some header ->
  VTicket.psk_request header /\ psk_circuit_for header = PTicket.psk_circuit width.
Proof.
  unfold Callbacks.psk_header, VTicket.psk_request.
  destruct width as [|[|[|[|[|[|[|[|[|n]]]]]]]]]; intros E; try discriminate; injection E as <-; auto.
Qed.

(** C22: from the client's Finished to a ticket that can be resumed.  For a
    nonce of each width that the code supports, the prover's calls for the
    second flight and for the ticket and the verifier's loop from [DERIVE_RES]
    to [SHUTDOWN] both return, each reading what the other writes; the share
    that the prover's session carries and the share the verifier keeps join
    to the PSK that RFC 8446 gives the ticket.  A second ticket sends nothing
    and changes no share: its session carries the share of the first. *)
Theorem ticket_psk_shared {sc : Sha256Circuit} {sok : Sha256Ok sc} `{KL : KeyLib} {Wp : Session.World} {Wv : World} {F : Fuel}
    {B : MaskConstants.BlockCipher} {inp inv : list N} {Fd : PDial.Feed Wp inp} {St : Stream Wv inv} (sp : Session.St) (sv : Server)
    (preproc : bool) (h mA mB nonce qA qB rest_p rest_v : list N) (header : N) :
  let c := Session.ssl sp in
  Callbacks.psk_header (length nonce) = Some header -> bytes nonce ->
  TicketRun Wp Wv c sv (PDial.sent (Session.log sp)) h mA mB nonce qA qB header -> TicketReady c sv (length nonce) ->
  arr 32 h -> arr 16 mA -> arr 16 mB -> arr 16 qA -> arr 16 qB ->
  skipn (PDial.got (Session.log sp)) inp = [MessageHeaders.RES_DONE; MessageHeaders.PSK_DONE] ++ rest_p ->
  skipn (pos (log sv)) inv = [MessageHeaders.DERIVE_RES; header] ++ rest_v -> (1 <= fuel)%nat ->
  exists sp' sv' share,
    (Callbacks.second_flight_secrets ;; Callbacks.session_with_ticket nonce)%session sp = (sp', Done share) /\
    run_loop 4 SHUTDOWN preproc sv = (sv', Done tt) /\
    PDial.sent (Session.log sp') = PDial.sent (Session.log sp) ++ [MessageHeaders.DERIVE_RES; header] /\
    VDial.sent (log sv') = VDial.sent (log sv) ++ [MessageHeaders.RES_DONE; MessageHeaders.PSK_DONE] /\
    share ++ PSK_share (keys sv') = ticket_secret c sv h nonce /\ state sv' = SHUTDOWN /\
    (forall nonce', exists sp'', Callbacks.session_with_ticket nonce' sp' = (sp'', Done share) /\
       Session.log sp'' = Session.log sp' /\ Session.shares (Session.ssl sp'') = Session.shares (Session.ssl sp')).
Proof.
  intros c Hw Bn R G Hh HmA HmB HqA HqB Ep Ev Hf. assert (F0 : (0 < fuel)%nat) by lia.
  destruct R as [R1 V1 R2 R3 R4 R5 V2 R6 V3 (kl & il & Hk & Hi & R7) R8]. destruct G as [G1 G2 G3 [G4 G5] [G6 G6'] K1 [K2 K3]].
  destruct (psk_widths _ _ Hw) as [Hreq Hc].
  assert (Sn : size nonce < 256).
  { unfold size. destruct (length nonce) as [|[|[|[|[|[|[|[|[|n]]]]]]]]]; cbn in Hw; try discriminate; reflexivity. }
  pose proof (ticket_shares c sv h mA mB nonce qA qB G6 G6' Hh HmA HmB Bn Sn HqA HqB) as E.
  assert (Hp : PDial.here (PDial.mkCfg c (PDial.sent (Session.log sp)) (MessageHeaders.RES_DONE :: MessageHeaders.PSK_DONE :: rest_p)) sp)
    by now repeat split.
  assert (Hv : VDial.here (VDial.mkCfg (VDial.core sv) (VDial.sent (log sv)) ([MessageHeaders.DERIVE_RES; header] ++ rest_v)) sv) by now repeat split.
  rewrite <- Hc in V3, K3.
  destruct (VTicket.v_ticket V1 Hf preproc header _ _ (VDial.core sv) _ rest_v Hreq V2 V3 K1 K2 K3 sv Hv) as (sv' & E2 & Q1 & Q2 & _).
  destruct (PTicket.p_ticket R1 F0 h mA _ nonce header qA _ kl il c _ rest_p R2 R3 R4 R5 R6 R7 Hk Hi R8 Hw G1 G2 G3 G4 G5 sp Hp)
    as (sp' & E1 & P1 & P2 & _).
  cbn [PDial.fields PDial.said VDial.fields VDial.said] in *. exists sp', sv'. eexists. split; [exact E1|]. split; [exact E2|].
  split; [exact P2|]. split; [exact Q2|].
  assert (K : keys sv' = keys (VDial.core sv')) by reflexivity. assert (T : state sv' = state (VDial.core sv')) by reflexivity.
  rewrite Q1 in K, T. rewrite K, T. split; [exact E|]. split; [reflexivity|].
  intros nonce'. exact (PTicket.second_ticket _ _ _ _ nonce' sp' P1 G1 G2).
Qed.

(** ** The binder of the next session *)

Section Binder.
Context {sc : Sha256Circuit} {sok : Sha256Ok sc}.

Definition binder_in (share ch : list N) := {| KeyDerivation.bi_psk_share := share; KeyDerivation.ch_hash := ch |}.
Definition binder_output (pA pB ch : list N) : list N :=
  Wires.exec ProduceBinderCircuit 32 (KeyDerivation.pack_binder false (binder_in pA ch)) (KeyDerivation.pack_binder true (binder_in pB [])).

Lemma binder_output_spec pA pB ch : arr 16 pA -> arr 16 pB -> arr 32 ch -> binder_output pA pB ch = Schedule.psk_binder (pA ++ pB) ch.
Proof. intros HA HB Hc. exact (binder_circuit_spec pA pB ch (repeat 0 32) HA HB Hc (arr_repeat 32)). Qed.

End Binder.

Lemma p_binder {W : Session.World} {input : list N} {Fd : PDial.Feed W input} share ch out c o r :
  (forall l bs, @Session.reply W l (Session.SslWrite bs) = true) ->
  (forall l, @Session.reply W l (Session.Run Session.derive_binder_key (KeyDerivation.pack_binder false (binder_in share ch))) = Some out) ->
  Session.verifier (Session.ptrs c) = true -> Callbacks.pointer BINDER c = true -> Session.session_psk (Session.exch c) = Some share ->
  size ch = 32 -> size out = 32 ->
  PDial.p_runs (Callbacks.derive_binder ch 32) (PDial.mkCfg c o r) out
    (PDial.mkCfg (Callbacks.set_pointer BINDER false c) (o ++ [MessageHeaders.DERIVE_BINDER]) r).
Proof.
  intros Hw Hrun Hv Hp Hs Hc Ho. unfold Callbacks.derive_binder. do 3 (eapply PDial.p_bind; [apply PDial.p_gets|]). cbv beta. rewrite Hv, Hp, Hs.
  eapply PDial.p_bind; [now apply PDial.p_require|]. eapply PDial.p_bind; [now apply PDial.p_some|].
  eapply PDial.p_bind; [apply PDial.p_write; intros; apply Hw|]. eapply PDial.p_bind; [apply PDial.p_require; now rewrite Hc|].
  eapply PDial.p_bind; [now apply PDial.p_take|]. apply PDial.p_scoped.
  eapply PDial.p_bind; [exact (PDial.p_run _ _ _ _ Hrun)|]. eapply PDial.p_bind; [apply PDial.p_require; now rewrite Ho | apply PDial.p_ret].
Qed.

(** C23: the binder of a resumed session.  With shares of the PSK on both
    sides, the prover's [derive_binder] and the verifier's [do_psk_binder]
    both return, and the prover puts into its ClientHello the binder that RFC
    8446 prescribes for the joint PSK and the truncated hello.  The circuit
    serves once: a further [derive_binder] on the connection fails before it
    sends anything. *)
Theorem binder_for_joint_psk {sc : Sha256Circuit} {sok : Sha256Ok sc} `{KL : KeyLib} {Wp : Session.World} {Wv : World} {F : Fuel}
    {inp inv : list N} {Fd : PDial.Feed Wp inp} {St : Stream Wv inv} (sp : Session.St) (sv : Server) (share ch rest_v : list N) :
  let c := Session.ssl sp in
  let theirs := PSK_share (keys sv) in
  (forall l bs, @Session.reply Wp l (Session.SslWrite bs) = true) ->
  (forall l, @Session.reply Wp l (Session.Run Session.derive_binder_key (KeyDerivation.pack_binder false (binder_in share ch))) =
     Some (binder_output share theirs ch)) ->
  (forall l, @reply Wv l (ARun (InBinder theirs)) = Some tt) ->
  Session.verifier (Session.ptrs c) = true -> Callbacks.pointer BINDER c = true -> Session.session_psk (Session.exch c) = Some share ->
  arr 16 share -> arr 16 theirs -> arr 32 ch ->
  state sv = PSK_BINDER -> is_resumption_run (hs sv) = true -> has_circuit BINDER sv = true ->
  skipn (pos (log sv)) inv = MessageHeaders.DERIVE_BINDER :: rest_v -> (1 <= fuel)%nat ->
  exists sp' sv',
    Callbacks.derive_binder ch 32 sp = (sp', Done (Schedule.psk_binder (share ++ theirs) ch)) /\
    do_psk_binder sv = (sv', Done tt) /\
    PDial.sent (Session.log sp') = PDial.sent (Session.log sp) ++ [MessageHeaders.DERIVE_BINDER] /\
    state sv' = READING_SKS /\ has_circuit BINDER sv' = false /\
    (forall ch' n, Callbacks.derive_binder ch' n sp' = (sp', Fail)).
Proof.
  intros c theirs Hw Hrun Hout Hv Hp Hs Ha Hb Hc Hst Hr Hcirc Ev Hf.
  rewrite (binder_output_spec share theirs ch Ha Hb Hc) in Hrun.
  assert (Ab : arr 32 (Schedule.psk_binder (share ++ theirs) ch)) by apply hmac_arr.
  assert (Ho : size (Schedule.psk_binder (share ++ theirs) ch) = 32) by (unfold size; now rewrite (proj1 Ab)).
  assert (Lc : size ch = 32) by (unfold size; now rewrite (proj1 Hc)).
  assert (Hhere : PDial.here (PDial.mkCfg c (PDial.sent (Session.log sp)) (skipn (PDial.got (Session.log sp)) inp)) sp) by now repeat split.
  assert (Vhere : VDial.here (VDial.mkCfg (VDial.core sv) (VDial.sent (log sv)) (MessageHeaders.DERIVE_BINDER :: rest_v)) sv) by now repeat split.
  destruct (p_binder share ch _ c _ _ Hw Hrun Hv Hp Hs Lc Ho sp Hhere) as (sp' & E1 & P1 & P2 & _).
  destruct (VTicket.v_binder Hf (VDial.core sv) _ rest_v Hout Hst Hr Hcirc sv Vhere) as (sv' & E2 & Q1 & _).
  cbn [PDial.fields PDial.said VDial.fields] in *. exists sp', sv'. split; [exact E1|]. split; [exact E2|]. split; [exact P2|].
  assert (T : state sv' = state (VDial.core sv')) by reflexivity.
  assert (X : has_circuit BINDER sv' = has_circuit BINDER (VDial.core sv')) by reflexivity. rewrite Q1 in T, X. rewrite T, X.
  split; [reflexivity|]. split; [apply has_circuit_set|]. intros ch' n.
  assert (Z : Callbacks.pointer BINDER (Session.ssl sp') = false) by (rewrite P1; apply (pointer_set BINDER BINDER false c)).
  unfold Callbacks.derive_binder, Session.bind at 1 2 3, Session.gets at 1 2 3. rewrite Z, andb_false_r. reflexivity.
Qed.

(** ** Runs *)

Module TicketExample.

Definition h : list N := repeat 3 32.
Definition mA : list N := repeat 4 16.
Definition mB : list N := repeat 5 16.
Definition nonce : list N := [9].

Definition ssl : Session.SSL :=
  let c := zero_ssl Surf.Masked false in
  Session.set_exch (Session.set_session_psk (Some (repeat 1 16)) (Session.exch c))
    (Session.set_pre (Session.set_made [RESUMPTION; PSK_1; BINDER] (Session.pre c)) c).
Definition server (st : ServerState) : @Server toy_lib :=
  let s := ready_server Surf.Masked st empty_att in
  set_hs (set_is_resumption_run true (hs s))
    (set_keys (set_PSK_share (repeat 2 16) (set_handshake_key_shares (mkHandshakeOut [] [] (repeat 2 16)) (keys s))) s).

Definition input_p : list N := [MessageHeaders.RES_DONE; MessageHeaders.PSK_DONE].
Definition input_v : list N := [MessageHeaders.DERIVE_RES; MessageHeaders.DERIVE_PSK].
Definition sv := server DERIVE_RES.

#[local] Existing Instance reference_sha.

Definition prover_world : Session.World := fun l a =>
  match a as a return Session.Reply a with
  | Session.SslRead n => PDial.feed_reply input_p l n
  | Session.RandomBytes n => repeat 4 n
  | Session.Run Session.derive_rms_key _ => Some (res_output ssl sv h mA mB)
  | Session.Run Session.derive_binder_key _ => Some (binder_output (repeat 1 16) (repeat 2 16) h)
  | Session.Run _ _ => Some (psk_output ssl sv h mA mB nonce mA mB)
  | Session.Shaking Session.GetHash => Some h
  | Session.Shaking Session.AeadLengths => Some (Some (16, 12)%nat)
  | a => build_world l a
  end.

Definition verifier_world (input : list N) : World := fun l a =>
  match a as a return Reply a with
  | ARun (InResumption _) => Some (rms_v ssl sv h mA mB)
  | ARun (InPsk _ _) => Some (psk_v ssl sv h mA mB nonce mA mB)
  | a => stream_world input l a
  end.

#[local] Instance feed : PDial.Feed prover_world input_p := PDial.feed_of _ _ (fun _ _ => eq_refl).
#[local] Instance stream input : Stream (verifier_world input) input := VDial.stream_of _ _ (fun _ _ => eq_refl).

Lemma ticket_run : TicketRun prover_world (verifier_world input_v) ssl sv [] h mA mB nonce mA mB MessageHeaders.DERIVE_PSK.
Proof.
  split; try reflexivity; [exists 16%nat, 12%nat; auto | intros l k v; repeat split; reflexivity].
Qed.

Lemma ticket_ready : TicketReady ssl sv 1.
Proof. split; try reflexivity; split; try reflexivity; [apply (arr_repeat 16) | now apply arr_const]. Qed.

End TicketExample.

Lemma ticket_psk_shared_witness :
  exists sp' sv' share,
    (Callbacks.second_flight_secrets (W := TicketExample.prover_world) (F := toy_fuel) ;;
     Callbacks.session_with_ticket (W := TicketExample.prover_world) (F := toy_fuel) TicketExample.nonce)%session
      (Session.mkSt TicketExample.ssl []) = (sp', Done share) /\
    @run_loop toy_lib (TicketExample.verifier_world TicketExample.input_v) toy_fuel 4 SHUTDOWN true TicketExample.sv = (sv', Done tt) /\
    share ++ PSK_share (keys sv') = ticket_secret TicketExample.ssl TicketExample.sv TicketExample.h TicketExample.nonce.
Proof.
  destruct (@ticket_psk_shared reference_sha _ toy_lib TicketExample.prover_world (TicketExample.verifier_world TicketExample.input_v)
    toy_fuel toy_cipher _ _ TicketExample.feed (TicketExample.stream _) (Session.mkSt TicketExample.ssl []) TicketExample.sv true
    TicketExample.h TicketExample.mA TicketExample.mB TicketExample.nonce TicketExample.mA TicketExample.mB [] []
    MessageHeaders.DERIVE_PSK eq_refl (Forall_cons 9 (eq_refl : 9 < 256) (Forall_nil _)) TicketExample.ticket_run TicketExample.ticket_ready
    (arr_const 32 3 eq_refl) (arr_const 16 4 eq_refl) (arr_const 16 5 eq_refl) (arr_const 16 4 eq_refl) (arr_const 16 5 eq_refl)
    eq_refl eq_refl) as (sp' & sv' & share & E1 & E2 & _ & _ & E3 & _); [apply Nat.leb_le; reflexivity|].
  exists sp', sv', share. exact (conj E1 (conj E2 E3)).
Defined.

Lemma binder_for_joint_psk_witness :
  exists sp' sv',
    Callbacks.derive_binder (W := TicketExample.prover_world) TicketExample.h 32 (Session.mkSt TicketExample.ssl []) =
      (sp', Done (Schedule.psk_binder (repeat 1 16 ++ repeat 2 16) TicketExample.h)) /\
    @do_psk_binder toy_lib (TicketExample.verifier_world [MessageHeaders.DERIVE_BINDER]) toy_fuel (TicketExample.server PSK_BINDER) =
      (sv', Done tt).
Proof.
  destruct (@binder_for_joint_psk reference_sha _ toy_lib TicketExample.prover_world
    (TicketExample.verifier_world [MessageHeaders.DERIVE_BINDER]) toy_fuel _ _ TicketExample.feed (TicketExample.stream _)
    (Session.mkSt TicketExample.ssl []) (TicketExample.server PSK_BINDER) (repeat 1 16) TicketExample.h []
    (fun _ _ => eq_refl) (fun _ => eq_refl) (fun _ => eq_refl) eq_refl eq_refl eq_refl
    (arr_const 16 1 eq_refl) (arr_const 16 2 eq_refl) (arr_const 32 3 eq_refl) eq_refl eq_refl eq_refl eq_refl)
    as (sp' & sv' & E1 & E2 & _); [apply Nat.leb_le; reflexivity|].
  exists sp', sv'. exact (conj E1 E2).
Defined.
