(* ===== verification/ProverTypes.v ===== *)
(** * The types of the prover's fields

    The arrays of the connection have the sizes of their C++ types, and the
    integers their widths; every function of the record side keeps it so, in
    every world whose replies are well typed and however the call ends. *)

From S2P Require Import Prelude Block128 FieldCode Messaging BlockMap GHash Arrays.
From S2P Require Import ServerState ServerIO ServerHandshake ServerRecords.
From S2P Require Import Prover ProverState ProverCircuits ProverAttest ProverHandshake PostHandshake ProverRelease ProverLogic.

Import Session Channel Circuits Attest PostHandshake Releasing.
Local Open Scope N_scope.
Local Open Scope session_scope.

Record dir_ok (d : Dir) : Prop := {
  ats_ok : arr 16 (ats_share d); key_ok : arr 16 (key_share d); iv_ok : arr 16 (iv d);
  gcm_ok : arr (1088 * 16) (gcm_share d) }.

Record record_ok (r : SurfRecord) : Prop := {
  ct_ok : bytes (ciphertext r); tag_ok : arr 16 (tag r); seq_ok : seq r < 2 ^ 64 }.

Record ssl_ok (c : SSL) : Prop := {
  client_ok : dir_ok (client c); server_ok : dir_ok (server c);
  seed_ok : arr 16 (mask_seed c); seed_key_ok : arr 16 (mask_seed_key c);
  rand_ok : arr 16 (surf_key_commit_rand (rel c));
  full_ok : arr 16 (surf_full_server_key (rel c));
  epoch_ok : surf_epoch (rel c) < 2 ^ 32;
  records_ok : Forall record_ok (surf_records (cap c));
  read_ok : read_sequence (cap c) < 2 ^ 64;
  keystream_ok : keystream (cap c) = [] \/ arr keystream_size (keystream (cap c)) }.

Lemma zero_dir_ok : dir_ok zero_dir.
Proof. split; apply arr_repeat. Qed.

Lemma zero_ssl_ok mode true_mode : ssl_ok (zero_ssl mode true_mode).
Proof.
  split; try apply zero_dir_ok; try apply arr_repeat; try reflexivity; [constructor | now left].
Qed.

(** The library's AES gives blocks. *)
Class CipherOk (B : MaskConstants.BlockCipher) : Prop :=
  cipher_block : forall k x y, MaskConstants.evp_aes_128_ecb k x = Some y -> arr 16 y.

(** What a typed reply says. *)
Ltac exact_arr := match goal with H : _ |- arr _ _ => exact H end.

(** The fields that an update does not touch. *)
Ltac field_ok :=
  lazymatch goal with |- forall c, ssl_ok c -> _ => idtac end;
  repeat match goal with H : ?a = Some _ |- _ => is_var a; subst a end;
  let c := fresh "c" in let Hc := fresh "Hc" in
  intros c Hc; destruct Hc; unfold upd_rel, upd_cap;
  try match goal with |- context [if ?b then _ else _] => destruct b end;
  constructor; unfold reply_ok in *; cbn [client server mask_seed mask_seed_key rel cap surf_key_commit_rand surf_full_server_key
    surf_epoch surf_records read_sequence keystream set_rel set_cap set_client set_server set_ptrs
    set_mask_seed set_mask_seed_key set_surf_key_committed set_surf_key_released set_surf_key_commit_rand
    set_surf_full_server_key set_surf_epoch_start set_surf_epoch set_surf_records set_read_sequence
    set_keystream set_next_mask_index]; auto; try exact_arr.

Section Types.
Context {W : World} {F : Fuel} {B : MaskConstants.BlockCipher} {wok : WorldOk W} {bok : CipherOk B}.

(** The invariant as a condition on the state of a call. *)
Let J (s : St) : Prop := ssl_ok (ssl s).

(** ** Circuits *)

Lemma keeps_vfy circuit i : keeps J (run_gcm_vfy_circuit circuit i) (fun _ => True).
Proof. unfold run_gcm_vfy_circuit. repeat keeps_step. exact I. Qed.

Lemma keeps_vfy_commit circuit i r d : keeps J (run_gcm_vfy_commit_circuit circuit i r d) (fun _ => True).
Proof. unfold run_gcm_vfy_commit_circuit. repeat keeps_step. exact I. Qed.

Lemma keeps_ks circuit i :
  keeps J (run_ks_batch_circuit circuit i) (fun o => Forall bytes (snd o)).
Proof.
  unfold run_ks_batch_circuit. repeat keeps_step. cbn [snd]. apply Forall_forall.
  intros x Hx. apply in_map_iff in Hx as (k & <- & _). apply bytes_firstn, bytes_skipn. apply H0.
Qed.

Definition rotate_ok (o : RotateOut) : Prop :=
  arr 16 (next_share o) /\ arr 16 (rot_key_share o) /\ arr 12 (rot_iv o).

Lemma keeps_rotate circuit v secret : keeps J (run_rotate_circuit circuit v secret) rotate_ok.
Proof.
  unfold run_rotate_circuit. repeat keeps_step. destruct H0 as [Lm Bm], H1 as [Lo Bo].
  unfold rotate_out. repeat split; cbn [next_share rot_key_share rot_iv];
    try (apply arr_tabulate; intros i Hi); try (apply bytes_skipn; assumption).
  - apply lxor_byte; now apply bytes_at.
  - destruct v; now apply bytes_at.
  - rewrite length_skipn, Lo. reflexivity.
Qed.

Lemma keeps_bandwidth v n : keeps J (exchange_bandwidth v n) (fun _ => True).
Proof.
  unfold exchange_bandwidth. destruct v; keeps_step.
  - destruct a; auto with keeps. eapply keeps_weaken; [|apply keeps_require]; auto.
  - eapply keeps_weaken; [|apply keeps_require]; auto.
Qed.

Lemma keeps_make_gcm circuit v key : keeps J (make_gcm_share circuit v key) (arr (1088 * 16)).
Proof.
  unfold make_gcm_share. keeps_step.
  eapply keeps_bind with (Phi := fun _ => True).
  { unfold run_gcm_share_circuit. destruct circuit; auto with keeps.
    eapply keeps_weaken; [|apply keeps_run]; auto. }
  intros power_share _. keeps_step. destruct a0 as [[share bw]|]; [|apply keeps_abort].
  destruct H0 as [Hl _]. eapply keeps_bind; [apply keeps_bandwidth|]. intros [] _.
  apply keeps_ret. now apply arr_powers.
Qed.

Lemma keeps_throw h : keeps J (maybe_throw h) (fun _ => True).
Proof.
  unfold maybe_throw. keeps_step. destruct throw_state; [|now apply keeps_ret].
  keeps_step; [|now apply keeps_ret]. repeat keeps_step; [exact I | apply keeps_abort].
Qed.

Lemma keeps_header h : keeps J (is_correct_header h) (fun _ => True).
Proof.
  unfold is_correct_header. repeat keeps_step. eapply keeps_weaken; [|apply keeps_require]; auto.
Qed.

Hint Resolve keeps_vfy keeps_vfy_commit keeps_ks keeps_rotate keeps_make_gcm keeps_throw keeps_header : keeps.

Lemma keeps_true {A} (m : S A) Phi : keeps J m Phi -> keeps J m (fun _ => True).
Proof. apply keeps_weaken. auto. Qed.

Lemma keeps_gcm_client gcm :
  arr (1088 * 16) gcm -> forall c, ssl_ok c -> ssl_ok (set_client (set_gcm_share gcm (client c)) c).
Proof. intros Hg. field_ok. now destruct client_ok0; constructor. Qed.

Lemma keeps_gcm_server gcm :
  arr (1088 * 16) gcm -> forall c, ssl_ok c -> ssl_ok (set_server (set_gcm_share gcm (server c)) c).
Proof. intros Hg. field_ok. now destruct server_ok0; constructor. Qed.

Lemma keeps_derive_gcm : keeps J Circuits.derive_gcm_shares (fun _ => True).
Proof.
  unfold Circuits.derive_gcm_shares. repeat keeps_step; eauto using keeps_gcm_client, keeps_gcm_server with keeps.
  eapply keeps_bind with (Phi := fun _ => True).
  - keeps_step; [now apply keeps_ret|]. apply keeps_modify. field_ok.
  - intros [] _. keeps_step. apply keeps_throw.
Qed.

Lemma keeps_reset : keeps J surf_reset_write_state (fun _ => True).
Proof. unfold surf_reset_write_state. repeat keeps_step. eapply keeps_true, keeps_require. Qed.

Lemma rotate_dir_ok o d : rotate_ok o -> dir_ok d -> dir_ok (rotate_dir o d).
Proof.
  intros (Hn & Hk & [Li Bi]) []. unfold rotate_dir.
  constructor; cbn [ats_share key_share iv gcm_share set_iv set_key_share set_ats_share]; auto.
  destruct iv_ok0 as [L4 B4]. split.
  - rewrite length_app, length_firstn, L4, Li. reflexivity.
  - apply Forall_app. split; [now apply bytes_firstn | exact Bi].
Qed.

Lemma keeps_rotate_dir is_write o : rotate_ok o -> keeps J (upd_dir is_write (rotate_dir o)) (fun _ => True).
Proof.
  intros Ho. apply keeps_modify. field_ok; now apply rotate_dir_ok.
Qed.

Lemma keeps_rotate_gcm is_write gcm :
  arr (1088 * 16) gcm -> keeps J (upd_dir is_write (set_gcm_share gcm)) (fun _ => True).
Proof.
  intros Hg. apply keeps_modify. intros c Hc.
  destruct is_write; [now apply keeps_gcm_client | now apply keeps_gcm_server].
Qed.

Lemma keeps_rotate_keys is_write : keeps J (rotate_traffic_keys is_write) (fun _ => True).
Proof.
  unfold rotate_traffic_keys. repeat keeps_step.
  eapply keeps_bind with (Phi := fun _ => True).
  { keeps_step; [|now apply keeps_ret]. eapply keeps_bind; [apply keeps_reset|]. intros [] _.
    keeps_step. eapply keeps_true, keeps_require. }
  intros [] _. repeat keeps_step.
  eapply keeps_bind; [now apply keeps_rotate_dir|]. intros [] _.
  eapply keeps_bind with (Phi := arr (1088 * 16)).
  { unfold make_gcm_share_for. keeps_step. apply keeps_make_gcm. }
  intros gcm Hg. eapply keeps_bind; [now apply keeps_rotate_gcm|]. intros [] _.
  keeps_step; [now apply keeps_ret|]. apply keeps_modify. field_ok.
Qed.

(** ** Commitments and verification *)

Lemma keeps_mask_seed : keeps J commit_mask_seed (fun _ => True).
Proof.
  unfold commit_mask_seed. keeps_step. eapply keeps_bind with (Phi := fun _ => True).
  - keeps_step; [now apply keeps_ret|].
    repeat keeps_step; try field_ok; auto with keeps.
  - intros [] _. apply keeps_modify. field_ok.
Qed.

Lemma keeps_commitment : keeps J surf_send_key_commitment (fun _ => True).
Proof.
  unfold surf_send_key_commitment. repeat keeps_step; try field_ok.
  apply keeps_modify. field_ok.
Qed.

Lemma keeps_verdict want cheated opened : keeps J (read_verdict want cheated opened) (fun _ => True).
Proof. unfold read_verdict. repeat keeps_step; exact I. Qed.

Hint Resolve keeps_commitment keeps_verdict keeps_derive_gcm keeps_rotate_keys : keeps.

Lemma keeps_verification i want : keeps J (run_verification i want) (fun _ => True).
Proof.
  unfold run_verification. repeat keeps_step; auto with keeps.
  - destruct a as [[tag_passed cheated] key_opened]. repeat keeps_step; auto with keeps.
  - destruct a. repeat keeps_step. exact I.
Qed.

Lemma keeps_verify i want : keeps J (verify_record_tag i want) (fun _ => True).
Proof.
  unfold verify_record_tag. repeat keeps_step. eapply keeps_bind with (Phi := fun _ => True).
  { keeps_step; [apply keeps_commitment | now apply keeps_ret]. }
  intros [] _. repeat keeps_step. apply keeps_verification.
Qed.

Hint Resolve keeps_verify : keeps.

(** ** Keystream *)

Lemma keeps_fill iv recs nblocks lanes : keeps J (fill_ctrs iv recs nblocks lanes) (fun _ => True).
Proof.
  induction lanes as [|idx lanes IH]; cbn [fill_ctrs]; [now apply keeps_ret|].
  keeps_step. eapply keeps_bind; [exact IH|]. intros rest _. now apply keeps_ret.
Qed.

Lemma store_block_ok idx masked b ks :
  bytes masked -> bytes b -> arr keystream_size ks -> arr keystream_size (store_block idx masked b ks).
Proof.
  intros Hm Hb. apply arr_fold. intros o k. apply arr_upd, lxor_byte; now apply bytes_at.
Qed.

Lemma store_block_nil idx masked b : store_block idx masked b [] = [].
Proof.
  apply length_zero_iff_nil. unfold store_block. rewrite length_fold_left; [reflexivity|].
  intros. apply length_upd.
Qed.

Lemma keeps_unmask ctrs masked nblocks batch j :
  Forall bytes masked -> keeps J (unmask_lane ctrs masked nblocks batch j) (fun _ => True).
Proof.
  intros Hm. unfold unmask_lane. repeat keeps_step; [exact I|].
  assert (Hj : bytes (nth j masked [])).
  { destruct (nth_in_or_default j masked []) as [Hi| ->]; [|constructor].
    now apply (proj1 (Forall_forall _ _) Hm). }
  apply cipher_block in H0 as [_ Hb]. apply keeps_modify. field_ok.
  destruct keystream_ok0 as [-> |Hk]; [left; apply store_block_nil | right; now apply store_block_ok].
Qed.

Lemma keeps_batch recs nblocks batch : keeps J (derive_batch recs nblocks batch) (fun _ => True).
Proof.
  unfold derive_batch. keeps_step. eapply keeps_bind with (Phi := fun _ => True).
  { keeps_step; [|now apply keeps_ret]. keeps_step. eapply keeps_true, keeps_require. }
  intros [] _. keeps_step. eapply keeps_bind; [apply keeps_fill|]. intros ctrs _.
  keeps_step. destruct a0 as [ok masked]. cbn [snd] in *. keeps_step.
  apply keeps_for_each. intros j _. now apply keeps_unmask.
Qed.

Lemma keeps_keystream i : keeps J (derive_keystream i) (fun _ => True).
Proof.
  unfold derive_keystream. repeat keeps_step.
  - field_ok. right. apply arr_repeat.
  - eapply keeps_bind; [apply keeps_for_each; intros; apply keeps_batch|].
    intros [] _. apply keeps_modify. field_ok.
Qed.

Hint Resolve keeps_keystream : keeps.

Lemma keeps_attest i : keeps J (attest_record i) (fun _ => True).
Proof. unfold attest_record. repeat keeps_step; auto with keeps. Qed.

(** ** Records *)

Lemma keeps_capture body : bytes body -> keeps J (surf_capture_ciphertext body) (fun _ => True).
Proof.
  intros Hb. unfold surf_capture_ciphertext. keeps_step. apply Nat.leb_le in H. keeps_step.
  apply keeps_modify. field_ok. apply Forall_app. split; [assumption|]. constructor; [|constructor].
  constructor; cbn [ciphertext tag seq]; [now apply bytes_firstn | split; [|now apply bytes_skipn] | apply H0].
  rewrite length_skipn. unfold kTagLen in *. lia.
Qed.

Lemma keeps_next_sequence : keeps J next_sequence (fun _ => True).
Proof.
  unfold next_sequence. repeat keeps_step. apply keeps_modify. field_ok.
  apply negb_true_iff, N.eqb_neq in H0. pose proof (read_ok _ H) as Hr.
  destruct (N.eq_dec (read_sequence (cap x) + 1) (2 ^ 64)) as [E|E]; [|lia].
  rewrite E in H0. now destruct H0.
Qed.

Hint Resolve keeps_next_sequence : keeps.

Lemma keeps_open_record decrypt body : bytes body -> keeps J (surf_open_record decrypt body) (fun _ => True).
Proof.
  intros Hb. unfold surf_open_record. eapply keeps_bind; [now apply keeps_capture|]. intros [] _.
  keeps_step. destruct (surf_true_mode _); keeps_step.
  - repeat keeps_step. exact I.
  - eapply keeps_bind with (Phi := fun _ => True); [destruct decrypt; auto using keeps_attest, keeps_ret|].
    intros [] _. repeat keeps_step. exact I.
Qed.

(** ** Release *)

Lemma keeps_release_key : keeps J surf_release_epoch_key (fun _ => True).
Proof.
  unfold surf_release_epoch_key. keeps_step. keeps_step. destruct H0 as [Hl Hb]. keeps_step.
  keeps_step; [field_ok; apply arr_xor; [apply H0 | exact Hb]|].
  apply keeps_modify. field_ok.
Qed.

Lemma keeps_open idxs : keeps J (open_records idxs) (fun _ => True).
Proof.
  induction idxs as [|i idxs IH]; cbn [open_records]; [now apply keeps_ret|].
  keeps_step. keeps_step. eapply keeps_bind; [exact IH|]. intros rest _. now apply keeps_ret.
Qed.

(** The fields that the types speak of. *)
Definition typed_fields (c : SSL) := (client c, server c, mask_seed c, mask_seed_key c, rel c, cap c).

#[local] Instance typed_no_ticket : NoTicket typed_fields.
Proof. now split. Qed.

Lemma keeps_frozen {A} (m : S A) : frozen typed_fields m -> keeps J m (fun _ => True).
Proof.
  intros Hm s [H1 H2 H3 H4 H5 H6 H7 H8 H9 H10]. specialize (Hm s). unfold typed_fields in Hm.
  assert (H : J (fst (m s))).
  { injection Hm as E1 E2 E3 E4 E5 E6. constructor; congruence. }
  destruct (m s) as [s' []]; cbn [fst] in H; auto.
Qed.

Lemma keeps_layer g : keeps J (upd_layer g) (fun _ => True).
Proof. apply keeps_frozen, frozen_modify. reflexivity. Qed.

Lemma keeps_shake a : keeps J (Callbacks.shake a) (fun _ => True).
Proof. apply keeps_frozen, frozen_act. Qed.

Hint Resolve keeps_shake : keeps.

Lemma keeps_native w : keeps J (tls13_rotate_traffic_key w) (fun _ => True).
Proof.
  unfold tls13_rotate_traffic_key. keeps_step. keeps_step; [apply keeps_rotate_keys|].
  keeps_step. eapply keeps_true, keeps_require.
Qed.

Lemma keeps_alert {A} d : keeps J (@alert_and_fail _ A d) (fun _ => True).
Proof. unfold alert_and_fail. keeps_step. apply keeps_fail. Qed.

Hint Resolve keeps_layer keeps_native keeps_alert : keeps.

Lemma keeps_update body : keeps J (tls13_receive_key_update body) (fun _ => True).
Proof.
  unfold tls13_receive_key_update, tls13_add_key_update.
  destruct body as [|k [|]]; auto with keeps. repeat keeps_step; auto with keeps; exact I.
Qed.

Lemma keeps_post type body : keeps J (tls13_post_handshake type body) (fun _ => True).
Proof.
  unfold tls13_post_handshake. keeps_step. keeps_step; [apply keeps_frozen, frozen_process; exact _|].
  repeat keeps_step; auto with keeps. apply keeps_update.
Qed.

Hint Resolve keeps_post : keeps.

Lemma keeps_messages n : keeps J (message_loop n) (fun _ => True).
Proof.
  induction n as [|n IH]; cbn [message_loop]; [apply keeps_waiting|]. unfold tls_get_message, tls_next_message. keeps_step.
  destruct (option_map fst _) as [[type body]|]; [|now apply keeps_ret]. repeat keeps_step. exact IH.
Qed.

Lemma keeps_replay pt : keeps J (replay_record pt) (fun _ => True).
Proof.
  unfold replay_record, process_handshake_data, tls_append_handshake_data. keeps_step; [|now apply keeps_ret].
  eapply keeps_bind with (Phi := fun _ => True); [repeat keeps_step; apply keeps_layer|]. intros [] _. keeps_step. apply keeps_messages.
Qed.

Lemma keeps_finish opened close : keeps J (finish_stream opened close) (fun _ => True).
Proof.
  unfold finish_stream. repeat keeps_step. destruct (assemble opened). repeat keeps_step. exact I.
Qed.

Lemma keeps_verify_all idxs : keeps J (verify_all idxs) (fun _ => True).
Proof.
  induction idxs as [|i idxs IH]; cbn [verify_all]; [now apply keeps_ret|]. keeps_step. exact IH.
Qed.

Lemma keeps_verify_epoch idxs : keeps J (verify_epoch idxs) (fun _ => True).
Proof.
  induction idxs as [|i idxs IH]; cbn [verify_epoch]; [now apply keeps_ret|]. repeat keeps_step. exact IH.
Qed.

Lemma keeps_until k : forall e, keeps J (verify_until_reject k e) (fun _ => True).
Proof.
  induction k as [|k IH]; intros e; cbn [verify_until_reject]; [now apply keeps_ret|].
  repeat keeps_step; [apply IH | exact I].
Qed.

Hint Resolve keeps_release_key keeps_open keeps_replay keeps_finish keeps_verify_all keeps_verify_epoch
  keeps_until : keeps.

Lemma keeps_replay_all {A} (xs : list A) f :
  (forall x, keeps J (f x) (fun _ => True)) -> keeps J (for_each xs f) (fun _ => True).
Proof. intros H. apply keeps_for_each. auto. Qed.

Lemma keeps_true_release close : keeps J (true_surf_release close) (fun _ => True).
Proof.
  unfold true_surf_release. repeat keeps_step.
  eapply keeps_bind; [apply keeps_replay_all; apply keeps_replay|]. intros [] _. now apply keeps_ret.
Qed.

Lemma keeps_begin : keeps J begin_epoch (fun _ => True).
Proof. unfold begin_epoch. keeps_step; [field_ok | apply keeps_commitment]. Qed.

Hint Resolve keeps_begin : keeps.

Lemma keeps_one_epoch n start : keeps J (one_epoch n start) (fun _ => True).
Proof. unfold one_epoch. repeat keeps_step. exact I. Qed.

Lemma renumber_ok e records : Forall record_ok records -> Forall record_ok (renumber e records).
Proof.
  intros H. unfold renumber.
  assert (Hr : forall j, In j (List.seq e (length records - e)) -> (j < length records)%nat).
  { intros j Hj%in_seq. lia. }
  revert Hr. generalize (List.seq e (length records - e)). intros js.
  assert (L : forall rs, length rs = length records -> Forall record_ok rs ->
    (forall j, In j js -> (j < length records)%nat) ->
    Forall record_ok (fold_left (fun rs j => let r := nth j rs (mkSurfRecord [] [] 0) in
      upd j (mkSurfRecord (ciphertext r) (tag r) (wrap 64 (N.of_nat (j - e)))) rs) js rs)); [|auto].
  induction js as [|j js IH]; intros rs Hl Hrs Hj; [exact Hrs|]. cbn [fold_left]. apply IH.
  - cbv zeta. now rewrite length_upd.
  - cbv zeta. assert (Hn : record_ok (nth j rs (mkSurfRecord [] [] 0))).
    { apply (proj1 (Forall_forall _ _) Hrs), nth_In. rewrite Hl. apply Hj. now left. }
    apply Forall_upd; [|exact Hrs]. destruct Hn. constructor; cbn [ciphertext tag seq]; auto. apply wrap_lt.
  - intros k Hk. apply Hj. now right.
Qed.

Lemma keeps_next_epoch e : keeps J (next_epoch e) (fun _ => True).
Proof.
  unfold next_epoch. keeps_step. apply keeps_modify. field_ok. now apply renumber_ok.
Qed.

Hint Resolve keeps_one_epoch keeps_next_epoch : keeps.

Lemma keeps_epochs rounds n : forall start opened bs,
  keeps J (epochs rounds n start opened bs) (fun _ => True).
Proof.
  induction rounds as [|rounds IH]; intros; cbn [epochs]; [apply keeps_waiting|].
  keeps_step. destruct a as [e pts]. repeat keeps_step; [exact I | apply IH].
Qed.

Hint Resolve keeps_epochs : keeps.

Lemma keeps_rotate_release close : keeps J (rotate_surf_release close) (fun _ => True).
Proof.
  unfold rotate_surf_release. repeat keeps_step. destruct a0 as [opened bs].
  keeps_step; [field_ok|]. keeps_step.
  eapply keeps_bind; [apply keeps_replay_all|].
  - intros [pt []]; [now apply keeps_ret | apply keeps_replay].
  - intros [] _. now apply keeps_ret.
Qed.

Lemma keeps_release_epoch final : keeps J (rotate_surf_release_epoch final) (fun _ => True).
Proof.
  unfold rotate_surf_release_epoch. repeat keeps_step. destruct (assemble _) as [off out].
  eapply keeps_bind; [apply keeps_replay_all; apply keeps_replay|]. intros [] _.
  eapply keeps_bind with (Phi := fun _ => True); [|intros [] _; now apply keeps_ret].
  keeps_step; [now apply keeps_ret|]. repeat keeps_step; try field_ok; [reflexivity|].
  apply keeps_modify. field_ok. apply wrap_lt.
Qed.

End Types.
