(* ===== verification/ProverVerify.v ===== *)
(** * Verifying a record, the prover's side

    What [verify_record_tag] does once the record and the circuit's output are
    known: the message it sends, the inputs it packs and how it ends. *)

From S2P Require Import Prelude Block128 FieldCode Messaging BlockMap GHash Arrays Util CircuitWires CircuitRecords.
From S2P Require Import ServerState ServerIO ServerHandshake ServerRecords ServerTrace ServerVerify.
From S2P Require Import Prover ProverProofs ProverState ProverCircuits ProverAttest ProverLogic ProverTypes.

Import Session Channel Circuits Attest Wires RecordCircuits.
Local Open Scope N_scope.

Lemma session_bind_done {A B} (m : S A) (k : A -> S B) s s' a : m s = (s', Done a) -> bind m k s = k a s'.
Proof. intros E. unfold bind. now rewrite E. Qed.

(** ** The outputs of the circuits *)

Lemma repeated_bit_byte b : repeated_bit (bit_byte b) = true.
Proof. now destruct b. Qed.

Lemma bit_byte_set b : negb (bit_byte b =? 0) = b.
Proof. now destruct b. Qed.

Lemma bit_byte_clear b : (bit_byte b =? 0) = negb b.
Proof. now destruct b. Qed.

Lemma ctr_block_arr iv seq c : bytes iv -> arr 16 (SurfBlockMap.ctr_block iv seq c).
Proof.
  intros Hb. rewrite ctr_block_eq. split; [reflexivity|].
  repeat constructor; try apply lxor_byte; try apply (wrap_lt 8); try reflexivity; now apply bytes_at.
Qed.

(** The initial counter block, as the prover builds it. *)
Lemma vfy_iv_j0 server_iv seq :
  length server_iv = 16%nat -> vfy_iv_of server_iv seq = SurfBlockMap.ctr_block (skipn 4 server_iv) seq 1.
Proof.
  intros Hl. do 16 (destruct server_iv as [|? server_iv]; [discriminate|]). destruct server_iv; [|discriminate].
  rewrite ctr_block_eq. unfold vfy_iv_of. cbn -[N.shiftr wrap N.mul N.lxor].
  repeat (f_equal; try (now rewrite N.lxor_0_l); try apply N.lxor_comm).
Qed.

Section Calls.
Context {W : World} {F : Fuel} {B : MaskConstants.BlockCipher}.

Lemma run_vfy_bits i t a s :
  reply (log s) (Run verify_tag (pack_gcm_vfy i)) = Some [bit_byte t; bit_byte a] ->
  run_gcm_vfy_circuit true i s = (mkSt (ssl s) (Run verify_tag (pack_gcm_vfy i) :: log s), Done (t, negb a)).
Proof.
  intros E. unfold run_gcm_vfy_circuit, run_circuit, bind, act, require, ret, from_option. rewrite E.
  cbn [ret nth]. now rewrite !repeated_bit_byte, bit_byte_set, bit_byte_clear.
Qed.

Lemma run_vfy_commit_bits i r d t a o s :
  reply (log s) (Run verify_tag_commit (pack_gcm_vfy_commit i r d)) = Some [bit_byte t; bit_byte a; bit_byte o] ->
  run_gcm_vfy_commit_circuit true i r d s =
    (mkSt (ssl s) (Run verify_tag_commit (pack_gcm_vfy_commit i r d) :: log s), Done (t, negb a, o)).
Proof.
  intros E. unfold run_gcm_vfy_commit_circuit, run_circuit, bind, act, require, ret, from_option. rewrite E.
  cbn [ret nth forallb List.seq]. now rewrite !repeated_bit_byte, !bit_byte_set, bit_byte_clear.
Qed.

(** ** The call *)

(** The record, its header, the input of the circuit. *)
Definition record_at (c : SSL) (i : nat) : SurfRecord := nth i (surf_records (cap c)) (mkSurfRecord [] [] 0).
Definition aad_of (r : SurfRecord) : list N := record_header (size (ciphertext r) + 16).
Definition vfy_input (c : SSL) (r : SurfRecord) (tag_share : list N) : GCMVfyCircuitIn :=
  {| vfy_key := key_share (server c); vfy_iv := vfy_iv_of (iv (server c)) (seq r);
     vfy_tag_share := tag_share; vfy_server_tag := tag r |}.

(** The request goes out before the circuit runs. *)
Lemma verify_record_tag_run i want s ts :
  verifier (ptrs (ssl s)) = true -> gcm_vfy_circuit (ptrs (ssl s)) = true ->
  (i < length (surf_records (cap (ssl s))))%nat ->
  (surf_true_mode (ssl s) = true -> surf_key_committed (rel (ssl s)) = true) ->
  let r := record_at (ssl s) i in
  let msg := SslWrite (gcm_verify_message r (aad_of r)) in
  reply (log s) msg = true ->
  GHash.share (gcm_share (server (ssl s))) (aad_of r) (ciphertext r) = Some ts ->
  verify_record_tag i want s = run_verification (vfy_input (ssl s) r ts) want (mkSt (ssl s) (msg :: log s)).
Proof.
  intros Hv Hg Hi Hc r msg Hw Hts. unfold verify_record_tag. unfold bind at 1, gets at 1.
  rewrite Hv, Hg. unfold bind at 1, require at 1, ret at 1. cbn [andb].
  unfold bind at 1, gets at 1. rewrite (proj2 (Nat.ltb_lt _ _) Hi). unfold bind at 1, require at 1, ret at 1.
  unfold bind at 1 2, gets at 1 2.
  replace (surf_true_mode (ssl s) && negb (surf_key_committed (rel (ssl s)))) with false
    by (destruct (surf_true_mode (ssl s)); [now rewrite Hc | reflexivity]).
  unfold bind at 1, ret at 1. fold (record_at (ssl s) i). fold r. fold (aad_of r).
  unfold ssl_write. unfold bind at 1 2, act. fold msg. rewrite Hw.
  unfold require, ret at 1. unfold bind at 1, gets at 1. cbn [ssl]. rewrite Hts. reflexivity.
Qed.

(** *** How it ends *)

Lemma verification_masked input want s t a :
  surf_true_mode (ssl s) = false -> gcm_vfy_circuit (ptrs (ssl s)) = true ->
  reply (log s) (Run verify_tag (pack_gcm_vfy input)) = Some [bit_byte t; bit_byte a] ->
  run_verification input want s =
    (mkSt (ssl s) (Run verify_tag (pack_gcm_vfy input) :: log s), if t && a then Done None else Fail).
Proof.
  intros Hm Hg E. unfold run_verification. unfold bind at 1 2, gets at 1 2. rewrite Hm, Hg.
  rewrite (session_bind_done _ _ _ _ _ (run_vfy_bits _ _ _ _ E)). cbn beta iota.
  rewrite negb_involutive. now destruct (t && a).
Qed.

Lemma verification_sealed input want s t a o :
  surf_true_mode (ssl s) = true -> gcm_vfy_circuit (ptrs (ssl s)) = true ->
  Handshake.is_rotate (surf_mode (ssl s)) = false ->
  let call := Run verify_tag_commit (pack_gcm_vfy_commit input (surf_key_commit_rand (rel (ssl s))) (repeat 0 32)) in
  reply (log s) call = Some [bit_byte t; bit_byte a; bit_byte o] ->
  run_verification input want s = (mkSt (ssl s) (call :: log s), if t && a && o then Done None else Fail).
Proof.
  intros Hm Hg Hr call E. unfold run_verification. unfold bind at 1 2, gets at 1 2. rewrite Hm, Hg.
  unfold bind at 1, gets at 1.
  rewrite (session_bind_done _ _ _ _ _ (run_vfy_commit_bits _ _ _ _ _ _ _ E)). cbn beta iota.
  unfold bind at 1, gets at 1. cbn [ssl]. rewrite Hr. cbn [negb]. rewrite negb_involutive.
  now destruct (t && a && o).
Qed.

(** With the verdict of the verifier. *)
Definition verdict_outcome (want t : bool) : Outcome (option bool) :=
  if t then Done (if want then Some true else None) else if want then Done (Some false) else Fail.

Lemma verification_rotate input want s t :
  surf_true_mode (ssl s) = true -> gcm_vfy_circuit (ptrs (ssl s)) = true ->
  Handshake.is_rotate (surf_mode (ssl s)) = true -> (0 < fuel)%nat ->
  let call := Run verify_tag_commit (pack_gcm_vfy_commit input (surf_key_commit_rand (rel (ssl s))) (repeat 0 32)) in
  reply (log s) call = Some [bit_byte t; bit_byte true; bit_byte true] ->
  reply (call :: log s) (SslRead 1) = Got [if t then MessageHeaders.TAG_OK else MessageHeaders.TAG_REJECT] ->
  run_verification input want s = (mkSt (ssl s) (SslRead 1 :: call :: log s), verdict_outcome want t).
Proof.
  intros Hm Hg Hr Hf call E R. unfold run_verification. unfold bind at 1 2, gets at 1 2. rewrite Hm, Hg.
  unfold bind at 1, gets at 1.
  rewrite (session_bind_done _ _ _ _ _ (run_vfy_commit_bits _ _ _ _ _ _ _ E)). cbn beta iota.
  unfold bind at 1, gets at 1. cbn [ssl]. rewrite Hr. cbn [negb]. unfold read_verdict.
  assert (Er : read_exact_blocking 1 (mkSt (ssl s) (call :: log s)) =
    (mkSt (ssl s) (SslRead 1 :: call :: log s), Done [if t then MessageHeaders.TAG_OK else MessageHeaders.TAG_REJECT])).
  { unfold read_exact_blocking. destruct fuel as [|n]; [lia|]. cbn [read_loop].
    change (size [] <? 1) with true. change (1 - size []) with 1. cbn iota. unfold bind, act. cbn [log ssl]. rewrite R.
    destruct n; reflexivity. }
  fold call. rewrite (session_bind_done _ _ _ _ _ Er). destruct t, want; reflexivity.
Qed.

End Calls.
