(* ===== verification/RecordVerify.v ===== *)
(** * Verifying a record, both parties

    [verify_record_tag] of the prover against [verify_gcm_tag] of the
    verifier: the request is read as it was sent, both pack the circuit's
    inputs alike, and the circuit accepts exactly the tag that AES-GCM gives
    the ciphertext under the joint key. *)

From S2P Require Import Prelude Block128 GF128 FieldCode Messaging Util KeyShare BlockMap GHash Arrays.
From S2P Require Import CircuitWires CircuitRecords CircuitGcm.
From S2P Require Import ServerState ServerIO ServerHandshake ServerRecords ServerRun ServerLogic.
From S2P Require Import ServerSafety ServerTrace ServerVerify ServerWorld.
From S2P Require Import Prover ProverProofs ServerStream ProverState ProverCircuits ProverAttest ProverTypes ProverVerify.

Import Server Handshake Records Run Wires RecordCircuits.
Local Open Scope N_scope.

#[local] Opaque rev128 gf_mul NIST.gcm_ghash GHash.share.

(** ** Tags as numbers *)

Lemma be_int_block a : length a = 16%nat -> NIST.be_int a = F2128.arr_to_block (rev a).
Proof. intros L. rewrite be_int_setr. unfold F2128.arr_to_block. now rewrite firstn_all2 by (rewrite length_rev; lia). Qed.

Lemma be_int_inj a b : arr 16 a -> arr 16 b -> NIST.be_int a = NIST.be_int b -> a = b.
Proof.
  intros Ha Hb E. rewrite !be_int_block in E by apply Ha || apply Hb.
  rewrite <- (rev_involutive a), <- (rev_involutive b). f_equal. apply bits_inj; auto using arr_rev.
  rewrite !bits_wires by auto using arr_rev. now rewrite E.
Qed.

Lemma same_be_int a b : arr 16 a -> arr 16 b -> same a b = (NIST.be_int a =? NIST.be_int b).
Proof.
  intros Ha Hb. apply Bool.eq_iff_eq_true. rewrite same_iff, N.eqb_eq.
  split; [now intros -> | now apply be_int_inj].
Qed.

Lemma be_int_xor a b : arr 16 a -> arr 16 b ->
  NIST.be_int (MaskConstants.xor_bytes a b) = NIST.be_int a ⊕ NIST.be_int b.
Proof.
  intros Ha Hb. apply be_int_lxor; [apply Ha | apply Hb|]. intros i Hi. unfold MaskConstants.xor_bytes.
  rewrite nth_tabulate by exact Hi. apply wrap_small. apply lxor_byte; apply bytes_at; [apply Ha | apply Hb].
Qed.

Lemma share_arr powers aad ct s : bytes aad -> bytes ct -> GHash.share powers aad ct = Some s -> arr 16 s.
Proof.
  intros Ha Hc E. split; [now apply (length_share powers aad ct)|].
  rewrite share_eq in E by assumption. destruct (_ <? _)%nat; [discriminate|].
  apply some_inj in E as <-. apply bitrev_bytes, block_to_arr_bytes.
Qed.

(** ** The tag of AES-GCM *)

Section Joint.
Context {bf : BristolAES} {aes : list N -> list N -> list N} {Bok : BristolOk bf aes}.

Definition gcm_tag (k j0 aad ct : list N) : N :=
  NIST.be_int (aes k j0) ⊕ NIST.gcm_ghash (NIST.be_int (aes k (repeat 0 16))) aad ct.

Lemma joint_tag_gcm ka kb j0 aad ct powers_p powers_v :
  let k := MaskConstants.xor_bytes ka kb in
  bytes aad -> bytes ct -> (block_count aad ct <= GHash.kMaxPowers)%nat ->
  power_shares (hash_key (aes := aes) k) powers_p powers_v ->
  exists tp tv,
    GHash.share powers_p aad ct = Some tp /\ GHash.share powers_v aad ct = Some tv /\ arr 16 tp /\ arr 16 tv /\
    NIST.be_int (joint_tag (aes := aes) ka kb j0 tp tv) = gcm_tag k j0 aad ct.
Proof.
  intros k Ha Hc Hn Hp.
  assert (HH : NIST.be_int (aes k (repeat 0 16)) < 2 ^ 128)
    by (rewrite be_int_block by apply aes_block; apply arr_lt).
  destruct (share_ghash _ powers_p powers_v aad ct HH Ha Hc Hp Hn) as (tp & tv & Ep & Ev & E).
  assert (Atp : arr 16 tp) by now apply (share_arr powers_p aad ct).
  assert (Atv : arr 16 tv) by now apply (share_arr powers_v aad ct).
  exists tp, tv. repeat (split; [assumption|]).
  unfold joint_tag, xor3, gcm_tag. fold k.
  rewrite !be_int_xor by (apply aes_block || apply xor_bytes_arr || assumption). now rewrite E.
Qed.

(** ** The two parties *)

Context `{KL : KeyLib} {Wp : Session.World} {Wv : World} {F : Fuel} {B : MaskConstants.BlockCipher}.
Context {input : list N} {St : Stream Wv input}.

Definition joint_key (c : Session.SSL) (s : Server) : list N :=
  MaskConstants.xor_bytes (Session.key_share (Session.server c)) (server_key_share (traffic_key_shares (keys s))).

(** What the handshake and the earlier messages have set up: shares of the
    key and of the powers of the hash key, the same IV, the same mode and,
    where records are kept sealed, a commitment to the prover's key share. *)
Record Paired (c : Session.SSL) (s : Server) : Prop := {
  pair_prover : ssl_ok c;
  pair_key : arr 16 (server_key_share (traffic_key_shares (keys s)));
  pair_iv : skipn 4 (Session.iv (Session.server c)) = server_iv (traffic_key_shares (keys s));
  pair_powers : power_shares (hash_key (aes := aes) (joint_key c s))
    (Session.gcm_share (Session.server c)) (server_gcm_powers (keys s));
  pair_mode : Session.surf_mode c = mode (conf s);
  pair_true : Session.surf_true_mode c = true_surf (conf s);
  pair_ptrs : Session.verifier (Session.ptrs c) = true /\ Session.gcm_vfy_circuit (Session.ptrs c) = true /\
    has_circuit GCM_VFY s = true;
  pair_sealed : true_surf (conf s) = true ->
    Session.surf_key_committed (Session.rel c) = true /\ key_committed (att s) = true /\ key_released (att s) = false /\
    key_commitment (att s) = hirose aes (Session.surf_key_commit_rand (Session.rel c)) (Session.key_share (Session.server c)) }.

(** The request the verifier reads for a record. *)
Definition request_of (r : Session.SurfRecord) : VerifyRequest :=
  {| rq_seq := Session.seq r; rq_aad := aad_of r; rq_ciphertext := Session.ciphertext r; rq_server_tag := Session.tag r |}.

(** The verifier's input. *)
Definition vfy_input_v (s : Server) (rq : VerifyRequest) (ts : list N) : Circuits.GCMVfyCircuitIn :=
  {| Circuits.vfy_key := server_key_share (traffic_key_shares (keys s));
     Circuits.vfy_iv := verify_iv (server_iv (traffic_key_shares (keys s))) (rq_seq rq);
     Circuits.vfy_tag_share := ts; Circuits.vfy_server_tag := rq_server_tag rq |}.

(** The prover's call of the wrapper, and what the circuit reveals to both. *)
Abbreviation prover_call c i := (
  Session.Run (if Session.surf_true_mode c then Session.verify_tag_commit else Session.verify_tag)
    (if Session.surf_true_mode c
     then Circuits.pack_gcm_vfy_commit i (Session.surf_key_commit_rand (Session.rel c)) (repeat 0 32)
     else Circuits.pack_gcm_vfy i)).

Definition revealed (c : Session.SSL) (s : Server) (ip iv : Circuits.GCMVfyCircuitIn) : list N :=
  if true_surf (conf s)
  then exec DeriveGCMVerifyCommit 3
         (Circuits.pack_gcm_vfy_commit ip (Session.surf_key_commit_rand (Session.rel c)) (repeat 0 32))
         (Circuits.pack_gcm_vfy_commit iv (repeat 0 16) (key_commitment (att s)))
  else exec DeriveGCMVerify 2 (Circuits.pack_gcm_vfy ip) (Circuits.pack_gcm_vfy iv).

(** How the verifier's call of the wrapper reads the output. *)
Definition vfy_decode (i : CircuitIn) (out : list N) : option (CircuitOut i) :=
  let passed := negb (out.[0] =? 0) in
  let cheated := out.[1] =? 0 in
  match i as i return option (CircuitOut i) with
  | InGCMVfy _ _ _ _ =>
      if Circuits.repeated_bit out.[0] && Circuits.repeated_bit out.[1] then Some (passed, cheated) else None
  | InGCMVfyCommit _ _ _ _ _ =>
      if forallb (fun k => Circuits.repeated_bit out.[k]) (List.seq 0 3)
      then Some (passed, cheated, negb (out.[2] =? 0)) else None
  | _ => None
  end.

(** The GCM tag of the record is the one that was captured. *)
Definition tag_right (c : Session.SSL) (s : Server) (r : Session.SurfRecord) : bool :=
  NIST.be_int (Session.tag r) =?
  gcm_tag (joint_key c s)
    (SurfBlockMap.ctr_block (server_iv (traffic_key_shares (keys s))) (Session.seq r) 1) (aad_of r) (Session.ciphertext r).

(** *** What the circuit reveals *)

Lemma aad_bytes r : bytes (aad_of r) /\ size (aad_of r) = 5.
Proof. split; [apply header_bytes | reflexivity]. Qed.

Lemma record_fits r : 1 <= size (Session.ciphertext r) <= 16385 ->
  (block_count (aad_of r) (Session.ciphertext r) <= GHash.kMaxPowers)%nat.
Proof.
  intros Hc. assert (L : length (aad_of r) = 5%nat) by reflexivity. unfold size in Hc. unfold block_count. rewrite L.
  assert (C : ((length (Session.ciphertext r) + 15) / 16 <= 1025)%nat) by (apply Nat.Div0.div_le_upper_bound; lia).
  change ((5 + 15) / 16)%nat with 1%nat. unfold GHash.kMaxPowers. lia.
Qed.

Lemma revealed_bits c s r tp tv :
  Paired c s -> record_ok r -> arr 16 tp -> arr 16 tv ->
  NIST.be_int (joint_tag (aes := aes) (Session.key_share (Session.server c)) (server_key_share (traffic_key_shares (keys s)))
     (SurfBlockMap.ctr_block (server_iv (traffic_key_shares (keys s))) (Session.seq r) 1) tp tv) =
  gcm_tag (joint_key c s)
    (SurfBlockMap.ctr_block (server_iv (traffic_key_shares (keys s))) (Session.seq r) 1) (aad_of r) (Session.ciphertext r) ->
  revealed c s (vfy_input c r tp) (vfy_input_v s (request_of r) tv) =
  map bit_byte (if true_surf (conf s) then [tag_right c s r; true; true] else [tag_right c s r; true]).
Proof.
  intros [Hok Kv Eiv _ _ _ _ Hsealed] Hr Htp Htv E.
  destruct Hok as [_ [_ Kp Ip _] _ _ Hrand _ _ _ _ _]. destruct Hr as [_ Htag _].
  set (j0 := SurfBlockMap.ctr_block (server_iv (traffic_key_shares (keys s))) (Session.seq r) 1) in *.
  assert (Jp : Attest.vfy_iv_of (Session.iv (Session.server c)) (Session.seq r) = j0)
    by (rewrite vfy_iv_j0 by apply Ip; now rewrite Eiv).
  assert (L12 : length (server_iv (traffic_key_shares (keys s))) = 12%nat)
    by (rewrite <- Eiv, length_skipn; destruct Ip as [-> _]; reflexivity).
  assert (Jv : verify_iv (server_iv (traffic_key_shares (keys s))) (Session.seq r) = j0) by now apply verify_iv_j0.
  assert (Aj : arr 16 j0).
  { apply ctr_block_arr. rewrite <- Eiv. apply bytes_skipn, Ip. }
  assert (T : same (joint_tag (aes := aes) (Session.key_share (Session.server c))
      (server_key_share (traffic_key_shares (keys s))) j0 tp tv) (Session.tag r) = tag_right c s r).
  { rewrite same_be_int by (exact Htag || apply xor_bytes_arr). rewrite E. apply N.eqb_sym. }
  unfold revealed, Circuits.pack_gcm_vfy_commit, Circuits.pack_gcm_vfy, vfy_input, vfy_input_v. cbn [Circuits.vfy_key
    Circuits.vfy_iv Circuits.vfy_tag_share Circuits.vfy_server_tag rq_seq rq_server_tag request_of]. rewrite Jp, Jv.
  destruct (true_surf (conf s)).
  - destruct (Hsealed eq_refl) as (_ & _ & _ & ->). rewrite <- !app_assoc.
    rewrite gcm_verify_commit_spec by (assumption || now apply arr_repeat || apply hirose_arr).
    unfold agree. rewrite !same_refl, T. cbn [map andb]. now rewrite !andb_true_r.
  - rewrite gcm_verify_spec by assumption. unfold agree. rewrite !same_refl, T. cbn [map andb]. now rewrite andb_true_r.
Qed.

(** *** The exchange *)

Lemma message_body r : 1 <= size (Session.ciphertext r) <= 16385 ->
  Attest.gcm_verify_message r (aad_of r) =
  MessageHeaders.GCM_VERIFY :: verify_body (Session.seq r) (aad_of r) (Session.ciphertext r) (Session.tag r).
Proof. intros Hc. unfold Attest.gcm_verify_message. rewrite wrap_small by lia. reflexivity. Qed.

(** The worlds of the two parties during the verification of record [i]: the
    request arrives, [rest] follows it, the circuit runs on the two inputs,
    and the prover reads what the verifier writes. *)
Record Exchange (sp : Session.St) (s : Server) (i : nat) (rest : list N) : Prop := {
  c := Session.ssl sp; r := record_at c i;
  msg := Session.SslWrite (Attest.gcm_verify_message r (aad_of r));
  sent : Session.reply (Session.log sp) msg = true;
  arrives : MessageHeaders.GCM_VERIFY :: skipn (pos (log s)) input = Attest.gcm_verify_message r (aad_of r) ++ rest;
  both_run : forall tp tv,
    GHash.share (Session.gcm_share (Session.server c)) (aad_of r) (Session.ciphertext r) = Some tp ->
    GHash.share (server_gcm_powers (keys s)) (aad_of r) (Session.ciphertext r) = Some tv ->
    let out := revealed c s (vfy_input c r tp) (vfy_input_v s (request_of r) tv) in
    Session.reply (msg :: Session.log sp) (prover_call c (vfy_input c r tp)) = Some out /\
    (forall l, reply l (ARun (verify_input s (request_of r) tv)) = vfy_decode (verify_input s (request_of r) tv) out) /\
    (forall bs l, log (fst (verify_gcm_tag s)) = AWrite bs :: l ->
     Session.reply (prover_call c (vfy_input c r tp) :: msg :: Session.log sp) (Session.SslRead 1) = Got bs);
  written : forall l bs, reply l (AWrite bs) = true }.

(** How the prover's call ends. *)
Definition prover_ends (c : Session.SSL) (want right : bool) : Outcome (option bool) :=
  if Session.surf_true_mode c && is_rotate (Session.surf_mode c) then verdict_outcome want right
  else if right then Done None else Fail.

Lemma decode_bits s rq tv t :
  vfy_decode (verify_input s rq tv) (map bit_byte (if true_surf (conf s) then [t; true; true] else [t; true])) =
  vfy_reply (verify_input s rq tv) t false true.
Proof.
  unfold verify_input. destruct (true_surf (conf s)); cbn [vfy_decode vfy_reply map nth forallb List.seq];
    rewrite !repeated_bit_byte, ?bit_byte_set, ?bit_byte_clear; reflexivity.
Qed.

Lemma prover_verifies sp i want tp t :
  let c := Session.ssl sp in let r := record_at c i in
  let msg := Session.SslWrite (Attest.gcm_verify_message r (aad_of r)) in
  let call := prover_call c (vfy_input c r tp) in
  Session.verifier (Session.ptrs c) = true -> Session.gcm_vfy_circuit (Session.ptrs c) = true ->
  (i < length (Session.surf_records (Session.cap c)))%nat -> (0 < fuel)%nat ->
  (Session.surf_true_mode c = true -> Session.surf_key_committed (Session.rel c) = true) ->
  Session.reply (Session.log sp) msg = true ->
  GHash.share (Session.gcm_share (Session.server c)) (aad_of r) (Session.ciphertext r) = Some tp ->
  Session.reply (msg :: Session.log sp) call =
    Some (map bit_byte (if Session.surf_true_mode c then [t; true; true] else [t; true])) ->
  (Session.surf_true_mode c && is_rotate (Session.surf_mode c) = true ->
   Session.reply (call :: msg :: Session.log sp) (Session.SslRead 1) =
     Got [if t then MessageHeaders.TAG_OK else MessageHeaders.TAG_REJECT]) ->
  exists sp', Attest.verify_record_tag i want sp = (sp', prover_ends c want t) /\ Session.ssl sp' = c.
Proof.
  intros c r msg call Hv Hg Hi Hf Hc Hs Hts Hrun Hread.
  rewrite (verify_record_tag_run i want sp tp) by assumption. fold c. fold r. fold msg. unfold prover_ends.
  unfold call in *. clear call. destruct (Session.surf_true_mode c) eqn:Et; cbn [andb] in *.
  - destruct (is_rotate (Session.surf_mode c)) eqn:Er.
    + rewrite (verification_rotate _ want (Session.mkSt c (msg :: Session.log sp)) t); try assumption; [|now apply Hread].
      eexists. split; reflexivity.
    + rewrite (verification_sealed _ want (Session.mkSt c (msg :: Session.log sp)) t true true); try assumption.
      rewrite !andb_true_r. eexists. split; reflexivity.
  - rewrite (verification_masked _ want (Session.mkSt c (msg :: Session.log sp)) t true); try assumption.
    rewrite andb_true_r. eexists. split; reflexivity.
Qed.

End Joint.

(** C2: Verification of a record end to end, in all three modes: from paired
    states the verifier reads the prover's request as it was sent, and the two
    calls accept exactly when the captured tag is the AES-GCM tag of the
    captured ciphertext under the joint key. The verifier then enters the
    record and is left at the bytes after the request; on a wrong tag it
    changes nothing and ends the connection, or answers a rejection in the
    rotation mode, where the prover returns with that verdict. *)
Theorem record_verification {bf : BristolAES} {aes : list N -> list N -> list N} {Bok : BristolOk bf aes}
    `{KL : KeyLib} {Wp : Session.World} {Wv : World} {F : Fuel} {B : MaskConstants.BlockCipher}
    {input : list N} {St : Stream Wv input} (sp : Session.St) (s : Server) (i : nat) (want : bool) (rest : list N) :
  let c := Session.ssl sp in
  let r := record_at c i in
  Paired (aes := aes) c s -> Exchange sp s i rest ->
  (i < length (Session.surf_records (Session.cap c)))%nat ->
  1 <= size (Session.ciphertext r) <= 16385 -> 16385 <= N.of_nat fuel ->
  let right := tag_right (aes := aes) c s r in
  exists sp' s',
    Attest.verify_record_tag i want sp = (sp', prover_ends c want right) /\ Session.ssl sp' = c /\
    verify_gcm_tag s =
      (s', if right || (true_surf (conf s) && is_rotate (mode (conf s))) then Done tt else Fail) /\
    att s' = (if right then entered (conf s) (att s) (request_of r) else att s) /\
    conf s' = conf s /\ keys s' = keys s /\ skipn (pos (log s')) input = rest.
Proof.
  intros c r HP HE Hi Hc Hf right. destruct HE as [c' r' msg Hsent Harr Hboth Hw].
  assert (Hr : record_ok r).
  { pose proof (records_ok _ (pair_prover _ _ HP)) as Hrs. rewrite Forall_forall in Hrs. now apply Hrs, nth_In. }
  destruct (aad_bytes r) as [Ba La].
  destruct (joint_tag_gcm (Session.key_share (Session.server c)) (server_key_share (traffic_key_shares (keys s)))
    (SurfBlockMap.ctr_block (server_iv (traffic_key_shares (keys s))) (Session.seq r) 1) (aad_of r)
    (Session.ciphertext r) _ _ Ba (ct_ok _ Hr) (record_fits r Hc) (pair_powers _ _ HP))
    as (tp & tv & Ep & Ev & Atp & Atv & Etag).
  specialize (Hboth tp tv Ep Ev). fold c in c'. subst c'. fold r in r'. subst r'.
  rewrite (revealed_bits c s r tp tv HP Hr Atp Atv Etag) in Hboth. fold right in Hboth.
  destruct Hboth as (Rp & Rv & Rread). rewrite decode_bits in Rv.
  rewrite (message_body r Hc) in Harr. apply (f_equal (@tl N)) in Harr.
  change (skipn (pos (log s)) input = verify_body (Session.seq r) (aad_of r) (Session.ciphertext r) (Session.tag r) ++ rest) in Harr.
  destruct (verify_gcm_tag_stream s (Session.seq r) (aad_of r) (Session.ciphertext r) (Session.tag r) rest tv right false true)
    as (s' & Es & C' & K' & _ & A' & P' & V'); try assumption.
  { apply Hr. }
  { pose proof (tag_ok _ Hr) as [Lt _]. unfold size. now rewrite Lt. }
  { intros Ht. destruct (pair_sealed _ _ HP Ht) as (_ & Hk & Hl & _). now split. }
  { apply (pair_ptrs _ _ HP). }
  unfold passes, gives_verdict in *. rewrite orb_true_r, !andb_true_r in *.
  destruct (prover_verifies sp i want tp right) as (sp' & Ep' & Sp'); try assumption;
    try (apply (pair_ptrs _ _ HP)); try lia.
  - intros Ht. fold c in Ht. rewrite (pair_true _ _ HP) in Ht. apply (pair_sealed _ _ HP Ht).
  - rewrite <- (pair_true _ _ HP) in Rp. exact Rp.
  - intros Hrot. fold c in Hrot. rewrite (pair_true _ _ HP), (pair_mode _ _ HP) in Hrot.
    destruct (V' Hrot) as [l Hl]. rewrite Es in Rread. cbn [fst] in Rread. exact (Rread _ _ Hl).
  - exists sp', s'. now repeat (split; [assumption|]).
Qed.

(** *** An instance: one record in the rotation mode *)

Module RotateExample.

Definition prover_key : list N := 131 :: repeat 3 15.
Definition rand : list N := repeat 5 16.
Definition rec : Session.SurfRecord :=
  Session.mkSurfRecord [1; 2; 3] [146; 5; 4; 4; 23; 4; 4; 44; 4; 4; 4; 7; 0; 0; 0; 25] 3.

Definition ssl : Session.SSL :=
  Session.set_cap (Session.mkCapture [rec] 4 [] 0)
    (Session.set_rel (Session.mkRelease true false rand (repeat 0 16) 0 0)
      (Session.set_server (Session.mkDir (repeat 0 16) prover_key (repeat 0 4 ++ repeat 4 12)
         (powers_of_blocks (repeat 1 1088))) (zero_ssl Surf.Rotate true))).

Definition server : @Server toy_lib :=
  let s := ready_server Surf.Rotate SHUTDOWN
    (set_key_committed true
      (set_key_commitment (hirose MaskConstants.xor_bytes rand prover_key) empty_att)) in
  set_keys (set_server_gcm_powers (powers_of_blocks (repeat 0 1088)) (keys s)) s.

Definition out : list N := [255; 255; 255].
Definition request : list N := tl (Attest.gcm_verify_message rec (aad_of rec)).

Definition prover_world : Session.World := fun _ a =>
  match a as a return Session.Reply a with
  | Session.SslWrite _ => true
  | Session.SslRead n => Got [MessageHeaders.TAG_OK]
  | Session.RandBytes n => Some (repeat 0 n)
  | Session.RandomBytes n => repeat 0 n
  | Session.Run _ _ => Some out
  | Session.KsRemaining => 0
  | Session.KsPreproc => false
  | Session.GenerateShares _ _ => None
  | Session.CreateContext _ _ | Session.SetWriteState _ _ | Session.Flush | Session.AppendHandshake _
  | Session.Throw => true
  | Session.DeleteCircuits => tt
  | Session.Shaking a => quiet a
  end.

Definition verifier_world : World := fun l a =>
  match a as a return Reply a with
  | ARun i => vfy_decode i out
  | a => stream_world (request ++ [7]) l a
  end.

#[local] Instance verifier_stream : Stream verifier_world (request ++ [7]).
Proof.
  destruct (stream_world_stream (request ++ [7])) as [p Hr Ho].
  exact (@Build_Stream verifier_world _ p Hr Ho).
Defined.

#[local] Instance fuel_enough : Fuel := N.to_nat 16385.

Lemma ssl_typed : ssl_ok ssl.
Proof.
  split; try (now left); try (now apply arr_repeat); try reflexivity.
  - apply zero_dir_ok.
  - split; [now apply arr_repeat | | |].
    1-2: split; [reflexivity | repeat constructor].
    now apply arr_powers.
  - split; [reflexivity | repeat constructor].
  - repeat constructor.
Qed.

Lemma paired : Paired (aes := MaskConstants.xor_bytes) ssl server.
Proof.
  split; try reflexivity.
  - exact ssl_typed.
  - split; [reflexivity | repeat constructor].
  - exact ones_power_shares.
  - repeat split; reflexivity.
  - intros _. repeat split; reflexivity.
Qed.

Lemma exchange : Exchange (bf := toy_bristol) (Wp := prover_world) (Wv := verifier_world)
  (Session.mkSt ssl []) server 0 [7].
Proof.
  split; try reflexivity.
  intros tp tv Ep Ev.
  assert (E1 : exists x, GHash.share (Session.gcm_share (Session.server ssl)) (aad_of rec) [1; 2; 3] = Some x /\
    exists y, GHash.share (server_gcm_powers (keys server)) (aad_of rec) [1; 2; 3] = Some y /\
    revealed (bf := toy_bristol) ssl server (vfy_input ssl rec x) (vfy_input_v server (request_of rec) y) = out).
  { eexists. split; [vm_compute; reflexivity|]. eexists. split; [vm_compute; reflexivity|].
    vm_compute. reflexivity. }
  destruct E1 as (x & Ex & y & Ey & Eo).
  change (GHash.share _ _ _) with (GHash.share (Session.gcm_share (Session.server ssl)) (aad_of rec) [1; 2; 3]) in Ep.
  change (GHash.share _ _ _) with (GHash.share (server_gcm_powers (keys server)) (aad_of rec) [1; 2; 3]) in Ev.
  rewrite Ex in Ep. rewrite Ey in Ev. apply some_inj in Ep as <-. apply some_inj in Ev as <-.
  intros o. change o with (revealed (bf := toy_bristol) ssl server (vfy_input ssl rec x) (vfy_input_v server (request_of rec) y)).
  rewrite Eo. split; [reflexivity | split; [reflexivity|]].
  intros bs l E. assert (L : match log (fst (@verify_gcm_tag toy_lib verifier_world fuel_enough server)) with
    | AWrite b :: _ => b = [MessageHeaders.TAG_OK] | _ => False end) by (vm_compute; reflexivity).
  rewrite E in L. rewrite L. reflexivity.
Qed.

End RotateExample.

Lemma record_verification_witness :
  exists sp' s',
    Attest.verify_record_tag (W := RotateExample.prover_world) (F := RotateExample.fuel_enough)
      (B := fun _ _ => None) 0 true (Session.mkSt RotateExample.ssl []) = (sp', Done (Some true)) /\
    Session.ssl sp' = RotateExample.ssl /\
    @verify_gcm_tag toy_lib RotateExample.verifier_world RotateExample.fuel_enough RotateExample.server = (s', Done tt) /\
    att s' = entered (conf RotateExample.server) (att RotateExample.server) (request_of RotateExample.rec) /\
    conf s' = conf RotateExample.server /\ keys s' = keys RotateExample.server /\
    skipn (@pos _ _ RotateExample.verifier_stream (log s')) (RotateExample.request ++ [7]) = [7].
Proof.
  assert (R : tag_right (aes := MaskConstants.xor_bytes) RotateExample.ssl RotateExample.server RotateExample.rec = true)
    by (vm_compute; reflexivity).
  pose proof (@record_verification toy_bristol _ toy_bristol_ok toy_lib RotateExample.prover_world
    RotateExample.verifier_world RotateExample.fuel_enough (fun _ _ => None) _ RotateExample.verifier_stream
    (Session.mkSt RotateExample.ssl []) RotateExample.server 0 true [7]) as T.
  cbv zeta in T. change (Session.ssl (Session.mkSt RotateExample.ssl [])) with RotateExample.ssl in T.
  change (record_at RotateExample.ssl 0) with RotateExample.rec in T. rewrite R in T.
  apply T.
  - exact RotateExample.paired.
  - exact RotateExample.exchange.
  - apply Nat.ltb_lt. reflexivity.
  - split; discriminate.
  - unfold fuel, RotateExample.fuel_enough. now rewrite N2Nat.id.
Defined.
