(* ===== verification/KeyRelease.v ===== *)
(** * Commitment and release of the key, both parties

    The prover's commitment to its share of the server key against the
    verifier's handler, and the release of the verifier's share against the
    prover's reconstruction of the key. *)

From S2P Require Import Prelude Block128 GF128 FieldCode Messaging Util KeyShare BlockMap GHash Arrays.
From S2P Require Import CircuitWires CircuitRecords CircuitGcm.
From S2P Require Import ServerState ServerIO ServerHandshake ServerRecords ServerRun ServerLogic.
From S2P Require Import ServerSafety ServerTrace ServerVerify ServerWorld.
From S2P Require Import Prover ProverProofs ServerStream ProverState ProverCircuits ProverAttest ProverRelease.
From S2P Require Import ProverTypes ProverVerify RecordVerify.

Import Server Handshake Records Run Wires RecordCircuits.
Local Open Scope N_scope.

(** ** Reading into the commitment *)

Section Into.
Context `{KL : KeyLib} {W : World} {F : Fuel} {input : list N} {St : Stream W input}.

Definition store_commitment (bs : list N) (s : Server) : Server :=
  set_att (set_key_commitment (overlay bs (key_commitment (att s))) (att s)) s.

(** Everything but the commitment as in [s0]; [acc] has been stored. *)
Definition storing (s0 : Server) (acc rest : list N) (s : Server) : Prop :=
  conf s = conf s0 /\ keys s = keys s0 /\ circuits s = circuits s0 /\
  att s = set_key_commitment (overlay acc (key_commitment (att s0))) (att s0) /\
  skipn (pos (log s)) input = rest.

Lemma set_commitment_twice a x y : set_key_commitment x (set_key_commitment y a) = set_key_commitment x a.
Proof. reflexivity. Qed.

Lemma read_into_commitment n len : forall acc s s0 bs rest,
  storing s0 acc (bs ++ rest) s -> size acc + size bs = len -> (length bs <= n)%nat ->
  exists s', read_loop n store_commitment len acc s = (s', Done (acc ++ bs)) /\ storing s0 (acc ++ bs) rest s'.
Proof.
  induction n as [|n IH]; intros acc s s0 bs rest Hs Hlen Hn; cbn [read_loop].
  - destruct bs; [|cbn in Hn; lia]. rewrite (proj2 (N.ltb_ge _ _)) by (unfold size in *; cbn in *; lia).
    exists s. rewrite app_nil_r. split; [reflexivity | exact Hs].
  - destruct bs as [|b bs].
    { rewrite (proj2 (N.ltb_ge _ _)) by (unfold size in *; cbn in *; lia).
      exists s. rewrite app_nil_r. split; [reflexivity | exact Hs]. }
    rewrite (proj2 (N.ltb_lt _ _)) by (unfold size in *; cbn in *; lia).
    destruct Hs as (C & K & X & A & Hr).
    assert (Hp : (pos (log s) < length input)%nat) by (eapply rest_left; [exact Hr | discriminate]).
    destruct (pos_read (log s) (len - size acc)) as (k & K0 & Kn & E & P); [unfold size in *; cbn in *; lia | exact Hp|].
    unfold bind at 1, act. rewrite E, Hr. unfold bind at 1, modify.
    assert (Kl : (k <= length (b :: bs))%nat) by (unfold size in *; cbn in *; lia).
    assert (Ef : firstn k ((b :: bs) ++ rest) = firstn k (b :: bs)).
    { rewrite firstn_app. replace (k - length (b :: bs))%nat with 0%nat by lia. now rewrite firstn_O, app_nil_r. }
    rewrite Ef. set (s1 := store_commitment _ _).
    destruct (IH (acc ++ firstn k (b :: bs)) s1 s0 (skipn k (b :: bs)) rest) as (s' & E' & Hs').
    + split; [exact C | split; [exact K | split; [exact X | split]]].
      * unfold s1, store_commitment. cbn. rewrite A. cbn. now rewrite overlay_more.
      * change (log s1) with (ARead (len - size acc) :: log s). rewrite P, Nat.add_comm, <- skipn_skipn, Hr.
        rewrite skipn_app. replace (k - length (b :: bs))%nat with 0%nat by lia. reflexivity.
    + unfold size in *. rewrite length_app, length_firstn, length_skipn in *. lia.
    + rewrite length_skipn. cbn [length] in *. lia.
    + rewrite <- app_assoc, firstn_skipn in E', Hs'. exists s'. now split.
Qed.

Lemma read_key_commitment_stream s d rest :
  skipn (pos (log s)) input = d ++ rest -> length d = 32%nat -> length (key_commitment (att s)) = 32%nat ->
  true_surf (conf s) = true -> key_committed (att s) = false -> key_released (att s) = false ->
  (32 <= fuel)%nat ->
  exists s', read_key_commitment s = (s', Done tt) /\ conf s' = conf s /\ keys s' = keys s /\
    circuits s' = circuits s /\ att s' = set_key_committed true (set_key_commitment d (att s)) /\
    skipn (pos (log s')) input = rest.
Proof.
  intros Hr Ld Lk Ht Hc Hl Hf. unfold read_key_commitment. unfold bind at 1 2, gets at 1 2. rewrite Ht, Hc, Hl.
  cbn [negb orb]. unfold bind at 1, require, ret at 1.
  destruct (read_into_commitment fuel 32 [] s s d rest) as (s1 & E1 & C & K & X & A & R).
  { repeat split; try assumption. now destruct (att s). }
  { unfold size. cbn. lia. }
  { lia. }
  unfold read_exact_into. fold store_commitment. rewrite (bind_done _ _ _ _ _ E1).
  eexists. split; [reflexivity|]. repeat split; try assumption. cbn. rewrite A.
  unfold overlay. cbn [app]. rewrite skipn_all2 by lia. now rewrite app_nil_r.
Qed.

End Into.

(** ** The commitment *)

Section Prover.
Context {Wp : Session.World} {F : Fuel} {B : MaskConstants.BlockCipher} {aes : list N -> list N -> list N}.
Context {SC : SameCipher B aes}.

(** The message, and the fields it leaves. *)
Lemma send_commitment_run sp rand :
  let c := Session.ssl sp in
  let msg := MessageHeaders.KEY_COMMIT :: hirose aes rand (Session.key_share (Session.server c)) in
  Session.reply (Session.log sp) (Session.RandBytes 16) = Some rand ->
  Session.reply (Session.RandBytes 16 :: Session.log sp) (Session.SslWrite msg) = true ->
  Attest.surf_send_key_commitment sp =
    (Session.mkSt (Session.set_rel (Session.set_surf_key_committed true
        (Session.set_surf_key_commit_rand rand (Session.rel c))) c)
       (Session.SslWrite msg :: Session.RandBytes 16 :: Session.log sp), Done tt).
Proof.
  intros c msg Er Ew. unfold Attest.surf_send_key_commitment, Session.bind, Channel.act. rewrite Er. cbn -[hirose].
  rewrite hirose_host. cbn -[hirose]. unfold msg, c in Ew. rewrite Ew. reflexivity.
Qed.

(** The key that a released share completes. *)
Lemma release_epoch_run sp kv :
  let c := Session.ssl sp in
  Session.reply (Session.log sp) (Session.SslWrite [MessageHeaders.KEY_RELEASE]) = true ->
  Session.reply (Session.SslWrite [MessageHeaders.KEY_RELEASE] :: Session.log sp) (Session.SslRead 16) = Got kv ->
  size kv = 16 -> (0 < fuel)%nat ->
  exists sp', Releasing.surf_release_epoch_key sp = (sp', Done tt) /\
    Session.ssl sp' = Session.set_rel (Session.set_surf_key_released true (Session.set_surf_full_server_key
      (tabulate 16 (fun i => (Session.key_share (Session.server c)).[i] ⊕ kv.[i])) (Session.rel c))) c.
Proof.
  intros c Hw Hr Hs Hf. unfold Releasing.surf_release_epoch_key, Channel.ssl_write, Session.bind, Channel.act.
  cbn [Session.log Session.ssl]. rewrite Hw. unfold Session.require, Session.ret. unfold Channel.read_exact_blocking.
  destruct fuel as [|n]; [lia|]. cbn [Channel.read_loop]. change (size [] <? 16) with true. change (16 - size []) with 16.
  unfold Session.bind, Channel.act. cbn [Session.log Session.ssl app]. rewrite Hr.
  destruct n; cbn [Channel.read_loop]; rewrite (proj2 (N.ltb_ge _ _)) by lia; eexists; split; reflexivity.
Qed.

End Prover.

(** The commitment to the key share: with AES of the host library and of
    the circuit the same function, the prover's message is read by the
    verifier as it was sent, both record the commitment, the verifier's copy
    is the Hirose compression of the prover's share under its randomness as
    the circuit of later verifications recomputes it on wires, and the
    verifier is left at the bytes after the message. *)
Theorem key_commitment_exchange {bf : BristolAES} {aes : list N -> list N -> list N} {Bok : BristolOk bf aes}
    `{KL : KeyLib} {Wp : Session.World} {Wv : World} {F : Fuel} {B : MaskConstants.BlockCipher} {SC : SameCipher B aes}
    {input : list N} {St : Stream Wv input} (sp : Session.St) (s : Server) (rand rest : list N) :
  let c := Session.ssl sp in
  let share := Session.key_share (Session.server c) in
  let msg := MessageHeaders.KEY_COMMIT :: hirose aes rand share in
  ssl_ok c -> arr 16 rand ->
  Session.reply (Session.log sp) (Session.RandBytes 16) = Some rand ->
  Session.reply (Session.RandBytes 16 :: Session.log sp) (Session.SslWrite msg) = true ->
  MessageHeaders.KEY_COMMIT :: skipn (pos (log s)) input = msg ++ rest ->
  true_surf (conf s) = true -> key_committed (att s) = false -> key_released (att s) = false ->
  length (key_commitment (att s)) = 32%nat -> (32 <= fuel)%nat ->
  exists sp' s',
    Attest.surf_send_key_commitment sp = (sp', Done tt) /\ read_key_commitment s = (s', Done tt) /\
    Session.ssl sp' = Session.set_rel (Session.set_surf_key_committed true
      (Session.set_surf_key_commit_rand rand (Session.rel c))) c /\
    att s' = set_key_committed true (set_key_commitment (hirose aes rand share) (att s)) /\
    conf s' = conf s /\ keys s' = keys s /\ skipn (pos (log s')) input = rest /\
    equals 256 (Wires.hirose_commit (bits rand) (bits share) (bits MaskConstants.kHiroseC))
      (bits (key_commitment (att s'))) = true.
Proof.
  intros c share msg Hok Hrand Er Ew Hin Ht Hc Hl Lk Hf.
  destruct (read_key_commitment_stream s (hirose aes rand share) rest) as (s' & Es & C & K & X & A & R); try assumption.
  { exact (f_equal (@tl N) Hin). }
  { apply hirose_arr. }
  eexists _, s'. split; [exact (send_commitment_run sp rand Er Ew)|]. repeat (split; [assumption || reflexivity|]).
  rewrite A. cbn [key_commitment set_key_committed set_key_commitment].
  rewrite hirose_commit_bits by (exact Hrand || apply Hok).
  rewrite (equals_bits 32) by apply hirose_arr. apply same_refl.
Qed.

(** The release of the key: when both have the commitment, the verifier's
    handler answers the request with its share, marks the key as released and
    changes nothing else of its record layer, and the prover, reading that
    answer, ends with the joint key of the verified records. *)
Theorem key_release_exchange `{KL : KeyLib} {Wp : Session.World} {Wv : World} {F : Fuel} {B : MaskConstants.BlockCipher}
    (sp : Session.St) (s : Server) :
  let c := Session.ssl sp in
  let msg := Session.SslWrite [MessageHeaders.KEY_RELEASE] in
  ssl_ok c -> arr 16 (server_key_share (traffic_key_shares (keys s))) ->
  true_surf (conf s) = true -> key_committed (att s) = true -> key_released (att s) = false ->
  (forall l bs, reply l (AWrite bs) = true) ->
  Session.reply (Session.log sp) msg = true ->
  (forall bs l, log (fst (release_key s)) = AWrite bs :: l ->
     Session.reply (msg :: Session.log sp) (Session.SslRead 16) = Got bs) ->
  (0 < fuel)%nat ->
  exists sp' s',
    Releasing.surf_release_epoch_key sp = (sp', Done tt) /\ release_key s = (s', Done tt) /\
    att s' = set_key_released true (att s) /\ keys s' = keys s /\
    Session.ssl sp' = Session.set_rel (Session.set_surf_key_released true
      (Session.set_surf_full_server_key (joint_key c s) (Session.rel c))) c.
Proof.
  intros c msg Hok Hk Ht Hc Hl Hw Hs Hread Hf.
  assert (Sk : size (server_key_share (traffic_key_shares (keys s))) = 16).
  { unfold size. now destruct Hk as [-> _]. }
  assert (Es : exists s', release_key s = (s', Done tt) /\ att s' = set_key_released true (att s) /\ keys s' = keys s /\
    exists l, log s' = AWrite (server_key_share (traffic_key_shares (keys s))) :: l).
  { unfold release_key, socket_write. unfold bind, gets, require, upd_att, modify, track, track_rounds, act, ret.
    rewrite Ht, Hc, Hl. cbn [negb orb]. rewrite Sk.
    change ((SSL3_RT_MAX_PLAIN_LENGTH <? 16) || (16 =? 0)) with false. unfold modify. cbn iota beta.
    rewrite Hw. eexists. split; [reflexivity|]. cbn. eauto. }
  destruct Es as (s' & Es & A & K & l & L). rewrite Es in Hread. specialize (Hread _ _ L).
  destruct (release_epoch_run sp _ Hs Hread Sk Hf) as (sp' & Ep & Sp).
  exists sp', s'. repeat (split; [assumption|]). rewrite Sp. unfold joint_key, MaskConstants.xor_bytes.
  do 3 f_equal. unfold tabulate. apply map_ext. intros i. symmetry. apply wrap_small.
  apply lxor_byte; apply bytes_at; [apply (server_ok _ Hok) | apply Hk].
Qed.

(** *** Instances *)

Definition toy_commitment : list N := hirose MaskConstants.xor_bytes (repeat 0 16) RotateExample.prover_key.

Lemma key_commitment_exchange_witness :
  let s := ready_server Surf.Rotate SHUTDOWN empty_att in
  exists sp' s',
    Attest.surf_send_key_commitment (W := RotateExample.prover_world) (B := toy_cipher)
      (Session.mkSt RotateExample.ssl []) = (sp', Done tt) /\
    @read_key_commitment toy_lib (stream_world (toy_commitment ++ [7])) toy_fuel s = (s', Done tt) /\
    Session.ssl sp' = Session.set_rel (Session.set_surf_key_committed true
      (Session.set_surf_key_commit_rand (repeat 0 16) (Session.rel RotateExample.ssl))) RotateExample.ssl /\
    att s' = set_key_committed true (set_key_commitment toy_commitment (att s)) /\
    conf s' = conf s /\ keys s' = keys s /\
    skipn (@pos _ _ (stream_world_stream (toy_commitment ++ [7])) (log s')) (toy_commitment ++ [7]) = [7] /\
    equals 256 (@Wires.hirose_commit toy_bristol (bits (repeat 0 16)) (bits RotateExample.prover_key)
      (bits MaskConstants.kHiroseC)) (bits (key_commitment (att s'))) = true.
Proof.
  apply (@key_commitment_exchange toy_bristol _ toy_bristol_ok toy_lib RotateExample.prover_world
    (stream_world (toy_commitment ++ [7])) toy_fuel toy_cipher toy_same_cipher _
    (stream_world_stream (toy_commitment ++ [7])) (Session.mkSt RotateExample.ssl [])
    (ready_server Surf.Rotate SHUTDOWN empty_att) (repeat 0 16) [7]); try reflexivity.
  - exact RotateExample.ssl_typed.
  - apply arr_repeat.
  - apply Nat.leb_le. reflexivity.
Defined.

(** The prover reads the verifier's share. *)
Definition release_world : Session.World := fun l a =>
  match a as a return Session.Reply a with
  | Session.SslRead n => Got (repeat 3 16)
  | a => RotateExample.prover_world l a
  end.

Lemma key_release_exchange_witness :
  exists sp' s',
    Releasing.surf_release_epoch_key (W := release_world) (F := toy_fuel)
      (Session.mkSt RotateExample.ssl []) = (sp', Done tt) /\
    @release_key toy_lib (stream_world []) RotateExample.server = (s', Done tt) /\
    att s' = set_key_released true (att RotateExample.server) /\ keys s' = keys RotateExample.server /\
    Session.ssl sp' = Session.set_rel (Session.set_surf_key_released true
      (Session.set_surf_full_server_key (128 :: repeat 0 15) (Session.rel RotateExample.ssl))) RotateExample.ssl.
Proof.
  apply (@key_release_exchange toy_lib release_world (stream_world []) toy_fuel toy_cipher
    (Session.mkSt RotateExample.ssl []) RotateExample.server); try reflexivity.
  - exact RotateExample.ssl_typed.
  - split; [reflexivity | repeat constructor].
  - intros bs l E. assert (L : match log (fst (@release_key toy_lib (stream_world []) RotateExample.server)) with
      | AWrite b :: _ => b = repeat 3 16 | _ => False end) by (vm_compute; reflexivity).
    rewrite E in L. rewrite L. reflexivity.
  - apply Nat.ltb_lt. reflexivity.
Defined.
