(* ===== verification/ProverOpen.v ===== *)
(** * Records opened under the reconstructed key

    [true_surf_open_record] is counter mode from the counter 2; the tests for
    close_notify and KeyUpdate against the reading of an inner plaintext in
    [tls_open_record]; and the response that is assembled from the records. *)

From S2P Require Import Prelude Block128 FieldCode Messaging BlockMap GHash.
From S2P Require Import ServerState ServerIO ServerHandshake ServerRecords.
From S2P Require Import Prover ProverState ProverCircuits ProverAttest PostHandshake ProverRelease ProverLogic ProverTypes.

Import Session Channel Circuits Attest PostHandshake Releasing.
Local Open Scope N_scope.

(** ** Counter mode *)

(** Counter mode under the block cipher [aes], from the counter 2. *)
Definition ctr_mode (aes : list N -> list N) (iv : list N) (seq : N) (bs : list N) : list N :=
  tabulate (length bs) (fun i =>
    bs.[i] ⊕ (aes (SurfBlockMap.ctr_block iv seq (N.of_nat (i / 16) + 2))).[i mod 16]).

Lemma ctr_mode_involutive aes iv seq bs : ctr_mode aes iv seq (ctr_mode aes iv seq bs) = bs.
Proof.
  unfold ctr_mode at 1. apply (nth_ext _ _ 0 0).
  - unfold ctr_mode. now rewrite !length_tabulate.
  - rewrite length_tabulate. intros i Hi. rewrite nth_tabulate by exact Hi. unfold ctr_mode in *.
    rewrite length_tabulate in Hi. rewrite nth_tabulate by exact Hi.
    now rewrite N.lxor_assoc, N.lxor_nilpotent, N.lxor_0_r.
Qed.

Lemma blocks_of rec : size (ciphertext rec) < 2 ^ 32 ->
  SurfBlockMap.record_blocks (dims_of rec) = N.of_nat ((length (ciphertext rec) + 15) / 16).
Proof.
  intros H. unfold SurfBlockMap.record_blocks, dims_of. cbn [SurfBlockMap.ct_len].
  rewrite wrap_small by exact H. unfold size. rewrite Nat2N.inj_div, Nat2N.inj_add. reflexivity.
Qed.

(** Blocks of a record of less than [2^32] bytes: counter [idx + 2]. *)
Lemma resolve_one rec idx :
  size (ciphertext rec) < 2 ^ 32 -> (idx < (length (ciphertext rec) + 15) / 16)%nat ->
  SurfBlockMap.resolve [dims_of rec] (N.of_nat idx) = Some (seq rec, N.of_nat idx + 2).
Proof.
  intros Hs Hi. unfold SurfBlockMap.resolve, SurfBlockMap.resolve_from. rewrite blocks_of by exact Hs.
  rewrite (proj2 (N.ltb_lt _ _)) by lia. rewrite N.sub_0_r. cbn [SurfBlockMap.seq dims_of].
  unfold size in Hs.
  assert (N.of_nat idx < 2 ^ 29).
  { change (2 ^ 32) with 4294967296 in Hs. change (2 ^ 29) with 536870912.
    assert (idx < (length (ciphertext rec) + 15) / 16)%nat as Hd by exact Hi.
    pose proof (Nat.Div0.mul_div_le (length (ciphertext rec) + 15) 16). lia. }
  change (2 ^ 29) with 536870912 in *.
  rewrite (wrap_small 32 (N.of_nat idx)), wrap_small by (change (2 ^ 32) with 4294967296; lia).
  reflexivity.
Qed.

Section Open.
Context {B : MaskConstants.BlockCipher}.
Variables (key : list N) (aes : list N -> list N).
Hypothesis cipher_total : forall x, MaskConstants.aes_ecb_block key x = Some (aes x).

Lemma xor_block_nth ct ks off n out i :
  (off + n <= length out)%nat ->
  (xor_block ct ks off n out).[i] =
  if (off <=? i)%nat && (i <? off + n)%nat then ct.[i] ⊕ ks.[i - off] else out.[i].
Proof.
  intros Hl. unfold xor_block. rewrite nth_fold_upd by exact Hl.
  destruct (Nat.leb_spec off i), (Nat.ltb_spec i (off + n)); cbn [andb]; try reflexivity.
  now replace (off + (i - off))%nat with i by lia.
Qed.

Lemma length_xor_block ct ks off n out : length (xor_block ct ks off n out) = length out.
Proof. apply length_fold_left. intros. apply length_upd. Qed.

(** The blocks from [k] on are written, the others stay. *)
Lemma open_blocks_spec rec siv m : forall k out,
  size (ciphertext rec) < 2 ^ 32 -> (k + m = (length (ciphertext rec) + 15) / 16)%nat ->
  length out = length (ciphertext rec) ->
  exists out', open_blocks key siv [dims_of rec] (ciphertext rec) (List.seq k m) out = Some out' /\
    length out' = length (ciphertext rec) /\
    forall i, (i < length (ciphertext rec))%nat ->
      out'.[i] = if (k * 16 <=? i)%nat then (ctr_mode aes siv (seq rec) (ciphertext rec)).[i] else out.[i].
Proof.
  set (ct := ciphertext rec). induction m as [|m IH]; intros k out Hs Hk Hl.
  - exists out. split; [reflexivity | split; [exact Hl|]]. intros i Hi.
    rewrite (proj2 (Nat.leb_gt _ _)); [reflexivity|].
    rewrite Nat.add_0_r in Hk. subst k. pose proof (Nat.div_mod_eq (length ct + 15) 16).
    pose proof (Nat.mod_upper_bound (length ct + 15) 16 ltac:(lia)). lia.
  - cbn [List.seq open_blocks]. rewrite resolve_one by (exact Hs || fold ct; lia). rewrite cipher_total.
    pose proof (Nat.Div0.mul_div_le (length ct + 15) 16) as Hd.
    set (n := Nat.min 16 (length ct - k * 16)).
    destruct (IH (Datatypes.S k) (xor_block ct (aes (SurfBlockMap.ctr_block siv (seq rec) (N.of_nat k + 2)))
      (k * 16) n out)) as (out' & E & Lo & Ho).
    + exact Hs.
    + fold ct. lia.
    + now rewrite length_xor_block.
    + exists out'. split; [exact E | split; [exact Lo|]]. intros i Hi. rewrite Ho by exact Hi.
      destruct (Nat.leb_spec (Datatypes.S k * 16) i) as [H1|H1], (Nat.leb_spec (k * 16) i) as [H2|H2];
        try lia; try reflexivity;
        (rewrite xor_block_nth by (unfold n; lia)).
      * rewrite (proj2 (Nat.leb_le _ _)), (proj2 (Nat.ltb_lt _ _)) by (unfold n; lia). cbn [andb].
        unfold ctr_mode. rewrite nth_tabulate by exact Hi.
        assert (Hq : (i / 16 = k)%nat) by (symmetry; apply (Nat.div_unique i 16 k (i - k * 16)); lia).
        rewrite Hq, (Nat.Div0.mod_eq i 16), Hq, (Nat.mul_comm 16 k). reflexivity.
      * rewrite (proj2 (Nat.leb_gt _ _)) by lia. reflexivity.
Qed.

Lemma open_record_ctr server_iv rec :
  size (ciphertext rec) < 2 ^ 32 ->
  true_surf_open_record key server_iv rec =
  Some (ctr_mode aes (skipn 4 server_iv) (seq rec) (ciphertext rec)).
Proof.
  intros Hs. unfold true_surf_open_record. cbv zeta.
  destruct (open_blocks_spec rec (skipn 4 server_iv) ((length (ciphertext rec) + 15) / 16) 0
              (repeat 0 (length (ciphertext rec))))
    as (out & -> & Lo & Ho); [exact Hs | reflexivity | apply repeat_length |].
  f_equal. apply (nth_ext _ _ 0 0).
  - unfold ctr_mode. now rewrite length_tabulate.
  - rewrite Lo. intros i Hi. now rewrite Ho by exact Hi.
Qed.

End Open.

(** ** Inner plaintexts *)

(** A plaintext is its content and type followed by padding, or all padding. *)
Lemma padded_form (pt : list N) : exists core k,
  pt = core ++ repeat 0 k /\ (core = [] \/ exists d t, core = d ++ [t] /\ t <> 0).
Proof.
  induction pt as [|x pt IH] using rev_ind; [exists [], 0%nat; auto|].
  destruct (N.eq_dec x 0) as [-> |Hx].
  - destruct IH as (core & k & -> & H). exists core, (Datatypes.S k). split; [|exact H].
    rewrite <- app_assoc. f_equal. apply eq_sym, repeat_cons.
  - exists (pt ++ [x]), 0%nat. split; [now rewrite app_nil_r | right; eauto].
Qed.

Lemma strip_zeros k r : strip_inner (repeat 0 k ++ r) = strip_inner r.
Proof. induction k as [|k IH]; [reflexivity | exact IH]. Qed.

Lemma inner_content d t k : t <> 0 -> inner_plaintext (d ++ [t] ++ repeat 0 k) = Some (t, d).
Proof.
  intros Ht. unfold inner_plaintext. rewrite !rev_app_distr, rev_repeat, <- app_assoc, strip_zeros. cbn.
  apply N.eqb_neq in Ht. now rewrite Ht, rev_involutive.
Qed.

Lemma inner_padding k : inner_plaintext (repeat 0 k) = None.
Proof.
  unfold inner_plaintext. rewrite rev_repeat. rewrite <- (app_nil_r (repeat 0 k)). now rewrite strip_zeros.
Qed.

Lemma skip_zeros pt n k :
  (forall j, (n <= j < n + k)%nat -> pt.[j] = 0) -> skip_padding pt (n + k) = skip_padding pt n.
Proof.
  induction k as [|k IH]; intros H; [now rewrite Nat.add_0_r|].
  rewrite Nat.add_succ_r. cbn [skip_padding]. rewrite (H (n + k)%nat) by lia. apply IH. intros j Hj. apply H. lia.
Qed.

Lemma skip_content d t k :
  t <> 0 -> skip_padding (d ++ [t] ++ repeat 0 k) (length (d ++ [t] ++ repeat 0 k)) = Datatypes.S (length d).
Proof.
  intros Ht. rewrite !length_app, repeat_length. cbn [length]. rewrite Nat.add_assoc, skip_zeros.
  - rewrite Nat.add_1_r. cbn [skip_padding]. rewrite app_nth2, Nat.sub_diag by lia. cbn.
    apply N.eqb_neq in Ht. now rewrite Ht.
  - intros j Hj. rewrite app_assoc, app_nth2 by (rewrite length_app; cbn; lia). apply nth_repeat.
Qed.

Lemma skip_padding_zeros k : skip_padding (repeat 0 k) (length (repeat 0 k)) = 0%nat.
Proof. rewrite repeat_length. apply (skip_zeros _ 0). intros. apply nth_repeat. Qed.

(** The two tests have the shape: type, size, first bytes. *)
Lemma test_content (type : N) (n : nat) (check : list N -> bool) (msg : list N -> Prop) pt :
  (forall d r, length d = n -> check (d ++ r) = true <-> msg d) -> (forall d, msg d -> length d = n) ->
  (let m := skip_padding pt (length pt) in
   if (m =? 0)%nat || negb (pt.[m - 1] =? type) then false else (m - 1 =? n)%nat && check pt) = true <->
  exists d, inner_plaintext pt = Some (type, d) /\ msg d.
Proof.
  intros Hc Hm. destruct (padded_form pt) as (core & k & -> & [-> |(d & t & -> & Ht)]).
  - cbn [app]. cbv zeta. rewrite skip_padding_zeros, inner_padding. cbn. split; [discriminate|].
    now intros (d & E & _).
  - rewrite <- app_assoc. rewrite inner_content, skip_content by exact Ht. cbn [Nat.eqb orb].
    rewrite Nat.sub_1_r, Nat.pred_succ.
    assert (Et : (d ++ [t] ++ repeat 0 k).[length d] = t) by (rewrite app_nth2, Nat.sub_diag by lia; reflexivity).
    rewrite Et. destruct (N.eqb_spec t type) as [-> |Hn]; cbn [negb].
    + rewrite andb_true_iff, Nat.eqb_eq. split.
      * intros [L C]. exists d. split; [reflexivity|]. now apply (Hc d _ L) in C.
      * intros (d' & E & M). injection E as <-. split; [now apply Hm|]. now apply (Hc d _ (Hm d M)).
    + split; [discriminate|]. intros (d' & E & _). congruence.
Qed.

Lemma close_notify_inner pt :
  surf_is_close_notify pt = true <-> inner_plaintext pt = Some (SSL3_RT_ALERT, [1; 0]).
Proof.
  unfold surf_is_close_notify. cbv zeta.
  setoid_rewrite <- andb_assoc.
  rewrite (test_content SSL3_RT_ALERT 2
    (fun pt => (pt.[0] =? SSL3_AL_WARNING) && (pt.[1] =? SSL_AD_CLOSE_NOTIFY)) (fun d => d = [1; 0])).
  - split; [now intros (d & -> & ->) | intros ->; eauto].
  - intros d r L. do 2 (destruct d as [|? d]; [discriminate|]). destruct d; [|discriminate].
    cbn. rewrite andb_true_iff, !N.eqb_eq. split; [now intros [-> ->] | now intros [= -> ->]].
  - now intros d ->.
Qed.

Lemma key_update_inner pt :
  surf_is_key_update pt = true <-> exists b, inner_plaintext pt = Some (SSL3_RT_HANDSHAKE, [24; 0; 0; 1; b]).
Proof.
  unfold surf_is_key_update. cbv zeta. setoid_rewrite <- andb_assoc. setoid_rewrite <- andb_assoc.
  setoid_rewrite <- andb_assoc.
  rewrite (test_content SSL3_RT_HANDSHAKE 5
    (fun pt => (pt.[0] =? SSL3_MT_KEY_UPDATE) && ((pt.[1] =? 0) && ((pt.[2] =? 0) && (pt.[3] =? 1))))
    (fun d => exists b, d = [24; 0; 0; 1; b])).
  - split; [intros (d & -> & b & ->); eauto | intros (b & ->); eauto].
  - intros d r L. do 5 (destruct d as [|? d]; [discriminate|]). destruct d; [|discriminate].
    cbn. rewrite !andb_true_iff, !N.eqb_eq. split; [intros (-> & -> & -> & ->); eauto |].
    now intros (b & [= -> -> -> -> ->]).
  - now intros d (b & ->).
Qed.

(** ** The response *)

(** The contents of the records whose last byte is the application-data type. *)
Definition app_data (opened : list (list N)) : list N :=
  concat (map (@removelast N) (filter (has_type SSL3_RT_APPLICATION_DATA) opened)).

Lemma length_removelast {A} (xs : list A) : length (removelast xs) = (length xs - 1)%nat.
Proof.
  destruct xs as [|x xs] using rev_ind; [reflexivity|]. rewrite removelast_last, length_app. cbn. lia.
Qed.

Lemma total_size_acc opened : forall n,
  fold_left (fun total pt => if has_type SSL3_RT_APPLICATION_DATA pt then (total + (length pt - 1))%nat else total)
    opened n = (n + length (app_data opened))%nat.
Proof.
  unfold app_data. induction opened as [|pt opened IH]; intros n; cbn; [lia|]. rewrite IH.
  destruct has_type; [|reflexivity]. cbn. rewrite length_app, length_removelast. lia.
Qed.

Lemma total_size_data opened : total_size opened = length (app_data opened).
Proof. apply total_size_acc. Qed.

(** Copying in place of zeros behind what is already written. *)
Lemma assemble_from opened : forall pre,
  fold_left assemble_step opened (length pre, pre ++ repeat 0 (length (app_data opened))) =
  (length (pre ++ app_data opened), pre ++ app_data opened).
Proof.
  induction opened as [|pt opened IH]; intros pre.
  - unfold app_data. cbn. now rewrite app_nil_r.
  - cbn [fold_left]. unfold assemble_step at 2, app_data. cbn [filter].
    destruct has_type; [|apply IH]. cbn [map concat].
    fold (app_data opened). rewrite app_assoc, <- IH. f_equal. f_equal.
    + now rewrite length_app, length_removelast.
    + unfold copy_at. rewrite length_app, repeat_app, firstn_app, Nat.sub_diag, firstn_all, firstn_O, app_nil_r.
      rewrite skipn_app, (skipn_all2 pre) by lia.
      replace (length pre + length (removelast pt) - length pre)%nat with (length (removelast pt)) by lia.
      rewrite skipn_app, (skipn_all2 (repeat 0 _)) by (rewrite repeat_length; lia).
      rewrite repeat_length, Nat.sub_diag. cbn. now rewrite <- app_assoc.
Qed.

Lemma assemble_data opened : assemble opened = (total_size opened, app_data opened).
Proof. unfold assemble. rewrite total_size_data. exact (assemble_from opened []). Qed.

(** The stream a reader of TLS 1.3 records sees: the content of every record
    whose inner type is application data, padding removed. *)
Definition tls_stream (opened : list (list N)) : list N :=
  flat_map (fun pt => match inner_plaintext pt with
                      | Some (t, d) => if t =? SSL3_RT_APPLICATION_DATA then d else []
                      | None => [] end) opened.

(** No padding: the last byte is the inner content type. *)
Definition unpadded (pt : list N) : Prop := last pt 1 <> 0.

Lemma has_type_inner t pt : unpadded pt -> t <> 0 ->
  has_type t pt = match inner_plaintext pt with Some (t', _) => t' =? t | None => false end /\
  forall d, inner_plaintext pt = Some (t, d) -> d = removelast pt.
Proof.
  intros Hu Ht. destruct pt as [|x pt _] using rev_ind; [now split|].
  unfold unpadded in Hu. rewrite last_last in Hu.
  replace (pt ++ [x]) with (pt ++ [x] ++ repeat 0 0) by reflexivity. rewrite inner_content by exact Hu.
  cbn [repeat app]. unfold has_type. rewrite last_last, length_app, Nat.add_1_r. split; [reflexivity|].
  intros d [= <- <-]. now rewrite removelast_last.
Qed.

Lemma app_data_stream opened : Forall unpadded opened -> app_data opened = tls_stream opened.
Proof.
  induction 1 as [|pt opened Hu _ IH]; [reflexivity|]. unfold app_data, tls_stream in *. cbn [filter flat_map].
  destruct (has_type_inner SSL3_RT_APPLICATION_DATA pt Hu ltac:(discriminate)) as [E R]. rewrite E.
  destruct (inner_plaintext pt) as [[t d]|]; [|exact IH].
  destruct (N.eqb_spec t SSL3_RT_APPLICATION_DATA) as [-> |_]; [|exact IH].
  cbn [map concat]. now rewrite <- (R d eq_refl), IH.
Qed.

(** A padded record contributes nothing. *)
Lemma app_data_padded before d k after :
  app_data (before ++ (d ++ [SSL3_RT_APPLICATION_DATA] ++ repeat 0 (Datatypes.S k)) :: after) =
  app_data (before ++ after).
Proof.
  unfold app_data. rewrite !filter_app. cbn [filter].
  set (pt := d ++ _). assert (E : has_type SSL3_RT_APPLICATION_DATA pt = false); [|now rewrite E].
  unfold has_type, pt. cbn [repeat]. rewrite repeat_cons, !app_assoc, last_last. apply andb_false_r.
Qed.
