(* ===== verification/Replay.v ===== *)
(** * Session tickets in a sealed stream

    With a verifier that cooperates, the handshake records of a released
    stream go back to the handshake layer: every NewSessionTicket in them
    becomes a session that carries the connection's PSK share, the first one
    after the PSK was derived with the verifier. *)

From S2P Require Import Prelude Messaging KeyDerive ServerState ServerIO ServerHandshake ServerRecords Preprocessing.
From S2P Require Import Prover ProverState ProverCircuits ProverAttest ProverHandshake PostHandshake ProverRelease ProverLogic ProverVerify.

Import ByteString Session Channel Circuits Attest Callbacks PostHandshake Releasing.
Local Open Scope N_scope.
Local Open Scope session_scope.

(** ** A world that cooperates

    Writes are taken, the circuit finds every tag right and the key opened,
    the verifier's share [kv] arrives, the PSK circuit runs and its end is
    confirmed, and the handshake layer has memory and accepts a ticket's
    extensions. *)
Class Cooperative (W : World) (kv : list N) : Prop := {
  coop_write : forall l bs, reply l (SslWrite bs) = true;
  coop_rand : forall l n, exists r, reply l (RandBytes n) = Some r;
  coop_verify : forall l i, reply l (Run verify_tag_commit i) = Some [255; 255; 255];
  coop_share : forall l, reply l (SslRead 16) = Got kv;
  coop_append : forall l bs, reply l (AppendHandshake bs) = true;
  coop_psk : forall l w i, exists out, reply l (Run (derive_psk_key w) i) = Some out;
  coop_done : forall l, reply l (SslRead 1) = Got [MessageHeaders.PSK_DONE];
  coop_dup : forall l, reply l (Shaking DupSession) = true;
  coop_exts : forall l bs, reply l (Shaking (TicketExtensions bs)) = true }.

(** What verification, release and replay do not change. *)
Record same_session (c0 c : SSL) : Prop := {
  s_ptrs : ptrs c = ptrs c0; s_mode : surf_mode c = surf_mode c0; s_true : surf_true_mode c = surf_true_mode c0;
  s_server : server c = server c0; s_records : surf_records (cap c) = surf_records (cap c0) }.

Lemma same_session_refl c : same_session c c.
Proof. now constructor. Qed.

Lemma same_session_trans a b c : same_session a b -> same_session b c -> same_session a c.
Proof. intros [] []. constructor; congruence. Qed.

Lemma same_session_rel f c : same_session c (set_rel f c).
Proof. now constructor. Qed.

(** ** The messages of a stream *)

(** A NewSessionTicket that parses, with a nonce that there is a circuit for. *)
Definition good_ticket (type : N) (body : list N) : bool :=
  (type =? SSL3_MT_NEW_SESSION_TICKET) &&
  match parse_ticket body with
  | Some t => match psk_header (length (nonce t)) with Some _ => true | None => false end
  | None => false
  end.

(** The number of tickets at the start of the buffer and what follows the last
    complete message; [None] when a complete message is not a good ticket. *)
Fixpoint drain (n : nat) (buf : list N) : option (nat * list N) :=
  match n with
  | O => None
  | Datatypes.S n =>
      match parse_message buf with
      | None => Some (0%nat, buf)
      | Some (type, body, rest) =>
          if good_ticket type body then option_map (fun '(k, r) => (Datatypes.S k, r)) (drain n rest) else None
      end
  end.

Definition tickets_in (buf : list N) : option (nat * list N) := drain (Datatypes.S (length buf)) buf.

(** The bytes of the handshake records, as the replay sees them. *)
Definition handshake_bytes (pts : list (list N)) : list N :=
  flat_map (fun pt => if has_type SSL3_RT_HANDSHAKE pt then removelast pt else []) pts.

Lemma drain_enough : forall n buf, (length buf < n)%nat -> drain n buf = tickets_in buf.
Proof.
  enough (H : forall n m buf, (length buf < n)%nat -> (length buf < m)%nat -> drain n buf = drain m buf).
  { intros n buf Hn. apply H; [exact Hn | lia]. }
  induction n as [|n IH]; intros [|m] buf Hn Hm; try lia. cbn [drain].
  destruct (parse_message buf) as [[[type body] rest]|] eqn:E; [|reflexivity]. apply parse_message_takes in E.
  destruct (good_ticket type body); [|reflexivity]. now rewrite (IH m rest) by lia.
Qed.

Lemma tickets_in_eq buf : tickets_in buf =
  match parse_message buf with
  | None => Some (0%nat, buf)
  | Some (type, body, rest) => if good_ticket type body then option_map (fun '(k, r) => (Datatypes.S k, r)) (tickets_in rest) else None
  end.
Proof.
  unfold tickets_in at 1. cbn [drain]. destruct (parse_message buf) as [[[type body] rest]|] eqn:E; [|reflexivity].
  apply parse_message_takes in E. now rewrite drain_enough by lia.
Qed.

Lemma parse_message_more buf more type body rest :
  parse_message buf = Some (type, body, rest) -> parse_message (buf ++ more) = Some (type, body, rest ++ more).
Proof.
  destruct buf as [|t [|b0 [|b1 [|b2 r]]]]; try discriminate. unfold parse_message. cbn [app CBS_get_u8 CBS_get_u24].
  unfold CBS_get_bytes. set (n := N.to_nat _). destruct (Nat.leb_spec n (length r)); [|discriminate].
  intros [= <- <- <-]. clearbody n. rewrite (proj2 (Nat.leb_le n (length (r ++ more)))) by (rewrite length_app; lia).
  rewrite firstn_app, skipn_app. replace (n - length r)%nat with 0%nat by lia. cbn. now rewrite app_nil_r.
Qed.

(** Bytes that arrive later do not change the messages before them. *)
Lemma tickets_app more : forall n buf, (length buf < n)%nat ->
  tickets_in (buf ++ more) =
  match tickets_in buf with
  | Some (k, rest) => option_map (fun '(j, r) => ((k + j)%nat, r)) (tickets_in (rest ++ more))
  | None => None
  end.
Proof.
  induction n as [|n IH]; intros buf Hn; [lia|]. rewrite (tickets_in_eq buf).
  destruct (parse_message buf) as [[[type body] rest]|] eqn:E.
  - rewrite tickets_in_eq, (parse_message_more _ more _ _ _ E). apply parse_message_takes in E.
    destruct (good_ticket type body); [|reflexivity]. rewrite (IH rest) by lia.
    destruct (tickets_in rest) as [[k r]|]; [|reflexivity].
    cbn [option_map]. destruct (tickets_in (r ++ more)) as [[j r']|]; reflexivity.
  - destruct (tickets_in (buf ++ more)) as [[j r]|]; reflexivity.
Qed.

(** No complete message is left. *)
Lemma tickets_rest buf k rest : tickets_in buf = Some (k, rest) -> parse_message rest = None.
Proof.
  unfold tickets_in. generalize (Datatypes.S (length buf)) as n. intros n. revert buf k rest.
  induction n as [|n IH]; intros buf k rest; [discriminate|]. cbn [drain].
  destruct (parse_message buf) as [[[type body] r]|] eqn:E; [|now intros [= _ <-]].
  destruct (good_ticket type body); [|discriminate]. destruct (drain n r) as [[j r']|] eqn:Er; [|discriminate].
  intros [= _ <-]. exact (IH r j r' Er).
Qed.

(** ** Sessions *)

(** The shares of the sessions that were offered to the application, the
    latest first. *)
Fixpoint new_sessions (l : list Action) : list (option (list N)) :=
  match l with
  | [] => []
  | Shaking (NewSession share) :: l => share :: new_sessions l
  | _ :: l => new_sessions l
  end.

Definition psk (s : St) : list N := psk_share (shares (ssl s)).

Definition psk_circuits : list CircuitId := [PSK_1; PSK_8; PSK_0].

(** The circuits for the PSK are used up. *)
Definition psk_used (c : SSL) : Prop := forall d, In d psk_circuits -> pointer d c = false.

(** They come and go together. *)
Definition psk_together (c : SSL) : Prop := (forall d, In d psk_circuits -> pointer d c = true) \/ psk_used c.

(** [k] sessions were offered, each with the PSK share there is at the end. *)
Record Offered (k : nat) (s s' : St) : Prop := {
  offered_sessions : new_sessions (log s') = repeat (Some (psk s')) k ++ new_sessions (log s);
  offered_used : (0 < k)%nat -> psk_used (ssl s');
  offered_kept : psk_used (ssl s) -> psk_used (ssl s') /\ psk s' = psk s }.

Lemma offered_refl s s' : ssl s' = ssl s -> new_sessions (log s') = new_sessions (log s) -> Offered 0 s s'.
Proof. intros E El. split; [exact El | lia |]. unfold psk. now rewrite E. Qed.

Lemma offered_trans k j s s1 s2 : Offered k s s1 -> Offered j s1 s2 -> Offered (k + j) s s2.
Proof.
  intros [A1 A2 A3] [B1 B2 B3]. split.
  - rewrite B1, A1, app_assoc. f_equal. destruct k as [|k]; [apply app_nil_r|].
    destruct (B3 (A2 (Nat.lt_0_succ k))) as [_ ->]. now rewrite Nat.add_comm, repeat_app.
  - intros H. destruct k as [|k]; [now apply B2 | now apply B3, A2; lia].
  - intros H. destruct (A3 H) as [U E]. destruct (B3 U) as [U' E']. split; [exact U' | congruence].
Qed.

(** ** The circuits of the PSK *)

(** The fields after the three pointers were taken. *)
Definition psk_taken (c : SSL) : SSL := set_pointer PSK_0 false (set_pointer PSK_8 false (set_pointer PSK_1 false c)).

Lemma psk_taken_used c : psk_used (psk_taken c).
Proof.
  intros d [<- | [<- | [<- | []]]]; unfold psk_taken; cbn [pointer set_pointer set_pre pre set_made made];
    rewrite !existsb_others; cbn [CircuitId_eqb negb andb]; reflexivity.
Qed.

(** Taking them one by one, when all are there. *)
Lemma take_psk_run {W : World} {A} (k : option CircuitId -> option CircuitId -> option CircuitId -> S A) s :
  (forall d, In d psk_circuits -> pointer d (ssl s) = true) ->
  (circuit <- take PSK_1 ;; circuit_8 <- take PSK_8 ;; circuit_0 <- take PSK_0 ;; k circuit circuit_8 circuit_0) s =
  k (Some PSK_1) (Some PSK_8) (Some PSK_0) (mkSt (psk_taken (ssl s)) (log s)).
Proof.
  intros H. pose proof (H PSK_1 ltac:(cbn; tauto)) as H1. pose proof (H PSK_8 ltac:(cbn; tauto)) as H8.
  pose proof (H PSK_0 ltac:(cbn; tauto)) as H0. unfold take, bind, gets, modify, ret. cbn [ssl log].
  cbn [pointer set_pointer set_pre pre set_made made] in *. rewrite !existsb_others. cbn [CircuitId_eqb negb andb]. now rewrite H1, H8, H0.
Qed.

Section Run.
Context {W : World} {F : Fuel} {B : MaskConstants.BlockCipher} {kv : list N} {coop : Cooperative W kv}.
Hypothesis fuel_pos : (0 < fuel)%nat.

(** What the replay relies on and keeps. *)
Record Ready (c : SSL) : Prop := {
  ready_verifier : verifier (ptrs c) = true;
  ready_client : is_server (exch c) = false;
  ready_throw : throw_state c = None;
  ready_open : write_shutdown (layer c) = false;
  ready_psk : psk_together c }.

Lemma scoped_done {A} d (m : S A) s s1 a : m s = (s1, Done a) ->
  exists s', scoped d m s = (s', Done a) /\ ssl s' = ssl s1 /\ new_sessions (log s') = new_sessions (log s1).
Proof.
  intros E. unfold scoped. rewrite E. destruct d as [d|]; (eexists; split; [reflexivity|]); split; reflexivity.
Qed.

Lemma read_psk_done s : is_correct_header MessageHeaders.PSK_DONE s = (mkSt (ssl s) (SslRead 1 :: log s), Done tt).
Proof.
  unfold is_correct_header, read_exact_blocking. destruct fuel as [|n]; [lia|]. cbn [read_loop].
  change (size [] <? 1) with true. change (1 - size []) with 1. cbn iota. unfold bind at 1 2, act. rewrite coop_done.
  destruct n; reflexivity.
Qed.

Lemma no_throw h s : throw_state (ssl s) = None -> maybe_throw h s = (s, Done tt).
Proof. intros E. unfold maybe_throw, bind, gets. now rewrite E. Qed.

Lemma psk_circuit_run d i s : exists out s1, run_psk_circuit (Some d) i s = (s1, Done out) /\ ssl s1 = ssl s /\
  new_sessions (log s1) = new_sessions (log s).
Proof.
  unfold run_psk_circuit, from_option. unfold bind at 1, ret at 1. unfold bind at 1, act at 1. unfold run_circuit, bind, act. cbn [log ssl].
  set (input := KeyDerivation.pack_psk _ _ _). set (w := length _).
  destruct (coop_psk (RandomBytes 16 :: log s) w input) as [out Eo]. rewrite Eo. do 2 eexists. split; [reflexivity | now split].
Qed.

(** The derivation with the circuits there, and without. *)
Lemma psk_run s h : Ready (ssl s) -> psk_header (length (ticket_nonce (exch (ssl s)))) = Some h ->
  exists s', derive_psk_keys s = (s', Done tt) /\ new_sessions (log s') = new_sessions (log s) /\
    psk_used (ssl s') /\ exch (ssl s') = exch (ssl s) /\ (psk_used (ssl s) -> ssl s' = ssl s).
Proof.
  intros [Rv Rc Rt Ro Rp] Hh. unfold derive_psk_keys. unfold bind at 1 2, gets at 1 2. rewrite Rv, Rc. cbn [negb andb].
  unfold bind at 1, require at 1, ret at 1. unfold bind at 1, gets at 1. destruct Rp as [Ra|Ru].
  2: { rewrite !Ru by (cbn; tauto). exists s. cbn. auto. }
  rewrite !(Ra PSK_1), !(Ra PSK_8), !(Ra PSK_0) by (cbn; tauto). cbn [orb negb]. cbv zeta. rewrite Hh.
  unfold bind at 1, from_option, ret at 1. unfold bind at 1, ssl_write at 1. unfold bind at 1, act at 1. rewrite coop_write.
  unfold require, ret at 1. rewrite take_psk_run by exact Ra. cbn [ssl log].
  set (s1 := mkSt (psk_taken (ssl s)) _). set (chosen := match length _ with O => _ | _ => _ end).
  assert (Hd : exists d, chosen = Some d) by (unfold chosen; destruct (length _) as [|[|]]; now eexists). destruct Hd as [d Hd].
  match goal with |- context [scoped _ (scoped _ (scoped _ ?m)) s1] => set (body := m) end.
  assert (Eb : exists s2, body s1 = (s2, Done tt) /\ new_sessions (log s2) = new_sessions (log s) /\
    psk_used (ssl s2) /\ exch (ssl s2) = exch (ssl s)).
  { unfold body. unfold bind at 1, gets at 1. rewrite Hd. destruct (psk_circuit_run d {| KeyDerivation.psk_rms_share := rms_share (shares (ssl s1));
      KeyDerivation.ticket_nonce := ticket_nonce (exch (ssl s)) |} s1) as (out & s2 & E2 & S2 & N2).
    rewrite (session_bind_done _ _ _ _ _ E2). unfold bind at 1, upd_shares at 1, modify at 1.
    rewrite (session_bind_done _ _ _ _ _ (read_psk_done _)). rewrite no_throw; [|cbn [ssl throw_state set_shares]; now rewrite S2].
    eexists. split; [reflexivity|]. cbn [log ssl new_sessions]. split; [exact N2|]. rewrite S2.
    split; [exact (psk_taken_used (ssl s)) | reflexivity]. }
  destruct Eb as (s2 & E2 & N2 & U2 & X2).
  destruct (scoped_done (Some PSK_0) body s1 s2 tt E2) as (s3 & E3 & S3 & N3).
  destruct (scoped_done (Some PSK_8) _ s1 s3 tt E3) as (s4 & E4 & S4 & N4).
  destruct (scoped_done (Some PSK_1) _ s1 s4 tt E4) as (s5 & E5 & S5 & N5).
  exists s5. split; [exact E5|]. assert (ES : ssl s5 = ssl s2) by congruence. rewrite ES. split; [congruence|].
  split; [exact U2|]. split; [exact X2|]. intros Hu. specialize (Hu PSK_1 (or_introl eq_refl)).
  rewrite (Ra PSK_1) in Hu by (cbn; tauto). discriminate.
Qed.

(** The fields that neither a ticket nor the replay as a whole changes. *)
Definition stable (c : SSL) := (ptrs c, surf_mode c, surf_true_mode c, throw_state c, server c, rel c, cap c, layer c).

#[local] Instance stable_no_ticket : NoTicket stable.
Proof. now split. Qed.

Lemma stable_same c c' : stable c' = stable c -> same_session c c' /\ rel c' = rel c /\ layer c' = layer c.
Proof. intros [= E1 E2 E3 E4 E5 E6 E7 E8]. repeat split; congruence. Qed.

(** One ticket. *)
Lemma good_ticket_run type body s : Ready (ssl s) -> good_ticket type body = true ->
  exists s', tls13_post_handshake type body s = (s', Done tt) /\ Ready (ssl s') /\ stable (ssl s') = stable (ssl s) /\ Offered 1 s s'.
Proof.
  intros R Hg. apply andb_prop in Hg as [Ht Hg]. pose proof (frozen_process stable body s) as Fz.
  assert (E : exists s', tls13_process_new_session_ticket body s = (s', Done tt) /\ is_server (exch (ssl s')) = false /\
    Offered 1 s s').
  { unfold tls13_process_new_session_ticket. unfold bind at 1, gets at 1. rewrite (ready_open _ R).
    destruct (parse_ticket body) as [t|] eqn:Ep; [|discriminate]. destruct (psk_header (length (nonce t))) as [h|] eqn:Eh; [|discriminate].
    unfold tls13_create_session_with_ticket. rewrite Ep. unfold bind at 1 2, shake at 1, act at 1. rewrite coop_dup.
    unfold bind at 1, require at 1, ret at 1. unfold bind at 1, gets at 1. cbn [ssl]. rewrite (ready_verifier _ R).
    unfold session_with_ticket. unfold bind at 1 2 3, upd_exch, modify at 1. cbn [ssl log].
    set (s1 := mkSt (set_exch _ _) _).
    assert (R1 : Ready (ssl s1)) by (destruct R; split; assumption).
    destruct (psk_run s1 h R1 Eh) as (s2 & E2 & N2 & U2 & X2 & K2). rewrite (session_bind_done _ _ _ _ _ E2).
    unfold gets at 1, ret at 1. unfold bind at 1, shake at 1, act at 1. rewrite coop_exts. unfold bind at 1, require at 1, ret at 1 2.
    unfold bind, shake, act, ret. eexists. split; [reflexivity|]. cbn [ssl log]. split; [rewrite X2; apply (ready_client _ R)|]. split.
    - cbn [log new_sessions]. rewrite N2. reflexivity.
    - intros _. exact U2.
    - intros Hu. specialize (K2 Hu). split; [exact U2|]. unfold psk. cbn [ssl]. rewrite K2. reflexivity. }
  destruct E as (s' & E & X & O). rewrite E in Fz. cbn [fst] in Fz. exists s'.
  split; [|split; [|split; [exact Fz | exact O]]].
  - unfold tls13_post_handshake. unfold bind at 1, gets at 1. rewrite Ht, (ready_client _ R). exact E.
  - injection Fz as F1 F2 F3 F4 F5 F6 F7 F8. destruct R as [Rv Rc Rt Ro Rp]. split; [congruence | exact X | congruence | congruence|].
    right. apply (offered_used _ _ _ O). lia.
Qed.

(** The messages in the buffer. *)
Lemma loop_run n : forall s k rest, Ready (ssl s) -> drain n (hs_buf (layer (ssl s))) = Some (k, rest) ->
  exists s', message_loop n s = (s', Done tt) /\ Ready (ssl s') /\ same_session (ssl s) (ssl s') /\ rel (ssl s') = rel (ssl s) /\
    hs_buf (layer (ssl s')) = rest /\ Offered k s s'.
Proof.
  induction n as [|n IH]; intros s k rest R Hd; [discriminate|]. cbn [drain message_loop] in *.
  unfold bind at 1, tls_get_message, gets. destruct (parse_message (hs_buf (layer (ssl s)))) as [[[type body] r]|] eqn:Ep.
  - destruct (good_ticket type body) eqn:Eg; [|discriminate]. destruct (drain n r) as [[j r']|] eqn:Er; [|discriminate].
    injection Hd as <- <-. cbn [option_map fst]. destruct (good_ticket_run type body s R Eg) as (s1 & E1 & R1 & S1 & O1).
    rewrite (session_bind_done _ _ _ _ _ E1). unfold bind at 1, tls_next_message, upd_layer, modify.
    destruct (stable_same _ _ S1) as (SS1 & L1 & Y1). rewrite Y1, Ep. set (s2 := mkSt _ (log s1)).
    destruct (IH s2 j r') as (s' & E' & R' & SS' & L' & B' & O').
    + destruct R1; split; try assumption. cbn. rewrite <- Y1. assumption.
    + exact Er.
    + exists s'. split; [exact E'|]. split; [exact R'|]. split; [|split; [|split; [exact B'|]]].
      * eapply same_session_trans; [exact SS1|]. eapply same_session_trans; [|exact SS']. now constructor.
      * rewrite L'. exact L1.
      * change (Datatypes.S j) with (1 + j)%nat. eapply offered_trans; [exact O1|].
        change (Datatypes.S j) with (1 + j)%nat. destruct O' as [A1 A2 A3]. split; [exact A1 | exact A2 | exact A3].
  - injection Hd as <- <-. exists s. split; [reflexivity|]. split; [exact R|]. split; [apply same_session_refl|].
    split; [reflexivity|]. split; [reflexivity | now apply offered_refl].
Qed.

Lemma replay_record_run pt s k rest : Ready (ssl s) -> has_type SSL3_RT_HANDSHAKE pt = true ->
  tickets_in (hs_buf (layer (ssl s)) ++ removelast pt) = Some (k, rest) ->
  exists s', replay_record pt s = (s', Done tt) /\ Ready (ssl s') /\ same_session (ssl s) (ssl s') /\ rel (ssl s') = rel (ssl s) /\
    hs_buf (layer (ssl s')) = rest /\ Offered k s s'.
Proof.
  intros R Hh Hd. unfold replay_record, process_handshake_data, tls_append_handshake_data. rewrite Hh.
  unfold bind at 1 2, act at 1. rewrite coop_append. unfold bind at 1, require at 1, ret at 1.
  unfold upd_layer, modify. unfold bind at 1, gets at 1. cbn [ssl layer set_layer hs_buf set_hs_buf]. set (s1 := mkSt _ _).
  destruct (loop_run (Datatypes.S (length (hs_buf (layer (ssl s)) ++ removelast pt))) s1 k rest) as (s' & E & R' & S' & L' & B' & O').
  - destruct R; split; assumption.
  - exact Hd.
  - exists s'. split; [exact E|]. split; [exact R'|]. split; [eapply same_session_trans; [|exact S']; now constructor|].
    split; [exact L'|]. split; [exact B'|]. destruct O' as [A1 A2 A3]. split; [exact A1 | exact A2 | exact A3].
Qed.

(** All records: the tickets in their handshake bytes. *)
Lemma replay_run pts : forall s k rest, Ready (ssl s) -> parse_message (hs_buf (layer (ssl s))) = None ->
  tickets_in (hs_buf (layer (ssl s)) ++ handshake_bytes pts) = Some (k, rest) ->
  exists s', for_each pts replay_record s = (s', Done tt) /\ same_session (ssl s) (ssl s') /\ rel (ssl s') = rel (ssl s) /\ Offered k s s'.
Proof.
  induction pts as [|pt pts IH]; intros s k rest R Hp Hd; cbn [for_each].
  - cbn [handshake_bytes flat_map] in Hd. rewrite app_nil_r, tickets_in_eq, Hp in Hd. injection Hd as <- _.
    exists s. split; [reflexivity|]. split; [apply same_session_refl|]. split; [reflexivity | now apply offered_refl].
  - unfold handshake_bytes in Hd. cbn [flat_map] in Hd. fold (handshake_bytes pts) in Hd.
    destruct (has_type SSL3_RT_HANDSHAKE pt) eqn:Eh.
    + rewrite app_assoc, (tickets_app _ _ _ (Nat.lt_succ_diag_r _)) in Hd.
      destruct (tickets_in (_ ++ removelast pt)) as [[j r]|] eqn:Et; [|discriminate].
      destruct (tickets_in (r ++ handshake_bytes pts)) as [[m r']|] eqn:Em; [|discriminate]. injection Hd as <- <-.
      destruct (replay_record_run pt s j r R Eh Et) as (s1 & E1 & R1 & S1 & L1 & B1 & O1).
      rewrite (session_bind_done _ _ _ _ _ E1). rewrite <- B1 in Em. apply tickets_rest in Et. rewrite <- B1 in Et.
      destruct (IH s1 m r' R1 Et Em) as (s' & E' & S' & L' & O'). exists s'. split; [exact E'|].
      split; [exact (same_session_trans _ _ _ S1 S')|]. split; [congruence | exact (offered_trans _ _ _ _ _ O1 O')].
    + assert (E1 : replay_record pt s = (s, Done tt)) by (unfold replay_record; now rewrite Eh).
      rewrite (session_bind_done _ _ _ _ _ E1). exact (IH s k rest R Hp Hd).
Qed.

End Run.
