(* ===== verification/SealedRelease.v ===== *)
(** * Releasing a sealed stream

    In TRUE mode the records stay sealed until the verifier releases its key
    share.  With a verifier that cooperates the release returns what the
    records carry; whatever the world does, the share is asked for only after
    the tags of all records were verified.  In ROTATE mode the epochs are
    bounded by the records. *)

From S2P Require Import Prelude Block128 FieldCode Messaging BlockMap GHash Arrays Util CircuitWires CircuitRecords.
From S2P Require Import ServerState ServerIO ServerHandshake ServerRecords.
From S2P Require Import Prover ProverState ProverCircuits ProverAttest ProverHandshake PostHandshake ProverRelease ProverLogic ProverTypes.
From S2P Require Import ProverVerify ProverOpen Replay.

Import Session Channel Circuits Attest Callbacks PostHandshake Releasing Wires RecordCircuits.
Local Open Scope N_scope.

(** A record that GHASH can process. *)
Definition hashable (r : SurfRecord) : Prop := size (ciphertext r) <= 17376.

Lemma hashable_share powers r : hashable r -> exists ts, GHash.share powers (aad_of r) (ciphertext r) = Some ts.
Proof.
  intros H. unfold GHash.share. set (a := aad_of r). change (length a) with 5%nat.
  assert (E : (GHash.kMaxPowers <? (5 + 15) / 16 + (length (ciphertext r) + 15) / 16 + 1)%nat = false).
  { apply Nat.ltb_ge. change ((5 + 15) / 16)%nat with 1%nat. unfold hashable, size in H.
    pose proof (Nat.Div0.mul_div_le (length (ciphertext r) + 15) 16). unfold GHash.kMaxPowers. lia. }
  rewrite E. eauto.
Qed.

(** The fields that a replay starts from, which verification and release leave
    alone. *)
Definition replay_fields (c : SSL) := (ptrs c, exch c, throw_state c, layer c, pre c).

(** Verification and release do not offer sessions. *)
Definition is_session (a : Action) : bool := match a with Shaking (NewSession _) => true | _ => false end.

Lemma no_sessions d l : existsb is_session d = false -> new_sessions (d ++ l) = new_sessions l.
Proof. induction d as [|a d IH]; [reflexivity|]. cbn. intros [Ha Hd]%orb_false_elim. destruct a as [ | | | | | | | | | | | | |[]| ]; try discriminate; auto. Qed.

(** What the verification of a record may do. *)
Class Harmless (bad : Action -> bool) : Prop := {
  harmless_write : forall b bs, b <> MessageHeaders.KEY_RELEASE -> bad (SslWrite (b :: bs)) = false;
  harmless_read : forall n, bad (SslRead n) = false;
  harmless_rand : forall n, bad (RandBytes n) = false;
  harmless_run : forall c i, bad (Run c i) = false }.

#[export] Instance session_harmless : Harmless is_session.
Proof. now split. Qed.

#[export] Hint Extern 1 (_ = false) => (apply harmless_write; discriminate) : avoids.
#[export] Hint Extern 2 (_ = false) => reflexivity : avoids.
#[export] Hint Resolve harmless_read harmless_rand harmless_run : avoids.

Section Verification.
Context {W : World} {F : Fuel} {B : MaskConstants.BlockCipher} (bad : Action -> bool) {hl : Harmless bad}.

Lemma avoids_commitment : avoids bad surf_send_key_commitment.
Proof. unfold surf_send_key_commitment, upd_rel. repeat avoids_step. Qed.

Lemma avoids_verify i want : avoids bad (verify_record_tag i want).
Proof.
  unfold verify_record_tag, run_verification, run_gcm_vfy_commit_circuit, run_gcm_vfy_circuit, read_verdict.
  repeat (apply avoids_commitment || avoids_step).
Qed.

Lemma avoids_verify_all idxs : avoids bad (verify_all idxs).
Proof. induction idxs as [|i idxs IH]; cbn [verify_all]; repeat (exact IH || apply avoids_verify || avoids_step). Qed.

Lemma frozen_commitment : frozen replay_fields surf_send_key_commitment.
Proof. unfold surf_send_key_commitment, upd_rel. repeat frozen_step. Qed.

Lemma frozen_verify i want : frozen replay_fields (verify_record_tag i want).
Proof.
  unfold verify_record_tag, run_verification, run_gcm_vfy_commit_circuit, run_gcm_vfy_circuit, read_verdict.
  repeat (apply frozen_commitment || frozen_step).
Qed.

Lemma frozen_verify_all idxs : frozen replay_fields (verify_all idxs).
Proof. induction idxs as [|i idxs IH]; cbn [verify_all]; repeat (exact IH || apply frozen_verify || frozen_step). Qed.

End Verification.

Section Cooperate.
Context {W : World} {F : Fuel} {B : MaskConstants.BlockCipher} {aes : list N -> list N -> list N}.
Context {kv : list N} {coop : Cooperative W kv} {C : SameCipher B aes}.
Hypothesis fuel_pos : (0 < fuel)%nat.
Hypothesis kv_len : length kv = 16%nat.

Lemma commitment_run s : exists s', surf_send_key_commitment s = (s', Done tt) /\
  same_session (ssl s) (ssl s') /\ surf_key_committed (rel (ssl s')) = true /\
  surf_key_released (rel (ssl s')) = surf_key_released (rel (ssl s)).
Proof.
  destruct (coop_rand (log s) 16) as [r Hr]. unfold surf_send_key_commitment.
  unfold bind at 1, act at 1. rewrite Hr. unfold bind at 1, from_option, ret at 1. unfold bind at 1, upd_rel at 1, modify at 1.
  unfold bind at 1, gets at 1. rewrite hirose_host. unfold bind at 1, ret at 1. unfold ssl_write, bind, act.
  rewrite coop_write. cbn [require ret upd_rel modify]. eexists. split; [reflexivity|]. split; [|now split]. now constructor.
Qed.

(** The commitment is the first thing a verification sends. *)
Lemma verify_after_commit i want s s1 :
  surf_send_key_commitment s = (s1, Done tt) -> same_session (ssl s) (ssl s1) ->
  surf_true_mode (ssl s) = true -> verifier (ptrs (ssl s)) = true -> gcm_vfy_circuit (ptrs (ssl s)) = true ->
  surf_key_committed (rel (ssl s)) = false -> surf_key_committed (rel (ssl s1)) = true ->
  (i < length (surf_records (cap (ssl s))))%nat -> verify_record_tag i want s = verify_record_tag i want s1.
Proof.
  intros E [Hp Hm Ht Hd Hr] T V G C0 C1 Hi. unfold verify_record_tag, gets, require, bind. cbv beta iota zeta.
  rewrite Hp, V, G. cbn [andb]. unfold ret. cbv beta iota.
  rewrite Hr, (proj2 (Nat.ltb_lt _ _) Hi). cbv beta iota. rewrite Ht, T, C0, C1. cbn [andb negb]. now rewrite E.
Qed.

Section Session.
Variable c0 : SSL.
Hypotheses (has_verifier : verifier (ptrs c0) = true) (has_circuit : gcm_vfy_circuit (ptrs c0) = true)
  (is_true : surf_true_mode c0 = true) (not_rotate : Handshake.is_rotate (surf_mode c0) = false).

(** One record, the commitment sent before. *)
Lemma verify_committed i want s : same_session c0 (ssl s) -> surf_key_committed (rel (ssl s)) = true ->
  (i < length (surf_records (cap c0)))%nat -> hashable (record_at c0 i) ->
  exists s', verify_record_tag i want s = (s', Done None) /\ ssl s' = ssl s.
Proof.
  intros [Hp Hm Ht Hd Hr] Hc Hi Hh.
  assert (Er : record_at (ssl s) i = record_at c0 i) by (unfold record_at; now rewrite Hr).
  destruct (hashable_share (gcm_share (server (ssl s))) _ Hh) as [ts Hts].
  assert (V : verifier (ptrs (ssl s)) = true) by congruence.
  assert (G : gcm_vfy_circuit (ptrs (ssl s)) = true) by congruence.
  rewrite <- Hr in Hi. rewrite <- Er in Hts.
  rewrite (verify_record_tag_run i want s ts V G Hi (fun _ => Hc) (coop_write _ _) Hts).
  rewrite (verification_sealed _ _ _ true true true); [|cbn [ssl]; congruence.. | apply coop_verify].
  eexists. split; reflexivity.
Qed.

Lemma verify_run i want s : same_session c0 (ssl s) ->
  (i < length (surf_records (cap c0)))%nat -> hashable (record_at c0 i) ->
  exists s', verify_record_tag i want s = (s', Done None) /\ same_session c0 (ssl s') /\
    surf_key_released (rel (ssl s')) = surf_key_released (rel (ssl s)).
Proof.
  intros Hs Hi Hh. destruct (surf_key_committed (rel (ssl s))) eqn:Hc.
  - destruct (verify_committed i want s Hs Hc Hi Hh) as (s' & E & E'). exists s'. rewrite E'. auto.
  - destruct (commitment_run s) as (s1 & E1 & S1 & C1 & R1).
    pose proof (same_session_trans _ _ _ Hs S1) as Hs1.
    destruct (verify_committed i want s1 Hs1 C1 Hi Hh) as (s' & E & E'). exists s'. rewrite E', <- E. split; [|auto].
    apply verify_after_commit; try assumption; destruct Hs; congruence.
Qed.

Hypothesis records_hashable : Forall hashable (surf_records (cap c0)).

Lemma hashable_at i : (i < length (surf_records (cap c0)))%nat -> hashable (record_at c0 i).
Proof. intros Hi. apply (proj1 (Forall_forall _ _) records_hashable), nth_In, Hi. Qed.

Lemma verify_all_run idxs : forall s, same_session c0 (ssl s) ->
  (forall i, In i idxs -> (i < length (surf_records (cap c0)))%nat) ->
  exists s', verify_all idxs s = (s', Done tt) /\ same_session c0 (ssl s').
Proof.
  induction idxs as [|i idxs IH]; intros s Hs Hi; [exists s; split; [reflexivity | exact Hs]|].
  assert (Li : (i < length (surf_records (cap c0)))%nat) by (apply Hi; now left).
  destruct (verify_run i false s Hs Li (hashable_at i Li)) as (s1 & E & S1 & _).
  cbn [verify_all]. rewrite (session_bind_done _ _ _ _ _ E). apply IH; [exact S1 | intros; apply Hi; now right].
Qed.

(** The key that opens the records. *)
Definition full_key : list N := tabulate 16 (fun i => (key_share (server c0)).[i] ⊕ kv.[i]).

Lemma release_key_run s : same_session c0 (ssl s) ->
  exists s', surf_release_epoch_key s = (s', Done tt) /\ same_session c0 (ssl s') /\
    surf_full_server_key (rel (ssl s')) = full_key /\ surf_key_released (rel (ssl s')) = true.
Proof.
  intros Hs. unfold surf_release_epoch_key, ssl_write. unfold bind at 1 2, act at 1. rewrite coop_write.
  unfold require at 1, ret at 1.
  assert (Er : forall s, read_exact_blocking 16 s = (mkSt (ssl s) (SslRead 16 :: log s), Done kv)).
  { intros t. unfold read_exact_blocking. destruct fuel as [|n]; [lia|]. cbn [read_loop].
    change (size [] <? 16) with true. change (16 - size []) with 16. cbn iota. unfold bind, act. rewrite coop_share.
    assert (E : (size ([] ++ kv) <? 16) = false) by (cbn [app]; unfold size; now rewrite kv_len).
    destruct n; cbn [read_loop]; now rewrite E. }
  rewrite (session_bind_done _ _ _ _ _ (Er _)). unfold bind, gets, upd_rel, modify. cbn [ssl log].
  eexists. split; [reflexivity|]. split; [|split; [|reflexivity]].
  - eapply same_session_trans; [exact Hs|]. now constructor.
  - cbn. destruct Hs. unfold full_key. congruence.
Qed.

(** The records, decrypted. *)
Definition opened_records : list (list N) :=
  map (fun r => ctr_mode (aes full_key) (skipn 4 (iv (server c0))) (seq r) (ciphertext r)) (surf_records (cap c0)).

Lemma open_records_run s : same_session c0 (ssl s) -> surf_full_server_key (rel (ssl s)) = full_key ->
  open_records (List.seq 0 (length (surf_records (cap c0)))) s = (s, Done opened_records).
Proof.
  intros Hs Hk. unfold opened_records.
  enough (H : forall n k, (k + n = length (surf_records (cap c0)))%nat ->
    open_records (List.seq k n) s = (s, Done (map (fun r => ctr_mode (aes full_key) (skipn 4 (iv (server c0))) (seq r)
      (ciphertext r)) (skipn k (surf_records (cap c0)))))) by exact (H _ 0%nat eq_refl).
  induction n as [|n IH]; intros k Hn.
  - rewrite (skipn_all2 (n := k)) by lia. reflexivity.
  - cbn [List.seq open_records]. unfold bind at 1, gets. rewrite Hk, (s_server _ _ Hs), (s_records _ _ Hs).
    set (r := nth k _ _). assert (Hr : hashable r) by (apply hashable_at; lia).
    rewrite (open_record_ctr full_key (aes full_key)).
    2: intros x; apply same_cipher.
    2: unfold hashable in Hr; change (2 ^ 32) with 4294967296; lia.
    unfold bind at 1, from_option, ret at 1. rewrite (session_bind_done _ _ _ _ _ (IH (Datatypes.S k) ltac:(lia))).
    unfold ret. do 2 f_equal. rewrite (skipn_cons_nth k (mkSurfRecord [] [] 0)) by lia. reflexivity.
Qed.

(** Up to the release nothing that a replay needs has changed, and no session
    was offered. *)
Lemma before_replay s s1 s2 idxs : verify_all idxs s = (s1, Done tt) -> surf_release_epoch_key s1 = (s2, Done tt) ->
  replay_fields (ssl s2) = replay_fields (ssl s) /\ new_sessions (log s2) = new_sessions (log s).
Proof.
  intros E1 E2. pose proof (frozen_verify_all idxs s) as F1. destruct (avoids_verify_all is_session idxs s) as (d1 & L1 & N1).
  assert (F2 : frozen replay_fields surf_release_epoch_key) by (unfold surf_release_epoch_key, upd_rel; repeat frozen_step).
  assert (A2 : avoids is_session surf_release_epoch_key) by (unfold surf_release_epoch_key, upd_rel; repeat avoids_step).
  specialize (F2 s1). destruct (A2 s1) as (d2 & L2 & N2). rewrite E1 in F1, L1. rewrite E2 in F2, L2. cbn [fst] in *.
  split; [congruence|]. now rewrite L2, no_sessions, L1, no_sessions.
Qed.

Lemma replay_fields_ready c c' : replay_fields c' = replay_fields c -> Ready c -> Ready c' /\ hs_buf (layer c') = hs_buf (layer c).
Proof.
  intros [= E1 E2 E3 E4 E5] [Rv Rc Rt Ro Rp]. split; [|congruence]. split; try congruence.
  unfold psk_together, psk_used in *. assert (P : forall d, In d psk_circuits -> pointer d c' = pointer d c)
    by (intros d [<- | [<- | [<- | []]]]; unfold pointer; now rewrite E5).
  destruct Rp as [H|H]; [left | right]; intros d Hd; rewrite P by exact Hd; now apply H.
Qed.

(** The call, with the response that the opened records make and the sessions
    that their tickets do. *)
Lemma true_release_run req s k rest : same_session c0 (ssl s) -> surf_key_released (rel (ssl s)) = false ->
  Ready (ssl s) -> hs_buf (layer (ssl s)) = [] -> tickets_in (handshake_bytes opened_records) = Some (k, rest) ->
  let refused := early_close opened_records || req && negb (ends_with_close opened_records) in
  exists s', same_session c0 (ssl s') /\ surf_key_released (rel (ssl s')) = true /\
    true_surf_release req s = (s', if refused then Fail else Done (app_data opened_records)) /\
    new_sessions (log s') = (if refused then [] else repeat (Some (psk s')) k) ++ new_sessions (log s).
Proof.
  intros Hs Hrel Hy Hb Ht refused. unfold true_surf_release. unfold bind at 1, gets at 1.
  rewrite (s_ptrs _ _ Hs), (s_true _ _ Hs), (s_records _ _ Hs), has_verifier, is_true, Hrel. cbn [andb negb].
  unfold bind at 1, require at 1, ret at 1.
  destruct (verify_all_run (List.seq 0 (length (surf_records (cap c0)))) s Hs) as (s1 & E1 & S1);
    [intros i Hi%in_seq; lia|].
  rewrite (session_bind_done _ _ _ _ _ E1). destruct (release_key_run s1 S1) as (s2 & E2 & S2 & K2 & R2).
  rewrite (session_bind_done _ _ _ _ _ E2), (session_bind_done _ _ _ _ _ (open_records_run s2 S2 K2)).
  destruct (before_replay _ _ _ _ E1 E2) as [Fz Nz]. destruct (replay_fields_ready _ _ Fz Hy) as [Hy2 Hb2].
  unfold finish_stream. rewrite assemble_data, Nat.eqb_refl. unfold refused.
  destruct (early_close opened_records); [exists s2; auto|]. destruct (req && negb (ends_with_close opened_records)).
  { exists s2. auto. }
  assert (Hp : parse_message (hs_buf (layer (ssl s2))) = None) by now rewrite Hb2, Hb.
  destruct (replay_run fuel_pos opened_records s2 k rest Hy2 Hp) as (s3 & E3 & S3 & L3 & O3); [now rewrite Hb2, Hb|].
  exists s3. split; [exact (same_session_trans _ _ _ S2 S3)|]. split; [now rewrite L3|].
  cbn [negb orb]. unfold bind at 1 2 3 4, require, ret. cbv beta iota. rewrite (session_bind_done _ _ _ _ _ E3).
  split; [reflexivity|]. now rewrite (offered_sessions _ _ _ O3), Nz.
Qed.

End Session.
End Cooperate.

(** ** The claims for TRUE mode *)

Definition is_close (pt : list N) : bool :=
  match inner_plaintext pt with Some (t, d) => (t =? SSL3_RT_ALERT) && same d [1; 0] | None => false end.

(** The only close_notify is the last record. *)
Definition well_closed (pts : list (list N)) : bool :=
  negb (existsb is_close (removelast pts)) && is_close (last pts []).

Lemma is_close_eq pt : surf_is_close_notify pt = is_close pt.
Proof.
  apply eq_true_iff_eq. rewrite close_notify_inner. unfold is_close. destruct (inner_plaintext pt) as [[t d]|].
  - rewrite andb_true_iff, N.eqb_eq, same_iff. split; [now intros [= -> ->] | now intros [-> ->]].
  - split; discriminate.
Qed.

Lemma well_closed_eq pts : negb (early_close pts || negb (ends_with_close pts)) = well_closed pts.
Proof.
  unfold early_close, ends_with_close, well_closed. rewrite negb_orb, negb_involutive. f_equal.
  - f_equal. induction (removelast pts) as [|x xs IH]; [reflexivity|]. cbn. now rewrite is_close_eq, IH.
  - rewrite is_close_eq. destruct pts; reflexivity.
Qed.

(** A session in TRUE mode whose records are [pts], encrypted under the key
    that the two shares make. *)
Record SealedSession (aes : list N -> list N -> list N) (kv : list N) (c : SSL) (pts : list (list N)) : Prop := {
  ss_verifier : verifier (ptrs c) = true;
  ss_circuit : gcm_vfy_circuit (ptrs c) = true;
  ss_true : surf_true_mode c = true;
  ss_mode : Handshake.is_rotate (surf_mode c) = false;
  ss_sealed : surf_key_released (rel c) = false;
  ss_share : length kv = 16%nat;
  ss_ready : Ready c;
  ss_buffer : hs_buf (layer c) = [];
  ss_records : Forall2 (fun pt r => size pt <= 17376 /\
    ciphertext r = ctr_mode (aes (full_key (kv := kv) c)) (skipn 4 (iv (server c))) (seq r) pt) pts (surf_records (cap c)) }.

Lemma sealed_opened {aes kv c pts} : SealedSession aes kv c pts ->
  Forall hashable (surf_records (cap c)) /\ opened_records (aes := aes) (kv := kv) c = pts.
Proof.
  intros H. unfold opened_records. pose proof (ss_records _ _ _ _ H) as R. clear H. set (k := full_key c) in *. clearbody k.
  induction R as [|pt r pts rs [L E] R [IH1 IH2]]; [now split|]. split.
  - constructor; [|exact IH1]. unfold hashable. rewrite E. unfold ctr_mode, size. rewrite length_tabulate. exact L.
  - cbn [map]. rewrite IH2, E. f_equal. apply ctr_mode_involutive.
Qed.

Section Claims.
Context {W : World} {F : Fuel} {B : MaskConstants.BlockCipher} {aes : list N -> list N -> list N}.
Context {kv : list N} {coop : Cooperative W kv} {C : SameCipher B aes}.

Lemma sealed_release_run c l pts req k rest : (0 < fuel)%nat -> SealedSession aes kv c pts ->
  tickets_in (handshake_bytes pts) = Some (k, rest) ->
  let refused := early_close pts || req && negb (ends_with_close pts) in
  exists s', surf_key_released (rel (ssl s')) = true /\
    true_surf_release req (mkSt c l) = (s', if refused then Fail else Done (app_data pts)) /\
    new_sessions (log s') = (if refused then [] else repeat (Some (psk s')) k) ++ new_sessions l.
Proof.
  intros Hf H Ht. destruct (sealed_opened H) as [Hh Ho]. destruct H as [V G T M S K Y Bf _].
  rewrite <- Ho in Ht |- *.
  destruct (true_release_run (aes := aes) (kv := kv) Hf K c V G T M Hh req (mkSt c l) k rest (same_session_refl c) S Y Bf Ht)
    as (s' & _ & R & E & N).
  exists s'. split; [exact R|]. split; [exact E | exact N].
Qed.


(** Padding (RFC 8446, 5.4) loses data: a record of application data [d]
    that the origin padded adds nothing to the response of [true_surf_release],
    which succeeds all the same, though the record's content is [d] for every
    reader of TLS 1.3 records. *)
Theorem padded_record_lost c l before d k after j rest :
  let pt := d ++ [SSL3_RT_APPLICATION_DATA] ++ repeat 0 (Datatypes.S k) in
  (0 < fuel)%nat -> SealedSession aes kv c (before ++ pt :: after) -> Forall unpadded before -> Forall unpadded after ->
  well_closed (before ++ pt :: after) = true -> tickets_in (handshake_bytes (before ++ pt :: after)) = Some (j, rest) ->
  inner_plaintext pt = Some (SSL3_RT_APPLICATION_DATA, d) /\
  exists s', true_surf_release true (mkSt c l) = (s', Done (tls_stream before ++ tls_stream after)).
Proof.
  intros pt Hf H Hb Ha Hc Ht. split; [now apply inner_content|].
  destruct (sealed_release_run c l _ true j rest Hf H Ht) as (s' & _ & E & _). exists s'. rewrite E.
  rewrite <- well_closed_eq in Hc. cbn [andb]. destruct (_ || _); [discriminate|].
  unfold pt. rewrite app_data_padded, app_data_stream by (now apply Forall_app). unfold tls_stream. now rewrite flat_map_app.
Qed.

End Claims.

(** ** Nothing is released before it is verified *)

Definition KR : Action := SslWrite [MessageHeaders.KEY_RELEASE].

Definition is_release (a : Action) : bool :=
  match a with SslWrite bs => if list_eq_dec N.eq_dec bs [MessageHeaders.KEY_RELEASE] then true else false | _ => false end.

(** A call that extends the log, and not by a request for the key. *)
Definition silent {A} (m : S A) : Prop :=
  forall s, exists d, log (fst (m s)) = d ++ log s /\ ~ In KR d.

Lemma avoids_silent {W : World} {A} (m : S A) : avoids is_release m -> silent m.
Proof.
  intros H s. destruct (H s) as (d & E & N). exists d. split; [exact E|]. intros Hin.
  assert (Hx : existsb is_release d = true) by (apply existsb_exists; exists KR; now split). congruence.
Qed.

#[export] Instance release_harmless : Harmless is_release.
Proof.
  split; try reflexivity. intros b bs Hb. unfold is_release.
  destruct (list_eq_dec N.eq_dec (b :: bs) [MessageHeaders.KEY_RELEASE]) as [E|]; [now injection E | reflexivity].
Qed.

Lemma bind_inv {A B} (m : S A) (k : A -> S B) s s' b :
  bind m k s = (s', Done b) -> exists s1 a, m s = (s1, Done a) /\ k a s1 = (s', Done b).
Proof. unfold bind. destruct (m s) as [s1 []]; intros E; try discriminate. eauto. Qed.

Lemma require_inv b s s' u : require b s = (s', Done u) -> b = true /\ s' = s.
Proof. destruct b; [intros [= <- _]; auto | discriminate]. Qed.

(** A split at the only occurrence. *)
Lemma split_once {A} (x : A) : forall d1 d2 e1 e2,
  e1 ++ x :: e2 = d1 ++ x :: d2 -> ~ In x e1 -> ~ In x e2 -> d2 = e2.
Proof.
  induction d1 as [|a d1 IH]; intros d2 [|b e1] e2 E N1 N2; cbn in E.
  - now injection E.
  - injection E as -> _. destruct N1. now left.
  - injection E as <- ->. destruct N2. apply in_app_iff. right. now left.
  - injection E as -> E. apply (IH d2 e1 e2 E); [|exact N2]. intros H. apply N1. now right.
Qed.

Section Order.
Context {W : World} {F : Fuel} {B : MaskConstants.BlockCipher}.

Lemma silent_bind {A X} (m : S A) (k : A -> S X) : silent m -> (forall a, silent (k a)) -> silent (bind m k).
Proof.
  intros Hm Hk s. destruct (Hm s) as (d & E & N). unfold bind. destruct (m s) as [s1 o] eqn:Em. cbn [fst] in E.
  destruct o as [a| | | |]; try (exists d; split; [exact E | exact N]).
  destruct (Hk a s1) as (d' & E' & N'). exists (d' ++ d). rewrite E', E, app_assoc. split; [reflexivity|].
  rewrite in_app_iff. tauto.
Qed.

Lemma silent_commitment : silent surf_send_key_commitment.
Proof. apply avoids_silent, avoids_commitment; exact _. Qed.

Lemma silent_verify i want : silent (verify_record_tag i want).
Proof. apply avoids_silent, avoids_verify; exact _. Qed.

Lemma silent_verify_all idxs : silent (verify_all idxs).
Proof. apply avoids_silent, avoids_verify_all; exact _. Qed.

(** The fields of the session, through verification. *)
Lemma commitment_session c0 s : same_session c0 (ssl s) -> same_session c0 (ssl (fst (surf_send_key_commitment s))).
Proof.
  intros Hs. unfold surf_send_key_commitment, ssl_write, upd_rel, bind, act, modify, gets, require, from_option, ret, fail.
  destruct (reply (log s) (RandBytes 16)) as [r|]; cbn [fst ssl]; [|exact Hs].
  destruct (MaskConstants.hirose_commit_host _ _) as [d|]; cbn [fst ssl]; [|exact (same_session_trans _ _ _ Hs (same_session_rel _ _))].
  destruct (reply _ _); cbn [fst ssl]; (eapply same_session_trans; [exact Hs | now constructor]).
Qed.

(** A run of the circuit on record [i] in the log [d], on top of [l0], whose
    output says that the tag is right, that the inputs agreed and that the
    prover's key share opens its commitment. *)
Definition accepted (l0 : list Action) (c : SSL) (d : list Action) (i : nat) : Prop :=
  exists d1 d2 ts r out,
    let call := Run verify_tag_commit (pack_gcm_vfy_commit (vfy_input c (record_at c i) ts) r (repeat 0 32)) in
    d = d1 ++ call :: d2 /\ GHash.share (gcm_share (server c)) (aad_of (record_at c i)) (ciphertext (record_at c i)) = Some ts /\
    reply (d2 ++ l0) call = Some out /\ out.[0] <> 0 /\ out.[1] <> 0 /\ out.[2] <> 0.

Lemma accepted_more l0 c d d' i : accepted l0 c d i -> accepted l0 c (d' ++ d) i.
Proof.
  intros (d1 & d2 & ts & r & out & E & H). exists (d' ++ d1), d2, ts, r, out. cbv zeta in *. rewrite E, app_assoc. auto.
Qed.

(** How the sealed branch of [run_verification] can return. *)
Lemma verification_accepts input want s s' r :
  surf_true_mode (ssl s) = true -> Handshake.is_rotate (surf_mode (ssl s)) = false ->
  run_verification input want s = (s', Done r) ->
  exists rk out, (let call := Run verify_tag_commit (pack_gcm_vfy_commit input rk (repeat 0 32)) in
    s' = mkSt (ssl s) (call :: log s) /\ reply (log s) call = Some out /\ out.[0] <> 0 /\ out.[1] <> 0 /\ out.[2] <> 0).
Proof.
  intros T M E. unfold run_verification in E. apply bind_inv in E as (s1 & circuit & [= <- <-] & E).
  apply bind_inv in E as (s1 & tm & [= <- <-] & E). rewrite T in E.
  apply bind_inv in E as (s1 & rk & [= <- <-] & E). apply bind_inv in E as (s1 & [[t ch] ko] & E1 & E).
  set (rk := surf_key_commit_rand (rel (ssl s))) in *.
  unfold run_gcm_vfy_commit_circuit in E1. apply bind_inv in E1 as (s2 & u & (_ & ->)%require_inv & E1).
  apply bind_inv in E1 as (s2 & out & E2 & E1). unfold run_circuit in E2. apply bind_inv in E2 as (s3 & o & [= <- <-] & E2).
  destruct (reply (log s) _) as [out'|] eqn:R in E2; [|discriminate]. injection E2 as <- ->.
  apply bind_inv in E1 as (s3 & u' & (_ & ->)%require_inv & E1). injection E1 as <- <- <- <-.
  apply bind_inv in E as (s4 & m & [= <- <-] & E). cbn [ssl] in E. rewrite M in E. cbn [negb] in E.
  apply bind_inv in E as (s5 & u2 & (Hb & ->)%require_inv & E). injection E as <- _.
  exists rk, out. split; [reflexivity|]. split; [exact R|].
  rewrite !andb_true_iff, !negb_true_iff, !N.eqb_neq in Hb. tauto.
Qed.

Section Accept.
Variables (c0 : SSL) (l0 : list Action).
Hypotheses (is_true : surf_true_mode c0 = true) (not_rotate : Handshake.is_rotate (surf_mode c0) = false).

(** The log so far has no request for the key, and the first [k] records are
    verified in it. *)
Definition verified_to (k : nat) (s : St) : Prop :=
  same_session c0 (ssl s) /\ exists d, log s = d ++ l0 /\ ~ In KR d /\ forall i, (i < k)%nat -> accepted l0 c0 d i.

Lemma verify_accepts i want s s' r : same_session c0 (ssl s) -> verify_record_tag i want s = (s', Done r) ->
  same_session c0 (ssl s') /\ forall d0, log s = d0 ++ l0 -> exists d, log s' = d ++ d0 ++ l0 /\ accepted l0 c0 (d ++ d0) i.
Proof.
  intros Hs E. unfold verify_record_tag in E. apply bind_inv in E as (s1 & p & [= <- <-] & E).
  apply bind_inv in E as (s1 & u & (_ & ->)%require_inv & E). apply bind_inv in E as (s1 & rs & [= <- <-] & E).
  apply bind_inv in E as (s1 & u1 & (_ & ->)%require_inv & E). apply bind_inv in E as (s1 & tm & [= <- <-] & E).
  apply bind_inv in E as (s1 & cm & [= <- <-] & E). apply bind_inv in E as (s1 & u2 & E1 & E).
  assert (H1 : same_session c0 (ssl s1) /\ exists d1, log s1 = d1 ++ log s).
  { destruct (_ && _).
    - pose proof (commitment_session c0 s Hs) as S1. destruct (silent_commitment s) as (d1 & L1 & _).
      rewrite E1 in S1, L1. eauto.
    - injection E1 as <- _. split; [exact Hs | now exists []]. }
  destruct H1 as [S1 (d1 & L1)]. rewrite (s_records _ _ Hs) in E. fold (record_at c0 i) in E. fold (aad_of (record_at c0 i)) in E.
  apply bind_inv in E as (s2 & u3 & E2 & E). unfold ssl_write in E2. apply bind_inv in E2 as (s3 & ok & [= <- <-] & E2).
  apply require_inv in E2 as [_ ->]. apply bind_inv in E as (s4 & d & [= <- <-] & E). cbn [ssl] in E.
  rewrite (s_server _ _ S1) in E. apply bind_inv in E as (s5 & ts & E3 & E).
  destruct (GHash.share _ _ _) as [ts'|] eqn:G in E3; [|discriminate]. injection E3 as <- ->.
  apply verification_accepts in E as (rk & out & -> & R & O); cbn [ssl log] in *.
  - split; [exact S1|]. intros d0 L0. rewrite L1, L0 in *. set (call := Run _ _) in *. set (msg := SslWrite _) in *.
    exists (call :: msg :: d1). split; [reflexivity|].
    exists [], (msg :: d1 ++ d0), ts, rk, out. cbv zeta. split; [reflexivity|]. split; [exact G|]. split; [|exact O].
    rewrite <- R. f_equal. cbn [app]. now rewrite app_assoc.
  - rewrite (s_true _ _ S1). exact is_true.
  - rewrite (s_mode _ _ S1). exact not_rotate.
Qed.

Lemma verify_all_accepts n : forall k s s', verified_to k s ->
  verify_all (List.seq k n) s = (s', Done tt) -> verified_to (k + n) s'.
Proof.
  induction n as [|n IH]; intros k s s' H E.
  - injection E as <-. now rewrite Nat.add_0_r.
  - cbn [List.seq verify_all] in E. apply bind_inv in E as (s1 & r & E1 & E). rewrite Nat.add_succ_r.
    apply (IH (Datatypes.S k) s1 s'); [|exact E]. destruct H as [Hs (d0 & L0 & N0 & A0)].
    destruct (verify_accepts k false s s1 r Hs E1) as [S1 H1]. destruct (H1 d0 L0) as (d & L1 & A1).
    split; [exact S1|]. exists (d ++ d0). rewrite <- app_assoc. split; [exact L1|]. split.
    + destruct (silent_verify k false s) as (d' & L' & N'). rewrite E1 in L'. cbn [fst] in L'. rewrite L1, L0 in L'.
      apply app_inv_tail in L'. subst d'. rewrite in_app_iff. tauto.
    + intros i Hi. destruct (Nat.eq_dec i k) as [-> |Hn]; [exact A1|]. apply accepted_more, A0. lia.
Qed.
End Accept.

(** *** After the request *)

Lemma avoids_open idxs : avoids is_release (open_records idxs).
Proof. induction idxs as [|i idxs IH]; cbn [open_records]; repeat (exact IH || avoids_step). Qed.

Lemma avoids_finish opened req : avoids is_release (finish_stream opened req).
Proof. unfold finish_stream. repeat avoids_step. Qed.

Lemma avoids_shake a : avoids is_release (shake a).
Proof. now apply avoids_act. Qed.

Lemma avoids_scoped {A} c (m : S A) : avoids is_release m -> avoids is_release (scoped c m).
Proof.
  intros Hm s. destruct (Hm s) as (d & E & N). unfold scoped.
  destruct (m s) as [s1 o]. cbn [fst] in E.
  destruct o, c as [c|]; cbn [fst delete]; try (exists d; split; [exact E | exact N]);
    (exists (Shaking (DeleteCircuit c) :: d); split; [cbn; now rewrite E | exact N]).
Qed.

(** The request for a PSK is another message. *)
Lemma psk_header_other n h : psk_header n = Some h -> is_release (SslWrite [h]) = false.
Proof. destruct n as [|[|[|[|[|[|[|[|[|n]]]]]]]]]; intros [= <-]; reflexivity. Qed.

Lemma avoids_option_bind {A X} (o : option A) (k : A -> S X) :
  (forall a, o = Some a -> avoids is_release (k a)) -> avoids is_release (bind (from_option o) k).
Proof. intros H. destruct o as [a|]; [exact (H a eq_refl) | now apply avoids_same]. Qed.

Lemma avoids_psk : avoids is_release derive_psk_keys.
Proof.
  unfold derive_psk_keys, run_psk_circuit, upd_shares, take, maybe_throw. do 4 avoids_step.
  all: repeat match goal with
    | |- avoids _ (bind (from_option (psk_header _)) _) => apply avoids_option_bind; intros ? ?%psk_header_other
    | |- avoids _ (scoped _ _) => apply avoids_scoped
    | _ => avoids_step
    end.
Qed.

(** Nor is a longer message a request for the key. *)
Lemma long_write bs : length bs <> 1%nat -> is_release (SslWrite bs) = false.
Proof. intros H. unfold is_release. destruct (list_eq_dec N.eq_dec bs _) as [->|]; [now destruct H | reflexivity]. Qed.

Lemma avoids_rotate w : avoids is_release (rotate_traffic_keys w).
Proof.
  unfold rotate_traffic_keys, surf_reset_write_state, make_gcm_share_for, make_gcm_share, run_gcm_share_circuit, run_rotate_circuit,
    exchange_bandwidth, upd_dir, upd_rel.
  repeat ((apply avoids_act, long_write; discriminate) || avoids_step).
Qed.

Lemma avoids_post type body : avoids is_release (tls13_post_handshake type body).
Proof.
  unfold tls13_post_handshake, tls13_process_new_session_ticket, tls13_create_session_with_ticket, session_with_ticket,
    tls13_receive_key_update, tls13_add_key_update, tls13_rotate_traffic_key, alert_and_fail, upd_exch, upd_layer.
  repeat (apply avoids_shake || apply avoids_psk || apply avoids_rotate || avoids_step).
Qed.

Lemma avoids_replay pt : avoids is_release (replay_record pt).
Proof.
  assert (Hl : forall n, avoids is_release (message_loop n)).
  { induction n as [|n IH]; cbn [message_loop]; unfold tls_get_message, tls_next_message, upd_layer;
      repeat (exact IH || apply avoids_post || avoids_step). }
  unfold replay_record, process_handshake_data, tls_append_handshake_data, upd_layer. repeat (apply Hl || avoids_step).
Qed.

(** The request is the first thing a release does, and the only one. *)
Lemma release_requests {A} (k : unit -> S A) s : (forall u, silent (k u)) ->
  exists d, log (fst (bind surf_release_epoch_key k s)) = d ++ KR :: log s /\ ~ In KR d.
Proof.
  intros Hk. set (s2 := mkSt (ssl s) (KR :: log s)).
  set (rest := kv <- read_exact_blocking 16 ;; c <- gets (fun c => key_share (server c)) ;;
    upd_rel (set_surf_full_server_key (tabulate 16 (fun i => c.[i] ⊕ kv.[i]))) ;; upd_rel (set_surf_key_released true)).
  assert (Hr : silent rest) by (apply avoids_silent; unfold rest, upd_rel; repeat avoids_step).
  assert (E : bind surf_release_epoch_key k s = if reply (log s) KR then bind rest k s2 else (s2, Fail)).
  { unfold surf_release_epoch_key, ssl_write. unfold bind at 1 2 3, act. fold KR. fold s2.
    destruct (reply (log s) KR); reflexivity. }
  rewrite E. destruct (reply (log s) KR).
  - exact (silent_bind rest k Hr Hk s2).
  - exists []. split; [reflexivity | intros []].
Qed.

(** C10: the verifier's share of the key is asked for only after verification:
    whatever the verifier, the circuits and the network do, and however the
    call ends, when [true_surf_release] has sent KEY_RELEASE then before it, in
    the same call, the commitment circuit ran on every captured record, with
    this record's tag and the prover's GHASH share of it, and each run said
    that the tag is right, that both parties' inputs agreed and that the key
    share opens the prover's commitment. *)
Theorem release_after_verification c l0 req s' o :
  surf_true_mode c = true -> Handshake.is_rotate (surf_mode c) = false ->
  true_surf_release req (mkSt c l0) = (s', o) ->
  exists d, log s' = d ++ l0 /\
    forall d1 d2, d = d1 ++ KR :: d2 -> forall i, (i < length (surf_records (cap c)))%nat -> accepted l0 c d2 i.
Proof.
  intros T M E. unfold true_surf_release in E. unfold bind at 1, gets at 1 in E. cbn [ssl] in E.
  destruct (verifier (ptrs c) && surf_true_mode c && negb (surf_key_released (rel c))).
  2: { injection E as <- _. exists []. split; [reflexivity|]. intros d1 d2 H. now destruct d1. }
  unfold bind at 1, require at 1, ret at 1 in E. set (n := length (surf_records (cap c))) in *.
  destruct (silent_verify_all (List.seq 0 n) (mkSt c l0)) as (dv & Lv & Nv). cbn [log] in Lv.
  unfold bind at 1 in E. destruct (verify_all (List.seq 0 n) (mkSt c l0)) as [s1 o1] eqn:Ev. cbn [fst] in Lv.
  destruct o1 as [[]| | | |].
  2, 3, 4, 5: injection E as <- _; exists dv; split; [exact Lv|]; intros d1 d2 ->; destruct Nv; apply in_app_iff; right; now left.
  assert (V0 : verified_to c l0 0 (mkSt c l0)).
  { split; [apply same_session_refl|]. exists []. split; [reflexivity|]. split; [intros []|]. intros i Hi. inversion Hi. }
  destruct (verify_all_accepts c l0 T M n 0 _ _ V0 Ev) as [_ (d0 & L0 & N0 & A0)].
  set (k := fun _ : unit => _ : S (list N)) in E.
  assert (Hk : forall u, silent (k u)).
  { intros u. apply avoids_silent. unfold k.
    repeat (apply avoids_open || apply avoids_finish || (apply avoids_for_each; intros; apply avoids_replay) || avoids_step). }
  destruct (release_requests k s1 Hk) as (d' & L' & N'). rewrite E, L0 in L'. cbn [fst] in L'.
  exists (d' ++ KR :: d0). split; [now rewrite L', <- app_assoc|].
  intros d1 d2 H i Hi. enough (d2 = d0) as -> by now apply A0.
  now apply (split_once KR d1 d2 d' d0).
Qed.

End Order.

(** ** A world to evaluate with *)

Definition coop_world (kv : list N) : World := fun l a =>
  match a return Reply a with
  | SslWrite _ => true
  | SslRead n => Got (if n =? 1 then [MessageHeaders.PSK_DONE] else kv)
  | RandBytes n => Some (repeat 7 n)
  | RandomBytes n => repeat 7 n
  | Run c _ => Some (repeat 255 (output_size c))
  | KsRemaining => 0
  | KsPreproc => false
  | GenerateShares _ _ => None
  | CreateContext _ _ | SetWriteState _ _ | Flush | AppendHandshake _ => true
  | Throw => false
  | DeleteCircuits => tt
  | Shaking a => quiet a
  end.

Lemma coop_world_cooperates kv : Cooperative (coop_world kv) kv.
Proof. constructor; try reflexivity; intros l; intros; now eexists. Qed.

Module SealedExample.

Definition kv : list N := repeat 5 16.
(** A connection with the circuits for the PSK. *)
Definition c1 : SSL :=
  let c := zero_ssl Surf.True' true in set_pre (set_made psk_circuits (pre c)) c.

Definition seal (pts : list (list N)) : list SurfRecord :=
  map (fun '(i, pt) => mkSurfRecord
      (ctr_mode (MaskConstants.xor_bytes (full_key (kv := kv) c1)) (skipn 4 (iv (server c1))) (N.of_nat i) pt)
      (repeat 0 16) (N.of_nat i))
    (combine (List.seq 0 (length pts)) pts).

Definition c_of (pts : list (list N)) : SSL := set_cap (mkCapture (seal pts) 2 [] 0) c1.

Lemma sealed pts : Forall (fun pt => size pt <= 17376) pts -> SealedSession MaskConstants.xor_bytes kv (c_of pts) pts.
Proof.
  intros Hp. split; try reflexivity; [split; try reflexivity; left; now intros d [<- | [<- | [<- | []]]]|]. cbn [cap c_of set_cap surf_records]. unfold seal.
  change (full_key (c_of pts)) with (full_key (kv := kv) c1). change (server (c_of pts)) with (server c1).
  set (key := full_key c1). set (iv := skipn 4 _). set (tag := repeat 0 16).
  enough (H : forall k, Forall2 (fun pt r => size pt <= 17376 /\ ciphertext r = ctr_mode (MaskConstants.xor_bytes key) iv (seq r) pt)
    pts (map (fun '(i, pt) => mkSurfRecord (ctr_mode (MaskConstants.xor_bytes key) iv (N.of_nat i) pt) tag (N.of_nat i))
      (combine (List.seq k (length pts)) pts))) by apply H.
  induction Hp as [|pt pts Hpt Hp IH]; intros k; [constructor|]. cbn [length List.seq combine map].
  constructor; [now split | apply IH].
Qed.

(** A ticket with a nonce of one byte, then one with a nonce of eight. *)
Definition ticket_1 : list N := [4; 0; 0; 16; 0; 0; 28; 32; 9; 9; 9; 9; 1; 7; 0; 2; 65; 66; 0; 0].
Definition ticket_2 : list N := [4; 0; 0; 22; 0; 0; 28; 32; 9; 9; 9; 9; 8; 1; 2; 3; 4; 5; 6; 7; 8; 0; 1; 65; 0; 0].

(** Data, the first ticket and the start of the second, more data, the rest of
    the second ticket, and the end. *)
Definition pts : list (list N) :=
  [[72; 105; 23]; ticket_1 ++ firstn 10 ticket_2 ++ [22]; [33; 23]; skipn 10 ticket_2 ++ [22]; [1; 0; 21]].

End SealedExample.
Import SealedExample.

#[local] Instance one_step : Fuel := 1%nat.
#[local] Existing Instances toy_cipher coop_world_cooperates toy_same_cipher.


Lemma padded_record_lost_witness :
  let pts := [[72; 105; 23]; [33; 23; 0]; [1; 0; 21]] in
  inner_plaintext [33; 23; 0] = Some (23, [33]) /\
  exists s', true_surf_release (W := coop_world kv) true (mkSt (c_of pts) []) = (s', Done [72; 105]).
Proof.
  apply (padded_record_lost (W := coop_world kv) (aes := MaskConstants.xor_bytes) (kv := kv)
    (c_of [[72; 105; 23]; [33; 23; 0]; [1; 0; 21]]) [] [[72; 105; 23]] [33] 0 [[1; 0; 21]] 0 []).
  - exact (le_n 1).
  - apply sealed. repeat constructor; discriminate.
  - repeat constructor; discriminate.
  - repeat constructor; discriminate.
  - reflexivity.
  - reflexivity.
Defined.

Lemma release_after_verification_witness :
  exists s' o d, true_surf_release (W := coop_world kv) true (mkSt (c_of pts) []) = (s', o) /\ log s' = d ++ [] /\ In KR d /\
    forall d1 d2, d = d1 ++ KR :: d2 -> forall i, (i < 5)%nat -> accepted (W := coop_world kv) [] (c_of pts) d2 i.
Proof.
  assert (K : existsb (fun a => match a with SslWrite [b] => b =? MessageHeaders.KEY_RELEASE | _ => false end)
    (log (fst (true_surf_release (W := coop_world kv) true (mkSt (c_of pts) [])))) = true) by (vm_compute; reflexivity).
  destruct (true_surf_release (W := coop_world kv) true (mkSt (c_of pts) [])) as [s' o] eqn:E. cbn [fst] in K.
  destruct (release_after_verification (W := coop_world kv) (c_of pts) [] true s' o eq_refl eq_refl E) as (d & L & H).
  exists s', o, d. split; [reflexivity|]. split; [exact L|]. split; [|exact H].
  rewrite app_nil_r in L. rewrite <- L. apply existsb_exists in K as (a & Ha & Ea).
  destruct a; try discriminate Ea. destruct bs as [|b [|]]; try discriminate Ea. apply N.eqb_eq in Ea. subst b. exact Ha.
Defined.
