(* ===== verification/RotateEpochs.v ===== *)
(** * The epochs of ROTATE mode

    [rotate_surf_release] walks through the captured records epoch by epoch;
    every epoch takes at least one record, so the records bound the epochs, and
    the records that are kept from the handshake layer are the KeyUpdates at
    the ends of epochs. *)

From S2P Require Import Prelude Messaging GHash Arrays.
From S2P Require Import ServerState ServerIO ServerHandshake ServerRecords.
From S2P Require Import Prover ProverState ProverCircuits ProverAttest ProverRelease ProverLogic ProverTypes.
From S2P Require Import ProverVerify SealedRelease.

Import Session Channel Circuits Attest Releasing.
Local Open Scope N_scope.

Lemma nth_last_len {A} (xs : list A) d : (0 < length xs)%nat -> nth (length xs - 1) xs d = last xs d.
Proof.
  destruct xs as [|x xs _] using rev_ind; [cbn; lia|]. intros _. rewrite last_last, length_app. cbn [length].
  replace (length xs + 1 - 1)%nat with (length xs) by lia. rewrite app_nth2, Nat.sub_diag by lia. reflexivity.
Qed.

Section Epochs.
Context {W : World} {F : Fuel} {B : MaskConstants.BlockCipher}.

Lemma until_reject_range k : forall e s s' e', verify_until_reject k e s = (s', Done e') -> (e <= e' <= e + k)%nat.
Proof.
  induction k as [|k IH]; intros e s s' e' E; cbn [verify_until_reject] in E; [injection E as _ <-; lia|].
  apply bind_inv in E as (s1 & r & _ & E). destruct (match r with Some ok => ok | None => true end).
  - apply IH in E. lia.
  - injection E as _ <-. lia.
Qed.

Lemma open_records_length idxs : forall s s' pts, open_records idxs s = (s', Done pts) -> length pts = length idxs.
Proof.
  induction idxs as [|i idxs IH]; intros s s' pts E; cbn [open_records] in E; [now injection E as _ <-|].
  apply bind_inv in E as (s1 & c & _ & E). apply bind_inv in E as (s2 & pt & _ & E).
  apply bind_inv in E as (s3 & rest & Er & E). injection E as _ <-. cbn [length]. now rewrite (IH _ _ _ Er).
Qed.

(** An epoch advances, within the records. *)
Lemma epoch_advances n start s s' e pts : (start <= n)%nat -> one_epoch n start s = (s', Done (e, pts)) ->
  (start < e <= n)%nat /\ length pts = (e - start)%nat.
Proof.
  intros Hn E. unfold one_epoch in E. apply bind_inv in E as (s1 & u & _ & E). apply bind_inv in E as (s2 & e' & Ev & E).
  apply bind_inv in E as (s3 & u1 & (He & ->)%require_inv & E). apply bind_inv in E as (s4 & u2 & _ & E).
  apply bind_inv in E as (s5 & pts' & Eo & E). injection E as _ <- <-.
  apply until_reject_range in Ev. apply open_records_length in Eo. rewrite length_seq in Eo.
  apply negb_true_iff, Nat.eqb_neq in He. lia.
Qed.

(** Any two bounds above the number of records left give the same run. *)
Lemma epochs_bound r1 : forall r2 n start opened bs s, (start <= n)%nat -> (n - start < r1)%nat -> (n - start < r2)%nat ->
  epochs r1 n start opened bs s = epochs r2 n start opened bs s.
Proof.
  induction r1 as [|r1 IH]; intros r2 n start opened bs s Hn H1 H2; [lia|]. destruct r2 as [|r2]; [lia|].
  cbn [epochs]. unfold bind at 1 4. destruct (one_epoch n start s) as [s1 []] eqn:E; try reflexivity. destruct a as [e pts].
  destruct (epoch_advances n start s s1 e pts Hn E) as [[He Hle] _].
  destruct (Nat.eqb_spec e n) as [->|Hne]; [reflexivity|].
  unfold bind. destruct (require _ s1) as [s2 []]; try reflexivity. destruct (next_epoch e s2) as [s3 []]; try reflexivity.
  apply IH; lia.
Qed.

(** C30: the loop over the epochs ends by itself: the bound of one more than the
    number of records, which [rotate_surf_release] is modelled with, is never
    what stops it, since any larger bound gives the same run: in every world an
    epoch takes at least one record or the call fails. *)
Theorem epochs_terminate rounds n s :
  (Datatypes.S n <= rounds)%nat -> epochs rounds n 0 [] [] s = epochs (Datatypes.S n) n 0 [] [] s.
Proof. intros H. apply epochs_bound; lia. Qed.

Lemma length_mark_last bs : bs <> [] -> length (mark_last bs) = length bs.
Proof.
  intros H. destruct bs as [|b bs _] using rev_ind; [easy|]. unfold mark_last. now rewrite removelast_last, !length_app.
Qed.

Lemma nth_mark_last bs i : (i < length bs)%nat -> nth i (mark_last bs) false = true ->
  nth i bs false = true \/ i = (length bs - 1)%nat.
Proof.
  destruct bs as [|b bs _] using rev_ind; [cbn; lia|]. unfold mark_last. rewrite removelast_last, !length_app. cbn [length].
  intros Hi. destruct (Nat.eq_dec i (length bs)) as [-> |Hn]; [right; lia|].
  rewrite !app_nth1 by lia. now left.
Qed.

(** Marks are on KeyUpdates, and there is one flag for each record. *)
Definition marked (n : nat) (opened : list (list N)) (bs : list bool) : Prop :=
  length opened = n /\ length bs = n /\
  forall i, (i < n)%nat -> nth i bs false = true -> surf_is_key_update (nth i opened []) = true.

Lemma marked_more n opened bs pts : marked n opened bs ->
  marked (n + length pts) (opened ++ pts) (bs ++ repeat false (length pts)).
Proof.
  intros (L1 & L2 & M). unfold marked. rewrite !length_app, repeat_length, L1, L2. split; [reflexivity|].
  split; [reflexivity|]. intros i Hi H. destruct (Nat.lt_ge_cases i n) as [Hl|Hl].
  - rewrite app_nth1 in H |- * by lia. now apply M.
  - rewrite app_nth2, nth_repeat in H by lia. discriminate.
Qed.

Lemma epochs_marked rounds : forall n start opened bs s s' opened' bs', (start <= n)%nat -> marked start opened bs ->
  epochs rounds n start opened bs s = (s', Done (opened', bs')) -> marked n opened' bs'.
Proof.
  induction rounds as [|rounds IH]; intros n start opened bs s s' opened' bs' Hn M E; [discriminate|].
  cbn [epochs] in E. apply bind_inv in E as (s1 & [e pts] & E1 & E).
  destruct (epoch_advances n start s s1 e pts Hn E1) as [[He Hle] Lp].
  apply (marked_more _ _ _ pts) in M. replace (start + length pts)%nat with e in M by lia.
  destruct (Nat.eqb_spec e n) as [->|Hne]; [now injection E as _ <- <-|].
  apply bind_inv in E as (s2 & u & (Hk & ->)%require_inv & E). apply bind_inv in E as (s3 & u1 & _ & E).
  apply (IH _ _ _ _ _ _ _ _ Hle) in E; [exact E|]. destruct M as (L1 & L2 & M).
  assert (Hb : bs ++ repeat false (length pts) <> []) by (intros Z; rewrite Z in L2; cbn in L2; lia).
  split; [exact L1|]. split; [now rewrite length_mark_last|]. intros i Hi H.
  apply nth_mark_last in H; [|lia]. destruct H as [H | ->]; [now apply M|].
  rewrite L2, <- L1. now rewrite nth_last_len by (rewrite L1; lia).
Qed.

(** In ROTATE mode every captured record is opened once and in order, each
    has its flag, and the only records that are kept from the handshake layer
    are KeyUpdates: when the loop over the epochs returns, there are as many
    plaintexts and flags as records, and a flag is set on KeyUpdates only. *)
Theorem epochs_skip_key_updates n s s' opened bs :
  epochs (Datatypes.S n) n 0 [] [] s = (s', Done (opened, bs)) ->
  length opened = n /\ length bs = n /\
  forall i, (i < n)%nat -> nth i bs false = true -> surf_is_key_update (nth i opened []) = true.
Proof.
  intros E. apply (epochs_marked _ _ 0 [] [] s s' opened bs) in E; [exact E | lia|].
  split; [reflexivity|]. split; [reflexivity|]. intros i Hi. inversion Hi.
Qed.

End Epochs.

(** ** Two epochs

    The verifier rejects the second record under the first key, which ends the
    first epoch; after the rotation it accepts it. *)
Module EpochExample.

Definition verdicts : list N := [MessageHeaders.TAG_OK; MessageHeaders.TAG_REJECT; MessageHeaders.TAG_OK].

Definition read_one (a : Action) : bool := match a with SslRead n => n =? 1 | _ => false end.

Definition epoch_world : World := fun l a =>
  match a return Reply a with
  | SslWrite _ => true
  | SslRead n =>
      if n =? 1 then Got [nth (length (filter read_one l)) verdicts 0] else Got (repeat 5 (N.to_nat n))
  | RandBytes n => Some (repeat 7 n)
  | RandomBytes n => repeat 7 n
  | Run c _ => Some (repeat 255 (output_size c))
  | KsRemaining => 0
  | KsPreproc => false
  | GenerateShares _ _ => Some (repeat 3 1088, 0)
  | CreateContext _ _ | SetWriteState _ _ | Flush | AppendHandshake _ => true
  | Throw => false
  | DeleteCircuits => tt
  | Shaking a => quiet a
  end.

(** Sixteen bytes of key stream for the first record. *)
Definition ks : list N := MaskConstants.xor_bytes (repeat 5 16) (BlockMap.SurfBlockMap.ctr_block (repeat 0 12) 0 2).

Definition key_update : list N := tabulate 6 (fun i => [24; 0; 0; 1; 0; 22].[i] ⊕ ks.[i]).

Definition c2 : SSL := set_cap (mkCapture [mkSurfRecord key_update (repeat 0 16) 0; mkSurfRecord [9; 9] (repeat 0 16) 1] 2 [] 0)
  (zero_ssl Surf.Rotate true).

End EpochExample.
Import EpochExample.

#[local] Instance steps : Fuel := 4%nat.
#[local] Existing Instance CircuitWires.toy_cipher.

Lemma epochs_terminate_witness :
  epochs (W := epoch_world) 9 2 0 [] [] (mkSt c2 []) = epochs (W := epoch_world) 3 2 0 [] [] (mkSt c2 []).
Proof. apply (epochs_terminate (W := epoch_world) 9 2 (mkSt c2 [])). lia. Defined.

Lemma epochs_skip_key_updates_witness :
  exists s' opened, epochs (W := epoch_world) 3 2 0 [] [] (mkSt c2 []) = (s', Done (opened, [true; false])) /\
    length opened = 2%nat /\ surf_is_key_update (nth 0 opened []) = true.
Proof.
  assert (K : match snd (epochs (W := epoch_world) 3 2 0 [] [] (mkSt c2 [])) with Done (_, bs) => bs = [true; false] | _ => False end)
    by (vm_compute; reflexivity).
  destruct (epochs (W := epoch_world) 3 2 0 [] [] (mkSt c2 [])) as [s' o] eqn:E. cbn [snd] in K.
  destruct o as [[opened bs]| | | |]; [subst bs | destruct K..].
  destruct (epochs_skip_key_updates (W := epoch_world) 2 (mkSt c2 []) s' opened _ E) as (L & _ & H).
  exists s', opened. split; [reflexivity|]. split; [exact L|]. apply H; [lia | reflexivity].
Defined.
