(* ===== verification/ProverSessions.v ===== *)
(** * Sequences of operations on the prover's record side

    The operations that the handshake layer and the application call on a
    connection, in any order: the fields keep the sizes and widths of their
    types, and the captured records are those that arrived. *)

From S2P Require Import Prelude Messaging GHash Arrays CircuitWires.
From S2P Require Import ServerState ServerIO ServerHandshake ServerRecords.
From S2P Require Import Prover ProverState ProverCircuits ProverAttest ProverHandshake PostHandshake ProverRelease ProverLogic ProverTypes.
From S2P Require Import SealedRelease.

Import Session Channel Circuits Attest PostHandshake Releasing.
Local Open Scope N_scope.

(** A record that arrives is given with its body. *)
Inductive Op :=
  | CommitMaskSeed
  | DeriveGcmShares
  | SendKeyCommitment
  | OpenRecord (surf_decrypt : bool) (body : list N)
  | VerifyRecordTag (record_index : nat) (want : bool)
  | DeriveKeystream (record_index : nat)
  | AttestRecord (record_index : nat)
  | RotateTrafficKeys (is_write : bool)
  | TrueRelease (require_close_notify : bool)
  | RotateRelease (require_close_notify : bool)
  | RotateReleaseEpoch (final_epoch : bool).

Section Sessions.
Context {W : World} {F : Fuel} {B : MaskConstants.BlockCipher}.

Definition run_op (op : Op) : S unit :=
  match op with
  | CommitMaskSeed => commit_mask_seed
  | DeriveGcmShares => Circuits.derive_gcm_shares
  | SendKeyCommitment => surf_send_key_commitment
  | OpenRecord d body => bind (surf_open_record d body) (fun _ => ret tt)
  | VerifyRecordTag i want => bind (verify_record_tag i want) (fun _ => ret tt)
  | DeriveKeystream i => derive_keystream i
  | AttestRecord i => attest_record i
  | RotateTrafficKeys w => rotate_traffic_keys w
  | TrueRelease c => bind (true_surf_release c) (fun _ => ret tt)
  | RotateRelease c => bind (rotate_surf_release c) (fun _ => ret tt)
  | RotateReleaseEpoch f => bind (rotate_surf_release_epoch f) (fun _ => ret tt)
  end.

(** The caller may go on after a call that failed. *)
Definition run_ops (ops : list Op) (s : St) : St := fold_left (fun s op => fst (run_op op s)) ops s.

Definition op_ok (op : Op) : Prop := match op with OpenRecord _ body => bytes body | _ => True end.

Context {wok : WorldOk W} {bok : CipherOk B}.

Lemma keeps_then {A} (m : S A) : keeps (fun s => ssl_ok (ssl s)) m (fun _ => True) ->
  keeps (fun s => ssl_ok (ssl s)) (bind m (fun _ => ret tt)) (fun _ => True).
Proof.
  intros H s Hs. specialize (H s Hs). unfold bind. destruct (m s) as [s' []]; cbn in *; tauto.
Qed.

Lemma keeps_op op : op_ok op -> keeps (fun s => ssl_ok (ssl s)) (run_op op) (fun _ => True).
Proof.
  destruct op; cbn [run_op op_ok]; intros Hop;
    eauto using keeps_then, keeps_mask_seed, keeps_derive_gcm, keeps_commitment, keeps_open_record, keeps_verify,
      keeps_keystream, keeps_attest, keeps_rotate_keys, keeps_true_release, keeps_rotate_release, keeps_release_epoch.
Qed.

(** In every world whose replies are well typed, any sequence of the record
    side's operations, each ending in any way, leaves the fields with the sizes
    and widths of their types. *)
Theorem session_types ops c l :
  ssl_ok c -> Forall op_ok ops -> ssl_ok (ssl (run_ops ops (mkSt c l))).
Proof.
  intros Hc Hops. unfold run_ops. change c with (ssl (mkSt c l)) in Hc. generalize dependent (mkSt c l).
  induction Hops as [|op ops Hop Hops IH]; intros s Hs; [exact Hs|]. cbn [fold_left]. apply IH.
  pose proof (keeps_op op Hop s Hs) as H. destruct (run_op op s) as [s' []]; cbn [fst]; tauto.
Qed.

End Sessions.

(** ** The capture *)

Section Capture.
Context {W : World} {F : Fuel} {B : MaskConstants.BlockCipher}.




(** What is captured, the next sequence number and the mode. *)
Definition capture_view (c : SSL) := (surf_records (cap c), read_sequence (cap c), surf_mode c).

#[local] Instance capture_no_ticket : NoTicket capture_view.
Proof. now split. Qed.
#[local] Instance capture_no_keys : NoKeys capture_view.
Proof. now split. Qed.











End Capture.

(** ** A sequence of operations *)

(** One byte arrives at a time; everything succeeds. *)
Definition typed_world : World := fun l a =>
  match a return Reply a with
  | SslRead n => if n =? 0 then Closed else Got [5]
  | GenerateShares _ _ => Some (repeat 3 1088, 0)
  | a => coop_world [] l a
  end.

Lemma typed_world_ok : WorldOk typed_world.
Proof.
  assert (R : forall n v, v < 256 -> length (repeat v n) = n /\ Forall (fun b => b < 256) (repeat v n))
    by (intros; now apply arr_const).
  intros l []; cbn [reply typed_world coop_world reply_ok]; try exact I; try now apply R.
  - destruct (N.eqb_spec n 0) as [->|Hn]; [exact I|]. split; [unfold size; cbn; lia | repeat constructor].
  - split; [apply repeat_length|]. apply Forall_forall. now intros x ->%repeat_spec.
  - destruct a; cbn; try exact I. constructor.
Qed.

Lemma toy_cipher_ok : CipherOk toy_cipher.
Proof. intros k x y [= <-]. apply xor_bytes_arr. Qed.

Lemma session_types_witness :
  let ops := [DeriveGcmShares; OpenRecord false (repeat 9 20); OpenRecord false (repeat 8 17);
              VerifyRecordTag 0 false; TrueRelease false; RotateReleaseEpoch true] in
  ssl_ok (ssl (run_ops (W := typed_world) (F := 40%nat) (B := toy_cipher) ops (mkSt (zero_ssl Surf.True' true) []))).
Proof.
  apply (session_types (W := typed_world) (F := 40%nat) (B := toy_cipher) (wok := typed_world_ok) (bok := toy_cipher_ok)).
  - apply zero_ssl_ok.
  - repeat constructor.
Defined.

