(* ===== verification/ProverKeystream.v ===== *)
(** * The keystream of a record ([derive_keystream])

    With the keystream circuit run on both parties' inputs, stripping the
    masks leaves the keystream of the joint key: the counters of the two
    parties agree lane by lane, and a record opened with the result is the
    record decrypted in counter mode. *)

From S2P Require Import Prelude Block128 FieldCode Messaging BlockMap GHash Arrays Util CircuitWires CircuitRecords.
From S2P Require Import ServerState ServerIO ServerHandshake ServerRecords ServerTrace ServerVerify.
From S2P Require Import Prover ProverProofs ProverState ProverCircuits ProverAttest ProverRelease ProverLogic.
From S2P Require Import ProverTypes ProverVerify ProverOpen.

Import Session Channel Circuits Attest Wires RecordCircuits.
Local Open Scope N_scope.
Local Open Scope session_scope.

(** ** Counters *)

(** The counter block of a lane of a record of [nblocks] blocks. *)
Definition lane (iv : list N) (seq : N) (nblocks idx : nat) : list N :=
  SurfBlockMap.ctr_block iv seq
    (if (idx <? nblocks)%nat then N.of_nat idx + 2 else N.lor 0x80000000 (wrap 32 (N.of_nat idx))).

Definition lanes (iv : list N) (seq : N) (nblocks batch : nat) : list (list N) :=
  map (fun j => lane iv seq nblocks (batch * KS_BATCH_N + j)) (List.seq 0 KS_BATCH_N).

Definition blocks_in (rec : SurfRecord) : nat := ((length (ciphertext rec) + 15) / 16)%nat.

Lemma total_blocks_one rec : size (ciphertext rec) < 2 ^ 32 ->
  SurfBlockMap.total_blocks [dims_of rec] = N.of_nat (blocks_in rec).
Proof. intros H. unfold SurfBlockMap.total_blocks. cbn [fold_left]. rewrite blocks_of by exact H. reflexivity. Qed.

Section Lanes.
Variables (iv : list N) (rec : SurfRecord).
Hypothesis short : size (ciphertext rec) < 2 ^ 32.
Hypothesis some_blocks : (0 < blocks_in rec)%nat.
Let nb := blocks_in rec.

Lemma lane_ctr_one idx : lane_ctr iv [dims_of rec] nb idx = Some (lane iv (seq rec) nb idx).
Proof.
  unfold lane_ctr, lane. destruct (Nat.ltb_spec idx nb) as [H|H].
  - now rewrite resolve_one by (exact short || exact H).
  - replace (N.of_nat nb - 1) with (N.of_nat (nb - 1)) by (unfold nb; lia).
    rewrite resolve_one by (exact short || fold (blocks_in rec); unfold nb; lia). reflexivity.
Qed.

Lemma ks_lane_one idx :
  Records.ks_lane iv [dims_of rec] (N.of_nat nb) (N.of_nat idx) = Some (lane iv (seq rec) nb idx).
Proof.
  rewrite <- lane_ctr_one. unfold Records.ks_lane, lane_ctr.
  destruct (Nat.ltb_spec idx nb), (N.ltb_spec (N.of_nat idx) (N.of_nat nb)); lia || reflexivity.
Qed.

Lemma collect_map {A C} (f : A -> option C) (g : A -> C) xs :
  (forall x, f x = Some (g x)) -> Records.collect (map f xs) = Some (map g xs).
Proof. intros H. induction xs as [|x xs IH]; [reflexivity|]. cbn. now rewrite H, IH. Qed.

(** The verifier's lanes are the prover's. *)
Lemma verifier_lanes batch :
  Records.ks_batch_ctrs iv [dims_of rec] (N.of_nat nb) batch = Some (lanes iv (seq rec) nb batch).
Proof.
  unfold Records.ks_batch_ctrs, lanes.
  apply (collect_map _ (fun j => lane iv (seq rec) nb (batch * KS_BATCH_N + j))). intros j. apply ks_lane_one.
Qed.

Lemma fill_ctrs_one `{World} idxs s :
  fill_ctrs iv [dims_of rec] nb idxs s = (s, Done (map (lane iv (seq rec) nb) idxs)).
Proof.
  induction idxs as [|idx idxs IH]; [reflexivity|]. cbn [fill_ctrs map].
  rewrite lane_ctr_one. unfold from_option. unfold bind at 1, ret at 1.
  rewrite (session_bind_done _ _ _ _ _ IH). reflexivity.
Qed.

Lemma fill_ctrs_lanes `{World} batch s :
  fill_ctrs iv [dims_of rec] nb (map (fun j => (batch * KS_BATCH_N + j)%nat) (List.seq 0 KS_BATCH_N)) s =
  (s, Done (lanes iv (seq rec) nb batch)).
Proof. rewrite fill_ctrs_one. unfold lanes. now rewrite map_map. Qed.

End Lanes.

Lemma lanes_blocks iv seq nb batch : bytes iv -> blocks16 KS_BATCH_N (lanes iv seq nb batch).
Proof.
  intros Hiv. split; [reflexivity|]. apply Forall_map, Forall_forall. intros j _. now apply ctr_block_arr.
Qed.

Lemma nth_lanes iv seq nb batch j : (j < KS_BATCH_N)%nat ->
  nth j (lanes iv seq nb batch) [] = lane iv seq nb (batch * KS_BATCH_N + j).
Proof. intros Hj. unfold lanes. now rewrite nth_map_seq. Qed.

(** ** The circuit's blocks *)

Section Keystream.
Context {bf : BristolAES} {aes : list N -> list N -> list N} {Bok : BristolOk bf aes}.
Context {B : MaskConstants.BlockCipher} {SC : SameCipher B aes}.
Context {W : World} {F : Fuel}.

(** The circuit's inputs for a batch. *)
Definition ks_input (c : SSL) (ctrs : list (list N)) : KSBatchCircuitIn :=
  {| ks_key := key_share (server c); ks_ctr := ctrs; ks_s := mask_seed c; ks_r := mask_seed_key c; ks_d := repeat 0 32 |}.

(** The verifier's: its share and the commitment to the mask seed. *)
Definition ks_input_v (key d : list N) (ctrs : list (list N)) : KSBatchCircuitIn :=
  {| ks_key := key; ks_ctr := ctrs; ks_s := repeat 0 16; ks_r := repeat 0 16; ks_d := d |}.

Definition ks_revealed (c : SSL) (key d : list N) (ctrs : list (list N)) : list N :=
  exec (DeriveKeystreamBatch KS_BATCH_N) (16 * KS_BATCH_N + 1)
    (pack_ks_batch (ks_input c ctrs)) (pack_ks_batch (ks_input_v key d ctrs)).

Lemma same_counters_refl n cs : same_counters n cs cs = true.
Proof. apply forallb_forall. intros i _. apply same_refl. Qed.

Lemma ks_revealed_blocks c key ctrs :
  ssl_ok c -> arr 16 key -> blocks16 KS_BATCH_N ctrs ->
  ks_revealed c key (hirose aes (mask_seed_key c) (mask_seed c)) ctrs =
  concat (tabulate KS_BATCH_N (fun j => MaskConstants.xor_bytes
    (aes (MaskConstants.xor_bytes (key_share (server c)) key) (nth j ctrs [])) (aes (mask_seed c) (nth j ctrs [])))) ++ [255].
Proof.
  intros [_ [_ Hk _ _] Hs Hr _ _ _ _ _ _] Hkey Hc.
  unfold ks_revealed, pack_ks_batch, ks_input, ks_input_v. cbn [ks_key ks_ctr ks_s ks_r ks_d].
  rewrite keystream_batch_spec by (assumption || apply arr_repeat || apply hirose_arr).
  now rewrite same_refl, same_counters_refl.
Qed.

Lemma run_ks_batch_bits i s (out : nat -> list N) :
  (forall j, length (out j) = 16%nat) ->
  reply (log s) (Run derive_ks_batch (pack_ks_batch i)) = Some (concat (tabulate KS_BATCH_N out) ++ [255]) ->
  run_ks_batch_circuit true i s =
    (mkSt (ssl s) (Run derive_ks_batch (pack_ks_batch i) :: log s), Done (true, tabulate KS_BATCH_N out)).
Proof.
  intros Ho E. unfold run_ks_batch_circuit, run_circuit. unfold bind at 1, require at 1, ret at 1.
  unfold bind at 1 2, act. rewrite E. unfold from_option, ret at 1.
  assert (Hf : Forall (fun b => length b = 16%nat) (tabulate KS_BATCH_N out))
    by (apply Forall_tabulate; intros; apply Ho).
  assert (Eb : (concat (tabulate KS_BATCH_N out) ++ [255]).[16 * KS_BATCH_N] = 255).
  { rewrite app_nth2 by (rewrite length_concat16 by exact Hf; rewrite length_tabulate; unfold KS_BATCH_N; lia).
    rewrite length_concat16 by exact Hf. now rewrite length_tabulate, Nat.mul_comm, Nat.sub_diag. }
  rewrite Eb. change (repeated_bit 255) with true. unfold bind, require, ret. do 3 f_equal.
  unfold tabulate at 1 3. apply map_ext_in. intros j Hj%in_seq.
  fold (EncryptRequest.slice (concat (tabulate KS_BATCH_N out) ++ [255]) (j * 16)).
  rewrite slice_concat_app by (exact Hf || rewrite length_tabulate; lia). now rewrite nth_tabulate by lia.
Qed.

(** ** Stripping the masks *)

Definition with_ks (ks : list N) (c : SSL) : SSL := set_cap (set_keystream ks (cap c)) c.

Lemma ret_here s x : ssl s = x -> ret tt s = (mkSt x (log s), Done tt).
Proof. intros <-. now destruct s. Qed.

Section Fill.
Variables (c : SSL) (key : list N) (rec : SurfRecord).
Hypothesis c_ok : ssl_ok c.
Hypothesis key_ok : arr 16 key.
Hypothesis ptr_ok : ks_block_circuit (ptrs c) = true.
Hypothesis short : size (ciphertext rec) < 2 ^ 32.
Hypothesis some_blocks : (0 < blocks_in rec)%nat.
Hypothesis fits : (blocks_in rec <= MaskConstants.kNumMasks)%nat.

Let nb := blocks_in rec.
Let siv := skipn 4 (iv (server c)).
Let k := MaskConstants.xor_bytes (key_share (server c)) key.
Let ctrs b := lanes siv (seq rec) nb b.
Let masked b j := MaskConstants.xor_bytes (aes k (nth j (ctrs b) [])) (aes (mask_seed c) (nth j (ctrs b) [])).

(** The bytes of the first [n] blocks are those of the joint key's keystream. *)
Definition filled_to (n : nat) (ks : list N) : Prop :=
  length ks = keystream_size /\
  forall p, (p < 16 * Nat.min n nb)%nat -> ks.[p] = (aes k (lane siv (seq rec) nb (p / 16))).[p mod 16].

Lemma siv_bytes : bytes siv.
Proof. apply bytes_skipn, (server_ok _ c_ok). Qed.

Lemma unmasked b j t : (j < KS_BATCH_N)%nat -> (t < 16)%nat ->
  (masked b j).[t] ⊕ (aes (mask_seed c) (lane siv (seq rec) nb (b * KS_BATCH_N + j))).[t] =
  (aes k (lane siv (seq rec) nb (b * KS_BATCH_N + j))).[t].
Proof.
  intros Hj Ht. unfold masked, ctrs. rewrite nth_lanes by exact Hj.
  set (x := lane _ _ _ _). unfold MaskConstants.xor_bytes at 1. rewrite nth_tabulate by exact Ht.
  rewrite wrap_small by (apply lxor_byte; apply bytes_at, aes_block).
  now rewrite N.lxor_assoc, N.lxor_nilpotent, N.lxor_0_r.
Qed.

Lemma filled_store b j ks : (j < KS_BATCH_N)%nat -> (b * KS_BATCH_N + j < nb)%nat ->
  filled_to (b * KS_BATCH_N + j) ks ->
  filled_to (Datatypes.S (b * KS_BATCH_N + j))
    (store_block (b * KS_BATCH_N + j) (masked b j)
       (aes (mask_seed c) (lane siv (seq rec) nb (b * KS_BATCH_N + j))) ks).
Proof.
  intros Hj Hi [Hl Hks]. set (idx := (b * KS_BATCH_N + j)%nat) in *.
  assert (Hroom : (idx * 16 + 16 <= length ks)%nat) by (rewrite Hl; unfold keystream_size; fold nb in fits; lia).
  split; [unfold store_block; rewrite length_fold_left; [exact Hl | intros; apply length_upd]|].
  intros p Hp. unfold store_block. rewrite (nth_fold_upd (fun t => _) (idx * 16)) by exact Hroom.
  destruct (Nat.leb_spec (idx * 16) p) as [H1|H1]; destruct (Nat.ltb_spec p (idx * 16 + 16)) as [H2|H2]; cbn [andb];
    try lia; [|apply Hks; lia].
  assert (Hq : (p / 16 = idx)%nat) by (symmetry; apply (Nat.div_unique p 16 idx (p - idx * 16)); lia).
  rewrite Hq, (Nat.Div0.mod_eq p 16), Hq, (Nat.mul_comm 16 idx). apply unmasked; lia.
Qed.

Lemma unmask_lane_run b j s ks : (j < KS_BATCH_N)%nat -> ssl s = with_ks ks c ->
  filled_to (b * KS_BATCH_N + j) ks ->
  exists ks', unmask_lane (ctrs b) (tabulate KS_BATCH_N (masked b)) nb b j s = (mkSt (with_ks ks' c) (log s), Done tt) /\
    filled_to (Datatypes.S (b * KS_BATCH_N + j)) ks'.
Proof.
  intros Hj Es Hf. unfold unmask_lane. destruct (Nat.leb_spec nb (b * KS_BATCH_N + j)) as [H|H].
  - exists ks. split; [now apply ret_here|]. destruct Hf as [Hl Hks]. split; [exact Hl|].
    intros p Hp. apply Hks. lia.
  - unfold bind at 1, gets at 1. unfold MaskConstants.aes_ecb_block. rewrite same_cipher.
    unfold bind at 1, from_option, ret at 1. eexists. split; [|apply (filled_store b j ks Hj H Hf)].
    unfold upd_cap, modify. rewrite Es. rewrite nth_tabulate by exact Hj. unfold ctrs. rewrite nth_lanes by exact Hj.
    reflexivity.
Qed.

Lemma unmask_all b n : forall j s ks, (j + n = KS_BATCH_N)%nat -> ssl s = with_ks ks c ->
  filled_to (b * KS_BATCH_N + j) ks ->
  exists ks', for_each (List.seq j n) (unmask_lane (ctrs b) (tabulate KS_BATCH_N (masked b)) nb b) s =
    (mkSt (with_ks ks' c) (log s), Done tt) /\ filled_to (Datatypes.S b * KS_BATCH_N) ks'.
Proof.
  induction n as [|n IH]; intros j s ks Hj Es Hf; cbn [List.seq for_each].
  - exists ks. split; [now apply ret_here|].
    replace (Datatypes.S b * KS_BATCH_N)%nat with (b * KS_BATCH_N + j)%nat by lia. exact Hf.
  - destruct (unmask_lane_run b j s ks) as (ks1 & E1 & F1); [lia | exact Es | exact Hf|].
    rewrite (session_bind_done _ _ _ _ _ E1).
    destruct (IH (Datatypes.S j) (mkSt (with_ks ks1 c) (log s)) ks1) as (ks2 & E2 & F2); [lia | reflexivity | |].
    + now rewrite Nat.add_succ_r.
    + exists ks2. now split.
Qed.

(** ** The batches *)

Hypothesis preproc_ok : forall l, reply l KsPreproc = false.
Hypothesis circuit_ok : forall l b, (b < (nb + KS_BATCH_N - 1) / KS_BATCH_N)%nat ->
  reply l (Run derive_ks_batch (pack_ks_batch (ks_input c (ctrs b)))) =
  Some (ks_revealed c key (hirose aes (mask_seed_key c) (mask_seed c)) (ctrs b)).

Lemma derive_batch_run b s ks : (b < (nb + KS_BATCH_N - 1) / KS_BATCH_N)%nat -> ssl s = with_ks ks c ->
  filled_to (b * KS_BATCH_N) ks ->
  exists ks' l, derive_batch [dims_of rec] nb b s = (mkSt (with_ks ks' c) l, Done tt) /\
    filled_to (Datatypes.S b * KS_BATCH_N) ks'.
Proof.
  intros Hb Es Hf. unfold derive_batch. unfold bind at 1, act at 1. cbn [log ssl].
  assert (P : exists l1, (if reply (log s) KsRemaining =? 0 then failed <- act KsPreproc ;; require (negb failed) else ret tt)
      (mkSt (ssl s) (KsRemaining :: log s)) = (mkSt (ssl s) l1, Done tt)).
  { destruct (_ =? 0); [|eexists; reflexivity]. unfold bind, act. rewrite preproc_ok. eexists. reflexivity. }
  destruct P as [l1 P]. rewrite (session_bind_done _ _ _ _ _ P). unfold bind at 1, gets at 1. cbn [ssl]. rewrite Es.
  change (skipn 4 (iv (server (with_ks ks c)))) with siv.
  rewrite (session_bind_done _ _ _ _ _ (fill_ctrs_lanes siv rec short some_blocks b _)).
  change (ks_block_circuit (ptrs (with_ks ks c))) with (ks_block_circuit (ptrs c)). rewrite ptr_ok.
  fold (ctrs b). change {| ks_key := _; ks_ctr := _; ks_s := _; ks_r := _; ks_d := _ |} with (ks_input c (ctrs b)).
  rewrite (session_bind_done _ _ _ _ _ (run_ks_batch_bits (ks_input c (ctrs b)) _ (masked b)
    (fun j => proj1 (xor_bytes_arr _ _))
    (eq_trans (circuit_ok _ b Hb) (f_equal Some (ks_revealed_blocks c key (ctrs b) c_ok key_ok
      (lanes_blocks siv _ _ b siv_bytes)))))).
  cbn beta iota. unfold bind at 1, require, ret at 1. cbn [ssl log].
  destruct (unmask_all b KS_BATCH_N 0 (mkSt (with_ks ks c) (Run derive_ks_batch (pack_ks_batch (ks_input c (ctrs b))) :: l1)) ks)
    as (ks' & E & F'); [reflexivity | reflexivity | now rewrite Nat.add_0_r|].
  exists ks'. eexists. split; [exact E | exact F'].
Qed.

Lemma batches_run n : forall b s ks, (b + n = (nb + KS_BATCH_N - 1) / KS_BATCH_N)%nat -> ssl s = with_ks ks c ->
  filled_to (b * KS_BATCH_N) ks ->
  exists ks' l, for_each (List.seq b n) (derive_batch [dims_of rec] nb) s = (mkSt (with_ks ks' c) l, Done tt) /\
    filled_to nb ks'.
Proof.
  induction n as [|n IH]; intros b s ks Hb Es Hf; cbn [List.seq for_each].
  - exists ks, (log s). split; [now apply ret_here|]. destruct Hf as [Hl Hks]. split; [exact Hl|].
    intros p Hp. apply Hks. rewrite Nat.min_id in Hp. rewrite Nat.min_r; [exact Hp|].
    assert (b = (nb + KS_BATCH_N - 1) / KS_BATCH_N)%nat as -> by lia.
    pose proof (Nat.div_mod_eq (nb + KS_BATCH_N - 1) KS_BATCH_N).
    pose proof (Nat.mod_upper_bound (nb + KS_BATCH_N - 1) KS_BATCH_N). unfold KS_BATCH_N in *. lia.
  - destruct (derive_batch_run b s ks) as (ks1 & l1 & E1 & F1); [lia | exact Es | exact Hf|].
    rewrite (session_bind_done _ _ _ _ _ E1). apply (IH (Datatypes.S b) _ ks1); [lia | reflexivity | exact F1].
Qed.

(** The message goes out, the batches run, and the blocks in use are noted. *)
Lemma derive_keystream_run s i :
  ssl s = c -> nth i (surf_records (cap c)) (mkSurfRecord [] [] 0) = rec -> (i < length (surf_records (cap c)))%nat ->
  verifier (ptrs c) = true -> reply (log s) (SslWrite (ks_derive_message [dims_of rec])) = true ->
  exists ks l, derive_keystream i s =
      (mkSt (set_cap (set_next_mask_index nb (set_keystream ks (cap c))) c) l, Done tt) /\ filled_to nb ks.
Proof.
  intros Es Hrec Hi Hv Hw. unfold derive_keystream. unfold bind at 1, gets at 1. rewrite Es, Hv, ptr_ok.
  unfold bind at 1, require at 1, ret at 1. cbn [andb]. unfold bind at 1, gets at 1. rewrite Es.
  rewrite (proj2 (Nat.ltb_lt _ _) Hi). unfold bind at 1, require at 1, ret at 1. rewrite Hrec.
  rewrite total_blocks_one by exact short. rewrite Nat2N.id. fold nb. cbv zeta.
  replace (negb ((nb =? 0) || (MaskConstants.kNumMasks <? nb))%nat) with true
    by (symmetry; apply negb_true_iff, orb_false_iff; split; [apply Nat.eqb_neq; unfold nb; lia | now apply Nat.ltb_ge]).
  unfold bind at 1, require at 1, ret at 1. unfold ssl_write. unfold bind at 1 2, act at 1. rewrite Hw.
  unfold require at 1, ret at 1. unfold bind at 1. unfold upd_cap at 1, modify at 1. cbn [ssl log]. rewrite Es.
  set (ks0 := if (length (keystream (cap c)) =? keystream_size)%nat then keystream (cap c) else repeat 0 keystream_size).
  assert (E0 : set_cap (if (length (keystream (cap c)) =? keystream_size)%nat then cap c
                        else set_keystream (repeat 0 keystream_size) (cap c)) c = with_ks ks0 c).
  { unfold with_ks, ks0. destruct (_ =? _)%nat; [|reflexivity]. now destruct c as [? ? ? ? ? ? ? ? ? []]. }
  assert (F0 : filled_to (0 * KS_BATCH_N) ks0).
  { split; [|intros p Hp; cbn in Hp; lia]. unfold ks0.
    destruct (Nat.eqb_spec (length (keystream (cap c))) keystream_size); [assumption | apply repeat_length]. }
  rewrite E0.
  destruct (batches_run ((nb + KS_BATCH_N - 1) / KS_BATCH_N) 0
    (mkSt (with_ks ks0 c) (SslWrite (ks_derive_message [dims_of rec]) :: log s)) ks0) as (ks & l & E & Hks);
    [reflexivity | reflexivity | exact F0|].
  rewrite (session_bind_done _ _ _ _ _ E). exists ks, l. split; [reflexivity | exact Hks].
Qed.

(** The bytes of the keystream, as counter mode uses them. *)
Lemma filled_ctr ks : filled_to nb ks ->
  tabulate (length (ciphertext rec)) (fun i => (ciphertext rec).[i] ⊕ ks.[i]) =
  ctr_mode (aes k) siv (seq rec) (ciphertext rec).
Proof.
  intros [_ Hks]. unfold ctr_mode, tabulate. apply map_ext_in. intros p Hp%in_seq. f_equal.
  assert (Hb : (length (ciphertext rec) <= 16 * nb)%nat).
  { unfold nb, blocks_in. pose proof (Nat.div_mod_eq (length (ciphertext rec) + 15) 16).
    pose proof (Nat.mod_upper_bound (length (ciphertext rec) + 15) 16 ltac:(lia)). lia. }
  rewrite Hks by (rewrite Nat.min_id; lia). unfold lane. rewrite (proj2 (Nat.ltb_lt _ _)); [reflexivity|].
  apply Nat.Div0.div_lt_upper_bound. lia.
Qed.

End Fill.

(** ** A record as it arrives *)

(** The record that the next call captures. *)
Definition arriving (c : SSL) (body : list N) : SurfRecord :=
  let ct_len := (length body - kTagLen)%nat in
  mkSurfRecord (firstn ct_len body) (skipn ct_len body) (read_sequence (cap c)).

Definition captured (c : SSL) (body : list N) : SSL :=
  set_cap (set_surf_records (surf_records (cap c) ++ [arriving c body]) (cap c)) c.

Lemma captured_ok c body : ssl_ok c -> bytes body -> (16 <= length body)%nat -> ssl_ok (captured c body).
Proof.
  intros Hc Hb Hl. destruct Hc. split; try assumption. cbn. apply Forall_app. split; [assumption|].
  constructor; [|constructor]. split; [now apply bytes_firstn | | assumption].
  split; [|now apply bytes_skipn]. cbn. rewrite length_skipn. unfold kTagLen. lia.
Qed.

Lemma nth_captured c body :
  nth (length (surf_records (cap c))) (surf_records (cap (captured c body))) (mkSurfRecord [] [] 0) = arriving c body.
Proof. cbn. rewrite app_nth2, Nat.sub_diag by lia. reflexivity. Qed.

End Keystream.

Lemma next_sequence_run `{W : World} s :
  read_sequence (cap (ssl s)) + 1 < 2 ^ 64 ->
  next_sequence s =
    (mkSt (set_cap (set_read_sequence (read_sequence (cap (ssl s)) + 1) (cap (ssl s))) (ssl s)) (log s), Done tt).
Proof.
  intros H. unfold next_sequence. unfold bind at 1, gets at 1. rewrite wrap_small by exact H.
  replace (negb (read_sequence (cap (ssl s)) + 1 =? 0)) with true
    by (symmetry; apply negb_true_iff, N.eqb_neq; lia).
  reflexivity.
Qed.

(** The call around the attestation of the captured record. *)
Lemma open_masked `{W : World} `{F : Fuel} `{B : MaskConstants.BlockCipher} s body ks l' :
  let c1 := captured (ssl s) body in
  let nb := ((length body - kTagLen + 15) / 16)%nat in
  (kTagLen <= length body)%nat -> surf_true_mode (ssl s) = false ->
  attest_record (length (surf_records (cap (ssl s)))) (mkSt c1 (log s)) =
    (mkSt (set_cap (set_next_mask_index nb (set_keystream ks (cap c1))) c1) l', Done tt) ->
  (nb * 16 <= length ks)%nat -> read_sequence (cap (ssl s)) + 1 < 2 ^ 64 ->
  exists s', surf_open_record true body s =
      (s', Done (Some (tabulate (length body - kTagLen) (fun i => body.[i] ⊕ ks.[i])))) /\
    surf_records (cap (ssl s')) = surf_records (cap (ssl s)) ++ [arriving (ssl s) body] /\
    read_sequence (cap (ssl s')) = read_sequence (cap (ssl s)) + 1.
Proof.
  intros c1 nb Hl Hm Ha Hks Hseq. unfold surf_open_record.
  assert (Ec : surf_capture_ciphertext body s = (mkSt c1 (log s), Done tt)).
  { unfold surf_capture_ciphertext. rewrite (proj2 (Nat.leb_le _ _) Hl). reflexivity. }
  rewrite (session_bind_done _ _ _ _ _ Ec). unfold bind at 1, gets at 1. cbn [ssl].
  change (surf_true_mode c1) with (surf_true_mode (ssl s)). rewrite Hm.
  unfold bind at 1, gets at 1. cbn [ssl].
  replace (length (surf_records (cap c1)) - 1)%nat with (length (surf_records (cap (ssl s))))
    by (cbn; rewrite length_app; cbn; lia).
  rewrite (session_bind_done _ _ _ _ _ Ha). fold nb. cbv zeta. unfold bind at 1, gets at 1.
  cbn [ssl cap set_cap set_next_mask_index set_keystream next_mask_index keystream].
  rewrite Nat.ltb_irrefl, (proj2 (Nat.ltb_ge _ _) Hks). unfold bind at 1, require, ret at 1. cbn [negb orb].
  rewrite Nat.sub_diag. unfold bind at 1. rewrite next_sequence_run by exact Hseq. unfold ret.
  eexists. split; [reflexivity|]. split; reflexivity.
Qed.

(** C12: A record of a masked session, end to end: when the origin sealed the
    inner plaintext in counter mode under the joint key, the tag of the
    captured record verifies, and the keystream circuit runs on both parties'
    inputs against the commitment to the mask seed, [tls_open_record]'s SURF
    branch captures the record, advances the sequence number and returns that
    plaintext. *)
Theorem masked_record_opens {bf : BristolAES} {aes : list N -> list N -> list N} {Bok : BristolOk bf aes}
    {B : MaskConstants.BlockCipher} {SC : SameCipher B aes} {W : World} {F : Fuel}
    (s : St) (pt tag key : list N) (l : list Action) :
  let c := ssl s in
  let k := MaskConstants.xor_bytes (key_share (server c)) key in
  let siv := skipn 4 (iv (server c)) in
  let ct := ctr_mode (aes k) siv (read_sequence (cap c)) pt in
  let rec := mkSurfRecord ct tag (read_sequence (cap c)) in
  let nb := blocks_in rec in
  let c1 := captured c (ct ++ tag) in
  ssl_ok c -> arr 16 key -> bytes pt -> arr 16 tag -> (0 < length pt)%nat -> (nb <= MaskConstants.kNumMasks)%nat ->
  size pt < 2 ^ 32 -> read_sequence (cap c) + 1 < 2 ^ 64 ->
  surf_true_mode c = false -> verifier (ptrs c) = true -> ks_block_circuit (ptrs c) = true ->
  verify_record_tag (length (surf_records (cap c))) false (mkSt c1 (log s)) = (mkSt c1 l, Done None) ->
  reply l (SslWrite (ks_derive_message [dims_of rec])) = true ->
  (forall l, reply l KsPreproc = false) ->
  (forall l b, (b < (nb + KS_BATCH_N - 1) / KS_BATCH_N)%nat ->
     reply l (Run derive_ks_batch (pack_ks_batch (ks_input c (lanes siv (read_sequence (cap c)) nb b)))) =
     Some (ks_revealed c key (hirose aes (mask_seed_key c) (mask_seed c)) (lanes siv (read_sequence (cap c)) nb b))) ->
  exists s', surf_open_record true (ct ++ tag) s = (s', Done (Some pt)) /\
    surf_records (cap (ssl s')) = surf_records (cap c) ++ [rec] /\
    read_sequence (cap (ssl s')) = read_sequence (cap c) + 1.
Proof.
  intros c k siv ct rec nb c1 Hc Hkey Hpt Htag Hn Hfit Hs Hseq Hm Hv Hk Hver Hw Hpre Hcirc.
  assert (Lct : length ct = length pt) by apply length_tabulate.
  assert (Bct : bytes ct).
  { unfold ct, ctr_mode. apply arr_tabulate. intros i Hi.
    apply lxor_byte; apply bytes_at; [exact Hpt | apply aes_block]. }
  assert (Lb : (length (ct ++ tag) - kTagLen = length ct)%nat)
    by (rewrite length_app; destruct Htag as [-> _]; unfold kTagLen; lia).
  assert (Ear : arriving c (ct ++ tag) = rec).
  { unfold arriving. rewrite Lb, firstn_app, Nat.sub_diag, firstn_all, skipn_app, skipn_all, Nat.sub_diag.
    cbn [firstn skipn app]. now rewrite app_nil_r. }
  assert (Hc1 : ssl_ok c1).
  { apply captured_ok; [exact Hc | apply Forall_app; split; [exact Bct | apply Htag]|].
    rewrite length_app. destruct Htag as [-> _]. lia. }
  assert (Hsh : size (ciphertext rec) < 2 ^ 32) by (unfold size, rec in *; cbn [ciphertext]; now rewrite Lct).
  assert (Hsb : (0 < blocks_in rec)%nat)
    by (unfold blocks_in, rec; cbn [ciphertext]; rewrite Lct; apply Nat.div_str_pos; lia).
  destruct (derive_keystream_run c1 key rec Hc1 Hkey Hk) with (s := mkSt c1 l) (i := length (surf_records (cap c)))
    as (ks & l' & Ed & Hks); try assumption; try reflexivity.
  { unfold c1. rewrite nth_captured. exact Ear. }
  { cbn. rewrite length_app. cbn. lia. }
  assert (Eb : ((length (ct ++ tag) - kTagLen + 15) / 16 = nb)%nat) by now rewrite Lb.
  destruct (open_masked s (ct ++ tag) ks l') as (s' & E & Er & Es); try assumption.
  - rewrite length_app. destruct Htag as [-> _]. unfold kTagLen. lia.
  - fold c c1. rewrite Eb. unfold attest_record. unfold bind at 1, gets at 1. cbn [ssl].
    change (surf_true_mode c1) with (surf_true_mode c). rewrite Hm.
    rewrite (session_bind_done _ _ _ _ _ Hver). exact Ed.
  - rewrite Eb. destruct Hks as [-> _]. unfold keystream_size. lia.
  - exists s'. fold c in E, Er, Es. rewrite Ear in Er. rewrite Lb in E. split; [|now split]. rewrite E. do 3 f_equal.
    pose proof Hks as Ef. apply filled_ctr in Ef; try assumption. cbn [ciphertext rec] in Ef.
    transitivity (ctr_mode (aes k) siv (read_sequence (cap c)) ct); [|apply ctr_mode_involutive].
    etransitivity; [|exact Ef]. unfold tabulate. apply map_ext_in. intros p Hp%in_seq. now rewrite app_nth1 by lia.
Qed.

(** *** An instance: a record of three bytes *)

Module MaskedExample.
#[local] Existing Instance toy_bristol.

Definition conn : SSL := zero_ssl Surf.Masked false.
Definition key : list N := repeat 9 16.
Definition body : list N := ctr_mode (MaskConstants.xor_bytes key) (repeat 0 12) 0 [72; 105; 23] ++ repeat 1 16.
Definition ctrs : list (list N) := lanes (repeat 0 12) 0 1 0.

Definition world : World := fun _ a =>
  match a as a return Reply a with
  | SslWrite _ => true
  | SslRead n => Closed
  | RandBytes n => Some (repeat 0 n)
  | RandomBytes n => repeat 0 n
  | Run derive_ks_batch _ => Some (ks_revealed conn key (hirose MaskConstants.xor_bytes (repeat 0 16) (repeat 0 16)) ctrs)
  | Run _ _ => Some [255; 255]
  | KsRemaining => 0
  | KsPreproc => false
  | GenerateShares _ _ => None
  | CreateContext _ _ | SetWriteState _ _ | Flush | AppendHandshake _ | Throw => true
  | DeleteCircuits => tt
  | Shaking a => quiet a
  end.

Definition verification : St * Outcome (option bool) :=
  @verify_record_tag world 8%nat toy_cipher 0 false (mkSt (captured conn body) []).

End MaskedExample.
Import MaskedExample.

Lemma masked_record_opens_witness :
  exists s', @surf_open_record world 8%nat toy_cipher true body (mkSt conn []) = (s', Done (Some [72; 105; 23])) /\
    length (surf_records (cap (ssl s'))) = 1%nat /\ read_sequence (cap (ssl s')) = 1.
Proof.
  destruct (@masked_record_opens toy_bristol _ toy_bristol_ok toy_cipher toy_same_cipher world 8%nat
    (mkSt conn []) [72; 105; 23] (repeat 1 16) key (log (fst verification))) as (s' & E & R & S1).
  - apply zero_ssl_ok.
  - split; [reflexivity | repeat constructor].
  - repeat constructor.
  - split; [reflexivity | repeat constructor].
  - apply Nat.ltb_lt. reflexivity.
  - apply Nat.leb_le. vm_compute. reflexivity.
  - reflexivity.
  - reflexivity.
  - reflexivity.
  - reflexivity.
  - reflexivity.
  - vm_compute. reflexivity.
  - reflexivity.
  - reflexivity.
  - intros l b Hb. change (_ / _)%nat with 1%nat in Hb. destruct b as [|b]; [reflexivity | lia].
  - exists s'. split; [exact E | split; [now rewrite R | exact S1]].
Defined.
