(* ===== verification/RecordKeystream.v ===== *)
(** * The keystream of a record, both parties

    [derive_keystream] of the prover against [derive_keystream_blocks] of the
    verifier: the request is read as it was sent and the verifier runs the
    circuit on the prover's counters. *)

From S2P Require Import Prelude Block128 GF128 FieldCode Messaging Util KeyShare BlockMap GHash Arrays.
From S2P Require Import CircuitWires CircuitRecords.
From S2P Require Import ServerState ServerIO ServerHandshake ServerRecords ServerRun ServerLogic.
From S2P Require Import ServerSafety ServerTrace ServerVerify ServerWorld.
From S2P Require Import Prover ProverProofs ServerStream ProverState ProverCircuits ProverAttest.
From S2P Require Import ProverTypes ProverVerify ProverOpen ProverKeystream RecordVerify.

Import Server Handshake Records Run Wires RecordCircuits.
Local Open Scope N_scope.

Section Verifier.
Context `{KL : KeyLib} {W : World} {F : Fuel} {input : list N} {St : Stream W input}.

Lemma at_rest_act s0 rest s a : is_read a = false -> at_rest s0 rest s ->
  at_rest s0 rest (set_log (a :: log s) s).
Proof.
  intros Ha [Hs Hr]. split; [eapply SameAtt_trans; [exact Hs | apply SameAtt_log]|]. now rewrite pos_log_other.
Qed.

(** A call that changes nothing but the log and the counters, and reads nothing. *)
Definition quiet {A} (s0 : Server) (m : M A) (a : A) : Prop :=
  forall rest s, at_rest s0 rest s -> exists s', m s = (s', Done a) /\ at_rest s0 rest s'.

Lemma quiet_bind {A B} s0 (m : M A) (k : A -> M B) a b : quiet s0 m a -> quiet s0 (k a) b -> quiet s0 (bind m k) b.
Proof.
  intros Hm Hk rest s Hs. destruct (Hm rest s Hs) as (s1 & E & H1). rewrite (bind_done _ _ _ _ _ E). now apply Hk.
Qed.

Lemma quiet_ret {A} s0 (a : A) : quiet s0 (ret a) a.
Proof. intros rest s Hs. now exists s. Qed.

Lemma quiet_act s0 a r : is_read a = false -> (forall l, reply l a = r) -> quiet s0 (act a) r.
Proof. intros Ha Hr rest s Hs. eexists. split; [unfold act; now rewrite Hr | now apply at_rest_act]. Qed.

Lemma quiet_run s0 i o : (forall l, reply l (ARun i) = Some o) -> quiet s0 (run_circuit i) o.
Proof. intros Hr. unfold run_circuit. eapply quiet_bind; [now apply (quiet_act s0 (ARun i) (Some o)) | apply quiet_ret]. Qed.

Lemma quiet_gets {A} s0 (f : Server -> A) a :
  (forall s, SameAtt s0 s -> f s = a) -> quiet s0 (gets f) a.
Proof. intros Hf rest s Hs. exists s. split; [unfold gets; now rewrite Hf by apply Hs | exact Hs]. Qed.

Lemma quiet_for_each {A} s0 (xs : list A) body :
  (forall x, In x xs -> quiet s0 (body x) tt) -> quiet s0 (for_each xs body) tt.
Proof.
  induction xs as [|x xs IH]; intros H; [apply quiet_ret|]. cbn [for_each].
  eapply quiet_bind; [apply H; now left | apply IH; intros; apply H; now right].
Qed.

(** The counters around the batches, whatever they say. *)
Lemma counter_done s0 rest s c : has_circuit c s0 = true -> at_rest s0 rest s ->
  (exists n s', get_counter c s = (s', Done n) /\ at_rest s0 rest s') /\
  (exists n s', get_round_counter c s = (s', Done n) /\ at_rest s0 rest s').
Proof.
  intros Hc Hs. assert (Hc' : has_circuit c s = true).
  { unfold has_circuit in *. destruct Hs as [(_ & _ & _ & -> & _) _]. exact Hc. }
  unfold get_counter, get_round_counter, deref, bind, gets, act. rewrite Hc'. cbn.
  split; (eexists _, _; split; [reflexivity|]; now apply at_rest_act).
Qed.

Lemma track_circuit_done s0 rest s e c a r : has_circuit c s0 = true -> at_rest s0 rest s ->
  exists s', track_circuit e c a r s = (s', Done tt) /\ at_rest s0 rest s'.
Proof.
  intros Hc Hs. unfold track_circuit.
  destruct (counter_done s0 rest s c Hc Hs) as [(n & s1 & E1 & H1) _]. rewrite (bind_done _ _ _ _ _ E1).
  pose proof (at_rest_track s0 rest s1 e (sub64 n a) H1) as H2.
  rewrite (bind_done (track e (sub64 n a)) _ s1 (fst (track e (sub64 n a) s1)) tt eq_refl).
  destruct (counter_done s0 rest _ c Hc H2) as [_ (m & s2 & E2 & H3)]. rewrite (bind_done _ _ _ _ _ E2).
  eexists. split; [reflexivity|]. apply (at_rest_rounds s0 rest s2 e), H3.
Qed.

(** ** Batches *)

Variables (s0 : Server) (rec : Session.SurfRecord).
Hypothesis short : 1 <= size (Session.ciphertext rec) <= 16385.
Let t := traffic_key_shares (keys s0).
Let nb := blocks_in rec.

Hypothesis io_ok : forall l, reply l (AIoFailed KS_BLOCK) = false.
Hypothesis circuit_ok : forall l b, (b < (nb + KS_BATCH_N - 1) / KS_BATCH_N)%nat ->
  reply l (ARun (InKSBatch (server_key_share t) (mask_commitment (att s0)) (lanes (server_iv t) (Session.seq rec) nb b)))
  = Some true.

Lemma short32 : size (Session.ciphertext rec) < 2 ^ 32.
Proof. lia. Qed.

Lemma blocks_pos : (0 < nb)%nat.
Proof. unfold nb, blocks_in. unfold size in short. apply Nat.div_str_pos. lia. Qed.

Lemma batch_quiet b : (b < (nb + KS_BATCH_N - 1) / KS_BATCH_N)%nat ->
  quiet s0 (derive_ks_batch [Attest.dims_of rec] (N.of_nat nb) b) tt.
Proof.
  intros Hb rest s Hs. unfold derive_ks_batch. unfold bind at 1, act at 1.
  assert (P : exists s', (if reply (log s) AKsRemaining =? 0 then
      act (APreproc KS_BLOCK) ;; failed <- act (AIoFailed KS_BLOCK) ;; require (negb failed) else ret tt)
      (set_log (AKsRemaining :: log s) s) = (s', Done tt) /\ at_rest s0 rest s').
  { pose proof (at_rest_act s0 rest s AKsRemaining eq_refl Hs) as H1.
    destruct (_ =? 0); [|eexists; split; [reflexivity | exact H1]].
    unfold bind, act. rewrite io_ok. eexists. split; [reflexivity|].
    apply (at_rest_act s0 rest (set_log (APreproc KS_BLOCK :: AKsRemaining :: log s) s) (AIoFailed KS_BLOCK) eq_refl).
    apply (at_rest_act s0 rest (set_log (AKsRemaining :: log s) s) (APreproc KS_BLOCK) eq_refl), H1. }
  destruct P as (s1 & E1 & H1). rewrite (bind_done _ _ _ _ _ E1).
  enough (Q : quiet s0 (t <- gets (fun s => traffic_key_shares (keys s)) ;;
      d <- gets (fun s => mask_commitment (att s)) ;;
      match ks_batch_ctrs (server_iv t) [Attest.dims_of rec] (N.of_nat nb) b with
      | None => fail
      | Some ctr => ok <- run_circuit (InKSBatch (server_key_share t) d ctr) ;; require ok
      end) tt) by exact (Q rest s1 H1).
  eapply quiet_bind; [apply (quiet_gets s0 _ t); intros x (_ & -> & _); reflexivity|].
  eapply quiet_bind; [apply (quiet_gets s0 _ (mask_commitment (att s0))); intros x (_ & _ & -> & _); reflexivity|].
  rewrite verifier_lanes by (apply short32 || apply blocks_pos).
  eapply quiet_bind; [apply quiet_run; intros l; apply circuit_ok, Hb | apply quiet_ret].
Qed.

(** ** The request *)

Lemma read_records_one s rest :
  at_rest s0 (Attest.dims_bytes (Attest.dims_of rec) ++ rest) s -> Session.seq rec < 2 ^ 64 -> (12 <= fuel)%nat ->
  exists s', read_records 1 s = (s', Done [Attest.dims_of rec]) /\ at_rest s0 rest s'.
Proof.
  intros Hs Hseq Hf. cbn [read_records]. unfold read_record_dims.
  assert (L : length (Attest.dims_bytes (Attest.dims_of rec)) = 12%nat)
    by (unfold Attest.dims_bytes, Attest.be_bytes; now rewrite length_app, !length_be_bytes).
  destruct (stream_read_exact 12 s s0 _ rest Hs) as (s1 & H1 & E1); [unfold size; now rewrite L | lia|].
  exists s1. split; [|exact H1]. unfold bind. rewrite E1. unfold Attest.dims_bytes, Attest.be_bytes.
  rewrite firstn_app, skipn_app, firstn_all2, skipn_all2 by (rewrite length_be_bytes; lia).
  rewrite length_be_bytes. cbn [Nat.sub firstn skipn app]. rewrite app_nil_r.
  cbn [SurfBlockMap.seq SurfBlockMap.ct_len Attest.dims_of]. rewrite wrap_small by apply short32.
  rewrite u64_roundtrip, u32_roundtrip by (exact Hseq || apply short32).
  replace (negb ((size (Session.ciphertext rec) =? 0) || (SSL3_RT_MAX_PLAIN_LENGTH + 1 <? size (Session.ciphertext rec)))) with true.
  - unfold require, ret. unfold Attest.dims_of. now rewrite wrap_small by apply short32.
  - symmetry. apply negb_true_iff, orb_false_iff. unfold SSL3_RT_MAX_PLAIN_LENGTH.
    split; [apply N.eqb_neq; lia | apply N.ltb_ge; lia].
Qed.

Lemma keystream_request rest :
  MessageHeaders.KS_DERIVE :: skipn (pos (log s0)) input = Attest.ks_derive_message [Attest.dims_of rec] ++ rest ->
  has_circuit KS_BLOCK s0 = true -> In (Session.seq rec) (verified_seqs (att s0)) ->
  Session.seq rec < 2 ^ 64 -> (12 <= fuel)%nat ->
  exists s', derive_keystream_blocks s0 = (s', Done tt) /\ at_rest s0 rest s'.
Proof.
  intros Hin Hc Hv Hseq Hf. unfold derive_keystream_blocks. unfold bind at 1, gets at 1. rewrite Hc.
  unfold bind at 1, require at 1, ret at 1.
  assert (H0 : at_rest s0 (EncryptRequest.be_bytes 4 1 ++ Attest.dims_bytes (Attest.dims_of rec) ++ rest) s0).
  { split; [reflexivity|]. apply (f_equal (@tl N)) in Hin. cbn [tl] in Hin. rewrite Hin. unfold Attest.ks_derive_message.
    change (wrap 32 (size [Attest.dims_of rec])) with 1. cbn [flat_map app tl]. now rewrite app_nil_r, <- app_assoc. }
  read_next H1 H0; [reflexivity | rewrite length_be_bytes; lia|].
  rewrite (u32_roundtrip 1) by reflexivity. cbv zeta.
  replace (negb ((1 =? 0) || (N.of_nat MaskConstants.kNumMasks <? 1))) with true by reflexivity.
  unfold bind at 1, require at 1, ret at 1. change (N.to_nat 1) with 1%nat.
  destruct (read_records_one _ rest H1 Hseq Hf) as (s2 & E2 & H2). rewrite (bind_done _ _ _ _ _ E2).
  unfold bind at 1, gets at 1.
  assert (V : forallb (seq_verified (verified_seqs (att s2))) [Attest.dims_of rec] = true).
  { destruct H2 as [(_ & _ & -> & _) _]. cbn. rewrite andb_true_r. apply existsb_exists.
    exists (Session.seq rec). split; [exact Hv | apply N.eqb_refl]. }
  rewrite V. unfold bind at 1, require at 1, ret at 1. rewrite total_blocks_one by apply short32. fold nb.
  replace (N.of_nat nb =? 0) with false by (symmetry; apply N.eqb_neq; pose proof blocks_pos; lia). rewrite Nat2N.id.
  destruct (counter_done s0 rest s2 _ Hc H2) as [(n & s3 & E3 & H3) _]. rewrite (bind_done _ _ _ _ _ E3).
  destruct (counter_done s0 rest s3 _ Hc H3) as [_ (m & s4 & E4 & H4)]. rewrite (bind_done _ _ _ _ _ E4).
  destruct (quiet_for_each s0 (List.seq 0 ((nb + KS_BATCH_N - 1) / KS_BATCH_N))
    (derive_ks_batch [Attest.dims_of rec] (N.of_nat nb))) with (rest := rest) (s := s4) as (s5 & E5 & H5);
    [intros b Hb%in_seq; apply batch_quiet; lia | exact H4|].
  rewrite (bind_done _ _ _ _ _ E5). now apply track_circuit_done.
Qed.

End Verifier.

(** How the verifier's call of the wrapper reads the output. *)
Definition ks_decode (out : list N) : option bool :=
  let ok_byte := out.[16 * KS_BATCH_N] in
  if Circuits.repeated_bit ok_byte then Some (negb (ok_byte =? 0)) else None.

Lemma ks_decode_ok (out : nat -> list N) : (forall j, length (out j) = 16%nat) ->
  ks_decode (concat (tabulate KS_BATCH_N out) ++ [255]) = Some true.
Proof.
  intros Ho. assert (Hf : Forall (fun b => length b = 16%nat) (tabulate KS_BATCH_N out))
    by (apply Forall_tabulate; intros; apply Ho).
  unfold ks_decode. rewrite app_nth2 by (rewrite length_concat16 by exact Hf; rewrite length_tabulate; unfold KS_BATCH_N; lia).
  rewrite length_concat16 by exact Hf. now rewrite length_tabulate, Nat.mul_comm, Nat.sub_diag.
Qed.

(** C11: The keystream of a verified record, end to end: from paired states
    with a commitment to the mask seed the verifier reads the prover's request
    as it was sent and runs the circuit on the same counters, both calls
    succeed, the verifier's fields do not change, and the prover's buffer holds
    AES of the counter blocks from 2 on under the joint key, which neither
    party has. *)
Theorem keystream_exchange {bf : BristolAES} {aes : list N -> list N -> list N} {Bok : BristolOk bf aes}
    `{KL : KeyLib} {Wp : Session.World} {Wv : World} {F : Fuel} {B : MaskConstants.BlockCipher} {SC : SameCipher B aes}
    {input : list N} {St : Stream Wv input} (sp : Session.St) (s : Server) (i : nat) (rest : list N) :
  let c := Session.ssl sp in
  let r := record_at c i in
  let t := traffic_key_shares (keys s) in
  let nb := blocks_in r in
  let ctrs b := lanes (server_iv t) (Session.seq r) nb b in
  let out b := ks_revealed c (server_key_share t) (mask_commitment (att s)) (ctrs b) in
  ssl_ok c -> arr 16 (server_key_share t) -> skipn 4 (Session.iv (Session.server c)) = server_iv t ->
  mask_commitment (att s) = hirose aes (Session.mask_seed_key c) (Session.mask_seed c) ->
  (i < length (Session.surf_records (Session.cap c)))%nat -> 1 <= size (Session.ciphertext r) <= 16385 ->
  (nb <= MaskConstants.kNumMasks)%nat -> In (Session.seq r) (verified_seqs (att s)) ->
  Session.verifier (Session.ptrs c) = true -> Session.ks_block_circuit (Session.ptrs c) = true ->
  has_circuit KS_BLOCK s = true -> (12 <= fuel)%nat ->
  let msg := Attest.ks_derive_message [Attest.dims_of r] in
  Session.reply (Session.log sp) (Session.SslWrite msg) = true ->
  MessageHeaders.KS_DERIVE :: skipn (pos (log s)) input = msg ++ rest ->
  (forall l, Session.reply l Session.KsPreproc = false) -> (forall l, reply l (AIoFailed KS_BLOCK) = false) ->
  (forall l b, (b < (nb + KS_BATCH_N - 1) / KS_BATCH_N)%nat ->
     Session.reply l (Session.Run Session.derive_ks_batch (Circuits.pack_ks_batch (ks_input c (ctrs b)))) =
     Some (out b)) ->
  (forall l b, (b < (nb + KS_BATCH_N - 1) / KS_BATCH_N)%nat ->
     reply l (ARun (InKSBatch (server_key_share t) (mask_commitment (att s)) (ctrs b))) = ks_decode (out b)) ->
  exists ks l s',
    Attest.derive_keystream i sp = (Session.mkSt (Session.set_cap (Session.set_next_mask_index nb
        (Session.set_keystream ks (Session.cap c))) c) l, Done tt) /\
    derive_keystream_blocks s = (s', Done tt) /\
    att s' = att s /\ keys s' = keys s /\ skipn (pos (log s')) input = rest /\
    forall p, (p < length (Session.ciphertext r))%nat ->
      ks.[p] = (aes (joint_key c s)
        (SurfBlockMap.ctr_block (server_iv t) (Session.seq r) (N.of_nat (p / 16) + 2))).[p mod 16].
Proof.
  intros c r t nb ctrs out Hc Hkey Hiv Hd Hi Hs Hfit Hv Hpv Hpk Hck Hf msg Hw Hin Hpre Hio Hrun Hrunv.
  assert (Hr : record_ok r).
  { pose proof (records_ok _ Hc) as Hrs. rewrite Forall_forall in Hrs. now apply Hrs, nth_In. }
  assert (Hb : (0 < nb)%nat) by (unfold nb, blocks_in; unfold size in Hs; apply Nat.div_str_pos; lia).
  assert (Hsh : size (Session.ciphertext r) < 2 ^ 32) by lia.
  assert (Hcirc : forall l b, (b < (nb + KS_BATCH_N - 1) / KS_BATCH_N)%nat ->
    Session.reply l (Session.Run Session.derive_ks_batch (Circuits.pack_ks_batch (ks_input c
      (lanes (skipn 4 (Session.iv (Session.server c))) (Session.seq r) nb b)))) =
    Some (ks_revealed c (server_key_share t) (hirose aes (Session.mask_seed_key c) (Session.mask_seed c))
      (lanes (skipn 4 (Session.iv (Session.server c))) (Session.seq r) nb b))).
  { intros l b Hlt. rewrite Hiv, <- Hd. exact (Hrun l b Hlt). }
  destruct (derive_keystream_run c (server_key_share t) r Hc Hkey Hpk Hsh Hb Hfit Hpre Hcirc sp i eq_refl eq_refl Hi Hpv Hw)
    as (ks & l & Ep & Hks).
  assert (Hdec : forall l b, (b < (nb + KS_BATCH_N - 1) / KS_BATCH_N)%nat ->
    reply l (ARun (InKSBatch (server_key_share t) (mask_commitment (att s)) (ctrs b))) = Some true).
  { intros l' b Hlt. rewrite Hrunv by exact Hlt. unfold out. rewrite Hd.
    assert (Hl : blocks16 KS_BATCH_N (ctrs b)).
    { unfold ctrs. rewrite <- Hiv. apply lanes_blocks, bytes_skipn, (server_ok _ Hc). }
    rewrite ks_revealed_blocks by assumption. apply ks_decode_ok. intros j. apply length_tabulate. }
  destruct (keystream_request s r Hs Hio Hdec rest Hin Hck Hv (seq_ok _ Hr) Hf) as (s' & Es & (_ & K & A & _) & R).
  exists ks, l, s'. repeat (split; [assumption|]). intros p Hp. destruct Hks as [_ Hks]. rewrite Hks.
  - unfold lane. rewrite (proj2 (Nat.ltb_lt _ _)); [now rewrite Hiv|].
    apply Nat.Div0.div_lt_upper_bound. unfold blocks_in.
    pose proof (Nat.div_mod_eq (length (Session.ciphertext r) + 15) 16).
    pose proof (Nat.mod_upper_bound (length (Session.ciphertext r) + 15) 16 ltac:(lia)). lia.
  - rewrite Nat.min_id. unfold blocks_in.
    pose proof (Nat.div_mod_eq (length (Session.ciphertext r) + 15) 16).
    pose proof (Nat.mod_upper_bound (length (Session.ciphertext r) + 15) 16 ltac:(lia)). lia.
Qed.

(** *** An instance *)

Module KeystreamExample.
#[local] Existing Instance toy_bristol.

Definition rec : Session.SurfRecord := Session.mkSurfRecord [1; 2; 3] (repeat 0 16) 3.

Definition conn : Session.SSL :=
  Session.set_cap (Session.mkCapture [rec] 4 [] 0)
    (Session.set_server (Session.mkDir (repeat 0 16) (repeat 8 16) (repeat 0 4 ++ repeat 4 12) (repeat 0 (1088 * 16)))
      (zero_ssl Surf.Masked false)).

Definition commitment : list N := hirose MaskConstants.xor_bytes (repeat 0 16) (repeat 0 16).

Definition server : @Server toy_lib :=
  ready_server Surf.Masked SHUTDOWN (set_verified_seqs [3] (set_mask_commitment commitment empty_att)).

Definition ctrs : list (list N) := lanes (repeat 4 12) 3 1 0.
Definition out : list N := ks_revealed conn (repeat 3 16) commitment ctrs.
Definition request : list N := tl (Attest.ks_derive_message [Attest.dims_of rec]).

Definition prover_world : Session.World := fun l a =>
  match a as a return Session.Reply a with
  | Session.Run _ _ => Some out
  | a => RotateExample.prover_world l a
  end.

Definition verifier_world : World := fun l a =>
  match a as a return Reply a with
  | ARun i => match i as i return option (CircuitOut i) with InKSBatch _ _ _ => ks_decode out | _ => None end
  | a => stream_world (request ++ [7]) l a
  end.

#[local] Instance keystream_stream : Stream verifier_world (request ++ [7]).
Proof.
  destruct (stream_world_stream (request ++ [7])) as [p Hr Ho].
  exact (@Build_Stream verifier_world _ p Hr Ho).
Defined.

Lemma conn_ok : ssl_ok conn.
Proof.
  split; try (now left); try (now apply arr_repeat); try reflexivity.
  - apply zero_dir_ok.
  - split; try (now apply arr_repeat); split; try reflexivity; repeat constructor.
  - constructor; [|constructor]. split; [repeat constructor | now apply arr_repeat | reflexivity].
Qed.

End KeystreamExample.

Lemma keystream_exchange_witness :
  exists ks l s',
    Attest.derive_keystream (W := KeystreamExample.prover_world) (B := toy_cipher) 0
      (Session.mkSt KeystreamExample.conn []) =
      (Session.mkSt (Session.set_cap (Session.set_next_mask_index 1
        (Session.set_keystream ks (Session.cap KeystreamExample.conn))) KeystreamExample.conn) l, Done tt) /\
    @derive_keystream_blocks toy_lib KeystreamExample.verifier_world toy_fuel KeystreamExample.server = (s', Done tt) /\
    att s' = att KeystreamExample.server /\ keys s' = keys KeystreamExample.server /\
    skipn (@pos _ _ KeystreamExample.keystream_stream (log s')) (KeystreamExample.request ++ [7]) = [7] /\
    forall p, (p < 3)%nat -> ks.[p] = (MaskConstants.xor_bytes (repeat 11 16)
        (SurfBlockMap.ctr_block (repeat 4 12) 3 (N.of_nat (p / 16) + 2))).[p mod 16].
Proof.
  apply (@keystream_exchange toy_bristol _ toy_bristol_ok toy_lib KeystreamExample.prover_world
    KeystreamExample.verifier_world toy_fuel toy_cipher toy_same_cipher _ KeystreamExample.keystream_stream
    (Session.mkSt KeystreamExample.conn []) KeystreamExample.server 0 [7]).
  - exact KeystreamExample.conn_ok.
  - split; [reflexivity | repeat constructor].
  - reflexivity.
  - reflexivity.
  - apply Nat.ltb_lt. reflexivity.
  - split; discriminate.
  - apply Nat.leb_le. vm_compute. reflexivity.
  - now left.
  - reflexivity.
  - reflexivity.
  - reflexivity.
  - apply Nat.leb_le. reflexivity.
  - reflexivity.
  - reflexivity.
  - reflexivity.
  - reflexivity.
  - intros l b Hb. change (_ / _)%nat with 1%nat in Hb. destruct b as [|b]; [reflexivity | lia].
  - intros l b Hb. change (_ / _)%nat with 1%nat in Hb. destruct b as [|b]; [reflexivity | lia].
Defined.
